(* ===== verification/_CoqProject ===== *)
-Q . S2P
Prelude.v
PyFloat.v
ListLib.v
PyValue.v
PyConv.v
PySort.v
TraceRuntime.v
ReplayMetrics.v
ReplayTypes.v
ReplayRegistry.v
RegistryFacts.v
RegistrySpec.v
SelectionSpec.v
CaptureSpec.v
ChildReplay.v
ChildSpec.v
ChildGroupSpec.v
GroupSpec.v
ExampleEnv.v
RegistryInvariant.v
RegistryAccounting.v
RegistryTheorems.v
RegistryThreads.v
RegistryConcurrency.v
ChildTheorems.v
Counterfactual.v
CounterfactualTheorems.v
AdaptivePlanner.v
PlannerTheorems.v
EpisodeRuntime.v
EpisodeUnits.v
EpisodeTheorems.v
HarnessQueue.v
QueueTheorems.v
RouterState.v
RouterTheorems.v
EpisodeProbes.v
ProbeTheorems.v
MetricTheorems.v
HarnessFrontier.v
FrontierTheorems.v
HarnessCheckpoint.v
CheckpointTheorems.v
BudgetArm.v
ArmTheorems.v
ArmAccounts.v
ArmExamples.v
SpecScheduler.v
SchedulerTheorems.v
TodoContract.v
ResourcePortfolio.v
HarnessGate.v
TodoEvidence.v
BranchPlan.v
BranchFacts.v
BranchRounds.v
BranchRanking.v
BranchTheorems.v
BranchSlots.v
BranchExamples.v
TurnTransaction.v
TurnTheorems.v
FileLock.v
LockWorld.v
LockLogic.v
LockCalls.v
LockProtocol.v
LockSolo.v
LockTheorems.v
LockExamples.v
LaneFence.v
LaneTheorems.v
