(* ===== verification/Prelude.v ===== *)
(** * LoopX: Explore episodes, branch plans, replay, Turns and file locks

    LoopX runs agents in bounded Turns and keeps durable, replayable evidence
    of what they did.  This library models the parts of it that decide what is
    executed and what may be trusted: the episode engine of Explore (under
    [loopx/capabilities/explore]), which plans, queues, executes, captures,
    restores and compares experiments, the Turn transaction contract (under
    [loopx/control_plane/turn_driver]), which decides what a host's result may
    commit, and the file locks that keep processes from acting at once.

    ** The program

    A [TraceLog] is an append-only log of public events.  A
    [ReplayPointRegistry] captures the environment (through an adapter) and the
    agent (through an agent-state store) at the head of a trace, keeps the two
    opaque handles under a replay-point id, restores them, asks the adapter for
    an equivalence report, runs a suffix, and releases the handles; several
    threads may use one registry.  A child group forks several isolated
    sessions from one point and runs their suffixes serially or on a thread
    pool, between two risk assessments.  Counterfactual replay runs a changed
    suffix from the nearest trusted point and applies the fix/guard promotion
    contract to its validation outcomes.  The adaptive planner proposes where
    to capture next.

    A harness arm runs epochs until its wall-clock budget, a guard on the
    duration of epochs or the number of epochs ends it.  In an epoch, the seeds
    the adapter lists are ordered (never pruned) by a branch plan, and the
    frontier adds variants that an agent wrote into a catalog.  Work items are
    grouped into execution units (a seed and its variants share a prefix), a
    pull queue hands the units to worker threads so that units with a common
    concurrency key never overlap, and each unit prepares its prefix, executes
    its suffixes and releases its handle.  The records credit a first-seen
    ledger, are summed into execution metrics, and are folded into probes for
    the router state, whose bias steers the order of later work.  After every
    epoch the arm replaces its checkpoint, from which it can be restarted.  The
    speculative scheduler chooses how many branches or lanes to issue.

    The branch planner proposes which todos of a goal to work on at once.  A
    gate reads the goal's policy; behind it, the todos are scored and ranked,
    the scheduler gives a budget, and branches are selected in rounds, so that
    selected branches do not write to the same place, fit the free slots of
    their resource lanes and have their dependencies selected too.

    A Turn plan lists the phases of a Turn and its settlement identity; a
    receipt validation checks a host's result against it and says what may be
    written back, spent and acknowledged.

    Processes exclude each other by files.  A mutation of a target is guarded
    by a marker file, created exclusively, that names the pid and a token of
    its owner; a marker of a dead owner is reclaimed under a claim file of its
    token.  A lane (one agent on one goal) is guarded by a kernel lock whose
    file carries the record of its holder, so that a refused Turn can name it.

    ** Files

    - [Prelude]: Python strings, exceptions ([exn], [res]), the state and
      exception monad [M] with [try]/[finally], insertion-ordered dicts, and
      the weakest-precondition rules for [M].
    - [PyFloat], [PyValue], [PyConv]: binary64 floats; JSON-like dynamic
      values; their conversions, and loops that may raise.
    - [ListLib], [PySort]: lemmas on lists; [sorted] and orders.
    - [TraceRuntime]: [trace_runtime.py].
    - [ReplayMetrics]: the ledger of [replay_metrics.py].
    - [ReplayTypes]: enums, protocol detection, dataclasses and the equivalence
      contract of [replay_runtime.py].
    - [ReplayRegistry]: class [ReplayPointRegistry] of [replay_runtime.py].
      [rstate] holds the dict [_entries], the ledger, and the history of calls.
    - [RegistryThreads]: [run_from] and [release] of the same class as threads;
      a [config] holds the registry, the owner of each replay lock, and the
      remaining program of each thread.
    - [ChildReplay]: [child_replay_runtime.py]; [gstate] holds the sessions,
      the position of each thread and the group's two events.
    - [Counterfactual]: [counterfactual_runtime.py] and
      [summarize_counterfactual_results] of [replay_metrics.py].
    - [AdaptivePlanner]: [adaptive_replay_planner.py].
    - [EpisodeRuntime]: [episode_runtime.py], the execution units and their
      execution.
    - [EpisodeProbes]: [episode_runtime.py], the execution metrics and router
      probes of the records, and how [observe_epoch] reads a probe.
    - [HarnessQueue]: [run_queue_epoch] and its helpers in
      [harness_runtime.py]; a [queue] holds the pending items, the keys in
      flight and the phase of every worker.
    - [RouterState]: [router_state.py] and [NoveltyLedger] of
      [harness_runtime.py].
    - [HarnessFrontier]: [VariantCatalog], [select_frontier_work] and the two
      planners of [harness_runtime.py]; a [catalog] holds the consumed specs,
      the consumption file and the calls of the adapter.
    - [HarnessCheckpoint]: [harness_checkpoint.py], the runtime signature, and
      the restoring of an arm.
    - [BudgetArm]: [run_budget_arm], [emit_frontier_requests], [step_auc] and
      [aggregate_arms] of [harness_runtime.py]; an [arm_run] holds the locals of
      the loop and the files it writes, an [epoch_env] what an epoch meets
      outside.
    - [SpecScheduler]: [speculative_scheduler.py].
    - [TodoContract]: the normalizers of [todos/contract.py] and the parts of
      [todo_semantics.py], [monitor_todo.py] and [task_lease.py] that the planner
      reads; [planner_env] holds what it meets outside.
    - [ResourcePortfolio], [TodoEvidence]: [resource_portfolio.py] and
      [todo_evidence.py]; [HarnessGate]: [harness_gate.py] and the policy of
      [orchestration.py].
    - [BranchPlan]: [todo_branch_plan.py]; a [selection] holds the state of a
      round, [select_rounds] is the loop of the rounds.
    - [BranchFacts], [BranchRounds], [BranchRanking]: the invariants of a round,
      of the loop and of the candidates.
    - [TurnTransaction]: [transaction.py], [turn_identity.py], the result kinds
      of [turn_contract_generated.py], and the settlement identity and plan of
      [effect_program.py].
    - [FileLock]: the mutation lock of [file_lock.py], as programs of
      file-system calls.
    - [LockWorld]: what a call does to the shared directory, and runs of many
      threads; [LockLogic], [LockCalls]: a rely-guarantee logic for them;
      [LockProtocol]: the functions of [FileLock] in it; [LockSolo]: their
      outcome in a thread that runs alone.
    - [LaneFence]: holder records and the single-flight kernel lock of
      [file_lock.py], and [lane_fence.py]; a [fence] holds the text of the lock
      file, the owner of the kernel lock and the position of every process.
    - [RegistryFacts]: a symbolic executor for registry code (the relation
      [delta] and the tactic [sym]).
    - [RegistrySpec], [SelectionSpec], [CaptureSpec], [ChildSpec],
      [ChildGroupSpec], [GroupSpec]: what each operation may do, as outcome
      relations over entries, counters and calls, with the proofs that the code
      refines them.
    - [RegistryInvariant], [RegistryAccounting]: reachable registries, their
      invariant, and accounts of bindings and counters over whole histories.
    - [ExampleEnv]: concrete collaborators for the examples.
    - [RegistryTheorems], [RegistryConcurrency], [ChildTheorems],
      [CounterfactualTheorems], [PlannerTheorems], [EpisodeUnits],
      [EpisodeTheorems], [QueueTheorems], [RouterTheorems], [ProbeTheorems],
      [MetricTheorems], [FrontierTheorems], [CheckpointTheorems],
      [ArmTheorems], [ArmAccounts], [SchedulerTheorems], [TurnTheorems],
      [BranchTheorems], [BranchSlots],
      [LockTheorems], [LaneTheorems]: the properties, with an example of each;
      those of the trace are in [TraceRuntime], the examples of the probes and
      arms in [ArmExamples], those of the planner in [BranchExamples], those of
      the locks in [LockExamples].

    ** What the theorems show

    - Traces: appends keep the log addressable; a payload is accepted exactly
      when it is public-safe, and freezing it loses nothing.
    - Registry: a suffix runs only behind a restore, a passed equivalence
      contract and a restored agent; captures either register a point or give
      back what they acquired; every binding an adapter hands out is released,
      held or counted as orphaned, exactly once; releases settle a point, are
      idempotent and can be retried to completion; a failed finalization
      quarantines its point; selection returns the nearest trusted point; the
      reported counters balance.
    - Registry under threads, for every interleaving: no binding of a point is
      released twice, none is used after its release, all threads end, the
      registry stays well formed, and a thread that runs alone is the
      sequential operation.
    - Child groups, for every schedule of the pool: each forked state is
      released exactly once, suffixes run behind their gates, a point is
      quarantined exactly when a clean-up failed or an outcome was denied, and
      results answer their tasks in order.
    - Counterfactual replay: what each decision means, when an evaluation
      succeeds, and that promotions are backed by a validated replay.
    - Planner: plans are sound, ranked and complete, and succeed exactly on
      valid input.
    - Episodes: every item is scheduled exactly once, in one well-formed group
      or one invalid unit; a prepared handle is released exactly once on every
      path; under the recording policy an execution always returns, one record
      per suffix; under the fatal policy the first error is the one raised.
    - Queue, for every interleaving of the workers: items in flight share no
      key, every item is executed exactly once, fair schedules drain the queue,
      and an epoch returns the settled records of every item (or, under the
      fatal policy, an error of one of them); composed with the grouping,
      groups that share a key never overlap.
    - Router and ledger: every key is credited once, run counts add up, the
      bias stays within its clamp and never reaches a value estimate.
    - Probes and metrics: every record is in exactly one probe; a group's probe
      has each of its keys once, the largest weight of each flag and an
      acceptance weighted by its attempts; the execution metrics in closed form.
    - Frontier: the planner permutes the seeds; a spec is consumed exactly when
      it was compiled, at most once, and never invented.
    - Checkpoints: the file is replaced atomically whichever operation fails; a
      checkpoint that loads has a numbered history of the same configuration;
      what an arm writes restores it.
    - Arms: an epoch begins only within the budget and the guard, and the
      reported reason to stop is the one that holds; under the recording policy
      and a fair schedule an epoch executes its seeds and selected variants
      exactly once; ledger, coverage and variant count are those of the records
      in the history; from the first complete epoch on, the checkpoint restarts
      the arm where it stopped, whatever happened.
    - Scheduler: the serial schedule is the first best width and its rows are
      the metrics of each prefix; lanes beyond the peak clear the value floor;
      the dependency check keeps exactly the branches whose dependencies hold.
    - Branch plans: a plan is returned for every valid request, whatever the
      todos; its branches are open, not owned by others, separate in what they
      write, closed under dependencies and within the width, the budget and the
      free slots; every todo is selected or refused once, for a reason that
      holds; commands leave the planner only when the goal allows it.
    - Turns: exactly which receipts are accepted, the commit order, where a
      failed Turn resumes, and that built plans accept coherent answers.
    - Mutation lock, for every interleaving, crash and failing call: at most one
      live thread is inside, and only its own thread or a reclaimer of an ended
      one removes a marker, as long as reads succeed, nobody pauses for two
      seconds between calls, no claim outlives its thread and identities are
      not reused; each of the four assumptions is needed.  A thread alone gets
      a free or abandoned lock and leaves no trace; a marker with a live owner
      is left alone.
    - Lanes: at most one process executes a Turn of a lane, a killed one frees
      it, a running one is never reported released, dead or absent, and a
      refused Turn has no effects.
    - Some theorems describe behaviour that looks unintended: the leak of an
      agent state when a capture returns an object of another class, the
      silent collapse of padded validation keys, the lineage that names the
      replan obligation ["None"], the exceptions that escape the receipt
      validation and the loading of a checkpoint, the markers that cannot be
      recovered, the races that let two threads in, the name space that
      observation keys share with flags, the order of specs with equal
      priority, and the order of todos that the planning agent owns.

    ** Conventions

    Arguments have the types the code annotates.  Objects the code does not own
    (adapter, store, factories, clock, suffix callbacks) are the fields of the
    records [Env] and [EpisodeEnv]: functions of the whole history of earlier
    calls, so they may keep any state of their own.  Where the code checks the
    class of a callback's result, the callback may return an object of another
    class ([None]); an object of the expected class was built by its
    constructor, so it went through its checks ([built]).  Exceptions are the
    subclasses of [Exception]; they carry a class, a message, an identity, a
    cause and a risk assessment.  Opaque handles are integers that stand for
    object identity.  Dicts are association lists in insertion order, because
    iteration order is visible.  The text of values that are not [str], the
    builtin [sum] of floats, powers and logarithms, the SHA-256 digest of
    canonical JSON, the random token and the replies of the TypeScript effect
    runtime are parameters.

    In [ReplayRegistry] each operation is modelled as one thread executes it:
    callbacks do not re-enter the registry or change the trace.
    [RegistryThreads] lets [run_from] and [release] interleave between any two
    lock sections or calls; a thread takes at most thirteen steps, so thirteen
    fair rounds per thread end all of them.  Inside a child group a step of a
    session ends at each call to a collaborator, and the schedule is an
    arbitrary list of thread numbers, filtered by the pool's
    first-in-first-out start and its number of workers; when the list ends,
    the threads finish one after the other.  A session takes at most seven
    steps, so [max_steps = 7] completes every thread; the group theorems prove
    that all threads have finished.  A schedule of the queue is a list of turns
    of its workers; a turn is a lock section or a call of [execute]; a fair
    round gives every worker a turn, and [2 * (3 * items + workers)] rounds
    drain the queue.  The loop of an arm has as many steps as [range] gives it;
    it returns [None] only when the schedule of an epoch ends while a worker
    still runs.  The rounds of the branch planner are bounded by one more than
    the number of candidates; since a round drops at least one id, they are
    never used up.

    A thread of the mutation lock may be interrupted between any two calls; the
    records fit one write, so a file is empty or complete; times are
    nanoseconds; a live pid is never taken for a dead one, a dead one may be
    taken for a live one; the rounds of its waiting loop are bounded by any
    number, and a thread that has used them stops waiting.  Locks are modelled
    for POSIX hosts.

    ** Not modelled

    Captures and child groups that overlap other operations on one registry,
    exceptions outside [Exception], code points above 255, and the parts of the
    repository outside the files above: the worker branch planner (a parameter of
    the arm), the patterns that class a todo by its text, failures of the harness's files other than the checkpoint, hosts and
    executors of Turns, the TypeScript effect runtime, the other capabilities,
    the command line, servers and installers.

    ** Plan

    What would come next: the worker planner [worker_branch_plan.py], whose
    plans the arm orders its queue by, and the Turn executor around the
    transaction contract. *)

From stdpp Require Import base strings list sets pretty.
From Stdlib Require Import ZArith Lia.

Open Scope string_scope.

(** * Python strings

    A [string] stands for a Python [str] whose code points are below 256: the
    character with number [n] is the code point [n].  White space, case
    folding and [repr] are the Unicode ones restricted to that range. *)

Definition code (c : Ascii.ascii) : N := Ascii.N_of_ascii c.

(** [str.isspace] on one code point: TAB..CR, FS..US, SPACE, NEL and NBSP. *)
Definition is_space (c : Ascii.ascii) : bool :=
  let n := code c in
  ((9 <=? n) && (n <=? 13) || (28 <=? n) && (n <=? 32)
   || (n =? 133) || (n =? 160))%N.

Fixpoint py_lstrip (s : string) : string :=
  match s with
  | EmptyString => ""
  | String c s' => if is_space c then py_lstrip s' else s
  end.

Fixpoint py_rstrip (s : string) : string :=
  match s with
  | EmptyString => ""
  | String c s' =>
      match py_rstrip s' with
      | EmptyString => if is_space c then "" else String c ""
      | t => String c t
      end
  end.

(** [str.strip()]. *)
Definition py_strip (s : string) : string := py_rstrip (py_lstrip s).

(** [str.lower()] on one code point. *)
Definition lower_char (c : Ascii.ascii) : Ascii.ascii :=
  let n := code c in
  if ((65 <=? n) && (n <=? 90) || (192 <=? n) && (n <=? 222) && negb (n =? 215))%N
  then Ascii.ascii_of_N (n + 32) else c.

Fixpoint py_lower (s : string) : string :=
  match s with
  | EmptyString => ""
  | String c s' => String (lower_char c) (py_lower s')
  end.

(** [s.startswith(p)]. *)
Fixpoint startswith (p s : string) : bool :=
  match p, s with
  | EmptyString, _ => true
  | String a p', String b s' => bool_decide (a = b) && startswith p' s'
  | String _ _, EmptyString => false
  end.

Definition is_empty (s : string) : bool :=
  match s with EmptyString => true | _ => false end.

Definition hex_digit (n : N) : Ascii.ascii :=
  Ascii.ascii_of_N (if (n <? 10)%N then n + 48 else n + 87)%N.

(** [str.isprintable] on one code point. *)
Definition is_printable (c : Ascii.ascii) : bool :=
  let n := code c in
  ((32 <=? n) && (n <=? 126) || (161 <=? n) && negb (n =? 173))%N.

Definition repr_char (quote c : Ascii.ascii) : string :=
  let n := code c in
  if bool_decide (c = quote) || (n =? 92)%N then String (Ascii.ascii_of_N 92) (String c "")
  else if (n =? 9)%N then "\t" else if (n =? 10)%N then "\n"
  else if (n =? 13)%N then "\r"
  else if is_printable c then String c ""
  else "\x" ++ String (hex_digit (n / 16)) (String (hex_digit (n mod 16)) "").

Fixpoint repr_body (quote : Ascii.ascii) (s : string) : string :=
  match s with
  | EmptyString => ""
  | String c s' => repr_char quote c ++ repr_body quote s'
  end.

Fixpoint contains_char (a : Ascii.ascii) (s : string) : bool :=
  match s with
  | EmptyString => false
  | String c s' => bool_decide (c = a) || contains_char a s'
  end.

(** Classes of characters: a range, letters and digits, the characters of a text. *)
Definition char_in (lo hi : N) (c : Ascii.ascii) : bool := ((lo <=? code c) && (code c <=? hi))%N.
Definition lower_letter : Ascii.ascii → bool := char_in 97 122.
Definition digit : Ascii.ascii → bool := char_in 48 57.
Definition alphanumeric (c : Ascii.ascii) : bool := char_in 65 90 c || lower_letter c || digit c.
Definition one_of (s : string) (c : Ascii.ascii) : bool := contains_char c s.

Fixpoint all_chars (p : Ascii.ascii → bool) (s : string) : bool :=
  match s with EmptyString => true | String c s' => p c && all_chars p s' end.

Definition single_quote : Ascii.ascii := Ascii.ascii_of_N 39.
Definition double_quote : Ascii.ascii := Ascii.ascii_of_N 34.

(** [repr(s)] of a [str]: single quotes unless the text holds a single quote
    and no double quote. *)
Definition py_repr (s : string) : string :=
  let q := if contains_char single_quote s && negb (contains_char double_quote s)
           then double_quote else single_quote in
  String q "" ++ repr_body q s ++ String q "".

(** [repr] of a value of type [str | None]. *)
Definition py_repr_opt (o : option string) : string :=
  match o with None => "None" | Some s => py_repr s end.

(** [str(n)] of an [int]. *)
Definition py_int (n : Z) : string := pretty n.

Fixpoint join (sep : string) (l : list string) : string :=
  match l with
  | [] => ""
  | [s] => s
  | s :: l' => s ++ sep ++ join sep l'
  end.

(** [s.split()]: the words of a text; [word] is the one being read. *)
Fixpoint split_words (word s : string) : list string :=
  let done := match word with EmptyString => [] | _ => [word] end in
  match s with
  | EmptyString => done
  | String c s' =>
      if is_space c then (done ++ split_words "" s')%list else split_words (word ++ String c "") s'
  end.

Definition py_split (s : string) : list string := split_words "" s.

(** [s.replace(a, b)] of one character. *)
Fixpoint replace_char (a b : Ascii.ascii) (s : string) : string :=
  match s with
  | EmptyString => ""
  | String c s' => String (if bool_decide (c = a) then b else c) (replace_char a b s')
  end.

(** [s.strip(c)] of one character. *)
Fixpoint lstrip_char (a : Ascii.ascii) (s : string) : string :=
  match s with
  | EmptyString => ""
  | String c s' => if bool_decide (c = a) then lstrip_char a s' else s
  end.

Fixpoint rstrip_char (a : Ascii.ascii) (s : string) : string :=
  match s with
  | EmptyString => ""
  | String c s' =>
      match rstrip_char a s' with
      | EmptyString => if bool_decide (c = a) then "" else String c ""
      | t => String c t
      end
  end.

Definition strip_char (a : Ascii.ascii) (s : string) : string := rstrip_char a (lstrip_char a s).

(** [text or None]. *)
Definition text_or_none (s : string) : option string := if is_empty s then None else Some s.

Fixpoint zeros (n : nat) : string := match n with O => "" | S n' => "0" ++ zeros n' end.

(** [f"{n:0<w>d}"] of a non-negative number. *)
Definition zero_pad (w : nat) (n : Z) : string :=
  let s := py_int n in zeros (w - String.length s) ++ s.

(** [list(dict.fromkeys(l))]: the first occurrences, in order. *)
Definition uniq (l : list string) : list string :=
  fold_left (λ acc x, if bool_decide (x ∈ acc) then acc else acc ++ [x])%list l [].

(** * Exceptions

    [ReplayRiskRejectedError] (replay_runtime.py) carries the assessment that
    rejected a child, so the two types of that assessment are declared with
    the exceptions. *)

Inductive ReplayRiskDisposition := ALLOW | DENY.

Record ReplayRiskAssessment := {
  disposition : ReplayRiskDisposition;
  policy_id : string;
  risk_sanitized_reason : option string
}.

(** A Python exception object: its class, its message, the identity of the
    object when a callback raised it ([None]: raised by the modelled code),
    the attributes [stage] and [assessment] of a [ReplayRiskRejectedError],
    and [__cause__]. *)
Inductive exn := Exn {
  exn_class : string;
  exn_msg : string;
  exn_ref : option Z;
  exn_risk : option (string * ReplayRiskAssessment);
  exn_cause : option exn
}.

Definition mk_exn (cls msg : string) : exn := Exn cls msg None None None.
Definition ValueError := mk_exn "ValueError".
Definition TypeError := mk_exn "TypeError".
Definition KeyError := mk_exn "KeyError".
Definition RuntimeError := mk_exn "RuntimeError".
Definition LookupError := mk_exn "LookupError".

(** [raise e from c]. *)
Definition raise_from (e c : exn) : exn :=
  Exn (exn_class e) (exn_msg e) (exn_ref e) (exn_risk e) (Some c).

(** [e1 is e2] for two exception objects: only objects raised by callbacks can
    be met twice. *)
Definition exn_is (e1 e2 : exn) : bool :=
  match exn_ref e1, exn_ref e2 with
  | Some a, Some b => (a =? b)%Z
  | _, _ => false
  end.

(** * Results and the state-and-exception monad *)

Inductive res (A : Type) := Ok (a : A) | Err (e : exn).
Arguments Ok {A} a.
Arguments Err {A} e.

Definition is_ok {A} (r : res A) : bool := match r with Ok _ => true | Err _ => false end.

#[export] Instance res_ret : MRet res := λ A a, Ok a.
#[export] Instance res_bind : MBind res := λ A B f m,
  match m with Ok a => f a | Err e => Err e end.

Definition is_some {A} (o : option A) : bool := match o with Some _ => true | None => false end.

(** A guard: [if not b: raise e]. *)
Definition require (b : bool) (e : exn) : res unit := if b then Ok tt else Err e.

(** State is kept when an exception is raised, as in Python. *)
Definition M (S A : Type) : Type := S → res A * S.

#[export] Instance M_ret {S} : MRet (M S) := λ A a s, (Ok a, s).
#[export] Instance M_bind {S} : MBind (M S) := λ A B f m s,
  match m s with
  | (Ok a, s') => f a s'
  | (Err e, s') => (Err e, s')
  end.

Definition raise {S A} (e : exn) : M S A := λ s, (Err e, s).
Definition lift {S A} (r : res A) : M S A := λ s, (r, s).
Definition gets {S A} (f : S → A) : M S A := λ s, (Ok (f s), s).
Definition modify {S} (f : S → S) : M S unit := λ s, (Ok tt, f s).
Definition ensure {S} (b : bool) (e : exn) : M S unit := lift (require b e).

(** [try: m except Exception as e: h e]. *)
Definition try_except {S A} (m : M S A) (h : exn → M S A) : M S A := λ s,
  match m s with
  | (Ok a, s') => (Ok a, s')
  | (Err e, s') => h e s'
  end.

(** [try: m finally: f]: an exception of [f] replaces the outcome of [m]. *)
Definition try_finally {S A} (m : M S A) (f : M S unit) : M S A := λ s,
  let '(r, s') := m s in
  match f s' with
  | (Ok _, s'') => (r, s'')
  | (Err e, s'') => (Err e, s'')
  end.

(** The outcome of [m] as a value: [x = try m], used where the source stores
    the caught exception in a local variable. *)
Definition attempt {S A} (m : M S A) : M S (res A) := λ s,
  let '(r, s') := m s in (Ok r, s').

Fixpoint mmap {S A B} (f : A → M S B) (l : list A) : M S (list B) :=
  match l with
  | [] => mret []
  | a :: l' => b ← f a; bs ← mmap f l'; mret (b :: bs)
  end.

(** * Insertion-ordered dictionaries with [str] keys *)

Fixpoint dict_get {V} (k : string) (d : list (string * V)) : option V :=
  match d with
  | [] => None
  | (k', v) :: d' => if decide (k = k') then Some v else dict_get k d'
  end.

(** [d[k] = v]: an existing key keeps its position. *)
Fixpoint dict_set {V} (k : string) (v : V) (d : list (string * V)) : list (string * V) :=
  match d with
  | [] => [(k, v)]
  | (k', v') :: d' => if decide (k = k') then (k', v) :: d' else (k', v') :: dict_set k v d'
  end.

Definition dict_has {V} (k : string) (d : list (string * V)) : bool :=
  match dict_get k d with Some _ => true | None => false end.

Definition dict_keys {V} (d : list (string * V)) : list string := d.*1.

(** [max(l, key=f)] of a non-empty list: the first element with the largest
    key. *)
Fixpoint max_by {A} (f : A → Z) (best : A) (l : list A) : A :=
  match l with
  | [] => best
  | x :: l' => if (f best <? f x)%Z then max_by f x l' else max_by f best l'
  end.

(** * Lemmas *)

Create HintDb loopx.

Lemma py_lstrip_head s c s' : py_lstrip s = String c s' → is_space c = false.
Proof.
  induction s as [|a s IH]; simpl; [done|].
  destruct (is_space a) eqn:E; [exact IH|]. by intros [= <- _].
Qed.

Lemma py_rstrip_head s c s' :
  py_rstrip s = String c s' → ∃ s'', s = String c s''.
Proof.
  destruct s as [|a s]; simpl; [done|].
  destruct (py_rstrip s).
  - destruct (is_space a); [done|]. intros [= <- _]. eauto.
  - intros [= <- _]. eauto.
Qed.

Lemma py_rstrip_idem s : py_rstrip (py_rstrip s) = py_rstrip s.
Proof.
  induction s as [|a s IH]; simpl; [done|].
  destruct (py_rstrip s) eqn:E.
  - destruct (is_space a) eqn:Ea; simpl; [done|]. by rewrite Ea.
  - change (py_rstrip (String a (String a0 s0)))
      with (match py_rstrip (String a0 s0) with
            | EmptyString => if is_space a then "" else String a ""
            | t => String a t end).
    by rewrite IH.
Qed.

(** [strip] is idempotent. *)
Lemma py_strip_idem s : py_strip (py_strip s) = py_strip s.
Proof.
  unfold py_strip. destruct (py_rstrip (py_lstrip s)) as [|c t] eqn:E; [done|].
  destruct (py_rstrip_head _ _ _ E) as [s'' Hs].
  pose proof (py_lstrip_head _ _ _ Hs) as Hc.
  simpl py_lstrip. rewrite Hc, <- E. apply py_rstrip_idem.
Qed.

Lemma pretty_N_head x s :
  (0 < x)%N → ∃ c s', pretty_N_go x s = String c s' ∧ c ≠ Ascii.ascii_of_N 48.
Proof.
  revert s. induction (N.lt_wf_0 x) as [x _ IH]; intros s Hx.
  rewrite pretty_N_go_step by done. destruct (decide (x < 10)%N) as [Hs|Hs].
  - rewrite N.div_small, N.mod_small, pretty_N_go_0 by done. eexists _, _. split; [done|].
    intros E. assert (x = 0)%N; [|lia]. by apply pretty_N_char_inj; [|lia|].
  - apply IH; [apply N.div_lt; lia|]. apply N.div_str_pos. lia.
Qed.

Lemma zeros_inj a b c c' s s' :
  c ≠ Ascii.ascii_of_N 48 → c' ≠ Ascii.ascii_of_N 48 →
  zeros a ++ String c s = zeros b ++ String c' s' → String c s = String c' s'.
Proof.
  intros Hc Hc'. revert b. induction a as [|a IH]; intros [|b] E; simpl in *.
  - done.
  - injection E as E _. by destruct Hc.
  - injection E as E _. by destruct Hc'.
  - injection E as E. eauto.
Qed.

Lemma zero_pad_inj w n m : (0 < n)%Z → (0 < m)%Z → zero_pad w n = zero_pad w m → n = m.
Proof.
  intros Hn Hm. unfold zero_pad, py_int. intros E. apply (inj (pretty (A:=Z))).
  assert (∀ k, (0 < k)%Z → ∃ c s, pretty k = String c s ∧ c ≠ Ascii.ascii_of_N 48) as Hh.
  { intros [|k|k] Hk; try lia. unfold pretty, pretty_Z, pretty, pretty_positive, pretty, pretty_N.
    rewrite decide_False by lia. apply pretty_N_head. lia. }
  destruct (Hh n Hn) as (c & s & En & ?), (Hh m Hm) as (c' & s' & Em & ?).
  rewrite En, Em in E |- *. by eapply zeros_inj.
Qed.

Lemma uniq_app_spec (l acc : list string) :
  NoDup acc →
  let r := fold_left (λ acc x, if bool_decide (x ∈ acc) then acc else acc ++ [x])%list l acc in
  NoDup r ∧ ∀ x, x ∈ r ↔ x ∈ acc ∨ x ∈ l.
Proof.
  revert acc. induction l as [|y l IH]; intros acc Hacc; simpl; [set_solver|].
  case_bool_decide as Hy.
  - destruct (IH acc Hacc) as [? Hr]. split; [done|]. intros x. rewrite Hr. set_solver.
  - destruct (IH (acc ++ [y])%list) as [? Hr].
    { apply NoDup_app. split_and!; [done|set_solver|apply NoDup_singleton]. }
    split; [done|]. intros x. rewrite Hr. set_solver.
Qed.

Lemma uniq_NoDup l : NoDup (uniq l).
Proof. apply uniq_app_spec, NoDup_nil_2. Qed.

Lemma elem_of_uniq l x : x ∈ uniq l ↔ x ∈ l.
Proof. destruct (uniq_app_spec l [] (NoDup_nil_2)) as [_ H]. rewrite (H x). set_solver. Qed.

Lemma uniq_snoc l x :
  uniq (l ++ [x]) = if bool_decide (x ∈ uniq l) then uniq l else (uniq l ++ [x])%list.
Proof. unfold uniq. by rewrite fold_left_app. Qed.

Lemma uniq_id_acc (l acc : list string) :
  NoDup (acc ++ l)%list →
  fold_left (λ acc x, if bool_decide (x ∈ acc) then acc else acc ++ [x])%list l acc = (acc ++ l)%list.
Proof.
  revert acc. induction l as [|y l IH]; intros acc Hnd; simpl; [by rewrite app_nil_r|].
  rewrite bool_decide_false.
  - rewrite IH; rewrite <- (assoc_L (++)%list); done.
  - apply NoDup_app in Hnd as (_ & Hd & _). intros Hy. apply (Hd y Hy). set_solver.
Qed.

Lemma uniq_id l : NoDup l → uniq l = l.
Proof. intros. by apply (uniq_id_acc l []). Qed.

Lemma is_empty_spec s : is_empty s = true ↔ s = "".
Proof. destruct s; simpl; naive_solver. Qed.

Lemma is_empty_false s : is_empty s = false ↔ s ≠ "".
Proof. destruct s; simpl; naive_solver. Qed.

Section dict.
Context {V : Type}.
Implicit Types (d : list (string * V)) (k : string) (v : V).

Lemma dict_get_set_eq k v d : dict_get k (dict_set k v d) = Some v.
Proof.
  induction d as [|[k' v'] d IH]; simpl; [by rewrite decide_True|].
  case_decide; simpl; [by rewrite decide_True|by rewrite decide_False].
Qed.

Lemma dict_get_set_ne k k' v d : k ≠ k' → dict_get k (dict_set k' v d) = dict_get k d.
Proof.
  intros Hne. induction d as [|[k1 v1] d IH]; simpl; [by rewrite decide_False|].
  repeat case_decide; simpl; subst; repeat case_decide; congruence.
Qed.

Lemma dict_get_None k d : dict_get k d = None ↔ k ∉ dict_keys d.
Proof.
  induction d as [|[k' v'] d IH]; simpl; [set_solver|].
  case_decide; set_solver.
Qed.

Lemma dict_get_Some_in k v d : dict_get k d = Some v → (k, v) ∈ d.
Proof.
  induction d as [|[k' v'] d IH]; simpl; [done|].
  case_decide; [intros [= ->]; subst; left|intros ?; right; auto].
Qed.

Lemma dict_in_get k v d : NoDup (dict_keys d) → (k, v) ∈ d → dict_get k d = Some v.
Proof.
  induction d as [|[k' v'] d IH]; simpl; intros Hnd Hin; [set_solver|].
  apply NoDup_cons in Hnd as [Hk Hnd].
  apply elem_of_cons in Hin as [[= -> ->]|Hin]; [by rewrite decide_True|].
  rewrite decide_False; [auto|]. intros ->. apply Hk.
  apply list_elem_of_fmap. by exists (k', v).
Qed.

Lemma dict_set_fresh k v d : dict_get k d = None → dict_set k v d = (d ++ [(k, v)])%list.
Proof.
  induction d as [|[k' v'] d IH]; simpl; [done|].
  case_decide; [done|]. intros Hk. by rewrite IH.
Qed.

Lemma dict_set_set k v w d : dict_set k v (dict_set k w d) = dict_set k v d.
Proof.
  induction d as [|[k' v'] d IH]; simpl; [by rewrite decide_True|].
  case_decide; simpl; [by rewrite decide_True|by rewrite decide_False, IH].
Qed.

Lemma dict_keys_set k v d :
  dict_keys (dict_set k v d) = if dict_has k d then dict_keys d else (dict_keys d ++ [k])%list.
Proof.
  unfold dict_has. induction d as [|[k' v'] d IH]; simpl; [done|].
  case_decide; subst; simpl; [done|].
  rewrite IH. by destruct (dict_get k d).
Qed.

Lemma dict_keys_set_NoDup k v d : NoDup (dict_keys d) → NoDup (dict_keys (dict_set k v d)).
Proof.
  intros H. rewrite dict_keys_set. unfold dict_has.
  destruct (dict_get k d) eqn:E; [done|].
  apply dict_get_None in E. apply NoDup_app. split_and!; [done| |apply NoDup_singleton].
  set_solver.
Qed.

Lemma dict_set_values (P : V → Prop) k v d :
  Forall P d.*2 → P v → Forall P (dict_set k v d).*2.
Proof.
  intros Hd Hv. induction d as [|[k' v'] d IH]; simpl in *; [by constructor|].
  apply Forall_cons in Hd as [??].
  case_decide; simpl; constructor; auto.
Qed.
End dict.

(** A dictionary comprehension [{key(a): a for a in l}]: the last element with
    a key wins. *)
Definition dict_by {A} (key : A → string) (l : list A) : list (string * A) :=
  fold_left (λ d a, dict_set (key a) a d) l [].

Lemma dict_by_get {A} (key : A → string) l v :
  dict_get v (dict_by key l) = last (filter (λ a, key a = v) l).
Proof.
  unfold dict_by. induction l as [|a l IH] using rev_ind; [done|].
  rewrite fold_left_app, filter_app. simpl. destruct (decide (key a = v)) as [<-|Hne].
  - rewrite dict_get_set_eq, filter_cons_True by done. by rewrite filter_nil, last_snoc.
  - rewrite dict_get_set_ne, filter_cons_False by done. by rewrite app_nil_r.
Qed.

Lemma dict_by_unique {A} (key : A → string) l a :
  NoDup (key <$> l) → a ∈ l → dict_get (key a) (dict_by key l) = Some a.
Proof.
  intros Hn Ha. rewrite dict_by_get.
  assert (filter (λ b, key b = key a) l = [a]) as ->; [|done].
  induction Ha as [a l|a b l Ha IH]; rewrite fmap_cons in Hn; apply NoDup_cons in Hn as [Hk Hn].
  - rewrite filter_cons_True by done. f_equal.
    destruct (filter _ l) as [|b k] eqn:E; [done|]. exfalso.
    assert (b ∈ filter (λ b, key b = key a) l) as Hb by (rewrite E; left).
    apply list_elem_of_filter in Hb as [Heq Hb]. apply Hk. rewrite <- Heq.
    by apply list_elem_of_fmap_2.
  - rewrite filter_cons_False; [by apply IH|]. intros Heq. apply Hk. rewrite Heq.
    by apply list_elem_of_fmap_2.
Qed.

#[export] Hint Rewrite @dict_get_set_eq : loopx.
#[export] Hint Resolve dict_keys_set_NoDup : loopx.

(** ** [max_by] picks a maximum, and the first one. *)

Lemma max_by_in {A} (f : A → Z) l b : max_by f b l = b ∨ max_by f b l ∈ l.
Proof.
  revert b. induction l as [|x l IH]; intros b; simpl; [by left|].
  case (f b <? f x)%Z.
  - destruct (IH x) as [->|?]; right; [left|right]; done.
  - destruct (IH b) as [->|?]; [by left|right; by right].
Qed.

Lemma max_by_ge_best {A} (f : A → Z) l b : (f b ≤ f (max_by f b l))%Z.
Proof.
  revert b. induction l as [|x l IH]; intros b; simpl; [lia|].
  destruct (f b <? f x)%Z eqn:E; [|apply IH].
  apply Z.ltb_lt in E. specialize (IH x). lia.
Qed.

Lemma max_by_ge {A} (f : A → Z) l b x : x ∈ b :: l → (f x ≤ f (max_by f b l))%Z.
Proof.
  revert b. induction l as [|y l IH]; intros b Hx; simpl.
  - apply list_elem_of_singleton in Hx as ->. lia.
  - destruct (f b <? f y)%Z eqn:E.
    + apply Z.ltb_lt in E.
      apply elem_of_cons in Hx as [->|Hx].
      * pose proof (max_by_ge_best f l y). lia.
      * by apply IH.
    + apply Z.ltb_ge in E.
      apply elem_of_cons in Hx as [->|Hx]; [apply max_by_ge_best|].
      apply elem_of_cons in Hx as [->|Hx].
      * pose proof (max_by_ge_best f l b). lia.
      * apply IH. by right.
Qed.

(** ** Monad laws and inversion principles *)

Lemma res_bind_Ok {A B} (m : res A) (f : A → res B) b :
  (m ≫= f) = Ok b ↔ ∃ a, m = Ok a ∧ f a = Ok b.
Proof. destruct m; simpl; naive_solver. Qed.

Lemma require_Ok b e u : require b e = Ok u ↔ b = true.
Proof. destruct b, u; simpl; naive_solver. Qed.

Lemma M_bind_Ok {S A B} (m : M S A) (f : A → M S B) s b s' :
  (m ≫= f) s = (Ok b, s') ↔ ∃ a s1, m s = (Ok a, s1) ∧ f a s1 = (Ok b, s').
Proof. unfold mbind, M_bind. destruct (m s) as [[a|e] s1]; naive_solver. Qed.

Lemma M_bind_Err {S A B} (m : M S A) (f : A → M S B) s e s' :
  (m ≫= f) s = (Err e, s') ↔
  m s = (Err e, s') ∨ ∃ a s1, m s = (Ok a, s1) ∧ f a s1 = (Err e, s').
Proof. unfold mbind, M_bind. destruct (m s) as [[a|e'] s1]; naive_solver. Qed.

Lemma M_bind_assoc {S A B C} (m : M S A) (f : A → M S B) (g : B → M S C) s :
  ((m ≫= f) ≫= g) s = (m ≫= λ a, f a ≫= g) s.
Proof. unfold mbind, M_bind. by destruct (m s) as [[a|e] s1]. Qed.

(** [inv_res] destructs the equations [_ = Ok _] of a chain of binds. *)
Ltac inv_res :=
  repeat match goal with
  | H : (_ ≫= _) = Ok _ |- _ => apply res_bind_Ok in H as (? & ? & H)
  | H : require _ _ = Ok _ |- _ => apply require_Ok in H
  | H : Ok _ = Ok _ |- _ => injection H as H
  | H : mret _ = Ok _ |- _ => injection H as H
  | H : Err _ = Ok _ |- _ => discriminate H
  end; subst.

(** ** Weakest preconditions

    [wp m s Q]: running [m] in [s] ends in a result and a state that satisfy
    [Q].  The programs are total functions, so this is total correctness. *)

Definition wp {S A} (m : M S A) (s : S) (Q : res A → S → Prop) : Prop := Q (m s).1 (m s).2.

Section wp.
Context {S : Type}.

Lemma wp_elim {A} (m : M S A) s Q r s' : wp m s Q → m s = (r, s') → Q r s'.
Proof. unfold wp. intros H E. by rewrite E in H. Qed.

Lemma wp_mono {A} (m : M S A) s (P Q : res A → S → Prop) :
  wp m s P → (∀ r s', P r s' → Q r s') → wp m s Q.
Proof. unfold wp. auto. Qed.

Lemma wp_ret {A} (a : A) s (Q : res A → S → Prop) : Q (Ok a) s → wp (mret a) s Q.
Proof. done. Qed.

Lemma wp_bind {A B} (m : M S A) (f : A → M S B) s (Q : res B → S → Prop) :
  wp m s (λ r s', match r with Ok a => wp (f a) s' Q | Err e => Q (Err e) s' end) →
  wp (m ≫= f) s Q.
Proof. unfold wp, mbind, M_bind. by destruct (m s) as [[a|e] s']. Qed.

Lemma wp_raise {A} e s (Q : res A → S → Prop) : Q (Err e) s → wp (raise e) s Q.
Proof. done. Qed.

Lemma wp_lift {A} (r : res A) s (Q : res A → S → Prop) : Q r s → wp (lift r) s Q.
Proof. done. Qed.

Lemma wp_ensure b e s (Q : res unit → S → Prop) :
  (b = true → Q (Ok tt) s) → (b = false → Q (Err e) s) → wp (ensure b e) s Q.
Proof. unfold ensure, wp, lift, require. destruct b; auto. Qed.

Lemma wp_gets {A} (f : S → A) s (Q : res A → S → Prop) : Q (Ok (f s)) s → wp (gets f) s Q.
Proof. done. Qed.

Lemma wp_modify (f : S → S) s (Q : res unit → S → Prop) : Q (Ok tt) (f s) → wp (modify f) s Q.
Proof. done. Qed.

Lemma wp_try_except {A} (m : M S A) h s (Q : res A → S → Prop) :
  wp m s (λ r s', match r with Ok a => Q (Ok a) s' | Err e => wp (h e) s' Q end) →
  wp (try_except m h) s Q.
Proof. unfold wp, try_except. by destruct (m s) as [[a|e] s']. Qed.

Lemma wp_try_finally {A} (m : M S A) f s (Q : res A → S → Prop) :
  wp m s (λ r s', wp f s' (λ r' s'', Q (match r' with Ok _ => r | Err e => Err e end) s'')) →
  wp (try_finally m f) s Q.
Proof. unfold wp, try_finally. destruct (m s) as [r s']. simpl. by destruct (f s') as [[?|?] s'']. Qed.
End wp.

(** [wp_prim] uses the rule for the head operation of the goal. *)
Ltac wp_prim :=
  first [ apply wp_bind | apply wp_ret | apply wp_raise | apply wp_lift
        | apply wp_gets | apply wp_modify | apply wp_try_except | apply wp_try_finally ].
