(* ===== verification/PyFloat.v ===== *)
(** Python floats: IEEE-754 binary64, computed with the Standard Library's
    [SpecFloat] (precision 53, maximal exponent 1024).  Every operation is the
    correctly rounded one CPython uses, so the durations, scores and ranks of
    the replay code are the source's own numbers and the comparisons are the
    source's comparisons, NaN included. *)

From stdpp Require Import base strings list sets.
From Stdlib Require Import ZArith Lia SpecFloat.
From S2P Require Import Prelude.

Definition float := spec_float.

#[export] Instance float_eq_dec : EqDecision float.
Proof. intros x y. unfold Decision. repeat decide equality. Defined.

Definition fadd : float → float → float := SFadd 53 1024.
Definition fsub : float → float → float := SFsub 53 1024.
Definition fmul : float → float → float := SFmul 53 1024.
Definition fdiv : float → float → float := SFdiv 53 1024.
Definition fopp : float → float := SFopp.
Definition fltb : float → float → bool := SFltb.
Definition fleb : float → float → bool := SFleb.

(** [float(n)] of an [int] below the overflow threshold. *)
Definition float_of_Z (n : Z) : float := binary_normalize 53 1024 n 0 false.

Definition f0 : float := S754_zero false.
Definition f1 : float := float_of_Z 1.
Definition f60 : float := float_of_Z 60.

(** [a / b] of two [int]s, [b > 0]: one rounding of the exact quotient. *)
Definition int_div (a b : Z) : float :=
  match a, b with
  | Z0, _ => f0
  | Zpos p, Zpos q => fdiv (S754_finite false p 0) (S754_finite false q 0)
  | Zneg p, Zpos q => fdiv (S754_finite true p 0) (S754_finite false q 0)
  | _, _ => S754_nan
  end.

(** [max(a, b)]: the first argument unless the second is greater. *)
Definition fmax (a b : float) : float := if fltb a b then b else a.

(** [math.isfinite]. *)
Definition isfinite (x : float) : bool :=
  match x with S754_zero _ | S754_finite _ _ _ => true | _ => false end.

(** [n] halves rounded to even: the integer nearest to [a / b], [b > 0]. *)
Definition div_half_even (a b : Z) : Z :=
  let q := (a / b)%Z in
  let r := (a mod b)%Z in
  if (2 * r <? b)%Z then q
  else if (b <? 2 * r)%Z then (q + 1)%Z
  else if Z.even q then q else (q + 1)%Z.

(** [round(x, digits)]: the exact value rounded half to even to a multiple of
    [10 ^ -digits], then to the nearest float. *)
Definition py_round (digits : Z) (x : float) : float :=
  match x with
  | S754_finite s m e =>
      let unit := (10 ^ digits)%Z in
      let num := (Zpos m * unit * 2 ^ Z.max 0 e)%Z in
      let n := div_half_even num (2 ^ Z.max 0 (- e))%Z in
      match n with
      | Zpos p => fdiv (S754_finite s p 0) (float_of_Z unit)
      | _ => S754_zero s
      end
  | _ => x
  end.

(** ** The order of floats

    On values that are not NaN, [SFcompare] orders by sign, exponent and
    mantissa.  The facts below are what sorting needs: the strict order is
    irreflexive, transitive and negatively transitive, and equality is
    incomparability. *)

Definition isnan (x : float) : bool := match x with S754_nan => true | _ => false end.
Definition feqb : float → float → bool := SFeqb.

Lemma compare_cont_Eq p q : Pos.compare_cont Eq p q = Pos.compare p q.
Proof. done. Qed.

(** Floats as triples ordered lexicographically. *)
Definition frank (x : float) : Z * Z * Z :=
  match x with
  | S754_infinity false => (2, 0, 0)%Z
  | S754_infinity true => (-2, 0, 0)%Z
  | S754_finite false m e => (1, e, Zpos m)%Z
  | S754_finite true m e => (-1, - e, Zneg m)%Z
  | _ => (0, 0, 0)%Z
  end.

Definition lex_lt (a b : Z * Z * Z) : Prop :=
  let '(a1, a2, a3) := a in
  let '(b1, b2, b3) := b in
  (a1 < b1 ∨ a1 = b1 ∧ (a2 < b2 ∨ a2 = b2 ∧ a3 < b3))%Z.

Lemma fltb_lex x y :
  isnan x = false → isnan y = false → fltb x y = true ↔ lex_lt (frank x) (frank y).
Proof.
  unfold fltb, SFltb, lex_lt.
  destruct x as [s|[]| |[] m e], y as [s'|[]| |[] m' e']; simpl; try done; intros _ _.
  all: rewrite ?compare_cont_Eq; try (split; [done|lia]); try (split; [lia|done]).
  all: destruct (Z.compare_spec e e') as [->|?|?]; try (split; [done|lia]); try (split; [lia|done]).
  all: destruct (Pos.compare_spec m m') as [->|?|?]; simpl; split; try done; lia.
Qed.

Lemma feqb_lex x y :
  isnan x = false → isnan y = false → feqb x y = true ↔ frank x = frank y.
Proof.
  unfold feqb, SFeqb.
  destruct x as [s|[]| |[] m e], y as [s'|[]| |[] m' e']; simpl; try done; intros _ _.
  all: rewrite ?compare_cont_Eq; try (split; [done|congruence]).
  all: destruct (Z.compare_spec e e') as [->|?|?]; try (split; [done|intros [=]; lia]).
  all: destruct (Pos.compare_spec m m') as [->|?|?]; simpl; split; try done; intros [=]; lia.
Qed.

Lemma isnan_fopp x : isnan (fopp x) = isnan x.
Proof. by destruct x. Qed.

Lemma frank_fopp x :
  frank (fopp x) = let '(a, b, c) := frank x in (- a, - b, - c)%Z.
Proof. destruct x as [?|[]| |[] ??]; simpl; try done; repeat f_equal; lia. Qed.

(** ** Differences of finite floats

    Rounding a mantissa that is not negative never gives a NaN. *)

Lemma shr_1_nonneg r : (0 ≤ shr_m r)%Z → (0 ≤ shr_m (shr_1 r))%Z.
Proof. destruct r as [[|[]|[]] ? ?]; simpl; lia. Qed.

Lemma iter_shr_nonneg p r : (0 ≤ shr_m r)%Z → (0 ≤ shr_m (iter_pos shr_1 p r))%Z.
Proof. revert r. induction p as [p IH|p IH|]; intros r H; simpl; auto using shr_1_nonneg. Qed.

Lemma shr_fexp_nonneg m e l :
  (0 ≤ m)%Z → (0 ≤ shr_m (shr_fexp 53 1024 m e l).1)%Z.
Proof.
  intros H. unfold shr_fexp, shr.
  assert (0 ≤ shr_m (shr_record_of_loc m l))%Z by (by destruct l as [|[]]).
  destruct (_ - e)%Z; simpl; auto using iter_shr_nonneg.
Qed.

Lemma binary_round_aux_not_nan sx mx ex lx :
  (0 ≤ mx)%Z → isnan (binary_round_aux 53 1024 sx mx ex lx) = false.
Proof.
  intros H. unfold binary_round_aux.
  pose proof (shr_fexp_nonneg mx ex lx H) as H1.
  destruct (shr_fexp 53 1024 mx ex lx) as [r1 e1]. simpl in H1.
  assert (0 ≤ round_nearest_even (shr_m r1) (loc_of_shr_record r1))%Z as H2.
  { unfold round_nearest_even. destruct (loc_of_shr_record r1) as [|[]]; try lia.
    destruct (Z.even _); lia. }
  pose proof (shr_fexp_nonneg _ e1 loc_Exact H2) as H3.
  destruct (shr_fexp 53 1024 _ e1 loc_Exact) as [r2 e2]. simpl in H3.
  destruct (shr_m r2); [done| |lia]. by destruct (_ <=? _)%Z.
Qed.

Lemma fsub_not_nan x y : isfinite x = true → isfinite y = true → isnan (fsub x y) = false.
Proof.
  unfold fsub, SFsub. destruct x as [sx|sx| |sx mx ex], y as [sy|sy| |sy my ey]; try done; intros _ _.
  - by destruct sx, sy.
  - unfold binary_normalize. destruct (_ - _)%Z; [done| |];
      unfold binary_round; destruct (shl_align _ _ _); by apply binary_round_aux_not_nan.
Qed.

Example py_round_example :
  py_round 6 (fdiv (float_of_Z 2) (float_of_Z 3)) = fdiv (float_of_Z 666667) (float_of_Z 1000000).
Proof. vm_compute. reflexivity. Qed.

(** * Operations that raise, and numbers of a configuration *)

Definition ZeroDivisionError := mk_exn "ZeroDivisionError".
Definition OverflowError := mk_exn "OverflowError".

(** [a / b] of two floats; [a / n] of a float and an [int]. *)
Definition py_div (a b : float) : res float :=
  if feqb b f0 then Err (ZeroDivisionError "float division by zero") else Ok (fdiv a b).

Definition py_div_int (a : float) (n : Z) : res float :=
  if (n =? 0)%Z then Err (ZeroDivisionError "float division by zero") else Ok (fdiv a (float_of_Z n)).

(** [min(a, b)]. *)
Definition fmin (a b : float) : float := if fltb b a then b else a.

(** [x or 0.0]. *)
Definition or_zero (x : float) : float := if feqb x f0 then f0 else x.

(** [x.is_integer()] of a finite float, and [int(x)]. *)
Definition is_integer (x : float) : bool :=
  match x with
  | S754_zero _ => true
  | S754_finite _ m e => (0 <=? e)%Z || (Zpos m mod 2 ^ (- e) =? 0)%Z
  | _ => false
  end.

Definition truncate (x : float) : res Z :=
  match x with
  | S754_zero _ => Ok 0%Z
  | S754_finite s m e =>
      let n := if (0 <=? e)%Z then (Zpos m * 2 ^ e)%Z else (Zpos m / 2 ^ (- e))%Z in
      Ok (if s then (- n)%Z else n)
  | S754_infinity _ => Err (OverflowError "cannot convert float infinity to integer")
  | S754_nan => Err (ValueError "cannot convert float NaN to integer")
  end.

(** A decimal literal [n / d]. *)
Definition lit (n d : Z) : float := fdiv (float_of_Z n) (float_of_Z d).

(** A number of the configuration. *)
Inductive num := NInt (n : Z) | NFloat (x : float).
Definition num_float (v : num) : float := match v with NInt n => float_of_Z n | NFloat x => x end.
Definition num_int (v : num) : res Z := match v with NInt n => Ok n | NFloat x => truncate x end.

(** * Comparisons *)

Lemma fltb_fleb a b : fltb a b = true → fleb a b = true.
Proof. unfold fltb, fleb, SFltb, SFleb. by destruct (SFcompare a b) as [[]|]. Qed.

Lemma fleb_refl a : isnan a = false → fleb a a = true.
Proof.
  unfold fleb, SFleb. destruct a as [|[]| |[] m e]; try done; intros _; simpl.
  all: by rewrite Z.compare_refl, Pos.compare_cont_refl.
Qed.

Lemma feqb_zero x : feqb x f0 = true → ∃ s, x = S754_zero s.
Proof. destruct x as [s|s| |s m e]; [eauto|by destruct s|done|by destruct s]. Qed.

(** [max(c, x)] for a positive [c]. *)
Lemma fmax_nonzero c x :
  (∀ s, fltb c (S754_zero s) = false) → feqb c f0 = false → feqb (fmax c x) f0 = false.
Proof.
  intros Hc H0. unfold fmax. destruct (fltb c x) eqn:E; [|done].
  apply not_true_is_false. intros [s ->]%feqb_zero. by rewrite Hc in E.
Qed.

Lemma fltb_nonzero x : fltb f0 x = true → feqb x f0 = false.
Proof. intros H. apply not_true_is_false. by intros [[] ->]%feqb_zero. Qed.

Lemma py_div_ok a b : feqb b f0 = false → py_div a b = Ok (fdiv a b).
Proof. unfold py_div. by intros ->. Qed.

Lemma py_div_int_ok a n : (0 < n)%Z → py_div_int a n = Ok (fdiv a (float_of_Z n)).
Proof. intros Hn. unfold py_div_int. destruct (Z.eqb_spec n 0); [lia|done]. Qed.

(** ** One plus a value that is not negative

    A number of magnitude at least one, mantissa [m] and exponent [e] with
    [2 ^ max 0 (- e) ≤ m], does not round to zero. *)

Definition at_least_one (m e : Z) : Prop := (2 ^ Z.max 0 (- e) ≤ m)%Z.

Lemma digits2_log2 p : Zdigits2 (Zpos p) = (Z.log2 (Zpos p) + 1)%Z.
Proof.
  assert (∀ q, digits2_pos q = Pos.size q) as H by (induction q; simpl; congruence).
  simpl. rewrite H. destruct p; simpl; lia.
Qed.

Lemma shr_1_half r : (0 ≤ shr_m r)%Z → shr_m (shr_1 r) = (shr_m r / 2)%Z.
Proof.
  destruct r as [[|p|p] r s]; simpl; [done| |lia]; intros _.
  destruct p as [p|p|]; simpl; [|by rewrite Pos2Z.inj_xO, Z.mul_comm, Z.div_mul|done].
  rewrite Pos2Z.inj_xI. apply Z.div_unique with 1%Z; lia.
Qed.

Lemma iter_shr_div p r :
  (0 ≤ shr_m r)%Z → shr_m (iter_pos shr_1 p r) = (shr_m r / 2 ^ Zpos p)%Z.
Proof.
  revert r. induction p as [p IH|p IH|]; intros r H; simpl; [| |by apply shr_1_half].
  - assert (0 ≤ shr_m (shr_1 r))%Z by (by apply shr_1_nonneg).
    rewrite IH, IH, shr_1_half by auto using iter_shr_nonneg.
    rewrite !Z.div_div by lia. f_equal. rewrite (Pos2Z.inj_xI p), Z.pow_add_r, Z.pow_1_r, Z.mul_comm by lia.
    replace (2 * Zpos p)%Z with (Zpos p + Zpos p)%Z by lia. rewrite Z.pow_add_r by lia. lia.
  - rewrite IH, IH by auto using iter_shr_nonneg. rewrite Z.div_div by lia. f_equal.
    rewrite (Pos2Z.inj_xO p). replace (2 * Zpos p)%Z with (Zpos p + Zpos p)%Z by lia.
    by rewrite Z.pow_add_r by lia.
Qed.

Lemma at_least_one_pos m e : at_least_one m e → (0 < m)%Z.
Proof. unfold at_least_one. pose proof (Z.pow_pos_nonneg 2 (Z.max 0 (- e))). lia. Qed.

Lemma shr_fexp_at_least_one m e l :
  at_least_one m e →
  at_least_one (shr_m (shr_fexp 53 1024 m e l).1) (shr_fexp 53 1024 m e l).2.
Proof.
  intros H. pose proof (at_least_one_pos _ _ H) as Hm.
  destruct m as [|p|p]; [lia| |lia]. unfold at_least_one in *.
  pose proof (Z.log2_spec (Zpos p) Hm) as [Hlo _].
  assert (Z.max 0 (- e) ≤ Z.log2 (Zpos p))%Z as Hlog by (apply Z.log2_le_pow2; lia).
  assert (shr_m (shr_record_of_loc (Zpos p) l) = Zpos p) as Hr by (by destruct l as [|[]]).
  unfold shr_fexp, shr. rewrite digits2_log2. set (lg := Z.log2 (Zpos p)) in *.
  replace (fexp 53 1024 (lg + 1 + e) - e)%Z with (lg - 52)%Z by (unfold fexp, emin; lia).
  destruct (lg - 52)%Z as [|n|n] eqn:En; [by simpl; rewrite Hr| |by simpl; rewrite Hr].
  cbn [fst snd]. rewrite iter_shr_div, Hr by (rewrite Hr; lia).
  apply Z.div_le_lower_bound; [lia|]. rewrite <- Z.pow_add_r by lia.
  destruct (Z.max_spec 0 (- (e + Zpos n))) as [[? ->]|[? ->]].
  - etrans; [|apply H]. apply Z.pow_le_mono_r; lia.
  - etrans; [|apply Hlo]. apply Z.pow_le_mono_r; lia.
Qed.

Lemma binary_round_aux_nonzero sx mx ex lx :
  at_least_one mx ex → feqb (binary_round_aux 53 1024 sx mx ex lx) f0 = false.
Proof.
  intros H. unfold binary_round_aux.
  pose proof (shr_fexp_at_least_one mx ex lx H) as H1.
  destruct (shr_fexp 53 1024 mx ex lx) as [r1 e1]. simpl in H1.
  assert (at_least_one (round_nearest_even (shr_m r1) (loc_of_shr_record r1)) e1) as H2.
  { unfold at_least_one in *. unfold round_nearest_even.
    destruct (loc_of_shr_record r1) as [|[]]; try lia. destruct (Z.even _); lia. }
  apply (shr_fexp_at_least_one _ _ loc_Exact) in H2.
  destruct (shr_fexp 53 1024 _ e1 loc_Exact) as [r2 e2]. simpl in H2.
  apply at_least_one_pos in H2.
  destruct (shr_m r2); [lia| |lia]. destruct (_ <=? _)%Z; by destruct sx.
Qed.

Lemma shift_pos_pow d m : Zpos (Pos.iter xO m d) = (Zpos m * 2 ^ Zpos d)%Z.
Proof. change (Pos.iter xO m d) with (shift_pos d m). rewrite Zpower.shift_pos_correct. lia. Qed.

Lemma shl_align_value m e e' : (e' ≤ e)%Z →
  Zpos (shl_align m e e').1 = (Zpos m * 2 ^ (e - e'))%Z ∧ (shl_align m e e').2 = e'.
Proof.
  intros H. unfold shl_align. destruct (e' - e)%Z as [|d|d] eqn:E; [|lia|].
  - replace (e - e')%Z with 0%Z by lia. simpl. split; lia.
  - cbn [fst snd]. rewrite shift_pos_pow. by replace (e - e')%Z with (Zpos d) by lia.
Qed.

Lemma binary_round_nonzero s m e :
  at_least_one (Zpos m) e → feqb (binary_round 53 1024 s m e) f0 = false.
Proof.
  intros H. unfold binary_round.
  set (e' := fexp 53 1024 _). destruct (Z.le_gt_cases e' e) as [Hle|Hgt].
  - destruct (shl_align_value m e e' Hle) as [Hm He]. destruct (shl_align m e e') as [m' e2].
    simpl in Hm, He. subst e2. apply binary_round_aux_nonzero. unfold at_least_one in *.
    rewrite Hm. etrans; [|apply Z.mul_le_mono_nonneg_r, H; lia].
    rewrite <- Z.pow_add_r by lia. apply Z.pow_le_mono_r; lia.
  - unfold shl_align. destruct (e' - e)%Z eqn:E; try lia; by apply binary_round_aux_nonzero.
Qed.

(** A value that is not negative: NaN included, no negative sign. *)
Definition no_sign (x : float) : Prop :=
  match x with S754_zero _ | S754_nan | S754_infinity false | S754_finite false _ _ => True | _ => False end.

Lemma fadd_one_nonzero x : no_sign x → feqb (fadd f1 x) f0 = false.
Proof.
  destruct x as [s|[]| |[] m e]; try done; intros _.
  change f1 with (S754_finite false (2 ^ 52) (-52)). unfold fadd, SFadd.
  set (ez := Z.min (-52) e). unfold cond_Zopp.
  destruct (shl_align_value (2 ^ 52) (-52) ez ltac:(lia)) as [H1 _].
  rewrite H1. destruct (_ + _)%Z as [|p|p] eqn:E.
  - pose proof (Z.pow_pos_nonneg 2 (-52 - ez)). lia.
  - simpl. apply binary_round_nonzero. unfold at_least_one. rewrite <- E.
    replace (Z.max 0 (- ez))%Z with (52 + (-52 - ez))%Z by lia. rewrite Z.pow_add_r by lia. lia.
  - pose proof (Z.pow_pos_nonneg 2 (-52 - ez)). lia.
Qed.

Lemma binary_round_aux_sign mx ex lx :
  (0 ≤ mx)%Z → no_sign (binary_round_aux 53 1024 false mx ex lx).
Proof.
  intros H. unfold binary_round_aux.
  destruct (shr_fexp 53 1024 mx ex lx) as [r1 e1].
  destruct (shr_fexp 53 1024 _ e1 loc_Exact) as [r2 e2].
  destruct (shr_m r2); [done| |done]. by destruct (_ <=? _)%Z.
Qed.

Lemma fmul_no_sign x y : no_sign x → no_sign y → no_sign (fmul x y).
Proof.
  unfold fmul, SFmul. destruct x as [s|[]| |[] m e], y as [s'|[]| |[] m' e']; try done; intros _ _.
  by apply binary_round_aux_sign.
Qed.

(** ** Sums and minima that are not NaN *)

Lemma binary_normalize_not_nan m e s : isnan (binary_normalize 53 1024 m e s) = false.
Proof.
  unfold binary_normalize. destruct m; [done| |];
    unfold binary_round; destruct (shl_align _ _ _); by apply binary_round_aux_not_nan.
Qed.

Lemma fadd_not_nan x y : isnan x = false → isfinite y = true → isnan (fadd x y) = false.
Proof.
  unfold fadd, SFadd. destruct x as [sx|sx| |sx mx ex], y as [sy|sy| |sy my ey]; try done; intros _ _.
  - by destruct sx, sy.
  - apply binary_normalize_not_nan.
Qed.

Lemma fmin_finite c y : isfinite c = true → no_sign y → isfinite (fmin c y) = true.
Proof.
  unfold fmin. destruct (fltb y c) eqn:E; [|done]. destruct y as [|[]| |]; try done.
  by destruct c as [|[]| |[] ? ?].
Qed.

Lemma fmax_no_sign x : no_sign (fmax f0 x).
Proof. unfold fmax. destruct (fltb f0 x) eqn:E; [|done]. by destruct x as [|[]| |[] ? ?]. Qed.

Lemma float_of_Z_no_sign n : (0 ≤ n)%Z → no_sign (float_of_Z n).
Proof.
  intros H. unfold float_of_Z, binary_normalize. destruct n as [|p|p]; [done| |lia].
  unfold binary_round. destruct (shl_align _ _ _). by apply binary_round_aux_sign.
Qed.

Lemma py_round_not_nan d x : isnan x = false → isnan (py_round d x) = false.
Proof.
  unfold py_round. destruct x as [| | |s m e]; try done. intros _.
  destruct (div_half_even _ _) as [|p|p]; [done| |done].
  unfold fdiv, SFdiv, float_of_Z.
  destruct (binary_normalize 53 1024 (10 ^ d) 0 false) as [|[]| |s' m' e'] eqn:E; try done.
  - by pose proof (binary_normalize_not_nan (10 ^ d) 0 false) as H; rewrite E in H.
  - destruct (SFdiv_core_binary _ _ _ _ _ _) as [[mz ez] lz] eqn:Ed.
    apply binary_round_aux_not_nan. revert Ed. unfold SFdiv_core_binary.
    set (m1 := match (_ - _)%Z with Zpos _ => _ | _ => _ end).
    assert (0 ≤ m1)%Z as H1 by (unfold m1; destruct (_ - _)%Z; [lia|by apply Z.shiftl_nonneg|lia]).
    pose proof (Z.div_pos m1 (Zpos m') H1 ltac:(lia)) as Hq. unfold Z.div in Hq.
    destruct (Z.div_eucl m1 (Zpos m')) as [q r]. intros [= <- _ _]. exact Hq.
Qed.

(** ** Small integers are exact *)

(** Below [2 ^ 53] a positive integer is its normalized mantissa. *)
Definition exact_exp (p : positive) : Z := (Z.log2 (Zpos p) - 52)%Z.

Lemma float_of_pos_exact p : (Zpos p < 2 ^ 53)%Z →
  ∃ m, float_of_Z (Zpos p) = S754_finite false m (exact_exp p) ∧
       Zpos m = (Zpos p * 2 ^ (- exact_exp p))%Z ∧ (exact_exp p ≤ 0)%Z.
Proof.
  intros Hp. pose proof (Z.log2_spec (Zpos p) ltac:(lia)) as [Hlo Hhi].
  pose proof (Z.log2_nonneg (Zpos p)) as H0.
  assert (Z.log2 (Zpos p) < 53)%Z as Hlog by (apply Z.log2_lt_pow2; lia).
  set (e := exact_exp p). assert (e = Z.log2 (Zpos p) - 52)%Z as He by done.
  assert (fexp 53 1024 (Zdigits2 (Zpos p) + 0) = e) as Hf.
  { rewrite digits2_log2. unfold fexp, emin. lia. }
  unfold float_of_Z, binary_normalize, binary_round.
  change (Z.pos (digits2_pos p)) with (Zdigits2 (Zpos p)). rewrite Hf.
  destruct (shl_align_value p 0 e ltac:(lia)) as [Hm He2].
  destruct (shl_align p 0 e) as [m e2]. simpl in Hm, He2. subst e2.
  replace (0 - e)%Z with (- e)%Z in Hm by lia. exists m. split; [|split; [done|lia]].
  assert (Z.log2 (Zpos m) = 52)%Z as Hlm.
  { rewrite Hm, Z.log2_mul_pow2 by lia. lia. }
  assert (∀ l, shr_fexp 53 1024 (Zpos m) e l = (shr_record_of_loc (Zpos m) l, e)) as Hs.
  { intros l. unfold shr_fexp, shr. rewrite digits2_log2, Hlm.
    replace (fexp 53 1024 (52 + 1 + e) - e)%Z with 0%Z by (unfold fexp, emin; lia). done. }
  unfold binary_round_aux. rewrite Hs. cbn [shr_record_of_loc shr_m loc_of_shr_record round_nearest_even].
  rewrite Hs. cbn [shr_record_of_loc shr_m]. rewrite (proj2 (Z.leb_le _ _)) by lia. done.
Qed.

Lemma float_of_Z_small n : (0 ≤ n < 2 ^ 53)%Z →
  isfinite (float_of_Z n) = true ∧ is_integer (float_of_Z n) = true ∧
  fleb f0 (float_of_Z n) = true ∧ (0 < n → fltb f0 (float_of_Z n) = true)%Z.
Proof.
  intros [H0 Hn]. destruct n as [|p|p]; [repeat split; lia| |lia].
  destruct (float_of_pos_exact p Hn) as (m & -> & Hm & He). repeat split; try done.
  unfold is_integer. apply orb_true_iff. right. apply Z.eqb_eq. rewrite Hm. apply Z.mod_mul.
  pose proof (Z.pow_pos_nonneg 2 (- exact_exp p)). lia.
Qed.

Lemma float_of_Z_leb a b : (0 ≤ a ≤ b)%Z → (b < 2 ^ 53)%Z → fleb (float_of_Z a) (float_of_Z b) = true.
Proof.
  intros [H0 Hab] Hb. destruct a as [|p|p]; [by apply float_of_Z_small| |lia].
  destruct b as [|q|q]; [lia| |lia].
  destruct (float_of_pos_exact p ltac:(lia)) as (m & -> & Hm & He).
  destruct (float_of_pos_exact q Hb) as (m' & -> & Hm' & He').
  assert (exact_exp p ≤ exact_exp q)%Z as Hle.
  { unfold exact_exp. pose proof (Z.log2_le_mono _ _ Hab). lia. }
  unfold fleb, SFleb. cbn [SFcompare]. destruct (Z.compare_spec (exact_exp p) (exact_exp q)) as [E|E|E];
    [|done|lia].
  rewrite compare_cont_Eq. destruct (Pos.compare_spec m m') as [?|?|Hlt]; [done|done|].
  rewrite <- E in Hm'. pose proof (Z.pow_pos_nonneg 2 (- exact_exp p)). nia.
Qed.
