(* ===== verification/ListLib.v ===== *)
(** Lemmas on lists that several components share: filters, partitions by a
    key, and updates at an index. *)

From stdpp Require Import base list sets list_numbers.
From Stdlib Require Import Lia.

Lemma imap_pair_fst {A} (l : list A) off : (imap (λ i x, ((off + i)%nat, x)) l).*1 = seq off (length l).
Proof.
  revert off. induction l as [|x l IH]; intros off; [done|]. simpl. f_equal; [lia|].
  rewrite <- IH. f_equal. apply imap_ext. intros i y _. simpl. f_equal. lia.
Qed.

Lemma imap_pair_snd {A} (l : list A) : (imap pair l).*2 = l.
Proof.
  apply list_eq. intros i. rewrite list_lookup_fmap, list_lookup_imap. by destruct (l !! i).
Qed.

Lemma filter_snoc {A} (P : A → Prop) `{∀ x, Decision (P x)} (L : list A) a :
  filter P (L ++ [a])%list = (filter P L ++ (if decide (P a) then [a] else []))%list.
Proof. rewrite filter_app, filter_cons, filter_nil. by case_decide. Qed.

Lemma filter_ext_in {A} (P Q : A → Prop) `{∀ x, Decision (P x), ∀ x, Decision (Q x)} (L : list A) :
  (∀ x, x ∈ L → P x ↔ Q x) → filter P L = filter Q L.
Proof.
  induction L as [|a L IH]; intros HPQ; [done|]. rewrite !filter_cons.
  assert (P a ↔ Q a) by (apply HPQ; set_solver). rewrite IH by (intros; apply HPQ; set_solver).
  repeat case_decide; tauto.
Qed.

Lemma filter_all {A} (P : A → Prop) `{∀ x, Decision (P x)} l : Forall P l → filter P l = l.
Proof. induction 1 as [|x l ? _ IH]; [done|]. by rewrite filter_cons_True, IH. Qed.

Lemma filter_none {A} (P : A → Prop) `{∀ x, Decision (P x)} l : Forall (λ x, ¬ P x) l → filter P l = [].
Proof. induction 1 as [|x l ? _ IH]; [done|]. by rewrite filter_cons_False, IH. Qed.

Lemma filter_split {A} (P : A → Prop) `{∀ x, Decision (P x)} (V : list A) :
  V ≡ₚ (filter P V ++ filter (λ x, ¬ P x) V)%list.
Proof.
  induction V as [|v V IH]; [done|]. rewrite !filter_cons.
  destruct (decide (P v)), (decide (¬ P v)); try tauto; simpl.
  - by rewrite <- IH.
  - rewrite <- Permutation_middle. by rewrite <- IH.
Qed.

Lemma filter_filter_in {A} (P Q : A → Prop) `{∀ x, Decision (P x), ∀ x, Decision (Q x)} (V : list A) :
  (∀ x, P x → Q x) → filter P (filter Q V) = filter P V.
Proof.
  intros HPQ. induction V as [|v V IH]; [done|]. rewrite (filter_cons Q), (filter_cons P).
  destruct (decide (Q v)), (decide (P v)); rewrite ?filter_cons, ?IH; repeat case_decide; naive_solver.
Qed.

Lemma bind_ext_in {A B} (f g : A → list B) (l : list A) :
  (∀ x, x ∈ l → f x = g x) → l ≫= f = l ≫= g.
Proof.
  induction l as [|x l IH]; intros Hfg; [done|]. simpl. rewrite Hfg by set_solver.
  f_equal. apply IH. intros y ?. apply Hfg. set_solver.
Qed.

Lemma group_perm {A K} `{EqDecision K} (f : A → K) (ks : list K) (V : list A) :
  NoDup ks → (∀ v, v ∈ V → f v ∈ ks) → (ks ≫= λ k, filter (λ v, f v = k) V) ≡ₚ V.
Proof.
  revert V. induction ks as [|k ks IH]; intros V Hnd Hin; simpl.
  - destruct V as [|v V]; [done|]. exfalso. apply (not_elem_of_nil (f v)), Hin. set_solver.
  - apply NoDup_cons in Hnd as [Hk Hnd]. etrans; [|symmetry; apply (filter_split (λ v, f v = k))].
    apply Permutation_app_head. rewrite <- (IH (filter (λ v, f v ≠ k) V)); [|done|].
    + apply reflexive_eq, bind_ext_in. intros k' Hk'. symmetry. apply filter_filter_in.
      intros v Hv Hvk. apply Hk. congruence.
    + intros v [Hv Hv']%list_elem_of_filter. apply Hin in Hv'. set_solver.
Qed.

Lemma bind_nil {A B} (f : A → list B) l : Forall (λ a, f a = []) l → l ≫= f = [].
Proof. induction 1 as [|a l Ha _ IH]; [done|]. by rewrite bind_cons, Ha. Qed.

Lemma insert_perm {A} (l : list A) i x y :
  l !! i = Some x → x :: <[i := y]> l ≡ₚ y :: l.
Proof.
  intros Hi. rewrite <- (take_drop_middle l i x Hi) at 2.
  rewrite insert_take_drop by (by eapply lookup_lt_Some).
  rewrite <- !Permutation_middle. apply Permutation_swap.
Qed.

Lemma omap_insert_perm {A B} (f : A → option B) (l : list A) i x y :
  l !! i = Some x →
  (option_list (f x) ++ omap f (<[i := y]> l) ≡ₚ option_list (f y) ++ omap f l)%list.
Proof.
  intros Hi. apply (insert_perm _ _ _ y) in Hi. apply (omap_Permutation f) in Hi. csimpl in Hi.
  by destruct (f x), (f y).
Qed.

Lemma sum_insert {A} (f : A → nat) (l : list A) i x y :
  l !! i = Some x → (f x + sum_list_with f (<[i := y]> l) = f y + sum_list_with f l)%nat.
Proof.
  revert i. induction l as [|z l IH]; intros [|i] Hi; simplify_eq/=; [lia|].
  specialize (IH i Hi). lia.
Qed.

Lemma exists_snoc {A} (L : list A) a (P : A → Prop) :
  (∃ b, b ∈ (L ++ [a])%list ∧ P b) ↔ (∃ b, b ∈ L ∧ P b) ∨ P a.
Proof.
  setoid_rewrite elem_of_app. setoid_rewrite list_elem_of_singleton.
  split; [intros (b & [? | ->] & ?); eauto|intros [(b & ? & ?)|?]; eauto].
Qed.

Lemma bind_bind {A B C} (f : A → list B) (g : B → list C) (l : list A) :
  (l ≫= f) ≫= g = l ≫= λ x, f x ≫= g.
Proof. induction l as [|x l IH]; [done|]. by rewrite !bind_cons, bind_app, IH. Qed.
