(* ===== verification/PyValue.v ===== *)
(** Dynamic Python values: the JSON-like objects that public payloads, Turn
    plans and host results are made of. *)

From stdpp Require Import base strings list sets.
From Stdlib Require Import ZArith Lia SpecFloat.
From S2P Require Import Prelude PyFloat.

(** [PMap frozen items]: a mapping in iteration order, a [dict] when [frozen]
    is false and a [MappingProxyType] over a fresh [dict] when it is true; a
    key is [Some s] for a [str] and [None] for any other object.
    [PSeq frozen items]: a [list], or a [tuple] when [frozen] is true.
    [PBytes]: a [bytes], [bytearray], [memoryview] or [PurePath].
    [POther]: an object of any other type. *)
Inductive pyval :=
| PNone
| PBool (b : bool)
| PInt (n : Z)
| PFloat (x : float)
| PStr (s : string)
| PBytes
| PMap (frozen : bool) (items : list (option string * pyval))
| PSeq (frozen : bool) (items : list pyval)
| POther.

(** Induction through the nested lists. *)
Section pyval_ind.
Variable P : pyval → Prop.
Hypothesis Hnone : P PNone.
Hypothesis Hbool : ∀ b, P (PBool b).
Hypothesis Hint : ∀ n, P (PInt n).
Hypothesis Hfloat : ∀ x, P (PFloat x).
Hypothesis Hstr : ∀ s, P (PStr s).
Hypothesis Hbytes : P PBytes.
Hypothesis Hmap : ∀ fz items, Forall (λ kv, P kv.2) items → P (PMap fz items).
Hypothesis Hseq : ∀ fz items, Forall P items → P (PSeq fz items).
Hypothesis Hother : P POther.

Fixpoint pyval_ind' (v : pyval) : P v :=
  match v with
  | PNone => Hnone
  | PBool b => Hbool b
  | PInt n => Hint n
  | PFloat x => Hfloat x
  | PStr s => Hstr s
  | PBytes => Hbytes
  | PMap fz items =>
      Hmap fz items
        ((fix go l : Forall (λ kv, P kv.2) l :=
            match l with
            | [] => Forall_nil_2 _
            | kv :: l' => Forall_cons_2 _ kv l' (pyval_ind' kv.2) (go l')
            end) items)
  | PSeq fz items =>
      Hseq fz items
        ((fix go l : Forall P l :=
            match l with
            | [] => Forall_nil_2 _
            | x :: l' => Forall_cons_2 _ x l' (pyval_ind' x) (go l')
            end) items)
  | POther => Hother
  end.
End pyval_ind.

(** The keys of a mapping are distinct, at every depth. *)
Fixpoint wf_val (v : pyval) : Prop :=
  match v with
  | PMap _ items =>
      NoDup items.*1 ∧
      (fix go l := match l with [] => True | (_, x) :: l' => wf_val x ∧ go l' end) items
  | PSeq _ items =>
      (fix go l := match l with [] => True | x :: l' => wf_val x ∧ go l' end) items
  | _ => True
  end.

Lemma wf_map_iff fz items :
  wf_val (PMap fz items) ↔ NoDup items.*1 ∧ Forall (λ kv, wf_val kv.2) items.
Proof.
  simpl. apply and_iff_compat_l. induction items as [|[k x] l IH]; simpl.
  - split; [constructor|done].
  - rewrite Forall_cons. by rewrite IH.
Qed.

Lemma wf_seq_iff fz items : wf_val (PSeq fz items) ↔ Forall wf_val items.
Proof.
  simpl. induction items as [|x l IH]; simpl.
  - split; [constructor|done].
  - rewrite Forall_cons. by rewrite IH.
Qed.

(** * Mappings and truth values *)

Definition items : Type := list (option string * pyval).

(** [mapping.get(key)]. *)
Fixpoint pget (k : string) (d : items) : pyval :=
  match d with
  | [] => PNone
  | (k', v) :: d' => if decide (k' = Some k) then v else pget k d'
  end.

Definition is_mapping (v : pyval) : bool := match v with PMap _ _ => true | _ => false end.
Definition is_none (v : pyval) : bool := match v with PNone => true | _ => false end.

(** [mapping[key] = value]. *)
Fixpoint pset (k : string) (v : pyval) (d : items) : items :=
  match d with
  | [] => [(Some k, v)]
  | (k', v') :: d' => if decide (k' = Some k) then (k', v) :: d' else (k', v') :: pset k v d'
  end.

(** [mapping.setdefault(key, value)], [mapping.pop(key, None)]. *)
Definition psetdefault (k : string) (v : pyval) (d : items) : items :=
  if bool_decide (Some k ∈ d.*1) then d else pset k v d.

Definition ppop (k : string) (d : list (option string * pyval)) : items :=
  filter (λ kv, kv.1 ≠ Some k) d.

(** The truth value of an object; [bytes] and unknown objects count as true. *)
Definition truthy (v : pyval) : bool :=
  match v with
  | PNone => false
  | PBool b => b
  | PInt n => negb (n =? 0)%Z
  | PFloat x => negb (feqb x f0)
  | PStr s => negb (is_empty s)
  | PMap _ d => match d with [] => false | _ => true end
  | PSeq _ l => match l with [] => false | _ => true end
  | PBytes | POther => true
  end.

(** [a or b] of two values. *)
Definition por (a b : pyval) : pyval := if truthy a then a else b.

(** [str(value)]; [str_of] gives the text of values that are not [str]. *)
Definition py_str (str_of : pyval → string) (v : pyval) : string := match v with PStr s => s | _ => str_of v end.

(** [str(value or "")]. *)
Definition str_or_empty (str_of : pyval → string) (v : pyval) : string := if truthy v then py_str str_of v else "".

Lemma pget_pset_eq k v d : pget k (pset k v d) = v.
Proof.
  induction d as [|[k' v'] d IH]; simpl; [by rewrite decide_True|].
  destruct (decide (k' = Some k)) as [->|Hk]; simpl; [by rewrite decide_True|].
  by rewrite decide_False.
Qed.

Lemma pget_pset_ne k k' v d : k ≠ k' → pget k (pset k' v d) = pget k d.
Proof.
  intros Hne. induction d as [|[k0 v0] d IH]; simpl.
  - by rewrite decide_False by congruence.
  - destruct (decide (k0 = Some k')) as [->|Hk]; simpl.
    + by rewrite !decide_False by congruence.
    + by rewrite IH.
Qed.

Lemma pget_pset k k' v d :
  pget k (pset k' v d) = (if decide (k = k') then v else pget k d).
Proof. case_decide; subst; [apply pget_pset_eq|by apply pget_pset_ne]. Qed.

Lemma pget_ppop k k' d :
  pget k (ppop k' d) = (if decide (k = k') then PNone else pget k d).
Proof.
  unfold ppop. induction d as [|[k0 v0] d IH]; [by simpl; case_decide|].
  rewrite filter_cons. cbn [fst]. destruct (decide (k0 ≠ Some k')) as [Hk0|Hk0].
  - simpl. rewrite IH. repeat case_decide; congruence.
  - apply dec_stable in Hk0 as ->. simpl. rewrite IH. case_decide; [done|].
    by rewrite decide_False by congruence.
Qed.

Lemma pget_psetdefault_ne k k' v d : k ≠ k' → pget k (psetdefault k' v d) = pget k d.
Proof. intros Hne. unfold psetdefault. case_bool_decide; [done|by apply pget_pset_ne]. Qed.
