(* ===== verification/PyConv.v ===== *)
(** Conversions of dynamic values: [float(v)], [int(v)], and the [or] forms the
    code wraps them in.  What [float] and [int] make of a text is a parameter. *)

From stdpp Require Import base strings list.
From Stdlib Require Import ZArith SpecFloat.
From S2P Require Import Prelude PyFloat PyValue.

Definition AttributeError := mk_exn "AttributeError".

Section conversions.
Variables (parse_float : string → option float) (parse_int : string → option Z).

Definition to_float (v : pyval) : res float :=
  match v with
  | PBool b => Ok (if b then f1 else f0)
  | PInt n => let x := float_of_Z n in
              if isfinite x then Ok x else Err (OverflowError "int too large to convert to float")
  | PFloat x => Ok x
  | PStr s => match parse_float s with
              | Some x => Ok x
              | None => Err (ValueError ("could not convert string to float: " ++ py_repr s))
              end
  | _ => Err (TypeError "float() argument must be a string or a real number")
  end.

(** [float(v or 0.0)]. *)
Definition float_or_zero (v : pyval) : res float := if truthy v then to_float v else Ok f0.

Definition to_int (v : pyval) : res Z :=
  match v with
  | PBool b => Ok (if b then 1 else 0)%Z
  | PInt n => Ok n
  | PFloat x => truncate x
  | PStr s => match parse_int s with
              | Some n => Ok n
              | None => Err (ValueError ("invalid literal for int() with base 10: " ++ py_repr s))
              end
  | _ => Err (TypeError "int() argument must be a string, a bytes-like object or a real number")
  end.

(** [int(v or 0)]. *)
Definition int_or_zero (v : pyval) : res Z := if truthy v then to_int v else Ok 0%Z.
End conversions.

Lemma float_or_zero_float pf x : float_or_zero pf (PFloat x) = Ok (or_zero x).
Proof. unfold float_or_zero, or_zero. simpl. by destruct (feqb x f0). Qed.

Lemma int_or_zero_int pi n : int_or_zero pi (PInt n) = Ok n.
Proof. unfold int_or_zero. simpl. by destruct (Z.eqb_spec n 0) as [->|]. Qed.

(** [try: r except (TypeError, ValueError) as error: raise e from error]. *)
Definition catching {A} (r : res A) (e : exn) : res A :=
  match r with
  | Ok a => Ok a
  | Err c => if bool_decide (exn_class c ∈ ["TypeError"; "ValueError"]) then Err (raise_from e c) else Err c
  end.

(** [v == w] when [w] is a text, a number or [None]: numbers compare by value. *)
Definition py_eq (v w : pyval) : bool :=
  let integer u := match u with
                   | PBool b => Some (if b then 1 else 0)%Z
                   | PInt n => Some n
                   | PFloat x => if is_integer x then match truncate x with Ok n => Some n | Err _ => None end
                                 else None
                   | _ => None
                   end in
  match v, w with
  | PNone, PNone => true
  | PStr a, PStr b => bool_decide (a = b)
  | PFloat a, PFloat b => feqb a b
  | _, _ => match integer v, integer w with Some a, Some b => (a =? b)%Z | _, _ => false end
  end.

(** [map] of a fallible function. *)
Fixpoint rmap {A B} (f : A → res B) (l : list A) : res (list B) :=
  match l with
  | [] => Ok []
  | a :: l' => b ← f a; bs ← rmap f l'; Ok (b :: bs)
  end.

Lemma rmap_length {A B} (f : A → res B) l l' : rmap f l = Ok l' → length l' = length l.
Proof.
  revert l'. induction l as [|a l IH]; intros l'; simpl; [by intros [= <-]|].
  destruct (f a) as [b|e]; simpl; [|done]. destruct (rmap f l) as [bs|e]; simpl; [|done].
  intros [= <-]. simpl. by rewrite (IH bs).
Qed.

Lemma rmap_ok {A B} (f : A → res B) (g : A → B) l :
  Forall (λ a, f a = Ok (g a)) l → rmap f l = Ok (g <$> l).
Proof. induction 1 as [|a l Ha _ IH]; simpl; [done|]. by rewrite Ha, IH. Qed.

Lemma rmap_snoc {A B} (f : A → res B) l a bs b :
  rmap f l = Ok bs → f a = Ok b → rmap f (l ++ [a]) = Ok (bs ++ [b])%list.
Proof.
  revert bs. induction l as [|x l IH]; intros bs; simpl.
  - by intros [= <-] ->.
  - destruct (f x) as [y|e]; simpl; [|done]. destruct (rmap f l) as [ys|e]; simpl; [|done].
    intros [= <-] Ha. by rewrite (IH ys).
Qed.

Lemma rmap_ext {A B} (f g : A → res B) l : (∀ a, a ∈ l → f a = g a) → rmap f l = rmap g l.
Proof.
  induction l as [|a l IH]; intros H; simpl; [done|]. rewrite (H a) by (by left).
  rewrite IH; [done|]. intros b Hb. apply H. by right.
Qed.

Lemma rmap_fmap {A B C} (f : B → res C) (g : A → B) l : rmap f (g <$> l) = rmap (λ a, f (g a)) l.
Proof. induction l as [|a l IH]; [done|]. rewrite fmap_cons. simpl. by rewrite IH. Qed.

(** A loop that may raise: [for b in l: a = f(a, b)]. *)
Fixpoint rfold {A B} (f : A → B → res A) (a : A) (l : list B) : res A :=
  match l with [] => Ok a | b :: l' => a' ← f a b; rfold f a' l' end.

(** An invariant of such a loop, indexed by the elements it has processed. *)
Lemma rfold_inv {A B} (f : A → B → res A) (Φ : list B → A → Prop) l pre a a' :
  (∀ pre x b x', b ∈ l → Φ pre x → f x b = Ok x' → Φ (pre ++ [b])%list x') →
  Φ pre a → rfold f a l = Ok a' → Φ (pre ++ l)%list a'.
Proof.
  intros Hstep. revert pre a. induction l as [|b l IH]; intros pre a H; simpl.
  - intros [= <-]. by rewrite app_nil_r.
  - destruct (f a b) as [x|e] eqn:E; simpl; [|done]. intros Hr.
    replace (pre ++ b :: l)%list with ((pre ++ [b]) ++ l)%list by (by rewrite <- app_assoc).
    apply (IH ltac:(intros; eapply Hstep; [by right|done..]) _ x); [|done].
    eapply Hstep; [by left|done..].
Qed.

(** Iteration over a value; [iter_of] lists the elements of the objects that
    are no [list], [tuple], [dict] or [str]. *)
Definition key_value (k : option string) : pyval := match k with Some s => PStr s | None => POther end.

Definition py_iter (iter_of : pyval → res (list pyval)) (v : pyval) : res (list pyval) :=
  match v with
  | PSeq _ l => Ok l
  | PMap _ d => Ok (key_value <$> d.*1)
  | PStr s => Ok ((λ c, PStr (String c "")) <$> String.list_ascii_of_string s)
  | PBytes | POther => iter_of v
  | _ => Err (TypeError "object is not iterable")
  end.

(** [sum(l)]: [0] on an empty list; [py_sum] is the builtin on floats. *)
Definition sum_value (py_sum : list float → float) (l : list float) : pyval :=
  match l with [] => PInt 0 | _ => PFloat (py_sum l) end.

(** [round(v, digits)] of a number. *)
Definition round_value (digits : Z) (v : pyval) : pyval :=
  match v with PFloat x => PFloat (py_round digits x) | _ => v end.
