(* ===== verification/PySort.v ===== *)
(** Python's [list.sort] and the strict total orders its keys compare by. *)

From stdpp Require Import base strings list sets.
From Stdlib Require Import ZArith Lia Sorting.Sorted.
From S2P Require Import Prelude PyFloat.

(** [list.sort]: stable. *)
Fixpoint insert_sorted {A} (lt : A → A → bool) (x : A) (l : list A) : list A :=
  match l with
  | [] => [x]
  | y :: l' => if lt x y then x :: y :: l' else y :: insert_sorted lt x l'
  end.

Definition py_sort {A} (lt : A → A → bool) (l : list A) : list A :=
  fold_left (λ acc x, insert_sorted lt x acc) l [].

(** * Strict total orders *)

Class StrictTotal {A} (lt : A → A → Prop) : Prop := {
  st_asym : ∀ x y, lt x y → ¬ lt y x;
  st_negtrans : ∀ x y z, ¬ lt x y → ¬ lt y z → ¬ lt x z;
  st_ext : ∀ x y, ¬ lt x y → ¬ lt y x → x = y
}.

#[export] Instance Z_lt_total : StrictTotal Z.lt.
Proof. split; intros; lia. Qed.

#[export] Instance lex_lt_total : StrictTotal lex_lt.
Proof.
  split; unfold lex_lt.
  - intros [[??]?] [[??]?]. lia.
  - intros [[??]?] [[??]?] [[??]?]. lia.
  - intros [[??]?] [[??]?] ??. repeat f_equal; lia.
Qed.

Definition string_lt (a b : string) : Prop := String.ltb a b = true.

Lemma string_ltb_leb a b : String.ltb a b = negb (String.leb b a).
Proof.
  unfold String.ltb, String.leb. rewrite (String.compare_antisym b a).
  by destruct (String.compare a b).
Qed.

#[export] Instance string_lt_total : StrictTotal string_lt.
Proof.
  assert (∀ a b, ¬ string_lt a b ↔ String.le b a) as Hn.
  { intros a b. unfold string_lt. rewrite string_ltb_leb, negb_true_iff, not_false_iff_true.
    unfold String.le. by destruct (String.leb b a). }
  split.
  - intros x y Hxy Hyx. destruct (total String.le x y) as [H|H]; by apply Hn in H.
  - intros x y z. rewrite !Hn. intros. by transitivity y.
  - intros x y. rewrite !Hn. intros. by apply (anti_symm String.le).
Qed.

(** Pairs, by the first component and then by the second. *)
Definition lex {A B} (ltA : A → A → Prop) (ltB : B → B → Prop) (p q : A * B) : Prop :=
  ltA p.1 q.1 ∨ p.1 = q.1 ∧ ltB p.2 q.2.

Lemma st_irrefl {A} (lt : A → A → Prop) `{!StrictTotal lt} x : ¬ lt x x.
Proof. intros H. by apply (st_asym x x). Qed.

#[export] Instance lex_total {A B} (ltA : A → A → Prop) (ltB : B → B → Prop)
  `{!StrictTotal ltA, !StrictTotal ltB} : StrictTotal (lex ltA ltB).
Proof.
  split; unfold lex.
  - intros [a b] [a' b'] [H|[E H]] [H'|[E' H']]; simpl in *; subst.
    + by apply (st_asym a a').
    + by apply (st_irrefl ltA a).
    + by apply (st_irrefl ltA a').
    + by apply (st_asym b b').
  - intros [a b] [a' b'] [a'' b'']; simpl. intros H1 H2 [H|[-> H]].
    + assert (¬ ltA a a'') as Hn; [|done]. apply (st_negtrans a a' a''); tauto.
    + assert (a' = a'') as ->. { apply st_ext; tauto. }
      assert (¬ ltB b b'') as Hn; [|done]. apply (st_negtrans b b' b''); tauto.
  - intros [a b] [a' b']; simpl. intros H1 H2.
    assert (a = a') as -> by (apply st_ext; tauto). f_equal. apply st_ext; tauto.
Qed.

(** * Sorting *)

Lemma insert_sorted_perm {A} (lt : A → A → bool) x l : insert_sorted lt x l ≡ₚ x :: l.
Proof.
  induction l as [|y l IH]; simpl; [done|]. destruct (lt x y); [done|].
  rewrite IH. apply Permutation_swap.
Qed.

Lemma py_sort_perm {A} (lt : A → A → bool) l : py_sort lt l ≡ₚ l.
Proof.
  unfold py_sort. assert (∀ acc, fold_left (λ acc x, insert_sorted lt x acc) l acc ≡ₚ l ++ acc) as H.
  { induction l as [|x l IH]; intros acc; simpl; [done|].
    rewrite IH, insert_sorted_perm. by rewrite <- Permutation_middle. }
  by rewrite H, app_nil_r.
Qed.

(** A boolean order that a key reflects into a strict total order, on the
    elements that satisfy [P]. *)
Section sorting.
Context {A K : Type} (lt : A → A → bool) (key : A → K) (ltK : K → K → Prop)
  `{!StrictTotal ltK} (P : A → Prop).
Hypothesis lt_key : ∀ x y, P x → P y → lt x y = true ↔ ltK (key x) (key y).

Definition ranked (x y : A) : Prop := lt y x = false.

Lemma ranked_key x y : P x → P y → ranked x y ↔ ¬ ltK (key y) (key x).
Proof. intros Hx Hy. unfold ranked. by rewrite <- not_true_iff_false, lt_key. Qed.

Lemma ranked_trans x y z : P x → P y → P z → ranked x y → ranked y z → ranked x z.
Proof.
  intros Hx Hy Hz. rewrite !ranked_key by done. intros H1 H2. by eapply st_negtrans.
Qed.

Lemma insert_sorted_sorted x l :
  P x → Forall P l → StronglySorted ranked l → StronglySorted ranked (insert_sorted lt x l).
Proof.
  intros Hx. induction l as [|y l IH]; intros HP Hs; simpl; [repeat constructor|].
  apply Forall_cons in HP as [Hy HP]. apply StronglySorted_inv in Hs as [Hs Hall].
  destruct (lt x y) eqn:E.
  - assert (ranked x y) as Hxy.
    { apply ranked_key; [done|done|]. apply st_asym. by apply lt_key. }
    constructor; [by constructor|]. constructor; [done|].
    rewrite Forall_forall in *. intros z Hz. by apply (ranked_trans x y z); auto.
  - constructor; [by apply IH|]. rewrite insert_sorted_perm. constructor; [exact E|done].
Qed.

Lemma py_sort_sorted l : Forall P l → StronglySorted ranked (py_sort lt l).
Proof.
  intros HP. unfold py_sort.
  assert (∀ acc, Forall P acc → StronglySorted ranked acc →
    StronglySorted ranked (fold_left (λ acc x, insert_sorted lt x acc) l acc)) as H.
  { induction HP as [|x l Hx _ IH]; intros acc Hacc Hs; simpl; [done|]. apply IH.
    - rewrite insert_sorted_perm. by constructor.
    - by apply insert_sorted_sorted. }
  apply H; constructor.
Qed.
End sorting.

(** Two sorted lists with the same elements are equal when the key separates
    the elements. *)
Lemma sorted_unique {A K} (key : A → K) (ltK : K → K → Prop) `{!StrictTotal ltK} (l l' : list A) :
  l ≡ₚ l' → NoDup (key <$> l) →
  StronglySorted (λ x y, ¬ ltK (key y) (key x)) l →
  StronglySorted (λ x y, ¬ ltK (key y) (key x)) l' → l = l'.
Proof.
  revert l'. induction l as [|x l IH]; intros l' Hp Hnd Hs Hs'.
  { by apply Permutation_nil_l in Hp. }
  destruct l' as [|y l']; [by apply symmetry, Permutation_nil_l in Hp|].
  apply StronglySorted_inv in Hs as [Hs Hx], Hs' as [Hs' Hy].
  apply NoDup_cons in Hnd as [Hn Hnd]. rewrite Forall_forall in Hx, Hy.
  assert (x = y) as ->.
  { assert (x ∈ y :: l') as [->|Hx']%elem_of_cons by (rewrite <- Hp; by left); [done|].
    assert (y ∈ x :: l) as [->|Hy']%elem_of_cons by (rewrite Hp; by left); [done|].
    destruct Hn. rewrite (st_ext (key x) (key y)); [by apply list_elem_of_fmap_2|by apply Hy|by apply Hx]. }
  f_equal. apply IH; [by eapply Permutation_cons_inv|done..].
Qed.

Lemma StronglySorted_mono {A} (R R' : A → A → Prop) l :
  (∀ x y, R x y → R' x y) → StronglySorted R l → StronglySorted R' l.
Proof.
  intros HR. induction 1 as [|x l _ IH Hx]; constructor; [done|]. eapply Forall_impl; [done|]. auto.
Qed.

(** Sorting by a text. *)
Lemma py_sort_text {A} (f : A → string) l :
  StronglySorted (λ x y, ¬ string_lt (f y) (f x)) (py_sort (λ x y, String.ltb (f x) (f y)) l).
Proof.
  eapply StronglySorted_mono.
  2: apply (py_sort_sorted (λ x y, String.ltb (f x) (f y)) f string_lt (λ _, True));
     [done|by apply Forall_true].
  intros x y Hr. unfold ranked, string_lt in *. congruence.
Qed.
