(* ===== verification/TraceRuntime.v ===== *)
(** Addressable execution traces: [loopx/capabilities/explore/trace_runtime.py].

    [freeze_public_value] and [thaw_public_value] are the public-payload
    validator and its inverse; [AgentCursor], [TraceCursor] and [TraceEvent]
    are the frozen dataclasses with their [__post_init__] checks (the [mk_]
    functions); [TraceLog] is the append-only log with [append], [event] and
    [locked_cursor]. *)

From stdpp Require Import base strings list sets gmap.
From Stdlib Require Import ZArith Lia.
From S2P Require Import Prelude PyFloat PyValue.

Inductive TraceEventKind :=
| AGENT_CONTEXT | ACTION_INTENT | ACTION_OUTCOME | ENVIRONMENT_OBSERVATION
| VALIDATION | LIFECYCLE.

Definition TraceEventKind_value (k : TraceEventKind) : string :=
  match k with
  | AGENT_CONTEXT => "agent_context"
  | ACTION_INTENT => "action_intent"
  | ACTION_OUTCOME => "action_outcome"
  | ENVIRONMENT_OBSERVATION => "environment_observation"
  | VALIDATION => "validation"
  | LIFECYCLE => "lifecycle"
  end.

#[export] Instance TraceEventKind_eq_dec : EqDecision TraceEventKind.
Proof. solve_decision. Defined.

(** * Public payloads *)

Definition FORBIDDEN_PUBLIC_KEYS : list string :=
  ["adapter_state"; "credential"; "credentials"; "environment_state"; "file_path";
   "handle"; "live_handle"; "password"; "path"; "raw_screenshot"; "screenshot_bytes";
   "secret"; "software_state"; "token"].

Definition is_ascii_letter (c : Ascii.ascii) : bool :=
  let n := code c in ((65 <=? n) && (n <=? 90) || (97 <=? n) && (n <=? 122))%N.

Definition is_slash (c : Ascii.ascii) : bool :=
  let n := code c in ((n =? 47) || (n =? 92))%N.

(** The pattern of [_WINDOWS_ABSOLUTE_PATH]: a letter, a colon, a slash. *)
Definition WINDOWS_ABSOLUTE_PATH (s : string) : bool :=
  match s with
  | String a (String b (String c _)) =>
      is_ascii_letter a && (code b =? 58)%N && is_slash c
  | _ => false
  end.

Definition backslashes : string :=
  String (Ascii.ascii_of_N 92) (String (Ascii.ascii_of_N 92) "").

Definition is_absolute_path (s : string) : bool :=
  startswith "/" s || startswith backslashes s || WINDOWS_ABSOLUTE_PATH s.

Definition is_forbidden_key (k : string) : bool :=
  bool_decide (py_lower (py_strip k) ∈ FORBIDDEN_PUBLIC_KEYS).

Definition as_items (d : list (string * pyval)) : list (option string * pyval) :=
  (λ kv, (Some kv.1, kv.2)) <$> d.

(** The loop over a mapping, [frozen[raw_key] = freeze(child)]. *)
Definition freeze_items (freeze : string → pyval → res pyval) (field_path : string) :
    list (option string * pyval) → list (string * pyval) → res (list (string * pyval)) :=
  fix go items frozen :=
    match items with
    | [] => Ok frozen
    | (raw_key, child) :: items' =>
        match raw_key with
        | None | Some EmptyString =>
            Err (TypeError "public trace payload keys must be non-empty strings")
        | Some raw_key =>
            if is_forbidden_key raw_key
            then Err (ValueError
              ("adapter-owned or sensitive state must not enter public trace "
               ++ "payloads: " ++ field_path ++ "." ++ raw_key))
            else
              frozen_child ← freeze (field_path ++ "." ++ raw_key) child;
              go items' (dict_set raw_key frozen_child frozen)
        end
    end.

(** The tuple over a sequence, with the index in the field path. *)
Definition freeze_seq (freeze : string → pyval → res pyval) (field_path : string) :
    Z → list pyval → res (list pyval) :=
  fix go index items :=
    match items with
    | [] => Ok []
    | child :: items' =>
        frozen_child ← freeze (field_path ++ "[" ++ py_int index ++ "]") child;
        rest ← go (index + 1)%Z items';
        Ok (frozen_child :: rest)
    end.

Fixpoint freeze_public_value (field_path : string) (value : pyval) : res pyval :=
  match value with
  | PNone | PBool _ | PInt _ | PFloat _ => Ok value
  | PStr s =>
      if is_absolute_path s
      then Err (ValueError ("public trace payload must not contain absolute paths: "
                            ++ field_path))
      else Ok value
  | PBytes =>
      Err (TypeError ("public trace payload must not contain binary or path values: "
                      ++ field_path))
  | PMap _ items =>
      frozen ← freeze_items freeze_public_value field_path items [];
      Ok (PMap true (as_items frozen))
  | PSeq _ items =>
      frozen ← freeze_seq freeze_public_value field_path 0 items;
      Ok (PSeq true frozen)
  | POther =>
      Err (TypeError ("public trace payload values must be JSON-like scalars, mappings, or "
                      ++ "sequences: " ++ field_path))
  end.

Fixpoint thaw_public_value (value : pyval) : pyval :=
  match value with
  | PMap _ items => PMap false ((λ kv, (kv.1, thaw_public_value kv.2)) <$> items)
  | PSeq true items => PSeq false (thaw_public_value <$> items)
  | _ => value
  end.

Definition freeze_public_mapping (value : pyval) (field_path : string) : res pyval :=
  match value with
  | PMap _ items => freeze_public_value field_path (PMap false items)
  | _ => Err (TypeError (field_path ++ " must be a mapping"))
  end.

(** The freeze of a text field: [freeze_public_mapping({name: text})[name]]. *)
Definition freeze_public_text (name text field_path : string) : res string :=
  frozen ← freeze_public_mapping (PMap false [(Some name, PStr text)]) field_path;
  Ok (match frozen with PMap _ [(_, PStr s)] => s | _ => text end).

Definition require_nonempty_text (value field_name : string) : res string :=
  let normalized := py_strip value in
  if is_empty normalized
  then Err (ValueError (field_name ++ " must be non-empty"))
  else Ok normalized.

(** [require_nonempty_text] on a field of type [str | None]. *)
Definition require_optional_text (value : option string) (field_name : string)
  : res (option string) :=
  match value with
  | None => Ok None
  | Some s => t ← require_nonempty_text s field_name; Ok (Some t)
  end.

(** * Cursors and events *)

Record AgentCursor := {
  history_index : Z;
  history_digest : string;
  context_digest : string
}.

Definition mk_AgentCursor (c : AgentCursor) : res AgentCursor :=
  _ ← require (0 <=? history_index c)%Z (ValueError "history_index must be non-negative");
  hd ← require_nonempty_text (history_digest c) "history_digest";
  cd ← require_nonempty_text (context_digest c) "context_digest";
  Ok {| history_index := history_index c; history_digest := hd; context_digest := cd |}.

Record TraceCursor := {
  cur_trace_id : string;
  cur_branch_id : string;
  after_event_id : option string;
  next_sequence : Z;
  agent_cursor : AgentCursor
}.

Definition mk_TraceCursor (c : TraceCursor) : res TraceCursor :=
  t ← require_nonempty_text (cur_trace_id c) "trace_id";
  b ← require_nonempty_text (cur_branch_id c) "branch_id";
  a ← require_optional_text (after_event_id c) "after_event_id";
  _ ← require (0 <=? next_sequence c)%Z (ValueError "next_sequence must be non-negative");
  Ok {| cur_trace_id := t; cur_branch_id := b; after_event_id := a;
        next_sequence := next_sequence c; agent_cursor := agent_cursor c |}.

Record TraceEvent := {
  event_id : string;
  ev_trace_id : string;
  ev_branch_id : string;
  sequence : Z;
  parent_event_id : option string;
  kind : TraceEventKind;
  public_payload : pyval;
  action_id : option string;
  causation_id : option string;
  ev_replay_point_id : option string
}.

Definition mk_TraceEvent (e : TraceEvent) : res TraceEvent :=
  i ← require_nonempty_text (event_id e) "event_id";
  t ← require_nonempty_text (ev_trace_id e) "trace_id";
  b ← require_nonempty_text (ev_branch_id e) "branch_id";
  _ ← require (0 <=? sequence e)%Z (ValueError "sequence must be non-negative");
  p ← require_optional_text (parent_event_id e) "parent_event_id";
  a ← require_optional_text (action_id e) "action_id";
  c ← require_optional_text (causation_id e) "causation_id";
  r ← require_optional_text (ev_replay_point_id e) "replay_point_id";
  payload ← freeze_public_mapping (public_payload e) "public_payload";
  Ok {| event_id := i; ev_trace_id := t; ev_branch_id := b; sequence := sequence e;
        parent_event_id := p; kind := kind e; public_payload := payload;
        action_id := a; causation_id := c; ev_replay_point_id := r |}.

Definition opt_str (o : option string) : pyval :=
  match o with None => PNone | Some s => PStr s end.

Definition TraceEvent_to_record (e : TraceEvent) : list (string * pyval) :=
  [("event_id", PStr (event_id e));
   ("trace_id", PStr (ev_trace_id e));
   ("branch_id", PStr (ev_branch_id e));
   ("sequence", PInt (sequence e));
   ("parent_event_id", opt_str (parent_event_id e));
   ("kind", PStr (TraceEventKind_value (kind e)));
   ("action_id", opt_str (action_id e));
   ("causation_id", opt_str (causation_id e));
   ("replay_point_id", opt_str (ev_replay_point_id e));
   ("public_payload", thaw_public_value (public_payload e))].

(** * The trace log *)

Record TraceLog := {
  trace_id : string;
  branch_id : string;
  events : list TraceEvent;
  event_ids : gset string
}.

Definition mk_TraceLog (tid bid : string) : res TraceLog :=
  t ← require_nonempty_text tid "trace_id";
  b ← require_nonempty_text bid "branch_id";
  Ok {| trace_id := t; branch_id := b; events := []; event_ids := ∅ |}.

(** [TraceLog.event]: the first event with that identifier. *)
Definition find_event (t : TraceLog) (id : string) : res TraceEvent :=
  id ← require_nonempty_text id "event_id";
  match list_find (λ e, event_id e = id) (events t) with
  | Some (_, e) => Ok e
  | None => Err (KeyError ("unknown trace event_id: " ++ id))
  end.

Definition head_event_id (t : TraceLog) : option string :=
  event_id <$> last (events t).

Definition validate_append_unlocked (t : TraceLog) (e : TraceEvent) : res unit :=
  _ ← require (bool_decide (ev_trace_id e = trace_id t) && bool_decide (ev_branch_id e = branch_id t))
        (ValueError "trace event does not belong to this trace branch");
  _ ← require (negb (bool_decide (event_id e ∈ event_ids t)))
        (ValueError ("trace event_id is duplicated: " ++ py_repr (event_id e)));
  let expected_sequence := Z.of_nat (length (events t)) in
  _ ← require (sequence e =? expected_sequence)%Z
        (ValueError ("trace sequence must be contiguous: expected " ++ py_int expected_sequence
                     ++ ", got " ++ py_int (sequence e)));
  let expected_parent := head_event_id t in
  require (bool_decide (parent_event_id e = expected_parent))
    (ValueError ("trace parent_event_id must name the current branch head: expected "
                 ++ py_repr_opt expected_parent ++ ", got " ++ py_repr_opt (parent_event_id e))).

Definition append_unlocked (t : TraceLog) (e : TraceEvent) : res TraceLog :=
  _ ← validate_append_unlocked t e;
  Ok {| trace_id := trace_id t; branch_id := branch_id t;
        events := (events t ++ [e])%list; event_ids := event_ids t ∪ {[ event_id e ]} |}.

(** [TraceLog.append]: the same under the log's lock. *)
Definition append (t : TraceLog) (e : TraceEvent) : res TraceLog := append_unlocked t e.

(** The cursor that [locked_cursor] yields: the head of the branch. *)
Definition locked_cursor (t : TraceLog) (ac : AgentCursor) : res TraceCursor :=
  mk_TraceCursor {| cur_trace_id := trace_id t; cur_branch_id := branch_id t;
                    after_event_id := head_event_id t;
                    next_sequence := Z.of_nat (length (events t)); agent_cursor := ac |}.

(** * Correctness of public payloads *)

Definition public_key (k : option string) : bool :=
  match k with
  | None => false
  | Some k => negb (is_empty k) && negb (is_forbidden_key k)
  end.

(** What may enter a public record: JSON-like scalars other than absolute
    paths, sequences, and mappings with non-empty, permitted [str] keys. *)
Fixpoint public_safe (v : pyval) : bool :=
  match v with
  | PNone | PBool _ | PInt _ | PFloat _ => true
  | PStr s => negb (is_absolute_path s)
  | PBytes | POther => false
  | PMap _ items => forallb (λ kv, public_key kv.1 && public_safe kv.2) items
  | PSeq _ items => forallb public_safe items
  end.

(** Every container is an immutable one. *)
Fixpoint frozen_val (v : pyval) : bool :=
  match v with
  | PMap fz items => fz && forallb (λ kv, frozen_val kv.2) items
  | PSeq fz items => fz && forallb frozen_val items
  | _ => true
  end.

(** The same value with [dict]s and [list]s throughout. *)
Fixpoint json_val (v : pyval) : pyval :=
  match v with
  | PMap _ items => PMap false ((λ kv, (kv.1, json_val kv.2)) <$> items)
  | PSeq _ items => PSeq false (json_val <$> items)
  | _ => v
  end.

Lemma require_nonempty_text_spec s f t :
  require_nonempty_text s f = Ok t ↔ t = py_strip s ∧ py_strip s ≠ "".
Proof.
  unfold require_nonempty_text. destruct (is_empty (py_strip s)) eqn:E.
  - apply is_empty_spec in E. naive_solver.
  - apply is_empty_false in E. naive_solver.
Qed.

Definition normalized (s : string) : Prop := py_strip s = s ∧ s ≠ "".

Lemma require_nonempty_text_normalized s f t :
  require_nonempty_text s f = Ok t → normalized t.
Proof.
  rewrite require_nonempty_text_spec. intros [-> H]. split; [apply py_strip_idem|done].
Qed.

Lemma normalized_require s f : normalized s → require_nonempty_text s f = Ok s.
Proof. intros [H1 H2]. apply require_nonempty_text_spec. by rewrite H1. Qed.

Lemma normalized_require_optional o f :
  (∀ s, o = Some s → normalized s) → require_optional_text o f = Ok o.
Proof.
  destruct o as [s|]; simpl; [|done]. intros H. by rewrite (normalized_require s) by auto.
Qed.

#[export] Hint Resolve require_nonempty_text_normalized normalized_require : loopx.

Lemma forallb_elem_of {A} (f : A → bool) l : forallb f l = true ↔ ∀ x, x ∈ l → f x = true.
Proof. rewrite forallb_forall. by setoid_rewrite list_elem_of_In. Qed.

Section freeze_loops.
Variable fz : string → pyval → res pyval.

(** The mapping loop succeeds exactly when every key is public and every child
    freezes, and then appends the frozen children in order. *)
Lemma freeze_items_Ok (path : string) items acc out :
  NoDup (items.*1) → (∀ k, Some k ∈ items.*1 → dict_get k acc = None) →
  freeze_items fz path items acc = Ok out →
  ∃ ext, out = (acc ++ ext)%list ∧ forallb (λ kv, public_key kv.1) items = true ∧
    Forall2 (λ kv ke, kv.1 = Some ke.1 ∧ ∃ q, fz q kv.2 = Ok ke.2) items ext.
Proof.
  revert acc. induction items as [|[k c] items IH]; intros acc Hnd Hfresh; simpl.
  - intros [= ->]. exists []. rewrite app_nil_r. by repeat split.
  - destruct k as [k|]; [|done]. destruct k as [|a k0]; [done|].
    set (k := String a k0) in *.
    destruct (is_forbidden_key k) eqn:Ek; [done|].
    intros H. inv_res. rename H0 into Hc.
    apply NoDup_cons in Hnd as [Hk Hnd].
    rewrite dict_set_fresh in H by (apply Hfresh; set_solver).
    apply IH in H as (ext & -> & Hkeys & Hext); [|done|].
    + exists ((k, x) :: ext). rewrite <- app_assoc. split_and!; [done| |].
      * simpl. rewrite Ek. simpl. by rewrite Hkeys.
      * constructor; [simpl; eauto|done].
    + intros k' Hk'. apply dict_get_None.
      unfold dict_keys. rewrite fmap_app, elem_of_app. intros [Hin|Hin].
      * assert (dict_get k' acc = None) as Hn by (apply Hfresh; set_solver).
        by apply dict_get_None in Hn.
      * simpl in Hin. apply list_elem_of_singleton in Hin as ->. done.
Qed.

Lemma freeze_seq_Ok (path : string) i items out :
  freeze_seq fz path i items = Ok out → Forall2 (λ v w, ∃ q, fz q v = Ok w) items out.
Proof.
  revert i out. induction items as [|c items IH]; intros i out; simpl.
  - intros [= <-]. constructor.
  - intros H. inv_res. constructor; eauto.
Qed.

Lemma freeze_items_total (path : string) items acc :
  forallb (λ kv, public_key kv.1) items = true →
  Forall (λ kv, ∀ q, ∃ w, fz q kv.2 = Ok w) items →
  ∃ out, freeze_items fz path items acc = Ok out.
Proof.
  revert acc. induction items as [|[k c] items IH]; intros acc Hk Hall; simpl; [eauto|].
  simpl in Hk. apply andb_true_iff in Hk as [Hk Hks].
  apply Forall_cons in Hall as [Hc Hall].
  destruct k as [[|a k0]|]; simpl in Hk; try done.
  apply negb_true_iff in Hk. rewrite Hk.
  destruct (Hc (path ++ "." ++ String a k0)) as [w Hw]. simpl in Hw. rewrite Hw. simpl.
  by apply IH.
Qed.

Lemma freeze_seq_total (path : string) i items :
  Forall (λ v, ∀ q, ∃ w, fz q v = Ok w) items → ∃ out, freeze_seq fz path i items = Ok out.
Proof.
  revert i. induction items as [|c items IH]; intros i Hall; simpl; [eauto|].
  apply Forall_cons in Hall as [Hc Hall].
  destruct (Hc (path ++ "[" ++ py_int i ++ "]")) as [w Hw]. rewrite Hw. simpl.
  destruct (IH (i + 1)%Z Hall) as [out Ho]. rewrite Ho. simpl. eauto.
Qed.
End freeze_loops.

Lemma as_items_keys d : (as_items d).*1 = Some <$> d.*1.
Proof. unfold as_items. rewrite <- !list_fmap_compose. by apply list_fmap_ext. Qed.

(** [w] is a faithful frozen copy of [v]. *)
Definition frozen_copy (v w : pyval) : Prop :=
  public_safe v = true ∧ frozen_val w = true ∧ public_safe w = true ∧
  thaw_public_value w = json_val v ∧ wf_val w.

Lemma frozen_copy_map fz items ext :
  NoDup items.*1 → forallb (λ kv, public_key kv.1) items = true →
  Forall2 (λ kv ke, kv.1 = Some ke.1 ∧ frozen_copy kv.2 ke.2) items ext →
  frozen_copy (PMap fz items) (PMap true (as_items ext)).
Proof.
  intros Hnd Hk Hall.
  assert (items.*1 = (as_items ext).*1 ∧
          forallb (λ kv, public_key kv.1 && public_safe kv.2) items = true ∧
          forallb (λ kv, frozen_val kv.2) (as_items ext) = true ∧
          forallb (λ kv, public_key kv.1 && public_safe kv.2) (as_items ext) = true ∧
          (λ kv, (kv.1, thaw_public_value kv.2)) <$> (as_items ext)
            = (λ kv, (kv.1, json_val kv.2)) <$> items ∧
          Forall (λ kv, wf_val kv.2) (as_items ext)) as (Hkeys & H1 & H2 & H3 & H4 & H5).
  { clear Hnd. induction Hall as [|[k v] [k' w] l l' [Hkv (G1 & G2 & G3 & G4 & G5)] _ IH];
      simpl in *; [by repeat constructor|]. subst k.
    apply andb_true_iff in Hk as [Hk1 Hk2].
    destruct (IH Hk2) as (K & H1 & H2 & H3 & H4 & H5).
    change (as_items ((k', w) :: l')) with ((Some k', w) :: as_items l').
    simpl in Hk1. split_and!; simpl; rewrite ?Hk1, ?G1, ?G2, ?G3, ?G4; try done.
    - by f_equal.
    - by f_equal.
    - by constructor. }
  unfold frozen_copy. cbn [public_safe frozen_val thaw_public_value json_val].
  rewrite H4. split_and!; [done|by rewrite H2|done|done|].
  apply wf_map_iff. by rewrite <- Hkeys.
Qed.

Lemma frozen_copy_seq fz items out :
  Forall2 frozen_copy items out → frozen_copy (PSeq fz items) (PSeq true out).
Proof.
  intros Hall.
  assert (forallb public_safe items = true ∧ forallb frozen_val out = true ∧
          forallb public_safe out = true ∧ thaw_public_value <$> out = json_val <$> items ∧
          Forall wf_val out) as (H1 & H2 & H3 & H4 & H5).
  { induction Hall as [|v w l l' (G1 & G2 & G3 & G4 & G5) _ (H1 & H2 & H3 & H4 & H5)]; simpl;
      [by repeat constructor|].
    split_and!; rewrite ?G1, ?G2, ?G3, ?G4; try done; [by f_equal|by constructor]. }
  unfold frozen_copy. cbn [public_safe frozen_val thaw_public_value json_val].
  rewrite H4. split_and!; [done|by rewrite H2|done|done|by apply wf_seq_iff].
Qed.

Lemma freeze_public_value_Ok v : wf_val v → ∀ p w, freeze_public_value p v = Ok w →
  frozen_copy v w.
Proof.
  induction v as [| | | |s| |fz items IH|fz items IH|] using pyval_ind'; intros Hwf p w; simpl;
    try (by intros [= <-]); try done.
  - destruct (is_absolute_path s) eqn:E; [done|]. intros [= <-].
    unfold frozen_copy. simpl. by rewrite E.
  - intros (out & H & [= <-])%res_bind_Ok. apply wf_map_iff in Hwf as [Hnd Hwf].
    apply freeze_items_Ok in H as (ext & -> & Hk & Hall); [|done|done].
    apply frozen_copy_map; [done|done|]. clear Hnd Hk.
    induction Hall as [|kv ke l l' [Hk [q Hq]] _ IHl]; [constructor|].
    apply Forall_cons in IH as [IH1 IH2]. apply Forall_cons in Hwf as [Hw1 Hw2].
    constructor; eauto.
  - intros (out & H & [= <-])%res_bind_Ok. apply wf_seq_iff in Hwf.
    apply freeze_seq_Ok in H. apply frozen_copy_seq.
    induction H as [|x w l l' [q Hq] _ IHl]; [constructor|].
    apply Forall_cons in IH as [IH1 IH2]. apply Forall_cons in Hwf as [Hw1 Hw2].
    constructor; eauto.
Qed.

Lemma freeze_public_value_total v : public_safe v = true →
  ∀ p, ∃ w, freeze_public_value p v = Ok w.
Proof.
  induction v as [| | | |s| |fz items IH|fz items IH|] using pyval_ind'; simpl; intros Hs p;
    try done; eauto.
  - apply negb_true_iff in Hs. rewrite Hs. eauto.
  - destruct (freeze_items_total freeze_public_value p items []) as [out ->]; simpl; [| |eauto].
    + clear IH. induction items as [|kv items IHi]; simpl in *; [done|].
      apply andb_true_iff in Hs as [[H1 _]%andb_true_iff H2]. by rewrite H1, IHi.
    + induction items as [|kv items IHi]; simpl in *; constructor.
      * apply andb_true_iff in Hs as [[_ H1]%andb_true_iff _].
        apply Forall_cons in IH as [IH _]. auto.
      * apply andb_true_iff in Hs as [_ H2]. apply Forall_cons in IH as [_ IH]. auto.
  - destruct (freeze_seq_total freeze_public_value p 0 items) as [out ->]; simpl; [|eauto].
    induction items as [|v items IHi]; simpl in *; constructor;
      apply andb_true_iff in Hs as [H1 H2]; apply Forall_cons in IH as [IH1 IH2]; auto.
Qed.

(** A successful mapping loop has seen only public keys and freezable
    children, also when a key is repeated. *)
Lemma freeze_items_safe path items acc out :
  Forall (λ kv, ∀ p w, freeze_public_value p kv.2 = Ok w → public_safe kv.2 = true) items →
  freeze_items freeze_public_value path items acc = Ok out →
  forallb (λ kv, public_key kv.1 && public_safe kv.2) items = true.
Proof.
  intros Hall. revert acc. induction Hall as [|[k c] items Hc _ IH]; intros acc; simpl; [done|].
  destruct k as [[|a k0]|]; try done.
  destruct (is_forbidden_key (String a k0)) eqn:Ek; [done|].
  intros (w & Hw & H)%res_bind_Ok. simpl in *. rewrite Ek, (Hc _ _ Hw). simpl. eauto.
Qed.

Lemma freeze_public_value_safe v : ∀ p w, freeze_public_value p v = Ok w → public_safe v = true.
Proof.
  induction v as [| | | |s| |fz items IH|fz items IH|] using pyval_ind'; intros p w; simpl;
    try done.
  - by destruct (is_absolute_path s).
  - intros (out & H & _)%res_bind_Ok. by eapply freeze_items_safe.
  - intros (out & H & _)%res_bind_Ok. apply freeze_seq_Ok in H.
    induction H as [|x y l l' [q Hq] _ IHl]; simpl; [done|].
    apply Forall_cons in IH as [IH1 IH2]. by rewrite (IH1 _ _ Hq), IHl.
Qed.

(** * Correctness of the trace log *)

(** An event built by the dataclass constructor. *)
Definition valid_event (e : TraceEvent) : Prop := ∃ raw, mk_TraceEvent raw = Ok e.

Lemma valid_event_id e : valid_event e → normalized (event_id e).
Proof.
  intros [raw H]. unfold mk_TraceEvent in H. inv_res.
  eauto using require_nonempty_text_normalized.
Qed.

Lemma valid_event_payload e raw :
  mk_TraceEvent raw = Ok e → public_safe (public_payload raw) = true.
Proof.
  unfold mk_TraceEvent. intros H. inv_res.
  match goal with H : freeze_public_mapping _ _ = Ok _ |- _ => rename H into Hf end.
  destruct (public_payload raw); try discriminate Hf. simpl in Hf.
  by apply (freeze_public_value_safe (PMap false items)) in Hf.
Qed.

(** The well-formed logs: contiguous sequence numbers, a parent chain, one
    branch, and an identifier set that mirrors the events. *)
Record trace_wf (t : TraceLog) : Prop := {
  tw_trace : normalized (trace_id t);
  tw_branch : normalized (branch_id t);
  tw_ids : event_ids t = list_to_set (event_id <$> events t);
  tw_nodup : NoDup (event_id <$> events t);
  tw_event : ∀ i e, events t !! i = Some e →
    valid_event e ∧ ev_trace_id e = trace_id t ∧ ev_branch_id e = branch_id t ∧
    sequence e = Z.of_nat i ∧
    parent_event_id e = event_id <$> (if i is S j then events t !! j else None)
}.

Inductive trace_reachable : TraceLog → Prop :=
| trace_init tid bid t : mk_TraceLog tid bid = Ok t → trace_reachable t
| trace_append t e t' :
    trace_reachable t → valid_event e → append t e = Ok t' → trace_reachable t'.

Lemma validate_append_Ok t e :
  validate_append_unlocked t e = Ok tt ↔
  ev_trace_id e = trace_id t ∧ ev_branch_id e = branch_id t ∧ event_id e ∉ event_ids t ∧
  sequence e = Z.of_nat (length (events t)) ∧ parent_event_id e = head_event_id t.
Proof.
  unfold validate_append_unlocked. rewrite !res_bind_Ok. split.
  - intros (u1 & H1 & (u2 & H2 & (u3 & H3 & H4)%res_bind_Ok)%res_bind_Ok).
    apply require_Ok in H1, H2, H3, H4.
    apply andb_true_iff in H1 as [?%bool_decide_eq_true ?%bool_decide_eq_true].
    apply negb_true_iff, bool_decide_eq_false in H2.
    apply Z.eqb_eq in H3. apply bool_decide_eq_true in H4. done.
  - intros (H1 & H2 & H3 & H4 & H5). exists tt.
    rewrite !bool_decide_true, bool_decide_false by done. simpl.
    split; [done|]. rewrite H4, Z.eqb_refl. simpl. by rewrite ?bool_decide_true.
Qed.

Lemma append_Ok t e t' :
  append t e = Ok t' →
  validate_append_unlocked t e = Ok tt ∧ trace_id t' = trace_id t ∧ branch_id t' = branch_id t ∧
  events t' = (events t ++ [e])%list ∧ event_ids t' = event_ids t ∪ {[ event_id e ]}.
Proof.
  unfold append, append_unlocked. intros ([] & H & [= <-])%res_bind_Ok. done.
Qed.

Lemma trace_wf_append t e t' :
  trace_wf t → valid_event e → append t e = Ok t' → trace_wf t'.
Proof.
  intros [Ht Hb Hids Hnd Hev] Hval (Hv & H1 & H2 & H3 & H4)%append_Ok.
  apply validate_append_Ok in Hv as (V1 & V2 & V3 & V4 & V5).
  split; rewrite ?H1, ?H2, ?H3, ?H4; try done.
  - rewrite Hids, fmap_app, list_to_set_app_L. simpl. set_solver.
  - rewrite fmap_app. apply NoDup_app. split_and!; [done| |apply NoDup_singleton].
    rewrite Hids in V3. intros x Hx ->%list_elem_of_singleton.
    apply V3. by apply elem_of_list_to_set.
  - intros i e0 He. destruct (decide (i < length (events t))) as [Hlt|Hge].
    + rewrite lookup_app_l in He by done. destruct (Hev _ _ He) as (?&?&?&?&Hp).
      repeat split; [done|congruence|congruence|done|]. rewrite Hp.
      destruct i as [|j]; [done|]. by rewrite lookup_app_l by lia.
    + rewrite lookup_app_r in He by lia.
      assert (i = length (events t)) as -> by (apply lookup_lt_Some in He; simpl in He; lia).
      rewrite Nat.sub_diag in He. injection He as <-.
      repeat split; [done|congruence|congruence|done|].
      rewrite V5. unfold head_event_id. rewrite last_lookup.
      destruct (length (events t)) as [|n] eqn:El; simpl.
      * by apply nil_length_inv in El as ->.
      * by rewrite lookup_app_l by lia.
Qed.

Lemma trace_reachable_wf t : trace_reachable t → trace_wf t.
Proof.
  induction 1 as [tid bid t H|t e t' _ IH Hv H].
  - unfold mk_TraceLog in H. inv_res.
    split; simpl; eauto using require_nonempty_text_normalized, NoDup_nil_2; set_solver.
  - eauto using trace_wf_append.
Qed.

(** Looking an event up by its identifier returns that event. *)
Lemma find_event_Some t i e :
  trace_wf t → events t !! i = Some e → find_event t (event_id e) = Ok e.
Proof.
  intros Hwf He. unfold find_event.
  rewrite normalized_require by (apply valid_event_id; by eapply tw_event).
  simpl. destruct (list_find _ _) as [[j e']|] eqn:Hf.
  - apply list_find_Some in Hf as (Hj & Hid & _).
    f_equal. pose proof (tw_nodup _ Hwf) as Hnd.
    assert (i = j) as ->; [|congruence].
    eapply NoDup_lookup; [exact Hnd| |]; rewrite list_lookup_fmap.
    + by rewrite He.
    + by rewrite Hj, <- Hid.
  - exfalso. apply list_find_None in Hf. rewrite Forall_lookup in Hf.
    by apply (Hf _ _ He).
Qed.

Lemma find_event_Ok t id e :
  find_event t id = Ok e → ∃ i, events t !! i = Some e ∧ event_id e = py_strip id.
Proof.
  unfold find_event. intros (id' & Hid & H)%res_bind_Ok.
  apply require_nonempty_text_spec in Hid as [-> _].
  destruct (list_find _ _) as [[j e']|] eqn:Hf; [|done].
  injection H as ->. apply list_find_Some in Hf as (Hj & He & _). eauto.
Qed.

(** * Properties *)

(** A payload is accepted by the public-record validator exactly when it
    holds only JSON-like values, permitted non-empty string keys and no
    absolute path, at every depth. *)
Theorem freeze_public_value_iff v p :
  (∃ w, freeze_public_value p v = Ok w) ↔ public_safe v = true.
Proof.
  split; [intros [w H]; by eapply freeze_public_value_safe|].
  intros H. by apply freeze_public_value_total.
Qed.

(** Freezing keeps the content: the frozen copy of a payload is immutable
    throughout, is itself public-safe, and thawing it gives the payload back
    as plain dicts and lists. *)
Theorem freeze_thaw_roundtrip v p w :
  wf_val v → freeze_public_value p v = Ok w →
  frozen_val w = true ∧ public_safe w = true ∧ thaw_public_value w = json_val v.
Proof. intros Hwf H. by destruct (freeze_public_value_Ok v Hwf p w H) as (_&?&?&?&_). Qed.

Lemma freeze_thaw_roundtrip_witness :
  let v := PMap false [(Some "outcome", PSeq false [PInt 3; PStr "a/b"]); (Some "ok", PBool true)] in
  ∃ w, freeze_public_value "p" v = Ok w ∧ thaw_public_value w = v.
Proof.
  eexists. split; [vm_compute; reflexivity|].
  refine (proj2 (proj2 (freeze_thaw_roundtrip
    (PMap false [(Some "outcome", PSeq false [PInt 3; PStr "a/b"]); (Some "ok", PBool true)])
    "p" _ _ _))).
  - apply wf_map_iff. split; [repeat (constructor; [set_solver|]); constructor|repeat constructor].
  - vm_compute. reflexivity.
Defined.

(** In every log that appends can build, the i-th event carries sequence
    number i, names its predecessor as parent, belongs to the log's branch,
    and is the event that a lookup of its identifier returns. *)
Theorem trace_addressable t i e :
  trace_reachable t → events t !! i = Some e →
  sequence e = Z.of_nat i ∧
  parent_event_id e = event_id <$> (if i is S j then events t !! j else None) ∧
  ev_trace_id e = trace_id t ∧ ev_branch_id e = branch_id t ∧
  find_event t (event_id e) = Ok e.
Proof.
  intros Hr He. apply trace_reachable_wf in Hr as Hwf.
  destruct (tw_event _ Hwf _ _ He) as (?&?&?&?&?).
  repeat split; try done. by eapply find_event_Some.
Qed.

Definition example_event (i : string) (n : Z) (p : option string) : TraceEvent :=
  {| event_id := i; ev_trace_id := "t"; ev_branch_id := "b"; sequence := n;
     parent_event_id := p; kind := VALIDATION; public_payload := PMap true [];
     action_id := None; causation_id := None; ev_replay_point_id := None |}.

Definition example_trace : TraceLog :=
  {| trace_id := "t"; branch_id := "b";
     events := [example_event "e0" 0 None; example_event "e1" 1 (Some "e0")];
     event_ids := {[ "e0" ]} ∪ {[ "e1" ]} |}.

Lemma example_trace_reachable : trace_reachable example_trace.
Proof.
  eapply (trace_append _ (example_event "e1" 1 (Some "e0"))).
  - eapply (trace_append _ (example_event "e0" 0 None)).
    + by apply (trace_init "t" "b").
    + by exists (example_event "e0" 0 None).
    + vm_compute. reflexivity.
  - by exists (example_event "e1" 1 (Some "e0")).
  - vm_compute. reflexivity.
Qed.

Lemma trace_addressable_witness :
  find_event example_trace "e1" = Ok (example_event "e1" 1 (Some "e0")).
Proof.
  exact (proj2 (proj2 (proj2 (proj2
    (trace_addressable example_trace 1 _ example_trace_reachable eq_refl))))).
Defined.
