(* ===== verification/ReplayMetrics.v ===== *)
(** The metric ledger: [loopx/capabilities/explore/replay_metrics.py]
    ([_COUNT_FIELDS], [_MINUTE_FIELDS] and [ReplayMetricLedger]; the summary of
    counterfactual results is modelled beside those results). *)

From stdpp Require Import base strings list sets gmap sorting.
From Stdlib Require Import ZArith Lia.
From S2P Require Import Prelude PyFloat PyValue.

Definition COUNT_FIELDS : list string := [
  "capture_attempt_count";
  "capture_success_count";
  "capture_failure_count";
  "capture_compensation_count";
  "capture_compensation_failure_count";
  "orphaned_adapter_binding_count";
  "orphaned_agent_state_count";
  "replacement_capture_attempt_count";
  "replacement_capture_success_count";
  "replacement_capture_failure_count";
  "replacement_projection_mismatch_count";
  "replay_point_selection_count";
  "replay_point_fidelity_fallback_count";
  "replay_point_fidelity_filtered_selection_count";
  "child_group_attempt_count";
  "child_group_success_count";
  "child_group_failure_count";
  "child_group_settled_count";
  "child_candidate_success_count";
  "child_candidate_failure_count";
  "child_parallel_group_count";
  "child_process_isolated_parallel_group_count";
  "child_parallel_downgrade_group_count";
  "child_serial_fallback_group_count";
  "child_session_fork_attempt_count";
  "child_session_fork_success_count";
  "child_session_fork_failure_count";
  "child_session_release_attempt_count";
  "child_session_release_success_count";
  "child_session_release_failure_count";
  "child_intent_assessment_count";
  "child_intent_allowed_count";
  "child_intent_denied_count";
  "child_outcome_assessment_count";
  "child_outcome_allowed_count";
  "child_outcome_denied_count";
  "replay_attempt_count";
  "replay_success_count";
  "replay_failure_count";
  "restore_attempt_count";
  "restore_success_count";
  "restore_failure_count";
  "prefix_reuse_verified_count";
  "prefix_reconstruction_count";
  "prefix_reuse_unknown_count";
  "equivalence_attempt_count";
  "equivalence_verified_count";
  "equivalence_unverified_count";
  "equivalence_failure_count";
  "suffix_attempt_count";
  "suffix_success_count";
  "suffix_failure_count";
  "suffix_finalization_attempt_count";
  "suffix_finalization_success_count";
  "suffix_finalization_failure_count";
  "replay_point_quarantine_count";
  "release_attempt_count";
  "release_success_count";
  "release_failure_count"].

Definition MINUTE_FIELDS : list string := [
  "capture_minutes";
  "restore_minutes";
  "equivalence_minutes";
  "suffix_minutes";
  "replay_wall_minutes";
  "release_minutes"].

Definition mem_str (s : string) (l : list string) : bool := existsb (String.eqb s) l.

(** The three [Counter]s of the ledger; a missing key counts zero. *)
Record ReplayMetricLedger := {
  counts : gmap string Z;
  minutes : gmap string float;
  fidelity_counts : gmap string Z
}.

Definition empty_ledger : ReplayMetricLedger :=
  {| counts := ∅; minutes := ∅; fidelity_counts := ∅ |}.

Definition count (l : ReplayMetricLedger) (field : string) : Z := default 0%Z (counts l !! field).
Definition minute (l : ReplayMetricLedger) (field : string) : float :=
  default f0 (minutes l !! field).

Definition bump (field : string) (amount : Z) (l : ReplayMetricLedger) : ReplayMetricLedger :=
  {| counts := <[field := (count l field + amount)%Z]> (counts l);
     minutes := minutes l; fidelity_counts := fidelity_counts l |}.

Definition increment (field : string) (amount : Z) : M ReplayMetricLedger unit :=
  _ ← ensure (mem_str field COUNT_FIELDS)
        (ValueError ("unknown replay count metric: " ++ field));
  modify (bump field amount).

Definition add_seconds (field : string) (seconds : float) : M ReplayMetricLedger unit :=
  _ ← ensure (mem_str field MINUTE_FIELDS)
        (ValueError ("unknown replay duration metric: " ++ field));
  modify (λ l, {| counts := counts l;
                  minutes := <[field := fadd (minute l field) (fdiv (fmax f0 seconds) f60)]>
                               (minutes l);
                  fidelity_counts := fidelity_counts l |}).

Definition observe_fidelity (fidelity : string) : M ReplayMetricLedger unit :=
  let normalized := py_strip fidelity in
  _ ← ensure (negb (is_empty normalized)) (ValueError "fidelity metric key must be non-empty");
  modify (λ l, {| counts := counts l; minutes := minutes l;
                  fidelity_counts :=
                    <[normalized := (default 0%Z (fidelity_counts l !! normalized) + 1)%Z]>
                      (fidelity_counts l) |}).

(** [dict(sorted(counter.items()))]: keys in code-point order. *)
Definition key_le {V} (a b : string * V) : Prop := String.leb a.1 b.1 = true.
#[export] Instance key_le_dec {V} (a b : string * V) : Decision (key_le a b).
Proof. unfold key_le. apply _. Defined.

Definition sorted_items {V} (m : gmap string V) : list (string * V) :=
  merge_sort key_le (map_to_list m).

Definition snapshot (l : ReplayMetricLedger) : list (string * pyval) :=
  (((λ f, (f, PInt (count l f))) <$> COUNT_FIELDS)
   ++ ((λ f, (f, PFloat (py_round 6 (minute l f)))) <$> MINUTE_FIELDS)
   ++ [("restored_fidelity_counts",
        PMap false ((λ kv, (Some kv.1, PInt kv.2)) <$> sorted_items (fidelity_counts l)))])%list.

(** ** Lemmas *)

Lemma increment_known f n l :
  mem_str f COUNT_FIELDS = true → increment f n l = (Ok tt, bump f n l).
Proof. intros H. unfold increment, ensure, lift, mbind, M_bind. by rewrite H. Qed.

(** A field outside the table is refused and the ledger is unchanged. *)
Lemma increment_unknown f n l :
  mem_str f COUNT_FIELDS = false →
  increment f n l = (Err (ValueError ("unknown replay count metric: " ++ f)), l).
Proof. intros H. unfold increment, ensure, lift, mbind, M_bind. by rewrite H. Qed.

Lemma count_bump_eq f n l : count (bump f n l) f = (count l f + n)%Z.
Proof. unfold count at 1. simpl. by rewrite lookup_insert_eq. Qed.

Lemma count_bump_ne f g n l : f ≠ g → count (bump f n l) g = count l g.
Proof. intros H. unfold count. simpl. by rewrite lookup_insert_ne. Qed.

Lemma count_bump f g n l :
  count (bump f n l) g = (count l g + if decide (f = g) then n else 0)%Z.
Proof. case_decide; [subst; apply count_bump_eq|rewrite count_bump_ne by done; lia]. Qed.

Lemma mem_str_In s l : mem_str s l = true ↔ s ∈ l.
Proof.
  unfold mem_str. rewrite existsb_exists. setoid_rewrite <- list_elem_of_In. split.
  - intros (x & Hx & ->%String.eqb_eq). done.
  - intros H. exists s. by rewrite String.eqb_refl.
Qed.

#[export] Instance key_le_total {V} : Total (@key_le V).
Proof. intros x y. unfold key_le. destruct (String.leb_total x.1 y.1); auto. Qed.

(** The snapshot lists every count field once, in the table's order, with its
    current value. *)
Lemma snapshot_count l f :
  mem_str f COUNT_FIELDS = true → dict_get f (snapshot l) = Some (PInt (count l f)).
Proof.
  intros H%mem_str_In. unfold snapshot.
  induction COUNT_FIELDS as [|g fs IH]; [by apply not_elem_of_nil in H|].
  simpl. case_decide as Hd; [by subst|].
  apply IH. apply elem_of_cons in H as [->|H]; done.
Qed.
