(* ===== verification/ReplayTypes.v ===== *)
(** Replay data: the enums, protocol detection, frozen dataclasses and the
    equivalence contract of [loopx/capabilities/explore/replay_runtime.py].

    A function [mk_T] is the constructor of the dataclass [T] with its
    [__post_init__] checks.  Opaque runtime objects (agent-state keys, adapter
    binding keys, child keys, worker identities) are integers that stand for
    object identity. *)

From stdpp Require Import base strings list sets.
From Stdlib Require Import ZArith Lia.
From S2P Require Import Prelude PyFloat PyValue TraceRuntime.

(** * Enums *)

Inductive ReplayFidelity := EXACT | SEMANTIC_EQUIVALENT | BEST_EFFORT | NON_REPLAYABLE.

Definition ReplayFidelity_value (f : ReplayFidelity) : string :=
  match f with
  | EXACT => "exact"
  | SEMANTIC_EQUIVALENT => "semantic_equivalent"
  | BEST_EFFORT => "best_effort"
  | NON_REPLAYABLE => "non_replayable"
  end.

Inductive ReplayChildConcurrency := SERIAL_ONLY | THREAD_SAFE | PROCESS_ISOLATED.

Definition ReplayRiskDisposition_value (d : ReplayRiskDisposition) : string :=
  match d with ALLOW => "allow" | DENY => "deny" end.

Inductive ReplayChildFailureStage := INTENT | SUFFIX.

Definition ReplayChildFailureStage_value (s : ReplayChildFailureStage) : string :=
  match s with INTENT => "intent" | SUFFIX => "suffix" end.

Definition FIDELITY_RANK (f : ReplayFidelity) : Z :=
  match f with
  | NON_REPLAYABLE => 0
  | BEST_EFFORT => 1
  | SEMANTIC_EQUIVALENT => 2
  | EXACT => 3
  end.

Definition fidelity_meets (actual required : ReplayFidelity) : bool :=
  (FIDELITY_RANK required <=? FIDELITY_RANK actual)%Z.

Inductive ReplayPointLifecycle := READY | RELEASING | RELEASED | FAILED.

Definition ReplayPointLifecycle_value (l : ReplayPointLifecycle) : string :=
  match l with
  | READY => "ready" | RELEASING => "releasing" | RELEASED => "released" | FAILED => "failed"
  end.

#[export] Instance ReplayFidelity_eq_dec : EqDecision ReplayFidelity.
Proof. solve_decision. Defined.
#[export] Instance ReplayChildConcurrency_eq_dec : EqDecision ReplayChildConcurrency.
Proof. solve_decision. Defined.
#[export] Instance ReplayRiskDisposition_eq_dec : EqDecision ReplayRiskDisposition.
Proof. solve_decision. Defined.
#[export] Instance ReplayChildFailureStage_eq_dec : EqDecision ReplayChildFailureStage.
Proof. solve_decision. Defined.
#[export] Instance ReplayPointLifecycle_eq_dec : EqDecision ReplayPointLifecycle.
Proof. solve_decision. Defined.

(** * Optional protocols *)

(** One attribute of an adapter or store object. *)
Inductive attr := Absent | NonCallable | Callable.

Definition hasattr (a : attr) : bool := match a with Absent => false | _ => true end.
Definition callable (a : attr) : bool := match a with Callable => true | _ => false end.

Definition V2_PROTOCOL_METHODS : list string :=
  ["capture_replay_state"; "restore_replay_state"; "validate_replay_equivalence";
   "release_replay_state"].
Definition ISOLATED_CHILD_PROTOCOL_METHODS : list string :=
  ["fork_replay_child"; "validate_replay_child_equivalence"; "release_replay_child"].
Definition CHILD_RISK_PROTOCOL_METHODS : list string :=
  ["assess_replay_child_intent"; "assess_replay_child_outcome"].

Definition missing_methods (adapter : string → attr) (names : list string) : list string :=
  filter (λ n, negb (callable (adapter n)) = true) names.

(** [any(declared) and not all(implemented)]. *)
Definition partial_protocol (adapter : string → attr) (names : list string) : bool :=
  existsb (λ n, hasattr (adapter n)) names && negb (forallb (λ n, callable (adapter n)) names).

Definition REPLAYABLE_EPISODE_V2_MODE : string := "replayable-v2".

Definition replayable_episode_v2_mode (adapter : string → attr) : res (option string) :=
  if partial_protocol adapter V2_PROTOCOL_METHODS
  then Err (ValueError
         ("replayable Episode V2 adapters must implement all protocol methods; "
          ++ "missing callable(s): " ++ join ", " (missing_methods adapter V2_PROTOCOL_METHODS)))
  else Ok (if forallb (λ n, callable (adapter n)) V2_PROTOCOL_METHODS
           then Some REPLAYABLE_EPISODE_V2_MODE else None).

Definition isolated_replay_child_mode (adapter agent_state_store : string → attr)
  : res (option string) :=
  if partial_protocol adapter ISOLATED_CHILD_PROTOCOL_METHODS
  then Err (ValueError
         ("isolated replay child adapters must implement all protocol "
          ++ "methods; missing callable(s): "
          ++ join ", " (missing_methods adapter ISOLATED_CHILD_PROTOCOL_METHODS)))
  else if negb (forallb (λ n, callable (adapter n)) ISOLATED_CHILD_PROTOCOL_METHODS)
  then Ok None
  else if negb (callable (agent_state_store "fork_agent_state"))
  then Ok None
  else Ok (Some "isolated-child-v0").

Definition replay_child_risk_mode (adapter : string → attr) : res (option string) :=
  if partial_protocol adapter CHILD_RISK_PROTOCOL_METHODS
  then Err (ValueError
         ("replay child risk adapters must implement both protocol "
          ++ "methods; missing callable(s): "
          ++ join ", " (missing_methods adapter CHILD_RISK_PROTOCOL_METHODS)))
  else Ok (if forallb (λ n, callable (adapter n)) CHILD_RISK_PROTOCOL_METHODS
           then Some "child-risk-v0" else None).

(** * Requests, leases and receipts *)

Definition key := Z.

Record CaptureReplayStateRequest := {
  cap_replay_point_id : string;
  cap_cursor : TraceCursor
}.

Record RestoreReplayStateRequest := {
  rst_replay_point_id : string;
  rst_target_branch_id : string;
  rst_minimum_fidelity : ReplayFidelity
}.

Record ForkReplayChildRequest := {
  fork_replay_point_id : string;
  fork_child_id : string;
  fork_target_branch_id : string;
  fork_minimum_fidelity : ReplayFidelity
}.

Definition mk_ForkReplayChildRequest (r : ForkReplayChildRequest) : res ForkReplayChildRequest :=
  p ← require_nonempty_text (fork_replay_point_id r) "replay_point_id";
  c ← require_nonempty_text (fork_child_id r) "child_id";
  t ← require_nonempty_text (fork_target_branch_id r) "target_branch_id";
  _ ← require (negb (bool_decide (fork_minimum_fidelity r = NON_REPLAYABLE)))
        (ValueError "isolated replay children require replayable fidelity");
  Ok {| fork_replay_point_id := p; fork_child_id := c; fork_target_branch_id := t;
        fork_minimum_fidelity := fork_minimum_fidelity r |}.

Record AdapterStateLease := {
  binding_key : option key;
  lease_fidelity : ReplayFidelity;
  projection_digest : option string
}.

Definition mk_AdapterStateLease (l : AdapterStateLease) : res AdapterStateLease :=
  _ ← (if decide (lease_fidelity l = NON_REPLAYABLE)
       then require (bool_decide (binding_key l = None))
              (ValueError "non_replayable leases must not expose a binding_key")
       else require (bool_decide (binding_key l ≠ None))
              (ValueError "replayable leases require an opaque binding_key"));
  d ← require_optional_text (projection_digest l) "projection_digest";
  Ok {| binding_key := binding_key l; lease_fidelity := lease_fidelity l;
        projection_digest := d |}.

Record RestoreReceipt := {
  rc_achieved_fidelity : ReplayFidelity;
  restored_projection_digest : option string;
  rc_prefix_reused : option bool
}.

Definition mk_RestoreReceipt (r : RestoreReceipt) : res RestoreReceipt :=
  d ← require_optional_text (restored_projection_digest r) "restored_projection_digest";
  Ok {| rc_achieved_fidelity := rc_achieved_fidelity r; restored_projection_digest := d;
        rc_prefix_reused := rc_prefix_reused r |}.

(** [child_key] is [None] only when the adapter passes [None]. *)
Record ReplayChildLease := {
  raw_child_key : option key;
  child_receipt : RestoreReceipt;
  concurrency : ReplayChildConcurrency;
  worker_identity : option Z
}.

Definition mk_ReplayChildLease (l : ReplayChildLease) : res ReplayChildLease :=
  r ← mk_RestoreReceipt (child_receipt l);
  _ ← require (bool_decide (raw_child_key l ≠ None))
        (TypeError "ReplayChildLease requires an opaque child_key");
  _ ← require (negb (bool_decide (concurrency l = PROCESS_ISOLATED)
                     && bool_decide (worker_identity l = None)))
        (TypeError "process-isolated ReplayChildLease requires an opaque worker_identity");
  Ok {| raw_child_key := raw_child_key l; child_receipt := r; concurrency := concurrency l;
        worker_identity := worker_identity l |}.

Definition mk_ReplayRiskAssessment (a : ReplayRiskAssessment) : res ReplayRiskAssessment :=
  p ← require_nonempty_text (policy_id a) "policy_id";
  r ← match risk_sanitized_reason a with
      | None => Ok None
      | Some s => t ← freeze_public_text "sanitized_reason" s "replay_risk_assessment"; Ok (Some t)
      end;
  Ok {| disposition := disposition a; policy_id := p; risk_sanitized_reason := r |}.

Definition ReplayRiskAssessment_to_record (a : ReplayRiskAssessment) : pyval :=
  PMap false [(Some "disposition", PStr (ReplayRiskDisposition_value (disposition a)));
              (Some "policy_id", PStr (policy_id a));
              (Some "sanitized_reason", opt_str (risk_sanitized_reason a))].

(** [ReplayRiskRejectedError(stage, assessment)]; the stage is non-empty where
    the runtime raises it. *)
Definition ReplayRiskRejectedError (stage : string) (a : ReplayRiskAssessment) : exn :=
  Exn "ReplayRiskRejectedError"
    ("replay child " ++ stage ++ " denied by " ++ policy_id a) None (Some (stage, a)) None.

Record EquivalenceCheck := {
  check_id : string;
  check_passed : bool;
  public_summary : option string
}.

Definition mk_EquivalenceCheck (c : EquivalenceCheck) : res EquivalenceCheck :=
  i ← require_nonempty_text (check_id c) "check_id";
  s ← match public_summary c with
      | None => Ok None
      | Some s => t ← freeze_public_text "public_summary" s "equivalence_check"; Ok (Some t)
      end;
  Ok {| check_id := i; check_passed := check_passed c; public_summary := s |}.

Record EquivalenceReport := {
  rp_achieved_fidelity : ReplayFidelity;
  equivalent : bool;
  expected_digest : option string;
  observed_digest : option string;
  checks : list EquivalenceCheck;
  rp_sanitized_reason : option string
}.

Fixpoint res_map {A B} (f : A → res B) (l : list A) : res (list B) :=
  match l with
  | [] => Ok []
  | a :: l' => b ← f a; bs ← res_map f l'; Ok (b :: bs)
  end.

(** The checks of the report are [EquivalenceCheck] objects, built before it. *)
Definition mk_EquivalenceReport (r : EquivalenceReport) : res EquivalenceReport :=
  cs ← res_map mk_EquivalenceCheck (checks r);
  e ← require_optional_text (expected_digest r) "expected_digest";
  o ← require_optional_text (observed_digest r) "observed_digest";
  s ← match rp_sanitized_reason r with
      | None => Ok None
      | Some s => t ← freeze_public_text "sanitized_reason" s "equivalence_report"; Ok (Some t)
      end;
  Ok {| rp_achieved_fidelity := rp_achieved_fidelity r; equivalent := equivalent r;
        expected_digest := e; observed_digest := o; checks := cs; rp_sanitized_reason := s |}.

Record ReplayRestoreResult := {
  rr_replay_point_id : string;
  rr_target_branch_id : string;
  rr_achieved_fidelity : ReplayFidelity;
  rr_equivalent : bool;
  promotion_eligible : bool;
  prefix_reused : option bool;
  report : EquivalenceReport;
  restore_minutes : float;
  equivalence_minutes : float;
  suffix_minutes : float;
  replay_wall_minutes : float
}.

Definition opt_bool (o : option bool) : pyval :=
  match o with None => PNone | Some b => PBool b end.

Definition EquivalenceCheck_to_record (c : EquivalenceCheck) : pyval :=
  PMap false [(Some "check_id", PStr (check_id c)); (Some "passed", PBool (check_passed c));
              (Some "public_summary", opt_str (public_summary c))].

Definition ReplayRestoreResult_to_record (r : ReplayRestoreResult) : pyval :=
  PMap false [
    (Some "replay_point_id", PStr (rr_replay_point_id r));
    (Some "target_branch_id", PStr (rr_target_branch_id r));
    (Some "achieved_fidelity", PStr (ReplayFidelity_value (rr_achieved_fidelity r)));
    (Some "equivalent", PBool (rr_equivalent r));
    (Some "promotion_eligible", PBool (promotion_eligible r));
    (Some "prefix_reused", opt_bool (prefix_reused r));
    (Some "expected_digest", opt_str (expected_digest (report r)));
    (Some "observed_digest", opt_str (observed_digest (report r)));
    (Some "checks", PSeq false (EquivalenceCheck_to_record <$> checks (report r)));
    (Some "sanitized_reason", opt_str (rp_sanitized_reason (report r)));
    (Some "restore_minutes", PFloat (restore_minutes r));
    (Some "equivalence_minutes", PFloat (equivalence_minutes r));
    (Some "suffix_minutes", PFloat (suffix_minutes r));
    (Some "replay_wall_minutes", PFloat (replay_wall_minutes r))].

(** [replace(restore, suffix_minutes=..., replay_wall_minutes=...)]. *)
Definition with_suffix (r : ReplayRestoreResult) (suffix wall : float) : ReplayRestoreResult :=
  {| rr_replay_point_id := rr_replay_point_id r;
     rr_target_branch_id := rr_target_branch_id r;
     rr_achieved_fidelity := rr_achieved_fidelity r;
     rr_equivalent := rr_equivalent r; promotion_eligible := promotion_eligible r;
     prefix_reused := prefix_reused r; report := report r;
     restore_minutes := restore_minutes r; equivalence_minutes := equivalence_minutes r;
     suffix_minutes := suffix; replay_wall_minutes := wall |}.

Record ReplayChildExecutionContext := {
  ctx_child_id : string;
  ctx_restore : ReplayRestoreResult;
  ctx_isolated : bool;
  adapter_child_key : option key
}.

Record ReplayPoint := {
  replay_point_id : string;
  cursor : TraceCursor;
  fidelity : ReplayFidelity;
  captured_projection_digest : option string;
  lifecycle : ReplayPointLifecycle;
  created_event_id : string;
  replaces_replay_point_id : option string
}.

Definition ReplayPoint_to_record (p : ReplayPoint) : list (string * pyval) :=
  [("replay_point_id", PStr (replay_point_id p));
   ("trace_id", PStr (cur_trace_id (cursor p)));
   ("branch_id", PStr (cur_branch_id (cursor p)));
   ("after_event_id", opt_str (after_event_id (cursor p)));
   ("next_sequence", PInt (next_sequence (cursor p)));
   ("agent_history_index", PInt (history_index (agent_cursor (cursor p))));
   ("agent_history_digest", PStr (history_digest (agent_cursor (cursor p))));
   ("agent_context_digest", PStr (context_digest (agent_cursor (cursor p))));
   ("fidelity", PStr (ReplayFidelity_value (fidelity p)));
   ("captured_projection_digest", opt_str (captured_projection_digest p));
   ("lifecycle", PStr (ReplayPointLifecycle_value (lifecycle p)));
   ("created_event_id", PStr (created_event_id p));
   ("replaces_replay_point_id", opt_str (replaces_replay_point_id p))].

(** [replace(point, lifecycle=l)]. *)
Definition with_lifecycle (p : ReplayPoint) (l : ReplayPointLifecycle) : ReplayPoint :=
  {| replay_point_id := replay_point_id p; cursor := cursor p; fidelity := fidelity p;
     captured_projection_digest := captured_projection_digest p; lifecycle := l;
     created_event_id := created_event_id p;
     replaces_replay_point_id := replaces_replay_point_id p |}.

(** * The equivalence contract *)

Definition digests_disagree (a b : option string) : bool :=
  match a, b with Some x, Some y => negb (bool_decide (x = y)) | _, _ => false end.

Definition validate_equivalence_contract (point : ReplayPoint) (receipt : RestoreReceipt)
    (rep : EquivalenceReport) (minimum : ReplayFidelity) : res bool :=
  _ ← require (bool_decide (rp_achieved_fidelity rep = rc_achieved_fidelity receipt))
        (ValueError "restore receipt and equivalence report fidelity disagree");
  _ ← require (negb (digests_disagree (restored_projection_digest receipt) (observed_digest rep)))
        (ValueError "restore receipt and equivalence report observed digests disagree");
  _ ← require (negb (bool_decide (captured_projection_digest point ≠ None)
                     && bool_decide (expected_digest rep ≠ captured_projection_digest point)))
        (ValueError "equivalence report expected digest does not match the captured ReplayPoint");
  _ ← require (negb (equivalent rep && existsb (λ c, negb (check_passed c)) (checks rep)))
        (ValueError "equivalence report cannot pass while a declared check fails");
  _ ← require (negb (bool_decide (rp_achieved_fidelity rep = EXACT)
                     && (bool_decide (expected_digest rep = None)
                         || bool_decide (observed_digest rep = None)
                         || bool_decide (expected_digest rep ≠ observed_digest rep))))
        (ValueError "exact replay requires equal non-empty state digests");
  let trusted_fidelity := fidelity_meets (rp_achieved_fidelity rep) SEMANTIC_EQUIVALENT in
  _ ← require (negb (bool_decide (rp_achieved_fidelity rep = SEMANTIC_EQUIVALENT)
                     && bool_decide (checks rep = [])))
        (ValueError "semantic replay requires at least one explicit equivalence check");
  let promotion_eligible :=
    equivalent rep && trusted_fidelity && fidelity_meets (rp_achieved_fidelity rep) minimum in
  _ ← require (negb (trusted_fidelity && negb (equivalent rep)))
        (ValueError "exact or semantic replay requires verified state equivalence");
  Ok promotion_eligible.

(** ** Facts about fidelity and the contract *)

Lemma fidelity_meets_refl f : fidelity_meets f f = true.
Proof. by destruct f. Qed.

Lemma fidelity_meets_trans a b c :
  fidelity_meets a b = true → fidelity_meets b c = true → fidelity_meets a c = true.
Proof. by destruct a, b, c. Qed.

Lemma fidelity_meets_antisym a b :
  fidelity_meets a b = true → fidelity_meets b a = true → a = b.
Proof. by destruct a, b. Qed.

Lemma fidelity_meets_total a b : fidelity_meets a b = true ∨ fidelity_meets b a = true.
Proof. destruct a, b; auto. Qed.

(** The report an adapter must produce for a restore to be accepted. *)
Record contract_ok (point : ReplayPoint) (receipt : RestoreReceipt) (rep : EquivalenceReport)
    : Prop := {
  ok_fidelity : rp_achieved_fidelity rep = rc_achieved_fidelity receipt;
  ok_observed : ∀ a b, restored_projection_digest receipt = Some a →
    observed_digest rep = Some b → a = b;
  ok_expected : ∀ d, captured_projection_digest point = Some d → expected_digest rep = Some d;
  ok_checks : equivalent rep = true → Forall (λ c, check_passed c = true) (checks rep);
  ok_exact : rp_achieved_fidelity rep = EXACT →
    ∃ d, expected_digest rep = Some d ∧ observed_digest rep = Some d;
  ok_semantic : rp_achieved_fidelity rep = SEMANTIC_EQUIVALENT → checks rep ≠ [];
  ok_trusted : fidelity_meets (rp_achieved_fidelity rep) SEMANTIC_EQUIVALENT = true →
    equivalent rep = true
}.

Lemma digests_disagree_spec a b :
  digests_disagree a b = false ↔ ∀ x y, a = Some x → b = Some y → x = y.
Proof.
  destruct a as [x|], b as [y|]; simpl; try (split; [done|done]).
  rewrite negb_false_iff, bool_decide_eq_true. naive_solver.
Qed.

Lemma existsb_false_Forall {A} (f : A → bool) l :
  existsb (λ c, negb (f c)) l = false ↔ Forall (λ c, f c = true) l.
Proof.
  induction l as [|x l IH]; simpl; [split; [constructor|done]|].
  rewrite orb_false_iff, negb_false_iff, IH, Forall_cons. done.
Qed.

(** The checker accepts exactly the reports that satisfy the contract, and
    then reports eligibility for promotion. *)
Lemma validate_equivalence_contract_spec point receipt rep minimum b :
  validate_equivalence_contract point receipt rep minimum = Ok b ↔
  contract_ok point receipt rep ∧
  b = equivalent rep && fidelity_meets (rp_achieved_fidelity rep) SEMANTIC_EQUIVALENT
      && fidelity_meets (rp_achieved_fidelity rep) minimum.
Proof.
  unfold validate_equivalence_contract. split.
  - intros H.
    repeat (let u := fresh in let E := fresh "E" in
            apply res_bind_Ok in H as (u & E & H); apply require_Ok in E).
    injection H as <-. split; [|done].
    rewrite ?negb_true_iff in *. split.
    + by apply bool_decide_eq_true in E.
    + by apply digests_disagree_spec.
    + intros d Hd. rewrite Hd in E1. simpl in E1. by apply bool_decide_eq_false, dec_stable in E1.
    + intros Heq. rewrite Heq in E2. by apply existsb_false_Forall.
    + intros Hx. rewrite Hx in E3. simpl in E3.
      destruct (expected_digest rep) as [d|], (observed_digest rep) as [d'|]; try done.
      simpl in E3. apply bool_decide_eq_false, dec_stable in E3. injection E3 as ->. eauto.
    + intros Hx. rewrite Hx in E4. simpl in E4. by apply bool_decide_eq_false in E4.
    + intros Hx. rewrite Hx in E5. by destruct (equivalent rep).
  - intros [[H1 H2 H3 H4 H5 H6 H7] ->].
    rewrite (proj2 (bool_decide_eq_true _) H1). simpl.
    rewrite (proj2 (digests_disagree_spec _ _) H2). simpl.
    replace (bool_decide (captured_projection_digest point ≠ None) &&
             bool_decide (expected_digest rep ≠ captured_projection_digest point)) with false.
    2: { symmetry. destruct (captured_projection_digest point) as [d|]; [|done].
         rewrite (H3 d eq_refl). simpl. apply bool_decide_eq_false. naive_solver. }
    simpl. replace (equivalent rep && existsb (λ c, negb (check_passed c)) (checks rep)) with false.
    2: { symmetry. destruct (equivalent rep); [|done]. by apply existsb_false_Forall, H4. }
    simpl.
    destruct (rp_achieved_fidelity rep) eqn:Ef; simpl in *.
    + destruct (H5 eq_refl) as (d & -> & ->). simpl. rewrite bool_decide_false by naive_solver.
      simpl. by rewrite H7.
    + rewrite bool_decide_false by auto. simpl. by rewrite H7.
    + by rewrite andb_false_r.
    + by rewrite andb_false_r.
Qed.

Lemma res_map_Forall2 {A B} (f : A → res B) l bs :
  res_map f l = Ok bs ↔ Forall2 (λ a b, f a = Ok b) l bs.
Proof.
  split.
  - revert bs. induction l as [|a l IH]; intros bs H; simpl in H; [by simplify_eq|].
    inv_res. constructor; [done|]. by apply IH.
  - induction 1 as [|a b l bs Hab _ IH]; [done|]. simpl. by rewrite Hab, IH.
Qed.
