(* ===== verification/ReplayRegistry.v ===== *)
(** The replay-point registry: class [ReplayPointRegistry] of
    [loopx/capabilities/explore/replay_runtime.py].

    The registry calls objects it does not own: the environment adapter, the
    agent-state store, the identifier factories, the clock and the suffix
    callback.  Their behaviour is the parameter [Env], whose functions see the
    history of all earlier calls; every call the registry makes is appended to
    that history, so the theorems speak about what was called, in which order
    and with which outcome.  [M rstate] threads the registry and the history,
    and keeps the state when an exception is raised.  Each operation is the
    body of the method as one thread executes it. *)

From stdpp Require Import base strings list sets gmap.
From Stdlib Require Import ZArith Lia.
From S2P Require Import Prelude PyFloat PyValue TraceRuntime ReplayMetrics ReplayTypes.

(** * Calls to collaborators *)

(** What [capture_replay_state] returns: an [AdapterStateLease], [None], or an
    object of another class, with its [binding_key] attribute if it has one. *)
Inductive lease_object :=
| LeaseInstance (l : AdapterStateLease)
| LeaseNone
| LeaseAlien (cls : string) (binding : option (option key)).

(** One call made by the runtime, with its outcome.  A callback whose result
    type the runtime checks returns [None] for an object of another class. *)
Inductive obs :=
| ObsClock (t : float)
| ObsNewId (s : string)
| ObsNewEventId (s : string)
| ObsCaptureAgent (store : Z) (c : TraceCursor) (r : res (option key))
| ObsReleaseAgent (store : Z) (k : key) (r : res unit)
| ObsRestoreAgent (store : Z) (k : key) (r : res unit)
| ObsForkAgent (store : Z) (k : key) (child : string) (r : res (option key))
| ObsCaptureAdapter (ad : Z) (rq : CaptureReplayStateRequest) (r : res lease_object)
| ObsReleaseAdapter (ad : Z) (k : key) (r : res unit)
| ObsRestoreAdapter (ad : Z) (k : key) (rq : RestoreReplayStateRequest)
    (r : res (option RestoreReceipt))
| ObsValidate (ad : Z) (k : key) (rc : RestoreReceipt) (r : res (option EquivalenceReport))
| ObsFinalize (ad : Z) (k : key) (rq : RestoreReplayStateRequest) (suffix_succeeded : bool)
    (r : res unit)
| ObsExecute (restore : ReplayRestoreResult) (r : res unit)
| ObsForkChild (ad : Z) (k : key) (rq : ForkReplayChildRequest) (r : res (option ReplayChildLease))
| ObsValidateChild (ad : Z) (ck : key) (rc : RestoreReceipt) (r : res (option EquivalenceReport))
| ObsReleaseChild (ad : Z) (ck : key) (r : res unit)
| ObsAssessIntent (ad : Z) (ck : key) (intent : pyval) (r : res (option ReplayRiskAssessment))
| ObsAssessOutcome (ad : Z) (ck : key) (intent : pyval) (r : res (option ReplayRiskAssessment))
| ObsExecuteChild (ctx : ReplayChildExecutionContext) (r : res unit).

Definition history := list obs.

(** The collaborators, for suffixes whose outcome has type [O].  [adapter_attr]
    and [store_attr] are the methods each object offers; the other fields are
    the behaviours, as functions of the history and the arguments. *)
Record Env (O : Type) := {
  clock : history → float;
  id_factory : history → string;
  event_id_factory : history → string;
  adapter_attr : Z → string → attr;
  store_attr : Z → string → attr;
  capture_agent_state : history → Z → TraceCursor → res (option key);
  release_agent_state : history → Z → key → res unit;
  restore_agent_state : history → Z → key → res unit;
  fork_agent_state : history → Z → key → string → res (option key);
  capture_replay_state : history → Z → CaptureReplayStateRequest → res lease_object;
  release_replay_state : history → Z → key → res unit;
  restore_replay_state : history → Z → key → RestoreReplayStateRequest → res (option RestoreReceipt);
  validate_replay_equivalence : history → Z → key → RestoreReceipt → res (option EquivalenceReport);
  finalize_replay_suffix : history → Z → key → RestoreReplayStateRequest → bool → res unit;
  fork_replay_child : history → Z → key → ForkReplayChildRequest → res (option ReplayChildLease);
  validate_replay_child_equivalence :
    history → Z → key → RestoreReceipt → res (option EquivalenceReport);
  release_replay_child : history → Z → key → res unit;
  assess_replay_child_intent : history → Z → key → pyval → res (option ReplayRiskAssessment);
  assess_replay_child_outcome : history → Z → key → pyval → O → res (option ReplayRiskAssessment)
}.
Arguments clock {O}.
Arguments id_factory {O}.
Arguments event_id_factory {O}.
Arguments adapter_attr {O}.
Arguments store_attr {O}.
Arguments capture_agent_state {O}.
Arguments release_agent_state {O}.
Arguments restore_agent_state {O}.
Arguments fork_agent_state {O}.
Arguments capture_replay_state {O}.
Arguments release_replay_state {O}.
Arguments restore_replay_state {O}.
Arguments validate_replay_equivalence {O}.
Arguments finalize_replay_suffix {O}.
Arguments fork_replay_child {O}.
Arguments validate_replay_child_equivalence {O}.
Arguments release_replay_child {O}.
Arguments assess_replay_child_intent {O}.
Arguments assess_replay_child_outcome {O}.

(** A callback builds the object it returns with the dataclass constructor, so
    an invalid one surfaces as the constructor's exception. *)
Definition built {A} (mk : A → res A) (r : res (option A)) : res (option A) :=
  match r with
  | Ok (Some a) => match mk a with Ok a' => Ok (Some a') | Err e => Err e end
  | _ => r
  end.

Definition built_lease (r : res lease_object) : res lease_object :=
  match r with
  | Ok (LeaseInstance l) =>
      match mk_AdapterStateLease l with Ok l' => Ok (LeaseInstance l') | Err e => Err e end
  | _ => r
  end.

(** [isinstance] check on a callback's result. *)
Definition instance_or {A} (o : option A) (msg : string) : res A :=
  match o with Some a => Ok a | None => Err (TypeError msg) end.

(** * Registry state *)

(** [_RuntimeReplayBinding]; its [replay_lock] is held by the running
    operation. *)
Record RuntimeReplayBinding := {
  point : ReplayPoint;
  agent_state_key : key;
  adapter_binding_key : option key;
  agent_state_store : Z;
  adapter : Z;
  agent_released : bool;
  adapter_released : bool
}.

Definition with_point (b : RuntimeReplayBinding) (p : ReplayPoint) : RuntimeReplayBinding :=
  {| point := p; agent_state_key := agent_state_key b;
     adapter_binding_key := adapter_binding_key b; agent_state_store := agent_state_store b;
     adapter := adapter b; agent_released := agent_released b;
     adapter_released := adapter_released b |}.

Definition with_agent_released (b : RuntimeReplayBinding) : RuntimeReplayBinding :=
  {| point := point b; agent_state_key := agent_state_key b;
     adapter_binding_key := adapter_binding_key b; agent_state_store := agent_state_store b;
     adapter := adapter b; agent_released := true; adapter_released := adapter_released b |}.

Definition with_adapter_released (b : RuntimeReplayBinding) : RuntimeReplayBinding :=
  {| point := point b; agent_state_key := agent_state_key b;
     adapter_binding_key := adapter_binding_key b; agent_state_store := agent_state_store b;
     adapter := adapter b; agent_released := agent_released b; adapter_released := true |}.

Record rstate := {
  entries : list (string * RuntimeReplayBinding);
  ledger : ReplayMetricLedger;
  hist : history
}.

Definition empty_registry : rstate := {| entries := []; ledger := empty_ledger; hist := [] |}.

Definition set_entries (s : rstate) (es : list (string * RuntimeReplayBinding)) : rstate :=
  {| entries := es; ledger := ledger s; hist := hist s |}.
Definition set_ledger (s : rstate) (l : ReplayMetricLedger) : rstate :=
  {| entries := entries s; ledger := l; hist := hist s |}.
Definition push (s : rstate) (o : obs) : rstate :=
  {| entries := entries s; ledger := ledger s; hist := (hist s ++ [o])%list |}.

Definition on_ledger {A} (m : M ReplayMetricLedger A) : M rstate A := λ s,
  let '(r, l) := m (ledger s) in (r, set_ledger s l).

(** [self._metrics.increment(field)]. *)
Definition inc (field : string) : M rstate unit := on_ledger (increment field 1).
Definition inc_by (field : string) (n : Z) : M rstate unit := on_ledger (increment field n).
Definition add_secs (field : string) (seconds : float) : M rstate unit :=
  on_ledger (add_seconds field seconds).

(** Update of an attribute of the entry object stored under [id]. *)
Definition update_entry (id : string) (f : RuntimeReplayBinding → RuntimeReplayBinding)
  : M rstate unit :=
  modify (λ s, match dict_get id (entries s) with
               | Some b => set_entries s (dict_set id (f b) (entries s))
               | None => s
               end).

Definition set_lifecycle (l : ReplayPointLifecycle) (b : RuntimeReplayBinding)
  : RuntimeReplayBinding := with_point b (with_lifecycle (point b) l).

(** One call: the outcome is computed from the history and recorded. *)
Definition call {A} (f : history → A) (o : A → obs) : M rstate A := λ s,
  let a := f (hist s) in (Ok a, push s (o a)).

(** A call whose exception propagates. *)
Definition invoke {A} (f : history → res A) (o : res A → obs) : M rstate A :=
  r ← call f o; lift r.

Definition unknown_point (id : string) : exn :=
  raise_from (KeyError ("unknown replay_point_id: " ++ id)) (KeyError id).

(** [self._entries[id]]. *)
Definition get_entry (id : string) : M rstate RuntimeReplayBinding :=
  es ← gets entries;
  match dict_get id es with
  | Some b => mret b
  | None => raise (unknown_point id)
  end.

(** [try: m except Exception as e: h e else: k]. *)
Definition try_else {S A B} (m : M S A) (h : exn → M S B) (k : A → M S B) : M S B := λ s,
  match m s with
  | (Ok a, s') => k a s'
  | (Err e, s') => h e s'
  end.

(** [try: m finally: f], with the values [f] assigns. *)
Definition try_finally_val {S A B} (m : M S A) (f : M S B) : M S (A * B) := λ s,
  let '(r, s') := m s in
  match f s' with
  | (Ok b, s'') => (match r with Ok a => Ok (a, b) | Err e => Err e end, s'')
  | (Err e, s'') => (Err e, s'')
  end.

(** The local variables of a capture and the objects it changes. *)
Record capture_state := {
  c_agent_state_key : option key;
  c_lease : lease_object;
  c_trace : TraceLog;
  c_reg : rstate
}.

Definition on_reg {A} (m : M rstate A) : M capture_state A := λ s,
  let '(r, g) := m (c_reg s) in
  (r, {| c_agent_state_key := c_agent_state_key s; c_lease := c_lease s;
         c_trace := c_trace s; c_reg := g |}).
Definition set_agent_key (k : option key) : M capture_state unit := modify (λ s,
  {| c_agent_state_key := k; c_lease := c_lease s; c_trace := c_trace s; c_reg := c_reg s |}).
Definition set_lease (l : lease_object) : M capture_state unit := modify (λ s,
  {| c_agent_state_key := c_agent_state_key s; c_lease := l; c_trace := c_trace s;
     c_reg := c_reg s |}).
Definition set_trace (t : TraceLog) : M capture_state unit := modify (λ s,
  {| c_agent_state_key := c_agent_state_key s; c_lease := c_lease s; c_trace := t;
     c_reg := c_reg s |}).

Section registry.
Context {O : Type} (env : Env O).

Definition now : M rstate float := call (clock env) ObsClock.

(** [self._metrics.add_seconds(field, time.perf_counter() - started)]. *)
Definition add_elapsed (field : string) (started : float) : M rstate unit :=
  t ← now; add_secs field (fsub t started).

(** [(time.perf_counter() - started) / 60.0]. *)
Definition elapsed_minutes (started : float) : M rstate float :=
  t ← now; mret (fdiv (fsub t started) f60).

(** ** capture_at_head *)

(** The checks on the point that the new one replaces. *)
Definition replaced_point (replaces : option string) (cur : TraceCursor)
  : M rstate (option ReplayPoint) :=
  match replaces with
  | None => mret None
  | Some r =>
      es ← gets entries;
      p ← match dict_get r es with
          | Some b => mret (point b)
          | None => raise (raise_from (KeyError ("unknown replaces_replay_point_id: " ++ r))
                             (KeyError r))
          end;
      _ ← ensure (bool_decide (lifecycle p = RELEASED))
            (ValueError ("a replacement ReplayPoint requires the replaced point "
                         ++ "to be released"));
      _ ← ensure (bool_decide (cur_trace_id (cursor p) = cur_trace_id cur))
            (ValueError "a replacement ReplayPoint must remain in the same trace");
      _ ← ensure (negb (bool_decide (cur_branch_id (cursor p) = cur_branch_id cur)))
            (ValueError "a replacement ReplayPoint must be captured on a new branch");
      mret (Some p)
  end.

(** The replaced point and the new lease both carry a digest and they differ. *)
Definition projection_mismatch (replaced : option ReplayPoint) (l : AdapterStateLease) : bool :=
  match replaced with
  | Some p => digests_disagree (captured_projection_digest p) (projection_digest l)
  | None => false
  end.

(** The body of the [try] of [capture_at_head]. *)
Definition capture_body (rid eid : string) (store ad : Z) (replaces : option string)
    (cur : TraceCursor) : M capture_state ReplayPoint :=
  replaced ← on_reg (replaced_point replaces cur);
  agent_key ← on_reg (invoke (λ h, capture_agent_state env h store cur) (ObsCaptureAgent store cur));
  _ ← set_agent_key agent_key;
  agent_key ← lift (instance_or agent_key "capture_agent_state must return an opaque state key");
  let rq := {| cap_replay_point_id := rid; cap_cursor := cur |} in
  lease_obj ← on_reg (invoke (λ h, built_lease (capture_replay_state env h ad rq))
                        (ObsCaptureAdapter ad rq));
  _ ← set_lease lease_obj;
  lease ← lift (match lease_obj with
                | LeaseInstance l => Ok l
                | _ => Err (TypeError "capture_replay_state must return an AdapterStateLease")
                end);
  _ ← (if projection_mismatch replaced lease then
         _ ← on_reg (inc "replacement_projection_mismatch_count");
         raise (ValueError ("replacement ReplayPoint projection does not match the "
                            ++ "released point"))
       else mret tt);
  trace ← gets c_trace;
  event ← lift (mk_TraceEvent
    {| event_id := eid; ev_trace_id := trace_id trace; ev_branch_id := branch_id trace;
       sequence := next_sequence cur; parent_event_id := after_event_id cur;
       kind := LIFECYCLE;
       public_payload := PMap false
         [(Some "operation", PStr "replay_point_captured");
          (Some "fidelity", PStr (ReplayFidelity_value (lease_fidelity lease)));
          (Some "cursor_sequence", PInt (next_sequence cur));
          (Some "replaces_replay_point_id", opt_str replaces)];
       action_id := None; causation_id := None; ev_replay_point_id := Some rid |});
  let p := {| replay_point_id := rid; cursor := cur; fidelity := lease_fidelity lease;
              captured_projection_digest := projection_digest lease; lifecycle := READY;
              created_event_id := event_id event; replaces_replay_point_id := replaces |} in
  let entry := {| point := p; agent_state_key := agent_key;
                  adapter_binding_key := binding_key lease; agent_state_store := store;
                  adapter := ad; agent_released := false;
                  adapter_released := bool_decide (binding_key lease = None) |} in
  es ← on_reg (gets entries);
  _ ← ensure (negb (dict_has rid es))
        (ValueError ("replay_point_id is duplicated: " ++ py_repr rid));
  _ ← lift (validate_append_unlocked trace event);
  trace' ← lift (append_unlocked trace event);
  _ ← set_trace trace';
  _ ← on_reg (modify (λ s, set_entries s (dict_set rid entry (entries s))));
  _ ← on_reg (inc "capture_success_count");
  _ ← (if replaces is Some _ then on_reg (inc "replacement_capture_success_count") else mret tt);
  mret p.

(** [lease.binding_key] of the local variable [lease], [None] when it is
    [None]; an object without the attribute raises [AttributeError]. *)
Definition lease_binding (l : lease_object) : res (option key) :=
  match l with
  | LeaseInstance l => Ok (binding_key l)
  | LeaseNone => Ok None
  | LeaseAlien _ (Some b) => Ok b
  | LeaseAlien cls None =>
      Err (mk_exn "AttributeError" (py_repr cls ++ " object has no attribute 'binding_key'"))
  end.

(** The [except Exception as error] block: compensate both captured states. *)
Definition capture_compensate (store ad : Z) (replaces : option string) (error : exn)
  : M capture_state ReplayPoint :=
  _ ← on_reg (inc "capture_failure_count");
  _ ← (if replaces is Some _ then on_reg (inc "replacement_capture_failure_count") else mret tt);
  lease ← gets c_lease;
  agent_key ← gets c_agent_state_key;
  binding ← lift (lease_binding lease);
  _ ← (if bool_decide (binding ≠ None) || bool_decide (agent_key ≠ None)
       then on_reg (inc "capture_compensation_count") else mret tt);
  cleanup1 ← match binding with
    | Some k =>
        r ← on_reg (call (λ h, release_replay_state env h ad k) (ObsReleaseAdapter ad k));
        match r with
        | Ok _ => mret None
        | Err e => _ ← on_reg (inc "orphaned_adapter_binding_count"); mret (Some e)
        end
    | None => mret None
    end;
  cleanup2 ← match agent_key with
    | Some k =>
        r ← on_reg (call (λ h, release_agent_state env h store k) (ObsReleaseAgent store k));
        match r with
        | Ok _ => mret cleanup1
        | Err e =>
            _ ← on_reg (inc "orphaned_agent_state_count");
            mret (Some (default e cleanup1))
        end
    | None => mret cleanup1
    end;
  match cleanup2 with
  | Some c => _ ← on_reg (inc "capture_compensation_failure_count"); raise (raise_from error c)
  | None => raise error
  end.

Definition capture_m (ac : AgentCursor) (store ad : Z) (replaces0 : option string)
  : M capture_state ReplayPoint :=
  mode ← lift (replayable_episode_v2_mode (adapter_attr env ad));
  _ ← ensure (bool_decide (mode ≠ None))
        (TypeError "adapter does not implement the Replayable Episode V2 protocol");
  capture_started ← on_reg now;
  _ ← on_reg (inc "capture_attempt_count");
  rid ← on_reg (call (id_factory env) ObsNewId);
  rid ← lift (require_nonempty_text rid "replay_point_id");
  eid ← on_reg (call (event_id_factory env) ObsNewEventId);
  eid ← lift (require_nonempty_text eid "event_id");
  replaces ← match replaces0 with
    | None => mret None
    | Some r =>
        r ← lift (require_nonempty_text r "replaces_replay_point_id");
        _ ← on_reg (inc "replacement_capture_attempt_count");
        mret (Some r)
    end;
  trace ← gets c_trace;
  cur ← lift (locked_cursor trace ac);
  es ← on_reg (gets entries);
  _ ← ensure (negb (dict_has rid es))
        (ValueError ("replay_point_id is duplicated: " ++ py_repr rid));
  try_finally
    (try_except (capture_body rid eid store ad replaces cur)
                (capture_compensate store ad replaces))
    (on_reg (add_elapsed "capture_minutes" capture_started)).

(** [capture_at_head]: the result, the trace and the registry afterwards. *)
Definition capture_at_head (trace : TraceLog) (ac : AgentCursor) (store ad : Z)
    (replaces : option string) (s : rstate) : res ReplayPoint * TraceLog * rstate :=
  let '(r, c) := capture_m ac store ad replaces
    {| c_agent_state_key := None; c_lease := LeaseNone; c_trace := trace; c_reg := s |} in
  (r, c_trace c, c_reg c).

(** ** get, records, metrics *)

Definition get (id : string) : M rstate ReplayPoint :=
  b ← get_entry id; mret (point b).

Definition records (s : rstate) : list (list (string * pyval)) :=
  (λ e, ReplayPoint_to_record (point e.2)) <$> entries s.

Definition count_entries (f : RuntimeReplayBinding → bool) (s : rstate) : Z :=
  Z.of_nat (length (filter (λ e, f e.2 = true) (entries s))).

Definition metrics (s : rstate) : list (string * pyval) :=
  (snapshot (ledger s)
   ++ [("active_replay_point_count",
        PInt (count_entries (λ b, negb (bool_decide (lifecycle (point b) = RELEASED))) s));
       ("active_adapter_binding_count", PInt (count_entries (λ b, negb (adapter_released b)) s));
       ("failed_replay_point_count",
        PInt (count_entries (λ b, bool_decide (lifecycle (point b) = FAILED)) s))])%list.

(** ** select_before *)

Definition is_candidate (tid bid : string) (affected : Z) (p : ReplayPoint) : bool :=
  bool_decide (lifecycle p = READY)
  && bool_decide (cur_trace_id (cursor p) = tid)
  && bool_decide (cur_branch_id (cursor p) = bid)
  && (next_sequence (cursor p) <=? affected)%Z
  && negb (bool_decide (fidelity p = NON_REPLAYABLE)).

Definition point_sequence (p : ReplayPoint) : Z := next_sequence (cursor p).

Definition select_before (tid bid : string) (affected : Z) (minimum : ReplayFidelity)
  : M rstate ReplayPoint :=
  tid ← lift (require_nonempty_text tid "trace_id");
  bid ← lift (require_nonempty_text bid "branch_id");
  es ← gets entries;
  let candidates := filter (λ p, is_candidate tid bid affected p = true)
                      ((λ e, point e.2) <$> es) in
  _ ← ensure (negb (bool_decide (candidates = [])))
        (LookupError "no replayable ReplayPoint exists before the affected event");
  let trusted := filter (λ p, fidelity_meets (fidelity p) minimum = true) candidates in
  let pool := if trusted is [] then candidates else trusted in
  match pool with
  | [] => raise (ValueError "max() iterable argument is empty")
  | first :: rest =>
      let selected := max_by point_sequence first rest in
      _ ← inc "replay_point_selection_count";
      _ ← (if trusted is [] then inc "replay_point_fidelity_fallback_count"
           else if existsb (λ p, (point_sequence selected <? point_sequence p)%Z
                                 && negb (fidelity_meets (fidelity p) minimum)) candidates
           then inc "replay_point_fidelity_filtered_selection_count"
           else mret tt);
      mret selected
  end.

(** ** run_from *)

Definition res_unit {A} (r : res A) : res unit := match r with Ok _ => Ok tt | Err e => Err e end.

(** The restore block: attempt, checks on the receipt, counters, duration. *)
Definition restore_phase (entry : RuntimeReplayBinding) (binding : key)
    (request : RestoreReplayStateRequest) : M rstate (RestoreReceipt * float) :=
  restore_started ← now;
  _ ← inc "restore_attempt_count";
  try_finally_val
    (try_else
       (r ← invoke (λ h, built mk_RestoreReceipt
                           (restore_replay_state env h (adapter entry) binding request))
                   (ObsRestoreAdapter (adapter entry) binding request);
        receipt ← lift (instance_or r "restore_replay_state must return a RestoreReceipt");
        _ ← ensure (negb (bool_decide (rc_achieved_fidelity receipt = NON_REPLAYABLE)))
              (RuntimeError "Adapter reported non_replayable while restoring a ReplayPoint");
        _ ← ensure (fidelity_meets (fidelity (point entry)) (rc_achieved_fidelity receipt))
              (ValueError ("restore achieved a fidelity stronger than the captured "
                           ++ "ReplayPoint"));
        mret receipt)
       (λ e, _ ← inc "restore_failure_count"; raise e)
       (λ receipt,
          _ ← inc "restore_success_count";
          _ ← match rc_prefix_reused receipt with
              | Some true => inc "prefix_reuse_verified_count"
              | Some false => inc "prefix_reconstruction_count"
              | None => inc "prefix_reuse_unknown_count"
              end;
          mret receipt))
    (m ← elapsed_minutes restore_started;
     _ ← add_elapsed "restore_minutes" restore_started;
     mret m).

(** The equivalence block. *)
Definition equivalence_phase (entry : RuntimeReplayBinding) (binding : key)
    (receipt : RestoreReceipt) (minimum : ReplayFidelity)
  : M rstate (EquivalenceReport * bool * float) :=
  equivalence_started ← now;
  _ ← inc "equivalence_attempt_count";
  try_finally_val
    (try_else
       (r ← invoke (λ h, built mk_EquivalenceReport
                           (validate_replay_equivalence env h (adapter entry) binding receipt))
                   (ObsValidate (adapter entry) binding receipt);
        rep ← lift (instance_or r
                 ("validate_replay_equivalence must return an " ++ "EquivalenceReport"));
        eligible ← lift (validate_equivalence_contract (point entry) receipt rep minimum);
        mret (rep, eligible))
       (λ e, _ ← inc "equivalence_failure_count"; raise e)
       (λ re,
          _ ← (if equivalent re.1 && fidelity_meets (rp_achieved_fidelity re.1) SEMANTIC_EQUIVALENT
               then inc "equivalence_verified_count"
               else inc "equivalence_unverified_count");
          mret re))
    (m ← elapsed_minutes equivalence_started;
     _ ← add_elapsed "equivalence_minutes" equivalence_started;
     mret m).

(** The suffix block: execute, then always finalize; [(outcome, finalization
    error, suffix minutes)]. *)
Definition suffix_execute (restore : ReplayRestoreResult)
    (execute : history → ReplayRestoreResult → res O) : M rstate (float * res O) :=
  suffix_started ← now;
  _ ← inc "suffix_attempt_count";
  outcome ← call (λ h, execute h restore) (λ r, ObsExecute restore (res_unit r));
  mret (suffix_started, outcome).

Definition suffix_finalize (entry : RuntimeReplayBinding) (binding : key)
    (request : RestoreReplayStateRequest) (suffix_started : float) (outcome : res O)
  : M rstate (option exn * float) :=
  finalization_error ←
    (if callable (adapter_attr env (adapter entry) "finalize_replay_suffix") then
       _ ← inc "suffix_finalization_attempt_count";
       r ← call (λ h, finalize_replay_suffix env h (adapter entry) binding request (is_ok outcome))
                (ObsFinalize (adapter entry) binding request (is_ok outcome));
       match r with
       | Err e => _ ← inc "suffix_finalization_failure_count"; mret (Some e)
       | Ok _ => _ ← inc "suffix_finalization_success_count"; mret None
       end
     else mret None);
  m ← elapsed_minutes suffix_started;
  _ ← add_elapsed "suffix_minutes" suffix_started;
  mret (finalization_error, m).

Definition suffix_phase (entry : RuntimeReplayBinding) (binding : key)
    (request : RestoreReplayStateRequest) (restore : ReplayRestoreResult)
    (execute : history → ReplayRestoreResult → res O)
  : M rstate (res O * option exn * float) :=
  so ← suffix_execute restore execute;
  fm ← suffix_finalize entry binding request so.1 so.2;
  mret (so.2, fm.1, fm.2).

Definition quarantine (id : string) : M rstate unit :=
  _ ← update_entry id (set_lifecycle FAILED);
  inc "replay_point_quarantine_count".

(** What follows the suffix block. *)
Definition settle_suffix (id : string) (replay_started : float) (restore : ReplayRestoreResult)
    (outcome : res O) (finalization_error : option exn) (suffix_m : float)
  : M rstate (ReplayRestoreResult * O) :=
  match outcome with
  | Err suffix_error =>
      _ ← inc "suffix_failure_count";
      match finalization_error with
      | Some f => _ ← quarantine id; raise (raise_from suffix_error f)
      | None => raise suffix_error
      end
  | Ok o =>
      match finalization_error with
      | Some f => _ ← inc "suffix_failure_count"; _ ← quarantine id; raise f
      | None =>
          _ ← inc "suffix_success_count";
          wall ← elapsed_minutes replay_started;
          _ ← inc "replay_success_count";
          mret (with_suffix restore suffix_m wall, o)
      end
  end.

Definition replayable_binding (entry : RuntimeReplayBinding) : M rstate key :=
  match adapter_binding_key entry with
  | Some k => mret k
  | None => raise (RuntimeError "replayable ReplayPoint has no Adapter binding")
  end.

Definition ensure_ready (entry : RuntimeReplayBinding) (msg : string) : M rstate unit :=
  ensure (bool_decide (lifecycle (point entry) = READY))
    (RuntimeError (msg ++ ReplayPointLifecycle_value (lifecycle (point entry)))).

(** The checks under the registry lock, and those repeated under the replay
    lock of the point. *)
Definition check_replayable (id : string) : M rstate key :=
  entry ← get_entry id;
  _ ← ensure_ready entry "ReplayPoint must be ready before restore: ";
  _ ← ensure (negb (bool_decide (fidelity (point entry) = NON_REPLAYABLE)))
        (RuntimeError "non_replayable ReplayPoints cannot be restored");
  replayable_binding entry.

Definition recheck_ready (id : string) : M rstate RuntimeReplayBinding :=
  entry ← get_entry id;
  _ ← ensure_ready entry "ReplayPoint stopped being ready before restore: ";
  mret entry.

(** The agent state is restored between the equivalence block and the suffix. *)
Definition restore_agent_phase (id target_branch_id : string) (entry : RuntimeReplayBinding)
    (rm : RestoreReceipt * float) (rem : EquivalenceReport * bool * float)
  : M rstate ReplayRestoreResult :=
  let receipt := rm.1 in
  let rep := rem.1.1 in
  _ ← on_ledger (observe_fidelity (ReplayFidelity_value (rp_achieved_fidelity rep)));
  _ ← invoke (λ h, restore_agent_state env h (agent_state_store entry) (agent_state_key entry))
        (ObsRestoreAgent (agent_state_store entry) (agent_state_key entry));
  mret {| rr_replay_point_id := id; rr_target_branch_id := target_branch_id;
          rr_achieved_fidelity := rp_achieved_fidelity rep; rr_equivalent := equivalent rep;
          promotion_eligible := rem.1.2; prefix_reused := rc_prefix_reused receipt; report := rep;
          restore_minutes := rm.2; equivalence_minutes := rem.2;
          suffix_minutes := f0; replay_wall_minutes := f0 |}.

Definition run_from_body (id target_branch_id : string) (minimum : ReplayFidelity)
    (execute : history → ReplayRestoreResult → res O) (replay_started : float)
  : M rstate (ReplayRestoreResult * O) :=
  binding ← check_replayable id;
  entry ← recheck_ready id;
  let request := {| rst_replay_point_id := id; rst_target_branch_id := target_branch_id;
                    rst_minimum_fidelity := minimum |} in
  rm ← restore_phase entry binding request;
  rem ← equivalence_phase entry binding rm.1 minimum;
  restore ← restore_agent_phase id target_branch_id entry rm rem;
  ofm ← suffix_phase entry binding request restore execute;
  settle_suffix id replay_started restore ofm.1.1 ofm.1.2 ofm.2.

Definition run_from (id target_branch_id : string) (minimum : ReplayFidelity)
    (execute : history → ReplayRestoreResult → res O) : M rstate (ReplayRestoreResult * O) :=
  target_branch_id ← lift (require_nonempty_text target_branch_id "target_branch_id");
  replay_started ← now;
  _ ← inc "replay_attempt_count";
  try_finally
    (try_except (run_from_body id target_branch_id minimum execute replay_started)
                (λ e, _ ← inc "replay_failure_count"; raise e))
    (add_elapsed "replay_wall_minutes" replay_started).

(** ** release *)

(** Release of one side: the error, if the call raised. *)
Definition release_adapter (id : string) : M rstate (option exn) :=
  entry ← get_entry id;
  match adapter_released entry, adapter_binding_key entry with
  | false, Some k =>
      r ← call (λ h, release_replay_state env h (adapter entry) k)
               (ObsReleaseAdapter (adapter entry) k);
      match r with
      | Ok _ => _ ← update_entry id with_adapter_released; mret None
      | Err e => mret (Some e)
      end
  | _, _ => mret None
  end.

Definition release_agent (id : string) : M rstate (option exn) :=
  entry ← get_entry id;
  if agent_released entry then mret None
  else
    r ← call (λ h, release_agent_state env h (agent_state_store entry) (agent_state_key entry))
             (ObsReleaseAgent (agent_state_store entry) (agent_state_key entry));
    match r with
    | Ok _ => _ ← update_entry id with_agent_released; mret None
    | Err e => mret (Some e)
    end.

Definition released_lifecycle (entry : RuntimeReplayBinding) : ReplayPointLifecycle :=
  if adapter_released entry && agent_released entry then RELEASED else FAILED.

(** The first section under the registry lock: [Some p] if the point was
    released before. *)
Definition release_mark (id : string) : M rstate (option ReplayPoint) :=
  entry ← get_entry id;
  if decide (lifecycle (point entry) = RELEASED) then
    _ ← inc "release_success_count"; mret (Some (point entry))
  else _ ← update_entry id (set_lifecycle RELEASING); mret None.

(** The last section, and the outcome. *)
Definition release_settle (id : string) (adapter_error agent_error : option exn)
  : M rstate ReplayPoint :=
  _ ← update_entry id (λ b, set_lifecycle (released_lifecycle b) b);
  entry ← get_entry id;
  match adapter_error, agent_error with
  | Some a, Some g => raise (raise_from a g)
  | Some a, None => raise a
  | None, Some g => raise g
  | None, None => _ ← inc "release_success_count"; mret (point entry)
  end.

Definition release_body (id : string) : M rstate ReplayPoint :=
  done ← release_mark id;
  match done with
  | Some p => mret p
  | None =>
      adapter_error ← release_adapter id;
      agent_error ← release_agent id;
      release_settle id adapter_error agent_error
  end.

Definition release (id : string) : M rstate ReplayPoint :=
  release_started ← now;
  _ ← inc "release_attempt_count";
  try_finally
    (try_except (release_body id) (λ e, _ ← inc "release_failure_count"; raise e))
    (add_elapsed "release_minutes" release_started).
End registry.
