(* ===== verification/RegistryFacts.v ===== *)
(** Symbolic execution of registry code.

    [delta s0 s es incs eff] says what happened between [s0] and [s]: the
    entries are now [es], the counters grew by the increments [incs], and the
    calls [eff] were made, in order (clock reads and identifier draws aside).
    Each primitive step has a rule that extends the delta of its start state,
    and the tactic [sym] runs a program by these rules. *)

From stdpp Require Import base strings list sets gmap.
From Stdlib Require Import ZArith Lia.
From S2P Require Import Prelude PyFloat PyValue TraceRuntime ReplayMetrics ReplayTypes.
From S2P Require Import ReplayRegistry.

Definition cnt (s : rstate) (f : string) : Z := count (ledger s) f.

Definition known (f : string) : Prop := mem_str f COUNT_FIELDS = true.

(** Increments by counter, and the amount a list of them adds to [f]. *)
Notation incs := (list (string * Z)).

Fixpoint total (f : string) (l : incs) : Z :=
  match l with
  | [] => 0
  | (g, n) :: l' => (if decide (g = f) then n else 0) + total f l'
  end.

Lemma total_app f l1 l2 : total f (l1 ++ l2)%list = (total f l1 + total f l2)%Z.
Proof. induction l1 as [|[g n] l1 IH]; simpl; [lia|]. rewrite IH. lia. Qed.

(** The calls that matter to collaborators. *)
Definition is_effect (o : obs) : bool :=
  match o with ObsClock _ | ObsNewId _ | ObsNewEventId _ => false | _ => true end.

Fixpoint effects (h : history) : history :=
  match h with
  | [] => []
  | o :: h' => if is_effect o then o :: effects h' else effects h'
  end.

Lemma effects_app h1 h2 : effects (h1 ++ h2)%list = (effects h1 ++ effects h2)%list.
Proof. induction h1 as [|o h1 IH]; simpl; [done|]. rewrite IH. by destruct (is_effect o). Qed.

Record delta (s0 s : rstate) (es : list (string * RuntimeReplayBinding)) (l : incs)
    (eff : history) : Prop := {
  d_entries : entries s = es;
  d_counts : ∀ f, cnt s f = (cnt s0 f + total f l)%Z;
  d_hist : ∃ new, hist s = (hist s0 ++ new)%list ∧ effects new = eff
}.

Lemma delta_refl s : delta s s (entries s) [] [].
Proof. split; [done|intros; simpl; lia|]. exists []. by rewrite app_nil_r. Qed.

Lemma delta_trans s0 s1 s2 es1 es2 l1 l2 e1 e2 :
  delta s0 s1 es1 l1 e1 → delta s1 s2 es2 l2 e2 →
  delta s0 s2 es2 (l1 ++ l2)%list (e1 ++ e2)%list.
Proof.
  intros [H1 C1 (n1 & N1 & E1)] [H2 C2 (n2 & N2 & E2)]. split; [done| |].
  - intros f. rewrite C2, C1, total_app. lia.
  - exists (n1 ++ n2)%list. rewrite effects_app, N2, N1, E1, E2. by rewrite app_assoc.
Qed.

(** The effects of the whole history grow by the effects of a delta. *)
Lemma delta_effects s0 s es l eff :
  delta s0 s es l eff → effects (hist s) = (effects (hist s0) ++ eff)%list.
Proof. intros [_ _ (new & -> & <-)]. by rewrite effects_app. Qed.

(** ** Rules *)

Section rules.
Context {s0 s : rstate} {es : list (string * RuntimeReplayBinding)} {l : incs} {eff : history}.
Hypothesis D : delta s0 s es l eff.

Lemma step_inc f (Q : res unit → rstate → Prop) :
  known f → (∀ s', delta s0 s' es (l ++ [(f, 1%Z)])%list eff → Q (Ok tt) s') → wp (inc f) s Q.
Proof.
  intros Hk HQ. destruct D as [H C N]. unfold wp, inc, on_ledger. rewrite increment_known by done.
  apply HQ. split; [done| |done].
  intros g. rewrite total_app. simpl. unfold cnt in *. simpl. rewrite count_bump, C.
  repeat case_decide; lia.
Qed.

Lemma step_inc_by f n (Q : res unit → rstate → Prop) :
  known f → (∀ s', delta s0 s' es (l ++ [(f, n)])%list eff → Q (Ok tt) s') →
  wp (inc_by f n) s Q.
Proof.
  intros Hk HQ. destruct D as [H C N]. unfold wp, inc_by, on_ledger.
  rewrite increment_known by done.
  apply HQ. split; [done| |done].
  intros g. rewrite total_app. simpl. unfold cnt in *. simpl. rewrite count_bump, C.
  repeat case_decide; lia.
Qed.

Lemma step_push o s' :
  s' = push s o → delta s0 s' es l (eff ++ effects [o])%list.
Proof.
  intros ->. destruct D as [H C (new & N & E)]. split; [done|done|].
  exists (new ++ [o])%list. rewrite effects_app, E. split; [|done].
  simpl. rewrite N. by rewrite app_assoc.
Qed.

Lemma step_call {A} (f : history → A) o (Q : res A → rstate → Prop) :
  (∀ r s', f (hist s) = r → delta s0 s' es l (eff ++ effects [o r])%list → Q (Ok r) s') →
  wp (call f o) s Q.
Proof. intros HQ. apply HQ; [done|]. by apply step_push. Qed.

Lemma step_invoke {A} (f : history → res A) o (Q : res A → rstate → Prop) :
  (∀ r s', f (hist s) = r → delta s0 s' es l (eff ++ effects [o r])%list → Q r s') →
  wp (invoke f o) s Q.
Proof. intros HQ. apply HQ; [done|]. by apply step_push. Qed.

Lemma step_ledger g s' :
  s' = set_ledger s g → (∀ f, count g f = count (ledger s) f) → delta s0 s' es l eff.
Proof.
  intros -> Hg. destruct D as [H C N]. split; [done| |done].
  intros f. unfold cnt in *. simpl. by rewrite Hg, C.
Qed.

Lemma step_observe f (Q : res unit → rstate → Prop) :
  (∀ s', delta s0 s' es l eff → Q (Ok tt) s') →
  wp (on_ledger (observe_fidelity (ReplayFidelity_value f))) s Q.
Proof. intros HQ. destruct f; apply HQ; by eapply step_ledger. Qed.

Lemma step_add_secs f x (Q : res unit → rstate → Prop) :
  mem_str f MINUTE_FIELDS = true → (∀ s', delta s0 s' es l eff → Q (Ok tt) s') →
  wp (add_secs f x) s Q.
Proof.
  intros Hk HQ. unfold wp, add_secs, on_ledger, add_seconds, ensure, lift, mbind, M_bind.
  rewrite Hk. apply HQ. by eapply step_ledger.
Qed.

Lemma step_get_entry id (Q : res RuntimeReplayBinding → rstate → Prop) :
  (∀ b, dict_get id es = Some b → Q (Ok b) s) →
  (dict_get id es = None → Q (Err (unknown_point id)) s) →
  wp (get_entry id) s Q.
Proof.
  intros H1 H2. unfold get_entry. apply wp_bind, wp_gets. rewrite (d_entries _ _ _ _ _ D).
  destruct (dict_get id es) eqn:E; [apply wp_ret|apply wp_raise]; auto.
Qed.

Lemma step_update_entry id f b (Q : res unit → rstate → Prop) :
  dict_get id es = Some b →
  (∀ s', delta s0 s' (dict_set id (f b) es) l eff → Q (Ok tt) s') →
  wp (update_entry id f) s Q.
Proof.
  intros Hb HQ. destruct D as [H C N]. unfold update_entry. apply wp_modify. rewrite H, Hb.
  by apply HQ.
Qed.

Lemma step_gets_entries (Q : res _ → rstate → Prop) : Q (Ok es) s → wp (gets entries) s Q.
Proof. intros HQ. apply wp_gets. by rewrite (d_entries _ _ _ _ _ D). Qed.
End rules.

Section env_rules.
Context {O : Type} (env : Env O).
Context {s0 s : rstate} {es : list (string * RuntimeReplayBinding)} {l : incs} {eff : history}.
Hypothesis D : delta s0 s es l eff.

Lemma step_now (Q : res float → rstate → Prop) :
  (∀ t s', delta s0 s' es l eff → Q (Ok t) s') → wp (now env) s Q.
Proof.
  intros HQ. eapply (step_call D). intros r s' _ D'. apply HQ. by rewrite app_nil_r in D'.
Qed.

Lemma step_add_elapsed f t0 (Q : res unit → rstate → Prop) :
  mem_str f MINUTE_FIELDS = true → (∀ s', delta s0 s' es l eff → Q (Ok tt) s') →
  wp (add_elapsed env f t0) s Q.
Proof.
  intros Hk HQ. unfold add_elapsed. apply wp_bind, step_now. intros t s' D'.
  by eapply step_add_secs.
Qed.
End env_rules.

Lemma step_elapsed_minutes {O} (env : Env O) {s0 s es l eff} (D : delta s0 s es l eff) t0
    (Q : res float → rstate → Prop) :
  (∀ m s', delta s0 s' es l eff → Q (Ok m) s') → wp (elapsed_minutes env t0) s Q.
Proof.
  intros HQ. unfold elapsed_minutes. apply wp_bind, (step_now env D). intros t s' D'.
  by apply wp_ret, HQ.
Qed.

Lemma wp_try_else {S A B} (m : M S A) (h : exn → M S B) (k : A → M S B) s
    (Q : res B → S → Prop) :
  wp m s (λ r s', match r with Ok a => wp (k a) s' Q | Err e => wp (h e) s' Q end) →
  wp (try_else m h k) s Q.
Proof. unfold wp, try_else. by destruct (m s) as [[a|e] s']. Qed.

Lemma wp_try_finally_val {S A B} (m : M S A) (f : M S B) s (Q : res (A * B) → S → Prop) :
  wp m s (λ r s', wp f s' (λ r' s'',
    Q (match r' with Ok b => match r with Ok a => Ok (a, b) | Err e => Err e end
                   | Err e => Err e end) s'')) →
  wp (try_finally_val m f) s Q.
Proof.
  unfold wp, try_finally_val. destruct (m s) as [r s']. simpl. by destruct (f s') as [[?|?] s''].
Qed.

(** An entry that was just written. *)
Lemma step_get_set {s0 s id v es l eff} (D : delta s0 s (dict_set id v es) l eff)
    (Q : res RuntimeReplayBinding → rstate → Prop) :
  Q (Ok v) s → wp (get_entry id) s Q.
Proof.
  intros HQ. eapply (step_get_entry D); rewrite dict_get_set_eq; [|done]. by intros ? [= <-].
Qed.

Lemma step_update_set {s0 s id v es l eff} (D : delta s0 s (dict_set id v es) l eff) f
    (Q : res unit → rstate → Prop) :
  (∀ s', delta s0 s' (dict_set id (f v) es) l eff → Q (Ok tt) s') → wp (update_entry id f) s Q.
Proof.
  intros HQ. eapply (step_update_entry D); [apply dict_get_set_eq|]. by rewrite dict_set_set.
Qed.

(** Entering a sub-program with a delta of its own. *)
Lemma step_sub {A s0 s es l eff} (m : M rstate A) (P : res A → _ → incs → history → Prop)
    (Q : res A → rstate → Prop) :
  delta s0 s es l eff →
  wp m s (λ r s', ∃ es' l' e', delta s s' es' l' e' ∧ P r es' l' e') →
  (∀ r s' es' l' e', delta s0 s' es' (l ++ l')%list (eff ++ e')%list → P r es' l' e' → Q r s') →
  wp m s Q.
Proof.
  intros D Hm HQ. eapply wp_mono; [exact Hm|]. intros r s' (es' & l' & e' & D' & HP).
  eapply HQ; [|exact HP]. by eapply delta_trans.
Qed.

(** ** Automation *)

Ltac delta_norm D :=
  cbn [app effects is_effect] in D; rewrite ?app_nil_r in D; rewrite <- ?app_assoc in D;
  cbn [app] in D.

Ltac sym_red := cbn beta iota zeta delta [fst snd is_ok].

(** One step of symbolic execution. *)
Ltac sym1 :=
  lazymatch goal with
  | |- wp (_ ≫= _) _ _ => apply wp_bind
  | |- wp (mret _) _ _ => apply wp_ret
  | |- wp (raise _) _ _ => apply wp_raise
  | |- wp (lift _) _ _ => apply wp_lift
  | |- wp (try_except _ _) _ _ => apply wp_try_except
  | |- wp (try_finally _ _) _ _ => apply wp_try_finally
  | |- wp (try_else _ _ _) _ _ => apply wp_try_else
  | |- wp (try_finally_val _ _) _ _ => apply wp_try_finally_val
  | |- wp (ensure _ _) _ _ => apply wp_ensure; intros ?
  | D : delta _ ?s _ _ _ |- wp (inc _) ?s _ =>
      eapply (step_inc D); [reflexivity|clear D; intros ? D; delta_norm D]
  | D : delta _ ?s _ _ _ |- wp (inc_by _ _) ?s _ =>
      eapply (step_inc_by D); [reflexivity|clear D; intros ? D; delta_norm D]
  | D : delta _ ?s _ _ _ |- wp (call _ _) ?s _ =>
      eapply (step_call D); clear D; intros ? ? ? D; delta_norm D
  | D : delta _ ?s _ _ _ |- wp (invoke _ _) ?s _ =>
      eapply (step_invoke D); clear D; intros ? ? ? D; delta_norm D
  | D : delta _ ?s _ _ _ |- wp (now _) ?s _ =>
      eapply (step_now _ D); clear D; intros ? ? D
  | D : delta _ ?s _ _ _ |- wp (add_elapsed _ _ _) ?s _ =>
      eapply (step_add_elapsed _ D); [reflexivity|clear D; intros ? D]
  | D : delta _ ?s _ _ _ |- wp (elapsed_minutes _ _) ?s _ =>
      eapply (step_elapsed_minutes _ D); clear D; intros ? ? D
  | D : delta _ ?s _ _ _ |- wp (on_ledger (observe_fidelity _)) ?s _ =>
      eapply (step_observe D); clear D; intros ? D
  | D : delta _ ?s (dict_set ?id _ _) _ _ |- wp (get_entry ?id) ?s _ => eapply (step_get_set D)
  | D : delta _ ?s (dict_set ?id _ _) _ _ |- wp (update_entry ?id _) ?s _ =>
      eapply (step_update_set D); clear D; intros ? D
  | D : delta _ ?s _ _ _ |- wp (get_entry _) ?s _ =>
      eapply (step_get_entry D); [intros ? ?|intros ?]
  | D : delta _ ?s _ _ _ |- wp (gets entries) ?s _ => eapply (step_gets_entries D)
  | D : delta _ ?s _ _ _, Hb : dict_get ?id _ = Some _ |- wp (update_entry ?id _) ?s _ =>
      eapply (step_update_entry D); [exact Hb|clear D; intros ? D]
  | |- wp (match ?x with _ => _ end) _ _ => destruct x eqn:?
  | |- match ?x with _ => _ end => destruct x eqn:?
  end; sym_red.

Ltac sym := repeat sym1.

(** Closes a leaf whose postcondition is [∃ es l e, delta ... ∧ spec ...]. *)
Ltac leaf := do 3 eexists; split; [eassumption|].

(** Closes a goal [check r = outcome] from the recorded outcomes of the tests. *)
Ltac checks :=
  repeat (simpl; match goal with
    | H : ?x = _ |- context [?x] => rewrite H
    | H : ?x = false |- context [negb ?x] => rewrite H
    end); simpl; try done.

(** Two reads of one entry agree; two outcomes of one test cannot differ. *)
Ltac same_entry :=
  match goal with
  | A : dict_get ?i ?d = Some ?x, B : dict_get ?i ?d = Some ?y |- _ =>
      rewrite A in B; injection B as <-
  end.
Ltac clash :=
  match goal with A : ?x = true, B : ?x = false |- _ => rewrite A in B; discriminate B end.

(** The calls made between two states. *)
Definition calls (s s' : rstate) : history :=
  drop (length (effects (hist s))) (effects (hist s')).

Lemma delta_calls s s' es l e : delta s s' es l e → calls s s' = e.
Proof. intros D. unfold calls. by rewrite (delta_effects _ _ _ _ _ D), drop_app_length. Qed.
