(* ===== verification/RegistrySpec.v ===== *)
(** What each registry operation may do: outcome relations for [run_from],
    [release] and [capture_at_head], and the proofs that the code implements
    them.  A relation lists the possible results with the entries, counters and
    calls they go with; the theorems about the registry are proved from these
    relations. *)

From stdpp Require Import base strings list sets gmap.
From Stdlib Require Import ZArith Lia.
From S2P Require Import Prelude PyFloat PyValue TraceRuntime ReplayMetrics ReplayTypes.
From S2P Require Import ReplayRegistry RegistryFacts.

Notation one f := (f, 1%Z).

(** * Restore *)

(** The checks on what [restore_replay_state] returned. *)
Definition accept_receipt (captured : ReplayFidelity) (r : res (option RestoreReceipt))
  : res RestoreReceipt :=
  o ← r;
  receipt ← instance_or o "restore_replay_state must return a RestoreReceipt";
  _ ← require (negb (bool_decide (rc_achieved_fidelity receipt = NON_REPLAYABLE)))
        (RuntimeError "Adapter reported non_replayable while restoring a ReplayPoint");
  _ ← require (fidelity_meets captured (rc_achieved_fidelity receipt))
        (ValueError ("restore achieved a fidelity stronger than the captured "
                     ++ "ReplayPoint"));
  Ok receipt.

Lemma accept_receipt_Ok captured r receipt :
  accept_receipt captured r = Ok receipt ↔
  r = Ok (Some receipt) ∧ rc_achieved_fidelity receipt ≠ NON_REPLAYABLE ∧
  fidelity_meets captured (rc_achieved_fidelity receipt) = true.
Proof.
  unfold accept_receipt. split.
  - intros H. destruct r as [[rc|]|e]; try discriminate. simpl in H. inv_res.
    apply negb_true_iff, bool_decide_eq_false in H0. done.
  - intros (-> & Hn & Hm). simpl. rewrite bool_decide_false by done. simpl. by rewrite Hm.
Qed.

Definition prefix_counter (receipt : RestoreReceipt) : string :=
  match rc_prefix_reused receipt with
  | Some true => "prefix_reuse_verified_count"
  | Some false => "prefix_reconstruction_count"
  | None => "prefix_reuse_unknown_count"
  end.

Inductive restore_outcome (entry : RuntimeReplayBinding) (binding : key)
    (request : RestoreReplayStateRequest)
  : res (RestoreReceipt * float) → incs → history → Prop :=
| restore_refused r e :
    accept_receipt (fidelity (point entry)) r = Err e →
    restore_outcome entry binding request (Err e)
      [one "restore_attempt_count"; one "restore_failure_count"]
      [ObsRestoreAdapter (adapter entry) binding request r]
| restore_accepted r receipt m c :
    accept_receipt (fidelity (point entry)) r = Ok receipt → prefix_counter receipt = c →
    restore_outcome entry binding request (Ok (receipt, m))
      [one "restore_attempt_count"; one "restore_success_count"; one c]
      [ObsRestoreAdapter (adapter entry) binding request r].

(** * Equivalence *)

(** The checks on what [validate_replay_equivalence] returned. *)
Definition accept_report (p : ReplayPoint) (receipt : RestoreReceipt) (minimum : ReplayFidelity)
    (r : res (option EquivalenceReport)) : res (EquivalenceReport * bool) :=
  o ← r;
  rep ← instance_or o ("validate_replay_equivalence must return an " ++ "EquivalenceReport");
  eligible ← validate_equivalence_contract p receipt rep minimum;
  Ok (rep, eligible).

Lemma accept_report_Ok p receipt minimum r rep eligible :
  accept_report p receipt minimum r = Ok (rep, eligible) ↔
  r = Ok (Some rep) ∧ validate_equivalence_contract p receipt rep minimum = Ok eligible.
Proof.
  unfold accept_report. split.
  - intros H. destruct r as [[rc|]|e]; try discriminate. simpl in H.
    apply res_bind_Ok in H as (b & Hb & [= -> ->]). done.
  - intros (-> & H). simpl. by rewrite H.
Qed.

Definition verified (rep : EquivalenceReport) : bool :=
  equivalent rep && fidelity_meets (rp_achieved_fidelity rep) SEMANTIC_EQUIVALENT.

Definition equivalence_counter (rep : EquivalenceReport) : string :=
  if verified rep then "equivalence_verified_count" else "equivalence_unverified_count".

Inductive equivalence_outcome (entry : RuntimeReplayBinding) (binding : key)
    (receipt : RestoreReceipt) (minimum : ReplayFidelity)
  : res (EquivalenceReport * bool * float) → incs → history → Prop :=
| equivalence_refused r e :
    accept_report (point entry) receipt minimum r = Err e →
    equivalence_outcome entry binding receipt minimum (Err e)
      [one "equivalence_attempt_count"; one "equivalence_failure_count"]
      [ObsValidate (adapter entry) binding receipt r]
| equivalence_accepted r rep eligible m c :
    accept_report (point entry) receipt minimum r = Ok (rep, eligible) →
    equivalence_counter rep = c →
    equivalence_outcome entry binding receipt minimum (Ok (rep, eligible, m))
      [one "equivalence_attempt_count"; one c]
      [ObsValidate (adapter entry) binding receipt r].

(** * Replay *)

(** What the guards of [run_from] let through: the entry and its binding. *)
Definition admission (es : list (string * RuntimeReplayBinding)) (id : string)
  : res (RuntimeReplayBinding * key) :=
  match dict_get id es with
  | None => Err (unknown_point id)
  | Some b =>
      _ ← require (bool_decide (lifecycle (point b) = READY))
            (RuntimeError ("ReplayPoint must be ready before restore: "
                           ++ ReplayPointLifecycle_value (lifecycle (point b))));
      _ ← require (negb (bool_decide (fidelity (point b) = NON_REPLAYABLE)))
            (RuntimeError "non_replayable ReplayPoints cannot be restored");
      match adapter_binding_key b with
      | Some k => Ok (b, k)
      | None => Err (RuntimeError "replayable ReplayPoint has no Adapter binding")
      end
  end.

(** [None]: the adapter has no finalizer; otherwise what the finalizer did. *)
Definition fin_error (fin : option (res unit)) : option exn :=
  match fin with Some (Err e) => Some e | _ => None end.

Definition fin_incs (fin : option (res unit)) : incs :=
  match fin with
  | None => []
  | Some (Ok _) => [one "suffix_finalization_attempt_count"; one "suffix_finalization_success_count"]
  | Some (Err _) => [one "suffix_finalization_attempt_count"; one "suffix_finalization_failure_count"]
  end.

Definition fin_calls (ad : Z) (binding : key) (request : RestoreReplayStateRequest) (ok : bool)
    (fin : option (res unit)) : history :=
  match fin with None => [] | Some r => [ObsFinalize ad binding request ok r] end.

Definition restore_result (id target : string) (receipt : RestoreReceipt) (rep : EquivalenceReport)
    (eligible : bool) (rm em : float) : ReplayRestoreResult :=
  {| rr_replay_point_id := id; rr_target_branch_id := target;
     rr_achieved_fidelity := rp_achieved_fidelity rep; rr_equivalent := equivalent rep;
     promotion_eligible := eligible; prefix_reused := rc_prefix_reused receipt; report := rep;
     restore_minutes := rm; equivalence_minutes := em; suffix_minutes := f0;
     replay_wall_minutes := f0 |}.

Definition set_failed (id : string) (b : RuntimeReplayBinding)
    (es : list (string * RuntimeReplayBinding)) : list (string * RuntimeReplayBinding) :=
  dict_set id (set_lifecycle FAILED b) es.

(** [reached_suffix ... restore l e]: restore, equivalence check and agent
    restore all succeeded, and produced [restore]. *)
Inductive reached_suffix (id target : string) (minimum : ReplayFidelity)
    (entry : RuntimeReplayBinding) (binding : key)
  : ReplayRestoreResult → incs → history → Prop :=
| reached receipt rep eligible rm em l1 e1 l2 e2 :
    restore_outcome entry binding
      {| rst_replay_point_id := id; rst_target_branch_id := target;
         rst_minimum_fidelity := minimum |} (Ok (receipt, rm)) l1 e1 →
    equivalence_outcome entry binding receipt minimum (Ok (rep, eligible, em)) l2 e2 →
    reached_suffix id target minimum entry binding
      (restore_result id target receipt rep eligible rm em) (l1 ++ l2)%list
      (e1 ++ e2 ++ [ObsRestoreAgent (agent_state_store entry) (agent_state_key entry) (Ok tt)])%list.

Inductive run_from_outcome {O} (finalizes : Z → bool) (id target0 : string)
    (minimum : ReplayFidelity) (es : list (string * RuntimeReplayBinding))
  : res (ReplayRestoreResult * O) → list (string * RuntimeReplayBinding) → incs → history → Prop :=
| rf_bad_target e :
    require_nonempty_text target0 "target_branch_id" = Err e →
    run_from_outcome finalizes id target0 minimum es (Err e) es [] []
| rf_rejected target e :
    require_nonempty_text target0 "target_branch_id" = Ok target →
    admission es id = Err e →
    run_from_outcome finalizes id target0 minimum es (Err e) es
      [one "replay_attempt_count"; one "replay_failure_count"] []
| rf_restore_failed target entry binding e l eff :
    require_nonempty_text target0 "target_branch_id" = Ok target →
    admission es id = Ok (entry, binding) →
    restore_outcome entry binding
      {| rst_replay_point_id := id; rst_target_branch_id := target;
         rst_minimum_fidelity := minimum |} (Err e) l eff →
    run_from_outcome finalizes id target0 minimum es (Err e) es
      (one "replay_attempt_count" :: l ++ [one "replay_failure_count"])%list eff
| rf_equivalence_failed target entry binding receipt rm e l1 e1 l2 e2 :
    require_nonempty_text target0 "target_branch_id" = Ok target →
    admission es id = Ok (entry, binding) →
    restore_outcome entry binding
      {| rst_replay_point_id := id; rst_target_branch_id := target;
         rst_minimum_fidelity := minimum |} (Ok (receipt, rm)) l1 e1 →
    equivalence_outcome entry binding receipt minimum (Err e) l2 e2 →
    run_from_outcome finalizes id target0 minimum es (Err e) es
      (one "replay_attempt_count" :: l1 ++ l2 ++ [one "replay_failure_count"])%list
      (e1 ++ e2)%list
| rf_agent_failed target entry binding receipt rm rep eligible em e l1 e1 l2 e2 :
    require_nonempty_text target0 "target_branch_id" = Ok target →
    admission es id = Ok (entry, binding) →
    restore_outcome entry binding
      {| rst_replay_point_id := id; rst_target_branch_id := target;
         rst_minimum_fidelity := minimum |} (Ok (receipt, rm)) l1 e1 →
    equivalence_outcome entry binding receipt minimum (Ok (rep, eligible, em)) l2 e2 →
    run_from_outcome finalizes id target0 minimum es (Err e) es
      (one "replay_attempt_count" :: l1 ++ l2 ++ [one "replay_failure_count"])%list
      (e1 ++ e2 ++ [ObsRestoreAgent (agent_state_store entry) (agent_state_key entry) (Err e)])%list
| rf_suffix_failed target entry binding restore e fin l eff :
    require_nonempty_text target0 "target_branch_id" = Ok target →
    admission es id = Ok (entry, binding) →
    reached_suffix id target minimum entry binding restore l eff →
    (fin ≠ None ↔ finalizes (adapter entry) = true) → fin_error fin = None →
    run_from_outcome finalizes id target0 minimum es (Err e) es
      (one "replay_attempt_count" :: l ++ one "suffix_attempt_count" :: fin_incs fin
       ++ [one "suffix_failure_count"; one "replay_failure_count"])%list
      (eff ++ ObsExecute restore (Err e)
         :: fin_calls (adapter entry) binding
              {| rst_replay_point_id := id; rst_target_branch_id := target;
                 rst_minimum_fidelity := minimum |} false fin)%list
| rf_quarantined target entry binding restore outcome fin f l eff :
    require_nonempty_text target0 "target_branch_id" = Ok target →
    admission es id = Ok (entry, binding) →
    reached_suffix id target minimum entry binding restore l eff →
    finalizes (adapter entry) = true → fin_error fin = Some f →
    run_from_outcome finalizes id target0 minimum es
      (Err (match outcome with Err e => raise_from e f | Ok _ => f end)) (set_failed id entry es)
      (one "replay_attempt_count" :: l ++ one "suffix_attempt_count" :: fin_incs fin
       ++ [one "suffix_failure_count"; one "replay_point_quarantine_count";
           one "replay_failure_count"])%list
      (eff ++ ObsExecute restore (@res_unit O outcome)
         :: fin_calls (adapter entry) binding
              {| rst_replay_point_id := id; rst_target_branch_id := target;
                 rst_minimum_fidelity := minimum |} (is_ok outcome) fin)%list
| rf_succeeded target entry binding restore o sm wall fin l eff :
    require_nonempty_text target0 "target_branch_id" = Ok target →
    admission es id = Ok (entry, binding) →
    reached_suffix id target minimum entry binding restore l eff →
    (fin ≠ None ↔ finalizes (adapter entry) = true) → fin_error fin = None →
    run_from_outcome finalizes id target0 minimum es (Ok (with_suffix restore sm wall, o)) es
      (one "replay_attempt_count" :: l ++ one "suffix_attempt_count" :: fin_incs fin
       ++ [one "suffix_success_count"; one "replay_success_count"])%list
      (eff ++ ObsExecute restore (Ok tt)
         :: fin_calls (adapter entry) binding
              {| rst_replay_point_id := id; rst_target_branch_id := target;
                 rst_minimum_fidelity := minimum |} true fin)%list.

(** * Release *)

(** The flags and lifecycle after the two release calls; [None]: no call. *)
Definition after_release (b : RuntimeReplayBinding) (ra rg : option (res unit))
  : RuntimeReplayBinding :=
  let b := if ra is Some (Ok _) then with_adapter_released b else b in
  let b := if rg is Some (Ok _) then with_agent_released b else b in
  set_lifecycle (released_lifecycle b) b.

Definition release_result (p : ReplayPoint) (ra rg : option (res unit)) : res ReplayPoint :=
  match ra, rg with
  | Some (Err a), Some (Err g) => Err (raise_from a g)
  | Some (Err a), _ => Err a
  | _, Some (Err g) => Err g
  | _, _ => Ok p
  end.

Definition adapter_call (b : RuntimeReplayBinding) (ra : option (res unit)) : history :=
  match ra, adapter_binding_key b with
  | Some r, Some k => [ObsReleaseAdapter (adapter b) k r]
  | _, _ => []
  end.

Definition agent_call (b : RuntimeReplayBinding) (rg : option (res unit)) : history :=
  match rg with Some r => [ObsReleaseAgent (agent_state_store b) (agent_state_key b) r] | None => [] end.

(** The adapter side is called exactly when it holds an unreleased binding. *)
Definition holds_adapter (b : RuntimeReplayBinding) : Prop :=
  adapter_released b = false ∧ adapter_binding_key b ≠ None.

Inductive release_outcome (id : string) (es : list (string * RuntimeReplayBinding))
  : res ReplayPoint → list (string * RuntimeReplayBinding) → incs → history → Prop :=
| rl_unknown :
    dict_get id es = None →
    release_outcome id es (Err (unknown_point id)) es
      [one "release_attempt_count"; one "release_failure_count"] []
| rl_already b :
    dict_get id es = Some b → lifecycle (point b) = RELEASED →
    release_outcome id es (Ok (point b)) es
      [one "release_attempt_count"; one "release_success_count"] []
| rl_ran b ra rg c :
    dict_get id es = Some b → lifecycle (point b) ≠ RELEASED →
    (ra ≠ None ↔ holds_adapter b) → (rg ≠ None ↔ agent_released b = false) →
    c = (if is_ok (release_result (point b) ra rg) then "release_success_count"
         else "release_failure_count") →
    release_outcome id es (release_result (point (after_release b ra rg)) ra rg)
      (dict_set id (after_release b ra rg) es) [one "release_attempt_count"; one c]
      (adapter_call b ra ++ agent_call b rg)%list.

Section specs.
Context {O : Type} (env : Env O).

Lemma restore_phase_spec entry binding request s :
  wp (restore_phase env entry binding request) s (λ r s', ∃ es l e,
    delta s s' es l e ∧ es = entries s ∧ restore_outcome entry binding request r l e).
Proof.
  pose proof (delta_refl s) as D. unfold restore_phase. sym.
  all: leaf; split; [done|]; econstructor; unfold accept_receipt, prefix_counter; checks.
Qed.

Lemma equivalence_phase_spec entry binding receipt minimum s :
  wp (equivalence_phase env entry binding receipt minimum) s (λ r s', ∃ es l e,
    delta s s' es l e ∧ es = entries s ∧
    equivalence_outcome entry binding receipt minimum r l e).
Proof.
  pose proof (delta_refl s) as D. unfold equivalence_phase. sym.
  all: leaf; split; [done|]; econstructor;
    unfold accept_report, equivalence_counter, verified; checks.
Qed.

(** The adapter offers [finalize_replay_suffix]. *)
Definition finalizes (ad : Z) : bool := callable (adapter_attr env ad "finalize_replay_suffix").

(** A sub-program that leaves the entries alone. *)
Lemma step_quiet {A s0 s es l eff} (m : M rstate A) (P : res A → incs → history → Prop)
    (Q : res A → rstate → Prop) :
  delta s0 s es l eff →
  wp m s (λ r s', ∃ es' l' e', delta s s' es' l' e' ∧ es' = entries s ∧ P r l' e') →
  (∀ r s' l' e', delta s0 s' es (l ++ l')%list (eff ++ e')%list → P r l' e' → Q r s') →
  wp m s Q.
Proof.
  intros D Hm HQ. eapply step_sub; [exact D|exact Hm|].
  intros r s' es' l' e' D' [-> HP]. eapply HQ; [|exact HP]. by rewrite (d_entries _ _ _ _ _ D) in D'.
Qed.

Lemma admission_Ok es id b k :
  dict_get id es = Some b → bool_decide (lifecycle (point b) = READY) = true →
  negb (bool_decide (fidelity (point b) = NON_REPLAYABLE)) = true →
  adapter_binding_key b = Some k → admission es id = Ok (b, k).
Proof. intros Hb Hr Hn Hk. unfold admission. checks. Qed.

Lemma run_from_outcome_eq id target0 minimum es r es' l l' e e' :
  @run_from_outcome O finalizes id target0 minimum es r es' l e → l = l' → e = e' →
  run_from_outcome finalizes id target0 minimum es r es' l' e'.
Proof. by intros ? -> ->. Qed.

Ltac reassoc := simpl; rewrite <- ?app_assoc; simpl; done.

(** [run_from] does what its outcome relation lists. *)
Lemma run_from_spec id target0 minimum execute s :
  wp (run_from env id target0 minimum execute) s (λ r s', ∃ es l e,
    delta s s' es l e ∧
    run_from_outcome finalizes id target0 minimum (entries s) r es l e).
Proof.
  pose proof (delta_refl s) as D. unfold run_from. sym.
  2: { leaf. by apply rf_bad_target. }
  rename a into target. unfold run_from_body, check_replayable, recheck_ready, ensure_ready, replayable_binding. sym.
  all: try same_entry; try clash; try congruence.
  2-5: leaf; eapply rf_rejected; [done|unfold admission; checks].
  assert (admission (entries s) id = Ok (b, k)) as Hadmit by by apply admission_Ok.
  eapply step_quiet; [exact D|apply restore_phase_spec|]. clear D. intros r1 s1 l1 e1 D Hrestore.
  delta_norm D. destruct r1 as [[receipt rm]|e]; sym.
  2: { leaf. eapply rf_restore_failed; eassumption. }
  eapply step_quiet; [exact D|apply equivalence_phase_spec|]. clear D. intros r2 s2 l2 e2 D Heq.
  delta_norm D. destruct r2 as [[[rep eligible] em]|e]; unfold restore_agent_phase; sym.
  2: { leaf. eapply rf_agent_failed; eassumption. }
  2: { leaf. eapply rf_equivalence_failed; eassumption. }
  destruct a. pose proof (reached _ _ _ _ _ _ _ _ _ _ _ _ _ _ Hrestore Heq) as Hreached.
  unfold restore_result in Hreached.
  match goal with |- context [suffix_phase _ _ _ _ ?r _] => set (rr := r) in * end.
  unfold suffix_phase, suffix_execute, suffix_finalize, settle_suffix, quarantine. sym.
  all: leaf; repeat match goal with u : () |- _ => destruct u end.
  - eapply run_from_outcome_eq; [eapply (rf_succeeded _ _ _ _ _ _ _ _ _ _ _ _ (Some (Ok tt)))| |];
      try eassumption; try done; reassoc.
  - eapply run_from_outcome_eq; [eapply (rf_suffix_failed _ _ _ _ _ _ _ _ _ _ (Some (Ok tt)))| |];
      try eassumption; try done; reassoc.
  - eapply run_from_outcome_eq; [eapply (rf_quarantined _ _ _ _ _ _ _ _ _ (Ok a) (Some (Err e)))| |];
      try eassumption; try done; reassoc.
  - eapply run_from_outcome_eq;
      [eapply (rf_quarantined _ _ _ _ _ _ _ _ _ (Err e0) (Some (Err e)))| |];
      try eassumption; try done; reassoc.
  - eapply run_from_outcome_eq; [eapply (rf_succeeded _ _ _ _ _ _ _ _ _ _ _ _ None)| |];
      try eassumption; try done; try reassoc. unfold finalizes. rewrite Heqb0. naive_solver.
  - eapply run_from_outcome_eq; [eapply (rf_suffix_failed _ _ _ _ _ _ _ _ _ _ None)| |];
      try eassumption; try done; try reassoc. unfold finalizes. rewrite Heqb0. naive_solver.
Qed.

(** One side of a release: at most one call, made exactly when that side is
    held; the flag is set exactly when the call returned. *)
Lemma release_adapter_step {s0 s id b es l eff} (D : delta s0 s (dict_set id b es) l eff)
    (Q : res (option exn) → rstate → Prop) :
  (∀ ra s', (ra ≠ None ↔ holds_adapter b) →
     delta s0 s' (dict_set id (if ra is Some (Ok _) then with_adapter_released b else b) es) l
       (eff ++ adapter_call b ra)%list →
     Q (Ok (fin_error ra)) s') →
  wp (release_adapter env id) s Q.
Proof.
  unfold release_adapter, holds_adapter, adapter_call. intros HQ. sym.
  - apply (HQ None); [naive_solver|]. by rewrite app_nil_r.
  - eapply (HQ (Some (Ok _))); [naive_solver|done].
  - eapply (HQ (Some (Err e))); [naive_solver|done].
  - apply (HQ None); [naive_solver|]. by rewrite app_nil_r.
Qed.

Lemma release_agent_step {s0 s id b es l eff} (D : delta s0 s (dict_set id b es) l eff)
    (Q : res (option exn) → rstate → Prop) :
  (∀ rg s', (rg ≠ None ↔ agent_released b = false) →
     delta s0 s' (dict_set id (if rg is Some (Ok _) then with_agent_released b else b) es) l
       (eff ++ agent_call b rg)%list →
     Q (Ok (fin_error rg)) s') →
  wp (release_agent env id) s Q.
Proof.
  unfold release_agent, agent_call. intros HQ. sym.
  - apply (HQ None); [naive_solver congruence|]. by rewrite app_nil_r.
  - eapply (HQ (Some (Ok _))); [naive_solver|done].
  - eapply (HQ (Some (Err e))); [naive_solver|done].
Qed.

(** [release] does what its outcome relation lists. *)
Lemma release_spec id s :
  wp (release env id) s (λ r s', ∃ es l e,
    delta s s' es l e ∧ release_outcome id (entries s) r es l e).
Proof.
  pose proof (delta_refl s) as D. unfold release, release_body, release_mark, release_settle. sym.
  { leaf. by eapply rl_already. }
  2: { leaf. by apply rl_unknown. }
  eapply (release_adapter_step D). clear D. intros ra s2 Hra D. delta_norm D. sym.
  eapply (release_agent_step D). clear D. intros rg s3 Hrg D. delta_norm D.
  assert (rg ≠ None ↔ agent_released b = false) as Hrg' by by destruct ra as [[?|?]|].
  clear Hrg. sym.
  all: pose proof (rl_ran id (entries s) b ra rg _ H n Hra Hrg' eq_refl) as Hout.
  all: destruct ra as [[?|?]|], rg as [[?|?]|]; simplify_eq/=.
  all: leaf; exact Hout.
Qed.
End specs.

(** The calls before a suffix, and what they established. *)
Lemma reached_facts id t mn entry binding rr l e :
  reached_suffix id t mn entry binding rr l e →
  ∃ receipt rq,
    e = [ObsRestoreAdapter (adapter entry) binding rq (Ok (Some receipt));
         ObsValidate (adapter entry) binding receipt (Ok (Some (report rr)));
         ObsRestoreAgent (agent_state_store entry) (agent_state_key entry) (Ok tt)] ∧
    contract_ok (point entry) receipt (report rr) ∧
    rr_achieved_fidelity rr = rp_achieved_fidelity (report rr) ∧
    rr_achieved_fidelity rr ≠ NON_REPLAYABLE ∧
    fidelity_meets (fidelity (point entry)) (rr_achieved_fidelity rr) = true ∧
    promotion_eligible rr =
      equivalent (report rr) && fidelity_meets (rr_achieved_fidelity rr) SEMANTIC_EQUIVALENT
      && fidelity_meets (rr_achieved_fidelity rr) mn.
Proof.
  destruct 1 as [receipt rep el rm em l1 e1 l2 e2 H1 H2].
  inversion H1 as [|r rc m c Ha Hc]; subst. inversion H2 as [|r' rep' el' m' c' Ha' Hc']; subst.
  apply accept_receipt_Ok in Ha as (-> & Hn & Hm). apply accept_report_Ok in Ha' as (-> & Hv).
  apply validate_equivalence_contract_spec in Hv as [Hk ->]. simpl.
  pose proof (ok_fidelity _ _ _ Hk) as Hf. eexists _, _. split; [done|].
  split_and!; try done; by rewrite Hf.
Qed.
