(* ===== verification/SelectionSpec.v ===== *)
(** What [select_before] chooses, and when it refuses. *)

From stdpp Require Import base strings list sets gmap.
From Stdlib Require Import ZArith Lia.
From S2P Require Import Prelude PyFloat PyValue TraceRuntime ReplayMetrics ReplayTypes.
From S2P Require Import ReplayRegistry RegistryFacts RegistrySpec.

(** The points that may be replayed for a change at [affected]. *)
Definition candidate_of (tid bid : string) (affected : Z) (s : rstate) (p : ReplayPoint) : Prop :=
  (∃ id b, (id, b) ∈ entries s ∧ point b = p) ∧
  is_candidate (py_strip tid) (py_strip bid) affected p = true.

Definition candidates (tid bid : string) (affected : Z) (s : rstate) : list ReplayPoint :=
  filter (λ p, is_candidate (py_strip tid) (py_strip bid) affected p = true)
    ((λ e, point e.2) <$> entries s).

Lemma candidates_spec tid bid affected s p :
  p ∈ candidates tid bid affected s ↔ candidate_of tid bid affected s p.
Proof.
  unfold candidates, candidate_of. rewrite list_elem_of_filter, list_elem_of_fmap. split.
  - intros [Hc ([id b] & -> & Hin)]. split; [|done]. by exists id, b.
  - intros [(id & b & Hin & <-) Hc]. split; [done|]. by exists (id, b).
Qed.

(** The element that [max] picks among the trusted candidates, or among all of
    them when none is trusted. *)
Definition best_of (minimum : ReplayFidelity) (l : list ReplayPoint) (p : ReplayPoint) : Prop :=
  p ∈ l ∧ ∀ q, q ∈ l →
    (fidelity_meets (fidelity q) minimum = true →
       fidelity_meets (fidelity p) minimum = true ∧ (point_sequence q ≤ point_sequence p)%Z) ∧
    (fidelity_meets (fidelity p) minimum = false → (point_sequence q ≤ point_sequence p)%Z).

Lemma best_of_pool minimum l first rest :
  (let trusted := filter (λ p, fidelity_meets (fidelity p) minimum = true) l in
   if trusted is [] then l else trusted) = first :: rest →
  best_of minimum l (max_by point_sequence first rest).
Proof.
  cbn zeta. intros H.
  assert (max_by point_sequence first rest ∈ first :: rest) as Hin.
  { destruct (max_by_in point_sequence rest first) as [->|?]; set_solver. }
  pose proof (max_by_ge point_sequence rest first) as Hge.
  destruct (filter _ l) as [|t ts] eqn:Hf.
  - subst l. split; [done|]. intros q Hq. split; [|intros _; by apply Hge].
    intros Hm. exfalso. eapply not_elem_of_nil. rewrite <- Hf. by apply list_elem_of_filter.
  - rewrite <- Hf in H. rewrite <- H in Hin, Hge. apply list_elem_of_filter in Hin as [Hm Hin].
    split; [done|]. intros q Hq. split; [|by rewrite Hm].
    intros Hqm. split; [done|]. apply Hge. by apply list_elem_of_filter.
Qed.

Lemma select_before_selects tid bid affected minimum s :
  wp (select_before tid bid affected minimum) s (λ r s', (∃ l, delta s s' (entries s) l []) ∧
    match r with
    | Ok p => candidate_of tid bid affected s p ∧
        ∀ q, candidate_of tid bid affected s q →
          (fidelity_meets (fidelity q) minimum = true →
             fidelity_meets (fidelity p) minimum = true ∧
             (point_sequence q ≤ point_sequence p)%Z) ∧
          (fidelity_meets (fidelity p) minimum = false →
             (point_sequence q ≤ point_sequence p)%Z)
    | Err _ => py_strip tid = "" ∨ py_strip bid = "" ∨ ∀ p, ¬ candidate_of tid bid affected s p
    end).
Proof.
  pose proof (delta_refl s) as D. unfold select_before.
  apply wp_bind, wp_lift. destruct (require_nonempty_text tid "trace_id") as [t|e] eqn:Et.
  2: { split; [eauto|]. left. apply dec_stable. intros Hne.
       by rewrite (proj2 (require_nonempty_text_spec tid "trace_id" _) (conj eq_refl Hne)) in Et. }
  apply require_nonempty_text_spec in Et as [-> _].
  apply wp_bind, wp_lift. destruct (require_nonempty_text bid "branch_id") as [t|e] eqn:Eb.
  2: { split; [eauto|]. right. left. apply dec_stable. intros Hne.
       by rewrite (proj2 (require_nonempty_text_spec bid "branch_id" _) (conj eq_refl Hne)) in Eb. }
  apply require_nonempty_text_spec in Eb as [-> _].
  apply wp_bind, wp_gets. cbn beta iota zeta.
  fold (candidates tid bid affected s). apply wp_bind, wp_ensure; intros Hc.
  2: { split; [eauto|]. right. right. intros p Hp%candidates_spec.
       apply negb_false_iff, bool_decide_eq_true in Hc. rewrite Hc in Hp. by apply not_elem_of_nil in Hp. }
  pose proof (best_of_pool minimum (candidates tid bid affected s)) as Hbest. cbn zeta in Hbest.
  destruct (if filter _ (candidates tid bid affected s) is [] then _ else _) as [|first rest] eqn:Ep.
  - exfalso. apply negb_true_iff, bool_decide_eq_false in Hc. by destruct (filter _ _).
  - destruct (Hbest _ _ eq_refl) as [Hin Hmax]. apply wp_bind. sym1. apply wp_bind.
    sym. all: split; [by eexists|].
    all: split; [by apply candidates_spec|]; intros q Hq%candidates_spec; by apply Hmax.
Qed.
