(* ===== verification/CaptureSpec.v ===== *)
(** What [capture_at_head] may do: the outcome relations of its body and of its
    compensation block, and the proof that the code implements them. *)

From stdpp Require Import base strings list sets gmap.
From Stdlib Require Import ZArith Lia.
From S2P Require Import Prelude PyFloat PyValue TraceRuntime ReplayMetrics ReplayTypes.
From S2P Require Import ReplayRegistry RegistryFacts RegistrySpec.

(** ** Rules for the capture's own state *)

Lemma wp_on_reg {A} (m : M rstate A) k l t g (Q : res A → capture_state → Prop) :
  wp m g (λ r g', Q r {| c_agent_state_key := k; c_lease := l; c_trace := t; c_reg := g' |}) →
  wp (on_reg m) {| c_agent_state_key := k; c_lease := l; c_trace := t; c_reg := g |} Q.
Proof. unfold wp, on_reg. simpl. by destruct (m g). Qed.

Lemma wp_set_agent_key k' k l t g (Q : res unit → capture_state → Prop) :
  Q (Ok tt) {| c_agent_state_key := k'; c_lease := l; c_trace := t; c_reg := g |} →
  wp (set_agent_key k') {| c_agent_state_key := k; c_lease := l; c_trace := t; c_reg := g |} Q.
Proof. done. Qed.

Lemma wp_set_lease l' k l t g (Q : res unit → capture_state → Prop) :
  Q (Ok tt) {| c_agent_state_key := k; c_lease := l'; c_trace := t; c_reg := g |} →
  wp (set_lease l') {| c_agent_state_key := k; c_lease := l; c_trace := t; c_reg := g |} Q.
Proof. done. Qed.

Lemma wp_set_trace t' k l t g (Q : res unit → capture_state → Prop) :
  Q (Ok tt) {| c_agent_state_key := k; c_lease := l; c_trace := t'; c_reg := g |} →
  wp (set_trace t') {| c_agent_state_key := k; c_lease := l; c_trace := t; c_reg := g |} Q.
Proof. done. Qed.

Lemma step_insert {s0 s es l eff} (D : delta s0 s es l eff) id b (Q : res unit → rstate → Prop) :
  (∀ s', delta s0 s' (dict_set id b es) l eff → Q (Ok tt) s') →
  wp (modify (λ s, set_entries s (dict_set id b (entries s)))) s Q.
Proof.
  intros HQ. destruct D as [<- C N]. apply wp_modify, HQ. by split.
Qed.

Ltac csym1 :=
  lazymatch goal with
  | |- wp (try_finally (try_except _ _) (on_reg _)) _ _ => fail
  | |- wp (on_reg _) _ _ => apply wp_on_reg
  | |- wp (set_agent_key _) _ _ => apply wp_set_agent_key
  | |- wp (set_lease _) _ _ => apply wp_set_lease
  | |- wp (set_trace _) _ _ => apply wp_set_trace
  | |- wp (gets c_trace) _ _ => apply wp_gets; cbn [c_trace]
  | |- wp (gets c_lease) _ _ => apply wp_gets; cbn [c_lease]
  | |- wp (gets c_agent_state_key) _ _ => apply wp_gets; cbn [c_agent_state_key]
  | D : delta _ ?s _ _ _ |- wp (modify _) ?s _ =>
      eapply (step_insert D); clear D; intros ? D
  | |- _ => sym1
  end; sym_red.

Ltac csym := repeat csym1.

(** * The body *)

(** The calls of a body that failed, with the agent key and the lease object
    its local variables hold. *)
Inductive acquisition (store ad : Z) (cur : TraceCursor) (rq : CaptureReplayStateRequest)
  : history → option key → lease_object → Prop :=
| acq_none : acquisition store ad cur rq [] None LeaseNone
| acq_agent_raised e :
    acquisition store ad cur rq [ObsCaptureAgent store cur (Err e)] None LeaseNone
| acq_agent_none :
    acquisition store ad cur rq [ObsCaptureAgent store cur (Ok None)] None LeaseNone
| acq_adapter_raised k e :
    acquisition store ad cur rq
      [ObsCaptureAgent store cur (Ok (Some k)); ObsCaptureAdapter ad rq (Err e)]
      (Some k) LeaseNone
| acq_both k lo :
    acquisition store ad cur rq
      [ObsCaptureAgent store cur (Ok (Some k)); ObsCaptureAdapter ad rq (Ok lo)]
      (Some k) lo.

(** The conditions on the point a new one replaces. *)
Definition replacement_ok (es : list (string * RuntimeReplayBinding)) (replaces : option string)
    (cur : TraceCursor) (lease : AdapterStateLease) : Prop :=
  ∀ r, replaces = Some r → ∃ b,
    dict_get r es = Some b ∧ lifecycle (point b) = RELEASED ∧
    cur_trace_id (cursor (point b)) = cur_trace_id cur ∧
    cur_branch_id (cursor (point b)) ≠ cur_branch_id cur ∧
    digests_disagree (captured_projection_digest (point b)) (projection_digest lease) = false.

Definition captured_event (rid eid : string) (trace : TraceLog) (cur : TraceCursor)
    (lease : AdapterStateLease) (replaces : option string) : TraceEvent :=
  {| event_id := eid; ev_trace_id := trace_id trace; ev_branch_id := branch_id trace;
     sequence := next_sequence cur; parent_event_id := after_event_id cur;
     kind := LIFECYCLE;
     public_payload := PMap false
       [(Some "operation", PStr "replay_point_captured");
        (Some "fidelity", PStr (ReplayFidelity_value (lease_fidelity lease)));
        (Some "cursor_sequence", PInt (next_sequence cur));
        (Some "replaces_replay_point_id", opt_str replaces)];
     action_id := None; causation_id := None; ev_replay_point_id := Some rid |}.

Definition captured_point (rid : string) (cur : TraceCursor) (lease : AdapterStateLease)
    (event : TraceEvent) (replaces : option string) : ReplayPoint :=
  {| replay_point_id := rid; cursor := cur; fidelity := lease_fidelity lease;
     captured_projection_digest := projection_digest lease; lifecycle := READY;
     created_event_id := event_id event; replaces_replay_point_id := replaces |}.

Definition captured_entry (p : ReplayPoint) (k : key) (lease : AdapterStateLease) (store ad : Z)
  : RuntimeReplayBinding :=
  {| point := p; agent_state_key := k; adapter_binding_key := binding_key lease;
     agent_state_store := store; adapter := ad; agent_released := false;
     adapter_released := bool_decide (binding_key lease = None) |}.

Definition replacement_incs (replaces : option string) (c : string) : incs :=
  match replaces with Some _ => [one c] | None => [] end.

Inductive body_outcome (rid eid : string) (store ad : Z) (replaces : option string)
    (cur : TraceCursor) (trace : TraceLog) (es : list (string * RuntimeReplayBinding))
  : res ReplayPoint → option key → lease_object → TraceLog →
    list (string * RuntimeReplayBinding) → incs → history → Prop :=
| body_failed e k lo l eff :
    acquisition store ad cur {| cap_replay_point_id := rid; cap_cursor := cur |} eff k lo →
    l = [] ∨ l = [one "replacement_projection_mismatch_count"] →
    body_outcome rid eid store ad replaces cur trace es (Err e) k lo trace es l eff
| body_captured k raw lease event trace' :
    mk_AdapterStateLease raw = Ok lease → replacement_ok es replaces cur lease →
    mk_TraceEvent (captured_event rid eid trace cur lease replaces) = Ok event →
    append_unlocked trace event = Ok trace' → dict_get rid es = None →
    body_outcome rid eid store ad replaces cur trace es
      (Ok (captured_point rid cur lease event replaces)) (Some k) (LeaseInstance lease) trace'
      (dict_set rid (captured_entry (captured_point rid cur lease event replaces) k lease store ad) es)
      (one "capture_success_count"
       :: replacement_incs replaces "replacement_capture_success_count")
      [ObsCaptureAgent store cur (Ok (Some k));
       ObsCaptureAdapter ad {| cap_replay_point_id := rid; cap_cursor := cur |}
         (Ok (LeaseInstance lease))].

(** * Compensation *)

Definition first_error (ra rg : option (res unit)) : option exn :=
  match fin_error ra with Some e => Some e | None => fin_error rg end.

Definition flag (b : bool) (c : string) : incs := if b then [one c] else [].

(** The calls of the compensation and their outcomes; [None]: no call. *)
Definition compensation_calls (store ad : Z) (binding agent : option key)
    (ra rg : option (res unit)) : history :=
  (match binding, ra with Some b, Some r => [ObsReleaseAdapter ad b r] | _, _ => [] end
   ++ match agent, rg with Some k, Some r => [ObsReleaseAgent store k r] | _, _ => [] end)%list.

Inductive compensation_outcome (store ad : Z) (replaces : option string) (error : exn)
    (agent : option key) (lo : lease_object) : exn → incs → history → Prop :=
| comp_no_attribute e :
    lease_binding lo = Err e →
    compensation_outcome store ad replaces error agent lo e
      (one "capture_failure_count"
       :: replacement_incs replaces "replacement_capture_failure_count") []
| comp_ran binding ra rg :
    lease_binding lo = Ok binding →
    is_some ra = is_some binding → is_some rg = is_some agent →
    compensation_outcome store ad replaces error agent lo
      (match first_error ra rg with Some c => raise_from error c | None => error end)
      (one "capture_failure_count"
       :: replacement_incs replaces "replacement_capture_failure_count"
       ++ flag (is_some binding || is_some agent) "capture_compensation_count"
       ++ flag (is_some (fin_error ra)) "orphaned_adapter_binding_count"
       ++ flag (is_some (fin_error rg)) "orphaned_agent_state_count"
       ++ flag (is_some (first_error ra rg)) "capture_compensation_failure_count")%list
      (compensation_calls store ad binding agent ra rg).

(** * The whole operation *)

Inductive capture_outcome (store ad : Z) (ac : AgentCursor) (trace : TraceLog)
    (es : list (string * RuntimeReplayBinding))
  : res ReplayPoint → TraceLog → list (string * RuntimeReplayBinding) → incs → history → Prop :=
| cp_rejected e l :
    l = [] ∨ l = [one "capture_attempt_count"] ∨
    l = [one "capture_attempt_count"; one "replacement_capture_attempt_count"] →
    capture_outcome store ad ac trace es (Err e) trace es l []
| cp_failed rid eid replaces cur error k lo l1 e1 e l2 e2 :
    locked_cursor trace ac = Ok cur → dict_get rid es = None →
    body_outcome rid eid store ad replaces cur trace es (Err error) k lo trace es l1 e1 →
    compensation_outcome store ad replaces error k lo e l2 e2 →
    capture_outcome store ad ac trace es (Err e) trace es
      (one "capture_attempt_count"
       :: replacement_incs replaces "replacement_capture_attempt_count" ++ l1 ++ l2)%list
      (e1 ++ e2)%list
| cp_captured rid eid replaces cur p k lo trace' es' l e :
    locked_cursor trace ac = Ok cur → normalized rid →
    body_outcome rid eid store ad replaces cur trace es (Ok p) k lo trace' es' l e →
    capture_outcome store ad ac trace es (Ok p) trace' es'
      (one "capture_attempt_count"
       :: replacement_incs replaces "replacement_capture_attempt_count" ++ l)%list e.

Lemma built_lease_Ok r l :
  built_lease r = Ok (LeaseInstance l) → ∃ raw, mk_AdapterStateLease raw = Ok l.
Proof.
  destruct r as [[raw| |]|]; simpl; try done.
  destruct (mk_AdapterStateLease raw) as [l'|] eqn:E; [|done]. intros [= <-]. eauto.
Qed.

Lemma dict_has_false {V} k (d : list (string * V)) : negb (dict_has k d) = true → dict_get k d = None.
Proof. unfold dict_has. by destruct (dict_get k d). Qed.

Section capture.
Context {O : Type} (env : Env O).

Lemma capture_body_spec rid eid store ad replaces cur trace s :
  wp (capture_body env rid eid store ad replaces cur)
    {| c_agent_state_key := None; c_lease := LeaseNone; c_trace := trace; c_reg := s |}
    (λ r c, ∃ es l e, delta s (c_reg c) es l e ∧
       body_outcome rid eid store ad replaces cur trace (entries s) r
         (c_agent_state_key c) (c_lease c) (c_trace c) es l e).
Proof.
  pose proof (delta_refl s) as D. unfold capture_body, replaced_point. csym.
  all: cbn [c_reg c_agent_state_key c_lease c_trace].
  all: repeat match goal with
    | H : instance_or ?a _ = _ |- _ => destruct a; simplify_eq/=
    | H : match ?lo with LeaseInstance _ => _ | _ => _ end = _ |- _ => destruct lo; simplify_eq/=
    end.
  all: leaf.
  all: try by (eapply body_failed; [constructor|eauto]).
  all: edestruct built_lease_Ok as [raw Hraw]; [eassumption|].
  all: unshelve eapply body_captured; try eassumption; [|by apply dict_has_false].
  - intros ? [= <-]. exists r. repeat case_bool_decide; done.
  - done.
Qed.

Lemma capture_compensate_spec store ad replaces error k lo trace s :
  wp (capture_compensate env store ad replaces error)
    {| c_agent_state_key := k; c_lease := lo; c_trace := trace; c_reg := s |}
    (λ r c, ∃ es l e, delta s (c_reg c) es l e ∧ es = entries s ∧ c_trace c = trace ∧
       ∃ x, r = Err x ∧ compensation_outcome store ad replaces error k lo x l e).
Proof.
  pose proof (delta_refl s) as D. unfold capture_compensate. csym.
  all: cbn [c_reg c_agent_state_key c_lease c_trace].
  all: repeat match goal with u : () |- _ => destruct u end.
  all: try discriminate.
  all: leaf; split; [done|]; split; [done|]; eexists; split; [reflexivity|].
  all: match goal with
    | H : lease_binding _ = Err _ |- _ => by apply comp_no_attribute
    | H : lease_binding _ = Ok ?b |- compensation_outcome ?st ?ad ?rp ?er ?ag ?lo _ _ _ =>
        let go a g := (eapply (comp_ran st ad rp er ag lo b a g H eq_refl eq_refl)) in
        let n := uconstr:(@None (res unit)) in
        let y := uconstr:(Some (Ok tt)) in
        let x := uconstr:(Some (@Err unit _)) in
        first [ go n n | go n y | go n x | go y n | go y y | go y x | go x n | go x y | go x x ]
    end.
Qed.

(** The part of the capture inside [with trace.locked_cursor(...)]. *)
Lemma capture_try_spec rid eid store ad replaces cur trace started s0 s es l eff
    (Q : res ReplayPoint → capture_state → Prop) :
  delta s0 s es l eff →
  (∀ error k lo l1 e1 x l2 e2 c,
     body_outcome rid eid store ad replaces cur trace es (Err error) k lo trace es l1 e1 →
     compensation_outcome store ad replaces error k lo x l2 e2 →
     delta s0 (c_reg c) es (l ++ l1 ++ l2)%list (eff ++ e1 ++ e2)%list → c_trace c = trace →
     Q (Err x) c) →
  (∀ p k lo trace' es' l1 e1 c,
     body_outcome rid eid store ad replaces cur trace es (Ok p) k lo trace' es' l1 e1 →
     delta s0 (c_reg c) es' (l ++ l1)%list (eff ++ e1)%list → c_trace c = trace' → Q (Ok p) c) →
  wp (try_finally
        (try_except (capture_body env rid eid store ad replaces cur)
                    (capture_compensate env store ad replaces))
        (on_reg (add_elapsed env "capture_minutes" started)))
    {| c_agent_state_key := None; c_lease := LeaseNone; c_trace := trace; c_reg := s |} Q.
Proof.
  intros D Hfail Hok. apply wp_try_finally, wp_try_except.
  eapply wp_mono; [apply capture_body_spec|].
  intros r [k lo t g] (es1 & l1 & e1 & D1 & Hb). cbn [c_reg c_agent_state_key c_lease c_trace] in *.
  rewrite (d_entries _ _ _ _ _ D) in Hb.
  destruct r as [p|error].
  - pose proof (delta_trans _ _ _ _ _ _ _ _ _ D D1) as D2. clear D1. csym. by eapply Hok.
  - inversion Hb; subst. eapply wp_mono; [apply capture_compensate_spec|].
    intros r [k' lo' t' g'] (es2 & l2 & e2 & D2 & -> & Ht & x & -> & Hc). simpl in *. subst t'.
    pose proof (delta_trans _ _ _ _ _ _ _ _ _ (delta_trans _ _ _ _ _ _ _ _ _ D D1) D2) as D3.
    rewrite (d_entries _ _ _ _ _ D1), <- !app_assoc in D3. clear D1 D2. csym. by eapply Hfail.
Qed.

Lemma capture_m_spec ac store ad replaces0 trace s :
  wp (capture_m env ac store ad replaces0)
    {| c_agent_state_key := None; c_lease := LeaseNone; c_trace := trace; c_reg := s |}
    (λ r c, ∃ es l e, delta s (c_reg c) es l e ∧
       capture_outcome store ad ac trace (entries s) r (c_trace c) es l e).
Proof.
  pose proof (delta_refl s) as D. unfold capture_m. csym.
  all: try (leaf; apply cp_rejected; by eauto).
  all: eapply capture_try_spec; [exact D| |].
  all: cbn [app]; intros; subst; leaf.
  - eapply (cp_failed _ _ _ _ _ _ _ (Some _));
      [eassumption| |eassumption|eassumption]; by apply dict_has_false.
  - eapply (cp_captured _ _ _ _ _ _ _ (Some _));
      [eassumption| |eassumption]; by eapply require_nonempty_text_normalized.
  - eapply (cp_failed _ _ _ _ _ _ _ None);
      [eassumption| |eassumption|eassumption]; by apply dict_has_false.
  - eapply (cp_captured _ _ _ _ _ _ _ None);
      [eassumption| |eassumption]; by eapply require_nonempty_text_normalized.
Qed.

(** [capture_at_head] does what its outcome relation lists. *)
Lemma capture_at_head_spec trace ac store ad replaces s r trace' s' :
  capture_at_head env trace ac store ad replaces s = (r, trace', s') →
  ∃ es l e, delta s s' es l e ∧ capture_outcome store ad ac trace (entries s) r trace' es l e.
Proof.
  unfold capture_at_head. intros H.
  pose proof (capture_m_spec ac store ad replaces trace s) as Hw. unfold wp in Hw.
  destruct (capture_m _ _ _ _ _ _) as [r' c]. by simplify_eq/=.
Qed.
End capture.
