(* ===== verification/ChildReplay.v ===== *)
(** Child groups: [loopx/capabilities/explore/child_replay_runtime.py] and the
    child dataclasses of [replay_runtime.py].

    A group forks one isolated session per task, runs the suffixes serially or
    on a thread pool, and releases every session.  The body of
    [execute_session] is a machine with one step per call to a collaborator
    ([exec_step]); a parallel run interleaves the machines of the sessions
    under a schedule that respects the pool's first-in-first-out start and its
    number of workers, and a serial run executes them one after the other. *)

From stdpp Require Import base strings list sets gmap.
From Stdlib Require Import ZArith Lia.
From S2P Require Import Prelude PyFloat PyValue TraceRuntime ReplayMetrics ReplayTypes.
From S2P Require Import ReplayRegistry.

(** * Tasks and results, for suffixes with outcomes in [O] *)

Record ReplayChildTask (O : Type) := {
  task_child_id : string;
  task_target_branch_id : string;
  task_minimum_fidelity : ReplayFidelity;
  task_execute : history → ReplayChildExecutionContext → res O;
  task_intent : pyval
}.
Arguments task_child_id {O}.
Arguments task_target_branch_id {O}.
Arguments task_minimum_fidelity {O}.
Arguments task_execute {O}.
Arguments task_intent {O}.

Definition mk_ReplayChildTask {O} (t : ReplayChildTask O) : res (ReplayChildTask O) :=
  c ← require_nonempty_text (task_child_id t) "child_id";
  b ← require_nonempty_text (task_target_branch_id t) "target_branch_id";
  _ ← require (negb (bool_decide (task_minimum_fidelity t = NON_REPLAYABLE)))
        (ValueError "ReplayChildTask requires replayable fidelity");
  i ← freeze_public_mapping (task_intent t) "replay_child_intent";
  Ok {| task_child_id := c; task_target_branch_id := b;
        task_minimum_fidelity := task_minimum_fidelity t; task_execute := task_execute t;
        task_intent := i |}.

Record ReplayChildExecutionResult (O : Type) := {
  res_child_id : string;
  res_restore : ReplayRestoreResult;
  res_outcome : O;
  res_isolated : bool;
  res_parallel : bool;
  intent_assessment : option ReplayRiskAssessment;
  outcome_assessment : option ReplayRiskAssessment
}.
Arguments res_child_id {O}.
Arguments res_restore {O}.
Arguments res_outcome {O}.
Arguments res_isolated {O}.
Arguments res_parallel {O}.
Arguments intent_assessment {O}.
Arguments outcome_assessment {O}.

Definition opt_assessment (a : option ReplayRiskAssessment) : pyval :=
  match a with Some a => ReplayRiskAssessment_to_record a | None => PNone end.

Definition ReplayChildExecutionResult_to_record {O} (r : ReplayChildExecutionResult O)
  : list (string * pyval) :=
  [("child_id", PStr (res_child_id r));
   ("restore", ReplayRestoreResult_to_record (res_restore r));
   ("isolated", PBool (res_isolated r)); ("parallel", PBool (res_parallel r));
   ("intent_assessment", opt_assessment (intent_assessment r));
   ("outcome_assessment", opt_assessment (outcome_assessment r))].

Record ReplayChildExecutionFailure := {
  fail_child_id : string;
  fail_restore : ReplayRestoreResult;
  fail_stage : ReplayChildFailureStage;
  error_type : string;
  fail_isolated : bool;
  fail_parallel : bool;
  risk_assessment : option ReplayRiskAssessment
}.

Definition mk_ReplayChildExecutionFailure (f : ReplayChildExecutionFailure)
  : res ReplayChildExecutionFailure :=
  c ← require_nonempty_text (fail_child_id f) "child_id";
  t ← require_nonempty_text (error_type f) "error_type";
  Ok {| fail_child_id := c; fail_restore := fail_restore f; fail_stage := fail_stage f;
        error_type := t; fail_isolated := fail_isolated f; fail_parallel := fail_parallel f;
        risk_assessment := risk_assessment f |}.

Definition ReplayChildExecutionFailure_to_record (f : ReplayChildExecutionFailure)
  : list (string * pyval) :=
  [("child_id", PStr (fail_child_id f));
   ("restore", ReplayRestoreResult_to_record (fail_restore f));
   ("stage", PStr (ReplayChildFailureStage_value (fail_stage f)));
   ("error_type", PStr (error_type f)); ("isolated", PBool (fail_isolated f));
   ("parallel", PBool (fail_parallel f));
   ("risk_assessment", opt_assessment (risk_assessment f))].

(** [ReplayChildExecutionResult | ReplayChildExecutionFailure]. *)
Definition child_result (O : Type) : Type :=
  (ReplayChildExecutionResult O + ReplayChildExecutionFailure)%type.

(** * The state of a group *)

Section group.
Context {O : Type}.

(** One prepared session (a [dict] in the source). *)
Record session := {
  s_task : ReplayChildTask O;
  s_lease : ReplayChildLease;
  s_agent_key : option key;
  s_released : bool;
  s_cleanup_attempted : bool;
  s_cleanup_error : option exn;
  s_restore_minutes : float;
  s_context : option ReplayChildExecutionContext
}.

(** What the [try] of [execute_session] ended with: [execution_error], or the
    outcome with both assessments. *)
Definition execution : Type :=
  res (O * option ReplayRiskAssessment * option ReplayRiskAssessment).

(** Where the thread of one session is in [execute_session]. *)
Inductive pc :=
| PcStart
| PcRestore (started : float) (intent : option ReplayRiskAssessment)
| PcExecute (started : float) (intent : option ReplayRiskAssessment)
| PcAssess (started : float) (intent : option ReplayRiskAssessment) (outcome : O)
| PcCleanup (started : float) (x : execution)
| PcCleanupAgent (suffix_m : float) (x : execution) (first_error : option exn)
| PcSettle (suffix_m : float) (x : execution) (cleanup_error : option exn)
| PcDone (r : res (child_result O)).

Record gstate := {
  prepared : list session;
  threads : list pc;
  cleanup_failed : bool;
  unsafe_outcome : bool;
  preparation_complete : bool;
  g_reg : rstate
}.

Definition start_group (s : rstate) : gstate :=
  {| prepared := []; threads := []; cleanup_failed := false; unsafe_outcome := false;
     preparation_complete := false; g_reg := s |}.

Definition on_greg {A} (m : M rstate A) : M gstate A := λ g,
  let '(r, s) := m (g_reg g) in
  (r, {| prepared := prepared g; threads := threads g; cleanup_failed := cleanup_failed g;
         unsafe_outcome := unsafe_outcome g; preparation_complete := preparation_complete g;
         g_reg := s |}).

Definition set_prepared (l : list session) : M gstate unit := modify (λ g,
  {| prepared := l; threads := threads g; cleanup_failed := cleanup_failed g;
     unsafe_outcome := unsafe_outcome g; preparation_complete := preparation_complete g;
     g_reg := g_reg g |}).
Definition set_threads (l : list pc) : M gstate unit := modify (λ g,
  {| prepared := prepared g; threads := l; cleanup_failed := cleanup_failed g;
     unsafe_outcome := unsafe_outcome g; preparation_complete := preparation_complete g;
     g_reg := g_reg g |}).
Definition set_cleanup_failed : M gstate unit := modify (λ g,
  {| prepared := prepared g; threads := threads g; cleanup_failed := true;
     unsafe_outcome := unsafe_outcome g; preparation_complete := preparation_complete g;
     g_reg := g_reg g |}).
Definition set_unsafe_outcome : M gstate unit := modify (λ g,
  {| prepared := prepared g; threads := threads g; cleanup_failed := cleanup_failed g;
     unsafe_outcome := true; preparation_complete := preparation_complete g;
     g_reg := g_reg g |}).
(** [preparation_complete = True]; every session now waits to be executed. *)
Definition set_preparation_complete : M gstate unit := modify (λ g,
  {| prepared := prepared g; threads := (λ _, PcStart) <$> prepared g;
     cleanup_failed := cleanup_failed g; unsafe_outcome := unsafe_outcome g;
     preparation_complete := true; g_reg := g_reg g |}).

(** The session at a position of [prepared]; the loops only use positions of
    the list. *)
Definition get_session (i : nat) : M gstate session :=
  l ← gets prepared;
  match l !! i with
  | Some x => mret x
  | None => raise (mk_exn "IndexError" "list index out of range")
  end.

Definition put_session (i : nat) (x : session) : M gstate unit :=
  l ← gets prepared; set_prepared (<[i := x]> l).

Definition put_pc (i : nat) (p : pc) : M gstate unit :=
  l ← gets threads; set_threads (<[i := p]> l).

Definition with_agent_key (x : session) (k : key) : session :=
  {| s_task := s_task x; s_lease := s_lease x; s_agent_key := Some k; s_released := s_released x;
     s_cleanup_attempted := s_cleanup_attempted x; s_cleanup_error := s_cleanup_error x;
     s_restore_minutes := s_restore_minutes x; s_context := s_context x |}.
Definition with_context (x : session) (c : ReplayChildExecutionContext) : session :=
  {| s_task := s_task x; s_lease := s_lease x; s_agent_key := s_agent_key x;
     s_released := s_released x; s_cleanup_attempted := s_cleanup_attempted x;
     s_cleanup_error := s_cleanup_error x; s_restore_minutes := s_restore_minutes x;
     s_context := Some c |}.
Definition with_attempted (x : session) : session :=
  {| s_task := s_task x; s_lease := s_lease x; s_agent_key := s_agent_key x;
     s_released := s_released x; s_cleanup_attempted := true;
     s_cleanup_error := s_cleanup_error x; s_restore_minutes := s_restore_minutes x;
     s_context := s_context x |}.
Definition with_cleanup (x : session) (e : option exn) : session :=
  {| s_task := s_task x; s_lease := s_lease x; s_agent_key := s_agent_key x;
     s_released := bool_decide (e = None); s_cleanup_attempted := s_cleanup_attempted x;
     s_cleanup_error := e; s_restore_minutes := s_restore_minutes x; s_context := s_context x |}.

(** [lease.child_key]: never [None] in a lease that was constructed. *)
Definition child_key (l : ReplayChildLease) : key := default 0%Z (raw_child_key l).
End group.
Arguments session : clear implicits.
Arguments gstate : clear implicits.
Arguments pc : clear implicits.
Arguments execution : clear implicits.

(** * Operations *)

(** [a or b] for two optional exceptions. *)
Definition or_else (a b : option exn) : option exn :=
  match a with Some _ => a | None => b end.

Inductive clean_outcome := CleanReturn (e : option exn) | CleanContinue (first_error : option exn).

Section child_group.
Context {O : Type} (env : Env O).
Variable entry : RuntimeReplayBinding.

(** ** cleanup *)

(** [cleanup] up to the release of the adapter child. *)
Definition cleanup_child (i : nat) : M (gstate O) clean_outcome :=
  x ← get_session i;
  if s_cleanup_attempted x then mret (CleanReturn (s_cleanup_error x))
  else
    _ ← put_session i (with_attempted x);
    if s_released x then mret (CleanReturn None)
    else
      _ ← on_greg (inc "child_session_release_attempt_count");
      r ← on_greg (call (λ h, release_replay_child env h (adapter entry) (child_key (s_lease x)))
                        (ObsReleaseChild (adapter entry) (child_key (s_lease x))));
      mret (CleanContinue (match r with Ok _ => None | Err e => Some e end)).

(** The rest of [cleanup]: the agent state, the flags and the counters. *)
Definition cleanup_agent (i : nat) (first_error : option exn) : M (gstate O) (option exn) :=
  x ← get_session i;
  first_error ← match s_agent_key x with
    | None => mret first_error
    | Some k =>
        r ← on_greg (call (λ h, release_agent_state env h (agent_state_store entry) k)
                          (ObsReleaseAgent (agent_state_store entry) k));
        mret (match r with Ok _ => first_error | Err e => or_else first_error (Some e) end)
    end;
  _ ← put_session i (with_cleanup x first_error);
  _ ← match first_error with
      | None => on_greg (inc "child_session_release_success_count")
      | Some _ =>
          _ ← set_cleanup_failed; on_greg (inc "child_session_release_failure_count")
      end;
  mret first_error.

Definition cleanup (i : nat) : M (gstate O) (option exn) :=
  c ← cleanup_child i;
  match c with
  | CleanReturn e => mret e
  | CleanContinue e => cleanup_agent i e
  end.

(** ** Preparation of one session *)

Definition same_key (a : option key) (k : key) : bool := bool_decide (a = Some k).

Definition prepare_session (id : string) (binding : key) (task : ReplayChildTask O)
  : M (gstate O) unit :=
  _ ← on_greg (inc "child_session_fork_attempt_count");
  fork_started ← on_greg (now env);
  request ← lift (mk_ForkReplayChildRequest
    {| fork_replay_point_id := id; fork_child_id := task_child_id task;
       fork_target_branch_id := task_target_branch_id task;
       fork_minimum_fidelity := task_minimum_fidelity task |});
  lease ← on_greg (invoke (λ h, built mk_ReplayChildLease
                             (fork_replay_child env h (adapter entry) binding request))
                          (ObsForkChild (adapter entry) binding request));
  lease ← lift (instance_or lease "fork_replay_child must return a ReplayChildLease");
  items ← gets prepared;
  _ ← ensure (negb (existsb (λ x, bool_decide (child_key lease = child_key (s_lease x))) items))
        (ValueError "isolated replay child keys must be unique");
  restore_m ← on_greg (elapsed_minutes env fork_started);
  let x := {| s_task := task; s_lease := lease; s_agent_key := None; s_released := false;
              s_cleanup_attempted := false; s_cleanup_error := None;
              s_restore_minutes := restore_m; s_context := None |} in
  _ ← set_prepared (items ++ [x])%list;
  agent_key ← on_greg (invoke (λ h, fork_agent_state env h (agent_state_store entry)
                                      (agent_state_key entry) (task_child_id task))
                              (ObsForkAgent (agent_state_store entry) (agent_state_key entry)
                                 (task_child_id task)));
  agent_key ← lift (instance_or agent_key "fork_agent_state must return an opaque child key");
  _ ← ensure (negb (existsb (λ x, same_key (s_agent_key x) agent_key) items))
        (ValueError "isolated agent child keys must be unique");
  let x := with_agent_key x agent_key in
  _ ← put_session (length items) x;
  let receipt := child_receipt lease in
  _ ← ensure (negb (bool_decide (rc_achieved_fidelity receipt = NON_REPLAYABLE)))
        (RuntimeError "isolated child reported non_replayable");
  _ ← ensure (fidelity_meets (fidelity (point entry)) (rc_achieved_fidelity receipt))
        (ValueError ("child restore achieved fidelity stronger than the "
                     ++ "captured ReplayPoint"));
  equivalence_started ← on_greg (now env);
  rep ← on_greg (invoke (λ h, built mk_EquivalenceReport
                           (validate_replay_child_equivalence env h (adapter entry)
                              (child_key lease) receipt))
                        (ObsValidateChild (adapter entry) (child_key lease) receipt));
  rep ← lift (instance_or rep
          ("validate_replay_child_equivalence must return an " ++ "EquivalenceReport"));
  eligible ← lift (validate_equivalence_contract (point entry) receipt rep
                     (task_minimum_fidelity task));
  equivalence_m ← on_greg (elapsed_minutes env equivalence_started);
  _ ← on_greg (on_ledger (observe_fidelity (ReplayFidelity_value (rp_achieved_fidelity rep))));
  let restore :=
    {| rr_replay_point_id := id; rr_target_branch_id := task_target_branch_id task;
       rr_achieved_fidelity := rp_achieved_fidelity rep; rr_equivalent := equivalent rep;
       promotion_eligible := eligible; prefix_reused := rc_prefix_reused receipt; report := rep;
       restore_minutes := s_restore_minutes x; equivalence_minutes := equivalence_m;
       suffix_minutes := f0; replay_wall_minutes := f0 |} in
  _ ← put_session (length items) (with_context x
        {| ctx_child_id := task_child_id task; ctx_restore := restore; ctx_isolated := true;
           adapter_child_key := Some (child_key lease) |});
  on_greg (inc "child_session_fork_success_count").

(** ** Serial or parallel *)

Definition process_worker_identities (l : list (session O)) : list (option Z) :=
  (λ x, worker_identity (s_lease x)) <$>
  filter (λ x, concurrency (s_lease x) = PROCESS_ISOLATED) l.

(** [all(identity is not other ...)] over all pairs. *)
Fixpoint all_distinct (l : list (option Z)) : bool :=
  match l with
  | [] => true
  | a :: l' => forallb (λ b, negb (bool_decide (a = b))) l' && all_distinct l'
  end.

Definition actual_parallel (parallel : bool) (l : list (session O)) : bool :=
  parallel && (1 <? Z.of_nat (length l))%Z
  && forallb (λ x, match concurrency (s_lease x) with
                   | THREAD_SAFE | PROCESS_ISOLATED => true
                   | SERIAL_ONLY => false
                   end) l
  && all_distinct (process_worker_identities l).

Definition choose_mode (parallel : bool) : M (gstate O) bool :=
  l ← gets prepared;
  let actual := actual_parallel parallel l in
  _ ← (if actual then
         _ ← on_greg (inc "child_parallel_group_count");
         if process_worker_identities l is [] then mret tt
         else on_greg (inc "child_process_isolated_parallel_group_count")
       else if parallel && (1 <? Z.of_nat (length l))%Z
       then on_greg (inc "child_parallel_downgrade_group_count")
       else mret tt);
  mret actual.

(** ** execute_session *)

Variables (risk_mode settle_failures is_parallel : bool).

(** The checks on an assessment; a denial raises. *)
Definition check_assessment (stage what : string) (o : option ReplayRiskAssessment)
  : res ReplayRiskAssessment :=
  a ← instance_or o (what ++ " must return a " ++ "ReplayRiskAssessment");
  _ ← require (bool_decide (disposition a = ALLOW)) (ReplayRiskRejectedError stage a);
  Ok a.

Definition denied (o : option ReplayRiskAssessment) : bool :=
  match o with Some a => bool_decide (disposition a = DENY) | None => false end.

(** [restore = replace(context.restore, ...)] after the suffix. *)
Definition settled_restore (ctx : ReplayChildExecutionContext) (suffix_m : float)
  : ReplayRestoreResult :=
  with_suffix (ctx_restore ctx) suffix_m
    (fadd (fadd (restore_minutes (ctx_restore ctx)) (equivalence_minutes (ctx_restore ctx)))
          suffix_m).

(** What [execute_session] returns or raises after the cleanup. *)
Definition settle_session (x : session O) (ctx : ReplayChildExecutionContext) (suffix_m : float)
    (e : execution O) (cleanup_error : option exn) (unsafe : bool) : res (child_result O) :=
  let restore := settled_restore ctx suffix_m in
  match e with
  | Err execution_error =>
      match cleanup_error with
      | Some c => Err (raise_from execution_error c)
      | None =>
          if settle_failures && negb unsafe then
            f ← mk_ReplayChildExecutionFailure
              {| fail_child_id := task_child_id (s_task x); fail_restore := restore;
                 fail_stage := match exn_risk execution_error with
                               | Some (stage, _) => if bool_decide (stage = "intent")
                                                    then INTENT else SUFFIX
                               | None => SUFFIX
                               end;
                 error_type := exn_class execution_error; fail_isolated := true;
                 fail_parallel := is_parallel;
                 risk_assessment := snd <$> exn_risk execution_error |};
            Ok (inr f)
          else Err execution_error
      end
  | Ok (outcome, intent, assessed) =>
      match cleanup_error with
      | Some c => Err c
      | None =>
          Ok (inl {| res_child_id := task_child_id (s_task x); res_restore := restore;
                     res_outcome := outcome; res_isolated := true; res_parallel := is_parallel;
                     intent_assessment := intent; outcome_assessment := assessed |})
      end
  end.

Definition get_context (x : session O) : res ReplayChildExecutionContext :=
  match s_context x with Some c => Ok c | None => Err (KeyError "context") end.

(** One step of the thread that runs session [i]. *)
Definition exec_step (i : nat) : M (gstate O) unit :=
  ts ← gets threads;
  x ← get_session i;
  ctx ← lift (get_context x);
  let task := s_task x in
  let ck := child_key (s_lease x) in
  let agent_key := default 0%Z (s_agent_key x) in
  match ts !! i with
  | None | Some (PcDone _) => mret tt
  | Some PcStart =>
      started ← on_greg (now env);
      if risk_mode then
        _ ← on_greg (inc "child_intent_assessment_count");
        r ← on_greg (call (λ h, built mk_ReplayRiskAssessment
                             (assess_replay_child_intent env h (adapter entry) ck (task_intent task)))
                          (ObsAssessIntent (adapter entry) ck (task_intent task)));
        match r ≫= check_assessment "intent" "assess_replay_child_intent" with
        | Ok a =>
            _ ← on_greg (inc "child_intent_allowed_count"); put_pc i (PcRestore started (Some a))
        | Err e =>
            _ ← (if denied (match r with Ok o => o | Err _ => None end)
                 then on_greg (inc "child_intent_denied_count") else mret tt);
            put_pc i (PcCleanup started (Err e))
        end
      else put_pc i (PcRestore started None)
  | Some (PcRestore started intent) =>
      r ← on_greg (call (λ h, restore_agent_state env h (agent_state_store entry) agent_key)
                        (ObsRestoreAgent (agent_state_store entry) agent_key));
      match r with
      | Ok _ => put_pc i (PcExecute started intent)
      | Err e => put_pc i (PcCleanup started (Err e))
      end
  | Some (PcExecute started intent) =>
      r ← on_greg (call (λ h, task_execute task h ctx) (λ r, ObsExecuteChild ctx (res_unit r)));
      match r with
      | Ok o => if risk_mode then put_pc i (PcAssess started intent o)
                else put_pc i (PcCleanup started (Ok (o, intent, None)))
      | Err e => put_pc i (PcCleanup started (Err e))
      end
  | Some (PcAssess started intent o) =>
      _ ← on_greg (inc "child_outcome_assessment_count");
      r ← on_greg (call (λ h, built mk_ReplayRiskAssessment
                           (assess_replay_child_outcome env h (adapter entry) ck (task_intent task) o))
                        (ObsAssessOutcome (adapter entry) ck (task_intent task)));
      match r ≫= check_assessment "outcome" "assess_replay_child_outcome" with
      | Ok a =>
          _ ← on_greg (inc "child_outcome_allowed_count");
          put_pc i (PcCleanup started (Ok (o, intent, Some a)))
      | Err e =>
          _ ← (if denied (match r with Ok o => o | Err _ => None end)
               then _ ← on_greg (inc "child_outcome_denied_count"); set_unsafe_outcome
               else mret tt);
          put_pc i (PcCleanup started (Err e))
      end
  | Some (PcCleanup started e) =>
      suffix_m ← on_greg (elapsed_minutes env started);
      c ← cleanup_child i;
      match c with
      | CleanReturn err => put_pc i (PcSettle suffix_m e err)
      | CleanContinue err => put_pc i (PcCleanupAgent suffix_m e err)
      end
  | Some (PcCleanupAgent suffix_m e first_error) =>
      err ← cleanup_agent i first_error; put_pc i (PcSettle suffix_m e err)
  | Some (PcSettle suffix_m e err) =>
      unsafe ← gets unsafe_outcome;
      put_pc i (PcDone (settle_session x ctx suffix_m e err unsafe))
  end.

(** A thread ends after at most seven steps. *)
Definition max_steps : nat := 7.

Fixpoint repeat_m (n : nat) (m : M (gstate O) unit) : M (gstate O) unit :=
  match n with 0%nat => mret tt | S n' => _ ← m; repeat_m n' m end.

Definition run_session (i : nat) : M (gstate O) unit := repeat_m max_steps (exec_step i).

Definition thread_result (i : nat) : M (gstate O) (child_result O) :=
  ts ← gets threads;
  match ts !! i with
  | Some (PcDone r) => lift r
  | _ => raise (RuntimeError "thread is still running")
  end.

(** [[execute_session(session) for session in prepared]]. *)
Definition run_serial (n : nat) : M (gstate O) (list (child_result O)) :=
  mmap (λ i, _ ← run_session i; thread_result i) (seq 0 n).

Definition started (p : pc O) : bool := match p with PcStart => false | _ => true end.
Definition finished (p : pc O) : bool := match p with PcDone _ => true | _ => false end.

(** The pool may run thread [i]: it is running, or it is the next to start and
    a worker is free. *)
Definition runnable (workers : nat) (ts : list (pc O)) (i : nat) : bool :=
  match ts !! i with
  | None => false
  | Some p =>
      if started p then negb (finished p)
      else forallb started (take i ts)
           && (length (filter (λ p, started p && negb (finished p) = true) ts) <? workers)%nat
  end.

(** An interleaving, and then every thread runs to its end: the exit of the
    [with ThreadPoolExecutor] block waits for all of them. *)
Fixpoint run_schedule (workers : nat) (sched : list nat) : M (gstate O) unit :=
  match sched with
  | [] => mret tt
  | i :: sched' =>
      ts ← gets threads;
      _ ← (if runnable workers ts i then exec_step i else mret tt);
      run_schedule workers sched'
  end.

Fixpoint run_all (l : list nat) : M (gstate O) unit :=
  match l with [] => mret tt | i :: l' => _ ← run_session i; run_all l' end.

(** The results in submission order, and the first exception among them. *)
Fixpoint collect (l : list (res (child_result O))) : list (child_result O) * option exn :=
  match l with
  | [] => ([], None)
  | Ok r :: l' => let '(rs, e) := collect l' in (r :: rs, e)
  | Err e :: l' => let '(rs, _) := collect l' in (rs, Some e)
  end.

Definition run_parallel (max_workers : option Z) (sched : list nat) (n : nat)
  : M (gstate O) (list (child_result O)) :=
  let worker_count := match max_workers with
                      | Some w => if (w =? 0)%Z then Z.of_nat n else w
                      | None => Z.of_nat n
                      end in
  let workers := Z.min worker_count (Z.of_nat n) in
  _ ← ensure (0 <? workers)%Z (ValueError "max_workers must be greater than 0");
  _ ← run_schedule (Z.to_nat workers) sched;
  _ ← run_all (seq 0 n);
  rs ← mmap (λ i, attempt (thread_result i)) (seq 0 n);
  let '(results, first_error) := collect rs in
  match first_error with Some e => raise e | None => mret results end.
End child_group.

(** ** The group *)

Section run_child_group.
Context {O : Type} (env : Env O).

Definition is_failure (r : child_result O) : bool :=
  match r with inr _ => true | inl _ => false end.

(** The [for] loop of the [except] block: [cleanup_error = cleanup(session) or
    cleanup_error]. *)
Fixpoint cleanup_all (entry : RuntimeReplayBinding) (l : list nat) (acc : option exn)
  : M (gstate O) (option exn) :=
  match l with
  | [] => mret acc
  | i :: l' => e ← cleanup env entry i; cleanup_all entry l' (or_else e acc)
  end.

(** The [except Exception as error] block of the isolated path. *)
Definition abandon_group (id : string) (entry : RuntimeReplayBinding) (error : exn)
  : M (gstate O) (list (child_result O)) :=
  complete ← gets preparation_complete;
  _ ← (if complete : bool then mret tt
       else on_greg (inc "child_session_fork_failure_count"));
  items ← gets prepared;
  cleanup_error ← cleanup_all entry (seq 0 (length items)) None;
  failed ← gets cleanup_failed;
  unsafe ← gets unsafe_outcome;
  _ ← (if (failed : bool) || unsafe then on_greg (quarantine id) else mret tt);
  match cleanup_error, exn_cause error with
  | Some c, None => if exn_is c error then raise error else raise (raise_from error c)
  | _, _ => raise error
  end.

(** The isolated path, under the point's lock. *)
Definition isolated_group (id : string) (entry : RuntimeReplayBinding) (binding : key)
    (risk_mode : bool) (tasks : list (ReplayChildTask O)) (parallel : bool)
    (max_workers : option Z) (settle_failures : bool) (sched : list nat)
  : M (gstate O) (list (child_result O)) :=
  try_except
    (_ ← mmap (prepare_session env entry id binding) tasks;
     _ ← set_preparation_complete;
     actual ← choose_mode parallel;
     if actual : bool
     then run_parallel env entry risk_mode settle_failures true max_workers sched (length tasks)
     else run_serial env entry risk_mode settle_failures false (length tasks))
    (abandon_group id entry).

Definition run_isolated (id : string) (entry : RuntimeReplayBinding) (binding : key)
    (risk_mode : bool) (tasks : list (ReplayChildTask O)) (parallel : bool)
    (max_workers : option Z) (settle_failures : bool) (sched : list nat)
  : M rstate (list (child_result O)) := λ s,
  let '(r, g) := isolated_group id entry binding risk_mode tasks parallel max_workers
                   settle_failures sched (start_group s) in (r, g_reg g).

(** The fallback without isolated children: one [run_from] per task. *)
Definition fallback_task (id : string) (task : ReplayChildTask O)
  : M rstate (child_result O) :=
  ro ← run_from env id (task_target_branch_id task) (task_minimum_fidelity task)
         (λ h restored, task_execute task h
            {| ctx_child_id := task_child_id task; ctx_restore := restored;
               ctx_isolated := false; adapter_child_key := None |});
  mret (inl {| res_child_id := task_child_id task; res_restore := ro.1; res_outcome := ro.2;
               res_isolated := false; res_parallel := false; intent_assessment := None;
               outcome_assessment := None |}).

Definition count_settled (settle_failures : bool) (results : list (child_result O))
  : M rstate unit :=
  if settle_failures then
    let failures := Z.of_nat (length (filter (λ r, is_failure r = true) results)) in
    _ ← inc_by "child_candidate_success_count" (Z.of_nat (length results) - failures);
    _ ← inc_by "child_candidate_failure_count" failures;
    if (failures =? 0)%Z then inc "child_group_success_count"
    else inc "child_group_settled_count"
  else inc "child_group_success_count".

Definition child_group_body (id : string) (tasks : list (ReplayChildTask O)) (parallel : bool)
    (max_workers : option Z) (settle_failures : bool) (sched : list nat)
  : M rstate (list (child_result O)) :=
  entry ← get_entry id;
  _ ← ensure_ready entry "ReplayPoint must be ready before child replay: ";
  binding ← replayable_binding entry;
  child_mode ← lift (isolated_replay_child_mode (adapter_attr env (adapter entry))
                       (store_attr env (agent_state_store entry)));
  match child_mode with
  | None =>
      _ ← ensure (negb settle_failures)
            (RuntimeError "settled child results require isolated child sessions");
      _ ← inc "child_serial_fallback_group_count";
      results ← mmap (fallback_task id) tasks;
      _ ← inc "child_group_success_count";
      mret results
  | Some _ =>
      risk_mode ← lift (replay_child_risk_mode (adapter_attr env (adapter entry)));
      entry ← get_entry id;
      _ ← ensure_ready entry "ReplayPoint stopped being ready before child fork: ";
      results ← run_isolated id entry binding (bool_decide (risk_mode ≠ None)) tasks parallel
                  max_workers settle_failures sched;
      _ ← count_settled settle_failures results;
      mret results
  end.

(** [run_child_group_from(registry, ...)]; the schedule stands for what the
    thread pool's scheduler decides. *)
Definition run_child_group_from (id : string) (tasks : list (ReplayChildTask O)) (parallel : bool)
    (max_workers : option Z) (settle_failures : bool) (sched : list nat)
  : M rstate (list (child_result O)) :=
  _ ← ensure (negb (bool_decide (length tasks = 0%nat)))
        (ValueError "run_child_group_from requires at least one task");
  _ ← ensure (bool_decide (NoDup (task_child_id <$> tasks)))
        (ValueError "ReplayChildTask child_id values must be unique");
  _ ← inc "child_group_attempt_count";
  try_except (child_group_body id tasks parallel max_workers settle_failures sched)
    (λ e, _ ← inc "child_group_failure_count"; raise e).
End run_child_group.
