(* ===== verification/ChildSpec.v ===== *)
(** What the threads of a child group may do.

    Every session has its own sequence of calls, which the position of its
    thread determines ([at_pc]); the calls of the group are an interleaving of
    these sequences ([shuffled]).  The lemmas say that each step of
    [execute_session] extends the sequence of its session along that protocol,
    and that the clean-up closes every session. *)

From stdpp Require Import base strings list sets gmap.
From Stdlib Require Import ZArith Lia.
From S2P Require Import Prelude PyFloat PyValue TraceRuntime ReplayMetrics ReplayTypes.
From S2P Require Import ReplayRegistry RegistryFacts RegistrySpec ChildReplay.

(** * Interleavings *)

(** [shuffled hs r]: [r] is an interleaving of the sequences [hs]. *)
Inductive shuffled : list history → history → Prop :=
| shuffled_nil n : shuffled (replicate n []) []
| shuffled_step hs r i h new :
    shuffled hs r → hs !! i = Some h →
    shuffled (<[i := (h ++ new)%list]> hs) (r ++ new)%list.

Lemma concat_insert_app (hs : list history) i h new :
  hs !! i = Some h → concat (<[i := (h ++ new)%list]> hs) ≡ₚ (concat hs ++ new)%list.
Proof.
  revert i. induction hs as [|h' hs IH]; intros [|i] Hi; simplify_eq/=.
  - by rewrite <- !app_assoc, (Permutation_app_comm (concat hs) new).
  - rewrite IH by done. by rewrite app_assoc.
Qed.

(** Every call of the group belongs to one session. *)
Lemma shuffled_perm hs r : shuffled hs r → r ≡ₚ concat hs.
Proof.
  induction 1 as [n|hs r i h new _ IH Hi].
  - induction n; simpl; [done|]. by rewrite <- IHn.
  - by rewrite (concat_insert_app _ _ _ _ Hi), IH.
Qed.

(** The calls of one session appear in order. *)
Lemma shuffled_sublist hs r i h : shuffled hs r → hs !! i = Some h → h `sublist_of` r.
Proof.
  intros Hs. revert h. induction Hs as [n|hs r j h' new _ IH Hj]; intros h Hi.
  - apply lookup_replicate in Hi as [-> _]. done.
  - destruct (decide (i = j)) as [->|Hne].
    + rewrite list_lookup_insert_eq in Hi by (by eapply lookup_lt_Some). injection Hi as <-.
      apply sublist_app; [by apply IH|done].
    + rewrite list_lookup_insert_ne in Hi by done. apply sublist_inserts_r. by apply IH.
Qed.

Lemma shuffled_length_insert (hs : list history) i h : length (<[i := h]> hs) = length hs.
Proof. apply length_insert. Qed.

(** * Rules for the group's state *)

Section rules.
Context {O : Type}.
Implicit Types (xs : list (session O)) (ts : list (pc O)) (s : rstate).

Lemma wp_on_greg {A} (m : M rstate A) xs ts cf un pr s (Q : res A → gstate O → Prop) :
  wp m s (λ r s', Q r {| prepared := xs; threads := ts; cleanup_failed := cf;
    unsafe_outcome := un; preparation_complete := pr; g_reg := s' |}) →
  wp (on_greg m) {| prepared := xs; threads := ts; cleanup_failed := cf;
    unsafe_outcome := un; preparation_complete := pr; g_reg := s |} Q.
Proof. unfold wp, on_greg. simpl. by destruct (m s). Qed.

Lemma wp_get_session i x xs ts cf un pr s (Q : res (session O) → gstate O → Prop) :
  xs !! i = Some x →
  Q (Ok x) {| prepared := xs; threads := ts; cleanup_failed := cf;
    unsafe_outcome := un; preparation_complete := pr; g_reg := s |} →
  wp (get_session i) {| prepared := xs; threads := ts; cleanup_failed := cf;
    unsafe_outcome := un; preparation_complete := pr; g_reg := s |} Q.
Proof. intros Hx HQ. unfold get_session. apply wp_bind, wp_gets. simpl. rewrite Hx. by apply wp_ret. Qed.

Lemma wp_put_session i x xs ts cf un pr s (Q : res unit → gstate O → Prop) :
  Q (Ok tt) {| prepared := <[i := x]> xs; threads := ts; cleanup_failed := cf;
    unsafe_outcome := un; preparation_complete := pr; g_reg := s |} →
  wp (put_session i x) {| prepared := xs; threads := ts; cleanup_failed := cf;
    unsafe_outcome := un; preparation_complete := pr; g_reg := s |} Q.
Proof. done. Qed.

Lemma wp_put_pc i p xs ts cf un pr s (Q : res unit → gstate O → Prop) :
  Q (Ok tt) {| prepared := xs; threads := <[i := p]> ts; cleanup_failed := cf;
    unsafe_outcome := un; preparation_complete := pr; g_reg := s |} →
  wp (put_pc i p) {| prepared := xs; threads := ts; cleanup_failed := cf;
    unsafe_outcome := un; preparation_complete := pr; g_reg := s |} Q.
Proof. done. Qed.

Lemma wp_set_prepared xs' xs ts cf un pr s (Q : res unit → gstate O → Prop) :
  Q (Ok tt) {| prepared := xs'; threads := ts; cleanup_failed := cf;
    unsafe_outcome := un; preparation_complete := pr; g_reg := s |} →
  wp (set_prepared xs') {| prepared := xs; threads := ts; cleanup_failed := cf;
    unsafe_outcome := un; preparation_complete := pr; g_reg := s |} Q.
Proof. done. Qed.

Lemma wp_set_cleanup_failed xs ts cf un pr s (Q : res unit → gstate O → Prop) :
  Q (Ok tt) {| prepared := xs; threads := ts; cleanup_failed := true;
    unsafe_outcome := un; preparation_complete := pr; g_reg := s |} →
  wp set_cleanup_failed {| prepared := xs; threads := ts; cleanup_failed := cf;
    unsafe_outcome := un; preparation_complete := pr; g_reg := s |} Q.
Proof. done. Qed.

Lemma wp_set_unsafe_outcome xs ts cf un pr s (Q : res unit → gstate O → Prop) :
  Q (Ok tt) {| prepared := xs; threads := ts; cleanup_failed := cf;
    unsafe_outcome := true; preparation_complete := pr; g_reg := s |} →
  wp set_unsafe_outcome {| prepared := xs; threads := ts; cleanup_failed := cf;
    unsafe_outcome := un; preparation_complete := pr; g_reg := s |} Q.
Proof. done. Qed.
End rules.

Ltac gsym1 :=
  lazymatch goal with
  | |- wp (on_greg _) _ _ => apply wp_on_greg
  | H : ?xs !! ?i = Some ?x |- wp (get_session ?i) {| prepared := ?xs |} _ =>
      apply (wp_get_session i x); [exact H|]
  | H : ?xs !! ?i = Some _ |- wp (get_session ?i) {| prepared := <[?i := ?x]> ?xs |} _ =>
      apply (wp_get_session i x);
        [apply list_lookup_insert_eq; exact (lookup_lt_Some _ _ _ H)|]
  | |- wp (put_session _ _) _ _ => apply wp_put_session
  | |- wp (put_pc _ _) _ _ => apply wp_put_pc
  | |- wp (set_prepared _) _ _ => apply wp_set_prepared
  | |- wp set_cleanup_failed _ _ => apply wp_set_cleanup_failed
  | |- wp set_unsafe_outcome _ _ => apply wp_set_unsafe_outcome
  | |- wp (gets prepared) _ _ => apply wp_gets; cbn [prepared]
  | |- wp (gets threads) _ _ => apply wp_gets; cbn [threads]
  | |- wp (gets cleanup_failed) _ _ => apply wp_gets; cbn [cleanup_failed]
  | |- wp (gets unsafe_outcome) _ _ => apply wp_gets; cbn [unsafe_outcome]
  | |- wp (gets preparation_complete) _ _ => apply wp_gets; cbn [preparation_complete]
  | |- _ => sym1
  end; sym_red.

Ltac gsym := repeat gsym1.

(** * The protocol of one session *)

Definition err_of {A} (r : res A) : option exn := match r with Ok _ => None | Err e => Some e end.

(** The counters of sessions; the group's own counters are not among them. *)
Definition SESSION_COUNTERS : list string :=
  ["child_session_fork_attempt_count"; "child_session_fork_success_count";
   "child_session_fork_failure_count"; "child_session_release_attempt_count";
   "child_session_release_success_count"; "child_session_release_failure_count";
   "child_intent_assessment_count"; "child_intent_allowed_count"; "child_intent_denied_count";
   "child_outcome_assessment_count"; "child_outcome_allowed_count";
   "child_outcome_denied_count"; "child_parallel_group_count";
   "child_process_isolated_parallel_group_count"; "child_parallel_downgrade_group_count";
   "replay_point_quarantine_count"].

Definition session_incs (l : incs) : Prop := Forall (λ c, c.1 ∈ SESSION_COUNTERS) l.

(** An outcome assessment that denied. *)
Definition is_denied_outcome (o : obs) : bool :=
  match o with ObsAssessOutcome _ _ _ (Ok a) => denied a | _ => false end.

Section protocol.
Context {O : Type} (entry : RuntimeReplayBinding) (risk settle par : bool).
Implicit Types (x : session O) (h : history).

Notation ad := (adapter entry).
Notation store := (agent_state_store entry).

Definition key_of x : key := child_key (s_lease x).
Definition agent_of x : key := default 0%Z (s_agent_key x).

(** The parts of a session that do not change once it is prepared. *)
Record same_session x x' : Prop := {
  ss_task : s_task x' = s_task x;
  ss_lease : s_lease x' = s_lease x;
  ss_agent : s_agent_key x' = s_agent_key x;
  ss_context : s_context x' = s_context x
}.

Inductive intent_part x : option ReplayRiskAssessment → history → Prop :=
| intent_unasked : risk = false → intent_part x None []
| intent_allowed a :
    risk = true → disposition a = ALLOW →
    intent_part x (Some a) [ObsAssessIntent ad (key_of x) (task_intent (s_task x)) (Ok (Some a))].

Inductive outcome_part x : option ReplayRiskAssessment → history → Prop :=
| outcome_unasked : risk = false → outcome_part x None []
| outcome_allowed a :
    risk = true → disposition a = ALLOW →
    outcome_part x (Some a)
      [ObsAssessOutcome ad (key_of x) (task_intent (s_task x)) (Ok (Some a))].

(** The calls of the [try] of [execute_session], with how it ended. *)
Inductive body_hist x ctx : execution O → history → Prop :=
| bh_intent_refused r e :
    risk = true → r ≫= check_assessment "intent" "assess_replay_child_intent" = Err e →
    body_hist x ctx (Err e) [ObsAssessIntent ad (key_of x) (task_intent (s_task x)) r]
| bh_restore_failed a h e :
    intent_part x a h →
    body_hist x ctx (Err e) (h ++ [ObsRestoreAgent store (agent_of x) (Err e)])%list
| bh_suffix_failed a h e :
    intent_part x a h →
    body_hist x ctx (Err e)
      (h ++ [ObsRestoreAgent store (agent_of x) (Ok tt); ObsExecuteChild ctx (Err e)])%list
| bh_outcome_refused a h r e :
    intent_part x a h → risk = true →
    r ≫= check_assessment "outcome" "assess_replay_child_outcome" = Err e →
    body_hist x ctx (Err e)
      (h ++ [ObsRestoreAgent store (agent_of x) (Ok tt); ObsExecuteChild ctx (Ok tt);
             ObsAssessOutcome ad (key_of x) (task_intent (s_task x)) r])%list
| bh_completed a h o b h' :
    intent_part x a h → outcome_part x b h' →
    body_hist x ctx (Ok (o, a, b))
      (h ++ [ObsRestoreAgent store (agent_of x) (Ok tt); ObsExecuteChild ctx (Ok tt)] ++ h')%list.

(** The release calls of a session that was closed with [err]. *)
Inductive release_part x : option exn → history → Prop :=
| released_child r :
    s_agent_key x = None →
    release_part x (err_of r) [ObsReleaseChild ad (key_of x) r]
| released_both k r r' :
    s_agent_key x = Some k →
    release_part x (or_else (err_of r) (err_of r'))
      [ObsReleaseChild ad (key_of x) r; ObsReleaseAgent store k r'].

Record untouched x : Prop := {
  un_attempted : s_cleanup_attempted x = false;
  un_released : s_released x = false;
  un_error : s_cleanup_error x = None
}.

Definition closed x (err : option exn) : Prop :=
  s_cleanup_attempted x = true ∧ s_cleanup_error x = err.

(** The calls a session has made when its thread is at a given position. *)
Inductive at_pc x ctx : pc O → history → Prop :=
| at_start : untouched x → at_pc x ctx PcStart []
| at_restore st a h : untouched x → intent_part x a h → at_pc x ctx (PcRestore st a) h
| at_execute st a h :
    untouched x → intent_part x a h →
    at_pc x ctx (PcExecute st a) (h ++ [ObsRestoreAgent store (agent_of x) (Ok tt)])%list
| at_assess st a h o :
    untouched x → intent_part x a h → risk = true →
    at_pc x ctx (PcAssess st a o)
      (h ++ [ObsRestoreAgent store (agent_of x) (Ok tt); ObsExecuteChild ctx (Ok tt)])%list
| at_cleanup st e h : untouched x → body_hist x ctx e h → at_pc x ctx (PcCleanup st e) h
| at_cleanup_agent m e h r :
    s_cleanup_attempted x = true → s_cleanup_error x = None → body_hist x ctx e h →
    at_pc x ctx (PcCleanupAgent m e (err_of r)) (h ++ [ObsReleaseChild ad (key_of x) r])%list
| at_settle m e err h h' :
    closed x err → body_hist x ctx e h → release_part x err h' →
    at_pc x ctx (PcSettle m e err) (h ++ h')%list
| at_done m e err h h' u :
    closed x err → body_hist x ctx e h → release_part x err h' →
    (existsb is_denied_outcome h = true → u = true) →
    at_pc x ctx (PcDone (settle_session settle par x ctx m e err u)) (h ++ h')%list.
End protocol.

Section same.
Context {O : Type} (entry : RuntimeReplayBinding) (risk : bool) (x x' : session O).
Hypothesis Hs : same_session x x'.

Lemma same_key_of : key_of x' = key_of x.
Proof. unfold key_of. by rewrite (ss_lease _ _ Hs). Qed.
Lemma same_agent_of : agent_of x' = agent_of x.
Proof. unfold agent_of. by rewrite (ss_agent _ _ Hs). Qed.

Lemma intent_part_same a h : intent_part entry risk x a h → intent_part entry risk x' a h.
Proof.
  intros H; destruct H; [by constructor|].
  rewrite <- same_key_of, <- (ss_task _ _ Hs). by constructor.
Qed.

Lemma outcome_part_same a h : outcome_part entry risk x a h → outcome_part entry risk x' a h.
Proof.
  intros H; destruct H; [by constructor|].
  rewrite <- same_key_of, <- (ss_task _ _ Hs). by constructor.
Qed.

Lemma body_hist_same ctx e h : body_hist entry risk x ctx e h → body_hist entry risk x' ctx e h.
Proof.
  intros H; destruct H; rewrite <- ?same_key_of, <- ?same_agent_of, <- ?(ss_task _ _ Hs);
    econstructor; eauto using intent_part_same, outcome_part_same.
Qed.

Lemma release_part_same err h : release_part entry x err h → release_part entry x' err h.
Proof.
  intros H; destruct H; rewrite <- same_key_of; constructor; by rewrite (ss_agent _ _ Hs).
Qed.
End same.

(** ** One step of a thread *)

(** How many steps a thread still has at most. *)
Definition steps_left {O} (p : pc O) : nat :=
  match p with
  | PcStart => 7 | PcRestore _ _ => 6 | PcExecute _ _ => 5 | PcAssess _ _ _ => 4
  | PcCleanup _ _ => 3 | PcCleanupAgent _ _ _ => 2 | PcSettle _ _ _ => 1 | PcDone _ => 0
  end.

Section steps.
Context {O : Type} (env : Env O) (entry : RuntimeReplayBinding) (risk settle par : bool).
Implicit Types (x : session O) (h : history).

Notation at_pc := (at_pc entry risk settle par).
Notation exec_step := (exec_step env entry risk settle par).

(** The effect of a step of thread [i] on the group. *)
Record stepped (i : nat) (x : session O) (ctx : ReplayChildExecutionContext) (p : pc O)
    (h : history) (g g' : gstate O) : Prop := {
  st_session : ∃ x', prepared g' = <[i := x']> (prepared g) ∧ same_session x x' ∧
    ∃ p', threads g' = <[i := p']> (threads g) ∧ (steps_left p' ≤ pred (steps_left p))%nat ∧
    ∃ l new, delta (g_reg g) (g_reg g') (entries (g_reg g)) l new ∧ session_incs l ∧
      at_pc x' ctx p' (h ++ new)%list ∧
      (is_some (s_cleanup_error x) = true → is_some (s_cleanup_error x') = true) ∧
      cleanup_failed g' = cleanup_failed g || is_some (s_cleanup_error x') ∧
      unsafe_outcome g' = unsafe_outcome g || existsb is_denied_outcome new;
  st_complete : preparation_complete g' = preparation_complete g
}.

Lemma same_session_refl x : same_session x x.
Proof. done. Qed.

Lemma check_assessment_Ok stage what r a :
  r ≫= check_assessment stage what = Ok a → r = Ok (Some a) ∧ disposition a = ALLOW.
Proof.
  destruct r as [[b|]|e]; try discriminate. unfold check_assessment. simpl.
  intros H. inv_res. by apply bool_decide_eq_true in H0.
Qed.

Lemma session_incs_cons c l : mem_str c.1 SESSION_COUNTERS = true → session_incs l → session_incs (c :: l).
Proof. intros H%mem_str_In Hl. by constructor. Qed.

Lemma or_else_err a (r : res unit) :
  match r with Ok _ => a | Err e => or_else a (Some e) end = or_else a (err_of r).
Proof. by destruct a, r. Qed.

Lemma settle_both x x' ctx m e h r r' k err :
  same_session x x' → body_hist entry risk x ctx e h → s_agent_key x = Some k →
  match r' with Ok _ => err_of r | Err e => or_else (err_of r) (Some e) end = err →
  closed x' err →
  at_pc x' ctx (PcSettle m e err)
    (h ++ [ObsReleaseChild (adapter entry) (key_of x) r;
           ObsReleaseAgent (agent_state_store entry) k r'])%list.
Proof.
  intros Hs Hb Hk Herr Hc. rewrite or_else_err in Herr. subst err.
  eapply at_settle; [done|by eapply body_hist_same|].
  eapply release_part_same; [exact Hs|]. by constructor.
Qed.

Lemma settle_child x x' ctx m e h r :
  same_session x x' → body_hist entry risk x ctx e h → s_agent_key x = None →
  closed x' (err_of r) →
  at_pc x' ctx (PcSettle m e (err_of r)) (h ++ [ObsReleaseChild (adapter entry) (key_of x) r])%list.
Proof.
  intros Hs Hb Hk Hc. eapply at_settle; [done|by eapply body_hist_same|].
  eapply release_part_same; [exact Hs|]. by constructor.
Qed.

Ltac flags :=
  simpl in *; rewrite ?orb_true_r, ?orb_false_r; try reflexivity;
  match goal with
  | H : is_some ?e = true → ?cf = true |- ?cf = ?cf || is_some ?e =>
      destruct (is_some e); [by rewrite H|by rewrite orb_false_r]
  | H : ?b = true |- true = ?un || ?c => by rewrite H, orb_true_r
  | H : ?b = false |- ?un = ?un || ?c => by rewrite H, orb_false_r
  end.

Lemma exec_step_spec i x ctx p h xs ts cf un pr s :
  xs !! i = Some x → ts !! i = Some p → s_context x = Some ctx → at_pc x ctx p h →
  (is_some (s_cleanup_error x) = true → cf = true) →
  (existsb is_denied_outcome h = true → un = true) →
  let g := {| prepared := xs; threads := ts; cleanup_failed := cf; unsafe_outcome := un;
              preparation_complete := pr; g_reg := s |} in
  wp (exec_step i) g (λ r g', r = Ok tt ∧ stepped i x ctx p h g g').
Proof.
  intros Hx Ht Hctx Hat Hcf Hun. cbn zeta. pose proof (delta_refl s) as D.
  unfold exec_step, ChildReplay.exec_step, cleanup_child, cleanup_agent, get_context.
  apply wp_bind, wp_gets. cbn [threads]. sym_red.
  apply wp_bind, (wp_get_session i x); [done|]. sym_red. rewrite Hctx.
  apply wp_bind, wp_lift. sym_red. rewrite Ht.
  destruct Hat; gsym.
  all: split; [done|split; [|done]]; cbn [prepared threads cleanup_failed unsafe_outcome g_reg].
  all: repeat match goal with u : () |- _ => destruct u end.
  all: repeat match goal with H : _ ≫= check_assessment _ _ = Ok _ |- _ =>
         apply check_assessment_Ok in H as [-> ?] end.
  all: first
    [ exists x; rewrite list_insert_id by done; split; [done|split; [done|]]
    | eexists; rewrite ?list_insert_insert_eq; split; [reflexivity|split; [done|]] ].
  all: eexists; split; [first [reflexivity|by rewrite list_insert_id]|split; [simpl; lia|]].
  all: do 2 eexists; split; [exact D|].
  all: split; [repeat (apply session_incs_cons; [reflexivity|]); constructor|].
  all: match goal with
    | |- _ ∧ _ ∧ _ =>
        split; [|split; [simpl; first [done|match goal with H : s_cleanup_error _ = None |- _ =>
                                 by rewrite H end]|split; [try by flags|try by flags]]]
    end.
  all: rewrite ?app_nil_r, <- ?app_assoc; cbn [app].
  all: try (exfalso; match goal with H : untouched _ |- _ => destruct H; congruence end).
  all: try match goal with
    | H : risk = ?b, H' : intent_part entry ?b _ _ _ |- _ => rewrite <- H in H'
    end.
  - apply at_restore; [done|by constructor].
  - by apply at_cleanup, bh_intent_refused.
  - by apply at_cleanup, bh_intent_refused.
  - apply at_restore; [done|by constructor].
  - by apply at_execute.
  - eapply at_cleanup; [done|]. by eapply bh_restore_failed.
  - by apply at_assess.
  - apply at_cleanup; [done|]. eapply (bh_completed _ _ _ _ a h _ None []); [done|by constructor].
  - eapply at_cleanup; [done|]. by eapply bh_suffix_failed.
  - apply at_cleanup; [done|].
    eapply (bh_completed _ _ _ _ a h _ (Some a0) [_]); [done|by constructor].
  - simpl. rewrite bool_decide_false by congruence. by rewrite !orb_false_r.
  - eapply at_cleanup; [done|]. by eapply bh_outcome_refused.
  - destruct r; [|done]. simpl in *. by rewrite Heqb, orb_true_r.
  - eapply at_cleanup; [done|]. by eapply bh_outcome_refused.
  - destruct r; simpl in *; [rewrite Heqb|]; by rewrite !orb_false_r.
  - apply (at_cleanup_agent _ _ _ _ (with_attempted x) _ _ _ _ r); [done|apply (un_error _ H)|].
    by eapply (body_hist_same _ _ x).
  - by eapply (settle_both x).
  - by eapply (settle_both x).
  - rewrite <- Heqo0. eapply (settle_child x); [done|done|done|]. by rewrite Heqo0.
  - rewrite <- Heqo0. eapply (settle_child x); [done|done|done|]. by rewrite Heqo0.
  - eapply at_done; try done. intros Hd. apply Hun. by rewrite existsb_app, Hd.
  - by eapply at_done.
Qed.

(** ** All threads *)

Variables (s0 : rstate) (prep : history) (xs0 : list (session O)).

(** The group while its threads run: the calls so far are the preparation and
    an interleaving [rest] of the sessions' sequences [hs]. *)
Record running (hs : list history) (rest : history) (g : gstate O) : Prop := {
  rn_reg : ∃ l, delta s0 (g_reg g) (entries s0) l (prep ++ rest)%list ∧ session_incs l;
  rn_shuffled : shuffled hs rest;
  rn_threads : length (threads g) = length (prepared g);
  rn_hists : length hs = length (prepared g);
  rn_same : Forall2 same_session xs0 (prepared g);
  rn_at : ∀ i x p h, prepared g !! i = Some x → threads g !! i = Some p → hs !! i = Some h →
    ∃ ctx, s_context x = Some ctx ∧ at_pc x ctx p h;
  rn_failed : cleanup_failed g = existsb (λ x, is_some (s_cleanup_error x)) (prepared g);
  rn_unsafe : unsafe_outcome g = existsb (existsb is_denied_outcome) hs
}.

Definition Running (g : gstate O) : Prop := ∃ hs rest, running hs rest g.

Lemma existsb_insert {A} (f : A → bool) (l : list A) i a a' :
  l !! i = Some a → (f a = true → f a' = true) →
  existsb f (<[i := a']> l) = existsb f l || f a'.
Proof.
  revert i. induction l as [|b l IH]; intros [|i] Hi Hf; simplify_eq/=.
  - destruct (f a); [rewrite Hf by done; by rewrite orb_true_r|]. simpl. apply orb_comm.
  - rewrite IH by done. by rewrite orb_assoc.
Qed.

Lemma existsb_lookup {A} (f : A → bool) (l : list A) i a :
  l !! i = Some a → f a = true → existsb f l = true.
Proof.
  intros Hi Hf. apply existsb_exists. exists a. split; [|done].
  apply list_elem_of_In. by eapply list_elem_of_lookup_2.
Qed.

Lemma Forall2_insert_same xs xs' i x x' :
  Forall2 same_session xs xs' → xs' !! i = Some x → same_session x x' →
  Forall2 same_session xs (<[i := x']> xs').
Proof.
  intros H. revert i. induction H as [|y y' l l' Hy Hl IH]; intros [|i] Hi Hx; simplify_eq/=.
  - constructor; [|done]. destruct Hy, Hx. split; congruence.
  - constructor; auto.
Qed.

(** A step of any thread keeps the group running. *)
Lemma running_step g i p :
  Running g → threads g !! i = Some p →
  wp (exec_step i) g (λ r g', r = Ok tt ∧ Running g' ∧
    ∃ p', threads g' = <[i := p']> (threads g) ∧ (steps_left p' ≤ pred (steps_left p))%nat).
Proof.
  intros (hs & rest & [(l & D & Hl) Hsh Hlt Hlh Hsame Hat Hcf Hun]) Hp.
  assert (is_Some (prepared g !! i)) as [x Hx].
  { apply lookup_lt_is_Some. rewrite <- Hlt. by eapply lookup_lt_Some. }
  assert (is_Some (hs !! i)) as [h Hh].
  { apply lookup_lt_is_Some. rewrite Hlh. by eapply lookup_lt_Some. }
  destruct (Hat _ _ _ _ Hx Hp Hh) as (ctx & Hctx & Hpc).
  destruct g as [xs ts cf un pr s]. simpl in *.
  eapply wp_mono.
  { eapply (exec_step_spec i x ctx p h); try done.
    - rewrite Hcf. intros He. by eapply (existsb_lookup _ _ _ _ Hx).
    - rewrite Hun. intros He. by eapply (existsb_lookup _ _ _ _ Hh). }
  intros r g' (-> & [(x' & Hpr & Hs & p' & Hts & Hle & l' & new & D' & Hl' & Hpc' & Hmono & Hcf' & Hun') _]).
  simpl in *. split; [done|]. split; [|by exists p'].
  exists (<[i := (h ++ new)%list]> hs), (rest ++ new)%list.
  rewrite (d_entries _ _ _ _ _ D) in D'.
  split; rewrite ?Hpr, ?Hts, ?length_insert; try done.
  - exists (l ++ l')%list. split; [|by apply Forall_app].
    rewrite app_assoc. by eapply delta_trans.
  - by constructor.
  - by eapply Forall2_insert_same.
  - intros j y q k Hy Hq Hk. destruct (decide (i = j)) as [<-|Hne].
    + rewrite list_lookup_insert_eq in Hy by (by eapply lookup_lt_Some).
      rewrite list_lookup_insert_eq in Hq by (by eapply lookup_lt_Some).
      rewrite list_lookup_insert_eq in Hk by (by eapply lookup_lt_Some). simplify_eq.
      exists ctx. split; [by rewrite (ss_context _ _ Hs)|done].
    + rewrite list_lookup_insert_ne in Hy by done. rewrite list_lookup_insert_ne in Hq by done.
      rewrite list_lookup_insert_ne in Hk by done. by eapply Hat.
  - rewrite Hcf', Hcf. symmetry.
    exact (existsb_insert (λ x, is_some (s_cleanup_error x)) _ _ _ _ Hx Hmono).
  - rewrite Hun', Hun. rewrite (existsb_insert _ _ _ h) by
      (done || (intros Hd; by rewrite existsb_app, Hd)).
    rewrite existsb_app. destruct (existsb is_denied_outcome h) eqn:Hd; [|done].
    rewrite (existsb_lookup (existsb is_denied_outcome) _ _ _ Hh Hd). simpl. by rewrite orb_true_r.
Qed.

Lemma Running_threads g : Running g → length (threads g) = length xs0 ∧ length (prepared g) = length xs0.
Proof.
  intros (hs & rest & []). apply Forall2_length in rn_same0. lia.
Qed.

Notation run_session := (run_session env entry risk settle par).

(** A thread that is given its steps ends; the others do not move. *)
Lemma run_session_spec g i :
  Running g → (i < length xs0)%nat →
  wp (run_session i) g (λ r g', r = Ok tt ∧ Running g' ∧
    (∃ v, threads g' !! i = Some (PcDone v)) ∧
    ∀ j, j ≠ i → threads g' !! j = threads g !! j).
Proof.
  intros HR Hi. unfold ChildReplay.run_session.
  assert (∃ p, threads g !! i = Some p ∧ (steps_left p ≤ max_steps)%nat) as (p & Hp & Hle).
  { destruct (lookup_lt_is_Some_2 (threads g) i) as [p Hp].
    - by rewrite (proj1 (Running_threads g HR)).
    - exists p. split; [done|]. destruct p; simpl; unfold max_steps; lia. }
  revert g p HR Hp Hle. induction max_steps as [|n IH]; intros g p HR Hp Hle; simpl.
  - apply wp_ret. split_and!; try done. destruct p; simpl in Hle; try lia. eauto.
  - apply wp_bind. eapply wp_mono; [by apply running_step|].
    intros r g' (-> & HR' & p' & Hts & Hle').
    assert (threads g' !! i = Some p') as Hp'.
    { rewrite Hts. apply list_lookup_insert_eq. by eapply lookup_lt_Some. }
    eapply wp_mono; [apply (IH g' p'); [done|done|lia]|].
    intros r g2 (-> & HR2 & Hd & Hother). split_and!; try done.
    intros j Hj. rewrite Hother, Hts by done. by apply list_lookup_insert_ne.
Qed.

(** Any schedule keeps the group running. *)
Lemma run_schedule_spec w sched g :
  Running g →
  wp (run_schedule env entry risk settle par w sched) g (λ r g', r = Ok tt ∧ Running g').
Proof.
  revert g. induction sched as [|i sched IH]; intros g HR; simpl; [by apply wp_ret|].
  apply wp_bind, wp_gets, wp_bind. sym_red. unfold runnable.
  destruct (threads g !! i) as [p|] eqn:Hp.
  2: { apply wp_ret. by apply IH. }
  destruct (if started p then _ else _).
  - eapply wp_mono; [by apply running_step|]. intros r g' (-> & HR' & _). by apply IH.
  - apply wp_ret. by apply IH.
Qed.

Definition done_below (n : nat) (g : gstate O) : Prop :=
  ∀ i, (i < n)%nat → ∃ v, threads g !! i = Some (PcDone v).

Lemma run_all_spec n k g :
  Running g → (k + n = length xs0)%nat → done_below k g →
  wp (run_all env entry risk settle par (seq k n)) g (λ r g', r = Ok tt ∧ Running g' ∧
    done_below (length xs0) g').
Proof.
  revert k g. induction n as [|n IH]; intros k g HR Hlen Hd; simpl.
  - apply wp_ret. replace (length xs0) with k by lia. done.
  - apply wp_bind. eapply wp_mono; [apply run_session_spec; [done|lia]|].
    intros r g' (-> & HR' & Hk & Hother). apply IH; [done|lia|].
    intros i Hi. destruct (decide (i = k)) as [->|Hne]; [done|].
    rewrite Hother by done. apply Hd. lia.
Qed.

(** The result of each finished thread. *)
Definition thread_results (g : gstate O) (rs : list (res (child_result O))) : Prop :=
  threads g = PcDone <$> rs.

Lemma done_below_all g :
  Running g → done_below (length xs0) g → ∃ rs, thread_results g rs.
Proof.
  intros HR Hd. destruct (Running_threads g HR) as [Hlen _]. unfold thread_results.
  rewrite <- Hlen in Hd. clear Hlen HR. unfold done_below in Hd.
  induction (threads g) as [|p ts IH]; [by exists []|].
  destruct (Hd 0%nat) as [v Hv]; [simpl; lia|]. simplify_eq/=.
  destruct IH as [rs ->]; [intros i Hi; apply (Hd (S i)); simpl; lia|]. by exists (v :: rs).
Qed.
End steps.
