(* ===== verification/ChildGroupSpec.v ===== *)
(** What a child group does as a whole: the serial and the parallel run, the
    preparation of the sessions, the clean-up after a failure, and the outcome
    relation of the isolated path. *)

From stdpp Require Import base strings list sets gmap.
From Stdlib Require Import ZArith Lia.
From S2P Require Import Prelude PyFloat PyValue TraceRuntime ReplayMetrics ReplayTypes.
From S2P Require Import ReplayRegistry RegistryFacts RegistrySpec ChildReplay ChildSpec.

Section runs.
Context {O : Type} (env : Env O) (entry : RuntimeReplayBinding) (risk settle par : bool).
Variables (s0 : rstate) (prep : history) (xs0 : list (session O)).

Notation Running := (Running entry risk settle par s0 prep xs0).

(** No thread is in the middle of its session. *)
Definition quiescent (g : gstate O) : Prop :=
  Forall (λ p, p = PcStart ∨ finished p = true) (threads g).

Definition done_ok (rs : list (child_result O)) : list (pc O) := (λ r, PcDone (Ok r)) <$> rs.

Lemma run_serial_from g acc n :
  Running g → threads g = (done_ok acc ++ replicate n PcStart)%list →
  wp (mmap (λ i, _ ← run_session env entry risk settle par i; thread_result i)
        (seq (length acc) n)) g
    (λ r g', Running g' ∧ match r with
       | Ok rs => threads g' = done_ok (acc ++ rs)%list
       | Err e => quiescent g'
       end).
Proof.
  revert g acc. induction n as [|n IH]; intros g acc HR Hts; simpl.
  - apply wp_ret. by rewrite Hts, !app_nil_r.
  - assert (length acc < length xs0)%nat as Hlt.
    { destruct (Running_threads _ _ _ _ _ _ _ g HR) as [Hl _]. rewrite Hts in Hl.
      unfold done_ok in Hl. rewrite length_app, length_fmap, length_replicate in Hl. lia. }
    apply wp_bind, wp_bind. eapply wp_mono; [by apply run_session_spec|].
    intros r g' (-> & HR' & (v & Hv) & Hother).
    assert (threads g' = done_ok acc ++ PcDone v :: replicate n PcStart)%list as Hts'.
    { apply list_eq. intros i. destruct (decide (i = length acc)) as [->|Hne].
      - rewrite Hv. unfold done_ok. rewrite lookup_app_r; rewrite length_fmap; [|done].
        by rewrite Nat.sub_diag.
      - rewrite Hother, Hts by done. unfold done_ok.
        destruct (decide (i < length acc)%nat) as [Hi|Hi].
        + rewrite !lookup_app_l by (by rewrite length_fmap). done.
        + rewrite !lookup_app_r by (rewrite length_fmap; lia). rewrite length_fmap.
          by replace (i - length acc)%nat with (S (i - S (length acc))) by lia. }
    unfold thread_result. apply wp_bind, wp_gets. sym_red. rewrite Hv. apply wp_lift.
    destruct v as [r|e].
    + apply wp_bind. replace (S (length acc)) with (length (acc ++ [r])%list)
        by (rewrite length_app; simpl; lia).
      eapply wp_mono; [apply IH; [done|]|].
      { rewrite Hts'. unfold done_ok. rewrite fmap_app, <- app_assoc. done. }
      intros [rs|e] g2 [HR2 H2]; [|done]. apply wp_ret. split; [done|].
      by rewrite <- app_assoc in H2.
    + split; [done|]. unfold quiescent. rewrite Hts'. apply Forall_app. split.
      * apply Forall_fmap, Forall_true. by right.
      * constructor; [by right|]. apply Forall_replicate. by left.
Qed.

Lemma thread_results_read g rs k n :
  threads g = (PcDone <$> rs) → (k + n = length rs)%nat →
  wp (mmap (λ i, attempt (@thread_result O i)) (seq k n)) g
    (λ r g', g' = g ∧ r = Ok (drop k rs)).
Proof.
  intros Hts. revert k. induction n as [|n IH]; intros k Hk; simpl.
  - apply wp_ret. by rewrite drop_ge by lia.
  - destruct (lookup_lt_is_Some_2 rs k) as [v Hv]; [lia|].
    assert (attempt (thread_result k) g = (Ok v, g)) as Hat.
    { unfold attempt, thread_result, mbind, M_bind, gets. rewrite Hts, list_lookup_fmap, Hv.
      done. }
    apply wp_bind. unfold wp at 1. rewrite Hat. simpl. apply wp_bind.
    eapply wp_mono; [apply IH; lia|]. intros r g' (-> & ->). apply wp_ret.
    split; [done|]. by rewrite (drop_S _ _ _ Hv).
Qed.

Lemma collect_ok rs results :
  @collect O rs = (results, None) → rs = Ok <$> results.
Proof.
  revert results. induction rs as [|[r|e] rs IH]; intros results; simpl.
  - by intros [= <-].
  - destruct (collect rs) as [rs' e']. intros [= <- ->]. by rewrite (IH rs').
  - by destruct (collect rs).
Qed.

Lemma run_parallel_spec mw sched n g :
  Running g → n = length xs0 → quiescent g →
  wp (run_parallel env entry risk settle par mw sched n) g
    (λ r g', Running g' ∧ match r with
       | Ok rs => threads g' = done_ok rs
       | Err e => quiescent g'
       end).
Proof.
  intros HR -> Hq. unfold run_parallel. apply wp_bind, wp_ensure; intros _.
  2: { done. }
  apply wp_bind. eapply wp_mono; [by apply run_schedule_spec|]. intros r g1 (-> & HR1).
  apply wp_bind. eapply wp_mono; [apply (run_all_spec env entry risk settle par s0 prep xs0 (length xs0) 0); [done|done|]|].
  { intros i Hi. lia. }
  intros r g2 (-> & HR2 & Hd).
  destruct (done_below_all _ _ _ _ _ _ _ g2 HR2 Hd) as [rs Hrs]. unfold thread_results in Hrs.
  assert (length rs = length xs0) as Hlen.
  { destruct (Running_threads _ _ _ _ _ _ _ g2 HR2) as [Hl _]. by rewrite Hrs, length_fmap in Hl. }
  apply wp_bind. eapply wp_mono; [apply (thread_results_read g2 rs 0); [done|lia]|].
  intros r g' (-> & ->). rewrite drop_0. destruct (collect rs) as [results [e|]] eqn:Hc.
  - apply wp_raise. split; [done|]. unfold quiescent. rewrite Hrs.
    apply Forall_fmap, Forall_true. by right.
  - apply wp_ret. split; [done|]. apply collect_ok in Hc. rewrite Hrs, Hc.
    unfold done_ok. by rewrite <- list_fmap_compose.
Qed.
End runs.

(** * Preparation *)

(** The child and agent keys that successful forks returned. *)
Definition forked_child (o : obs) : list key :=
  match o with ObsForkChild _ _ _ (Ok (Some l)) => [child_key l] | _ => [] end.
Definition forked_agent (o : obs) : list key :=
  match o with ObsForkAgent _ _ _ (Ok (Some k)) => [k] | _ => [] end.
Definition forked_children (h : history) : list key := h ≫= forked_child.
Definition forked_agents (h : history) : list key := h ≫= forked_agent.

(** The calls a preparation makes. *)
Definition is_prep (o : obs) : bool :=
  match o with ObsForkChild _ _ _ _ | ObsForkAgent _ _ _ _ | ObsValidateChild _ _ _ _ => true
  | _ => false end.

Section preparation.
Context {O : Type} (env : Env O) (entry : RuntimeReplayBinding) (id : string) (binding : key).
Implicit Types (x : session O) (xs : list (session O)).

(** The sessions own exactly the forked keys, each once. *)
Record owns_forks (prep : history) xs : Prop := {
  of_children : ∀ k, k ∈ forked_children prep ↔ k ∈ key_of <$> xs;
  of_children_once : NoDup (key_of <$> xs);
  of_agents : ∀ k, k ∈ forked_agents prep ↔ Some k ∈ s_agent_key <$> xs;
  of_agents_once : NoDup (omap s_agent_key xs);
  of_prep : Forall (λ o, is_prep o = true) prep
}.

Lemma is_prep_snoc (prep : history) o :
  Forall (λ o, is_prep o = true) prep → is_prep o = true →
  Forall (λ o, is_prep o = true) (prep ++ [o])%list.
Proof. intros H Ho. apply Forall_app. split; [done|by apply Forall_singleton]. Qed.

(** A session whose restored state was validated. *)
Record session_valid (prep : history) (task : ReplayChildTask O) x : Prop := {
  sv_task : s_task x = task;
  sv_agent : s_agent_key x ≠ None;
  sv_receipt : rc_achieved_fidelity (child_receipt (s_lease x)) ≠ NON_REPLAYABLE;
  sv_bound : fidelity_meets (fidelity (point entry))
               (rc_achieved_fidelity (child_receipt (s_lease x))) = true;
  sv_context : ∃ rep eligible rm em,
    ObsValidateChild (adapter entry) (key_of x) (child_receipt (s_lease x)) (Ok (Some rep)) ∈ prep ∧
    validate_equivalence_contract (point entry) (child_receipt (s_lease x)) rep
      (task_minimum_fidelity task) = Ok eligible ∧
    s_context x = Some
      {| ctx_child_id := task_child_id task;
         ctx_restore := restore_result id (task_target_branch_id task)
                          (child_receipt (s_lease x)) rep eligible rm em;
         ctx_isolated := true; adapter_child_key := Some (key_of x) |}
}.

Definition session_ready (prep : history) (task : ReplayChildTask O) x : Prop :=
  session_valid prep task x ∧ untouched x.

Lemma session_ready_app prep ext task x :
  session_ready prep task x → session_ready (prep ++ ext)%list task x.
Proof.
  intros [[? ? ? ? (rep & el & rm & em & Hin & Hc)] ?]. split; [|done]. split; try done.
  exists rep, el, rm, em. split; [set_solver|done].
Qed.

Lemma session_valid_same prep task x x' :
  same_session x x' → session_valid prep task x → session_valid prep task x'.
Proof.
  intros [H1 H2 H3 H4] [T A R B C]. split; rewrite ?H1, ?H2, ?H3, ?H4; try done.
  unfold key_of in *. by rewrite H2.
Qed.

Lemma owns_quiet prep xs o :
  owns_forks prep xs → forked_child o = [] → forked_agent o = [] → is_prep o = true →
  owns_forks (prep ++ [o])%list xs.
Proof.
  intros [A B C D E] Hc Ha Hp. split; try done; [| |by apply is_prep_snoc];
    unfold forked_children, forked_agents; intros k;
    rewrite bind_app, bind_singleton, ?Hc, ?Ha, app_nil_r; auto.
Qed.

Lemma owns_child_again prep xs ad b rq l :
  owns_forks prep xs → child_key l ∈ key_of <$> xs →
  owns_forks (prep ++ [ObsForkChild ad b rq (Ok (Some l))])%list xs.
Proof.
  intros [A B C D E] Hk. split; try done; [| |by apply is_prep_snoc];
    unfold forked_children, forked_agents; intros k;
    rewrite bind_app, bind_singleton; [|by rewrite app_nil_r].
  simpl. rewrite elem_of_app, A, list_elem_of_singleton. naive_solver.
Qed.

Lemma owns_child_new prep xs ad b rq l x :
  owns_forks prep xs → child_key l ∉ key_of <$> xs → s_lease x = l → s_agent_key x = None →
  owns_forks (prep ++ [ObsForkChild ad b rq (Ok (Some l))])%list (xs ++ [x])%list.
Proof.
  intros [A B C D E] Hk Hl Ha. split; unfold forked_children, forked_agents;
    [| | | |by apply is_prep_snoc].
  - intros k. rewrite bind_app, bind_singleton, elem_of_app, A, fmap_app, elem_of_app. simpl.
    unfold key_of at 3. by rewrite Hl.
  - rewrite fmap_app. apply NoDup_app. split_and!; [done| |apply NoDup_singleton].
    intros k Hin. simpl. unfold key_of. rewrite Hl, list_elem_of_singleton. naive_solver.
  - intros k. rewrite bind_app, bind_singleton, app_nil_r, C, fmap_app, elem_of_app. simpl.
    rewrite Ha, list_elem_of_singleton. naive_solver.
  - rewrite omap_app. simpl. by rewrite Ha, app_nil_r.
Qed.

Lemma owns_agent_again prep xs st a c k :
  owns_forks prep xs → Some k ∈ s_agent_key <$> xs →
  owns_forks (prep ++ [ObsForkAgent st a c (Ok (Some k))])%list xs.
Proof.
  intros [A B C D E] Hk. split; try done; [| |by apply is_prep_snoc];
    unfold forked_children, forked_agents; intros k';
    rewrite bind_app, bind_singleton; [by rewrite app_nil_r|].
  simpl. rewrite elem_of_app, C, list_elem_of_singleton. naive_solver.
Qed.

Lemma owns_agent_new prep xs x st a c k :
  owns_forks prep (xs ++ [x])%list → s_agent_key x = None → Some k ∉ s_agent_key <$> xs →
  owns_forks (prep ++ [ObsForkAgent st a c (Ok (Some k))])%list (xs ++ [with_agent_key x k])%list.
Proof.
  intros [A B C D E] Hx Hk. split; unfold forked_children, forked_agents;
    [| | | |by apply is_prep_snoc].
  - intros k'. specialize (A k'). rewrite fmap_app in A.
    rewrite bind_app, bind_singleton, app_nil_r, fmap_app. apply A.
  - rewrite fmap_app in *. done.
  - intros k'. specialize (C k'). rewrite fmap_app, elem_of_app in C. simpl in C.
    rewrite Hx, list_elem_of_singleton in C.
    rewrite bind_app, bind_singleton, elem_of_app, C, fmap_app, elem_of_app. simpl.
    rewrite !list_elem_of_singleton. naive_solver.
  - rewrite omap_app in *. simpl in *. rewrite Hx, app_nil_r in D. apply NoDup_app.
    split_and!; [done| |apply NoDup_singleton].
    intros k' Hin. rewrite list_elem_of_singleton. intros ->. apply Hk.
    apply list_elem_of_omap in Hin as (y & Hy & Hyk). apply list_elem_of_fmap. eauto.
Qed.

(** What the preparation of one task may leave behind. *)
Definition prepared_to (prep : history) xs (task : ReplayChildTask O) (r : res unit)
    (prep' : history) xs' : Prop :=
  owns_forks prep' xs' ∧ (∃ ext, prep' = (prep ++ ext)%list) ∧
  match r with
  | Ok _ => ∃ x, xs' = (xs ++ [x])%list ∧ session_ready prep' task x
  | Err _ => xs' = xs ∨ ∃ x, xs' = (xs ++ [x])%list ∧ untouched x
  end.

Lemma child_key_fresh (l : ReplayChildLease) xs :
  negb (existsb (λ x, bool_decide (child_key l = child_key (s_lease x))) xs) = true →
  child_key l ∉ key_of <$> xs.
Proof.
  intros H (x & Hk & Hx)%list_elem_of_fmap. apply negb_true_iff in H.
  apply not_true_iff_false in H. apply H, existsb_exists. exists x.
  split; [by apply list_elem_of_In|]. by apply bool_decide_eq_true.
Qed.

Lemma child_key_known (l : ReplayChildLease) xs :
  negb (existsb (λ x, bool_decide (child_key l = child_key (s_lease x))) xs) = false →
  child_key l ∈ key_of <$> xs.
Proof.
  intros H. apply negb_false_iff, existsb_exists in H as (x & Hx & Hk).
  apply bool_decide_eq_true in Hk. apply list_elem_of_fmap. exists x.
  split; [done|by apply list_elem_of_In].
Qed.

Lemma agent_key_fresh k xs :
  negb (existsb (λ x, same_key (s_agent_key x) k) xs) = true → Some k ∉ s_agent_key <$> xs.
Proof.
  intros H (x & Hk & Hx)%list_elem_of_fmap. apply negb_true_iff in H.
  apply not_true_iff_false in H. apply H, existsb_exists. exists x.
  split; [by apply list_elem_of_In|]. by apply bool_decide_eq_true.
Qed.

Lemma agent_key_known k xs :
  negb (existsb (λ x, same_key (s_agent_key x) k) xs) = false → Some k ∈ s_agent_key <$> xs.
Proof.
  intros H. apply negb_false_iff, existsb_exists in H as (x & Hx & Hk).
  apply bool_decide_eq_true in Hk. apply list_elem_of_fmap. exists x.
  split; [done|by apply list_elem_of_In].
Qed.

Lemma list_insert_snoc {A} (l : list A) a b : <[length l := b]> (l ++ [a])%list = (l ++ [b])%list.
Proof. induction l as [|c l IH]; simpl; [done|by rewrite IH]. Qed.

Lemma owns_context prep xs x c :
  owns_forks prep (xs ++ [x])%list → owns_forks prep (xs ++ [with_context x c])%list.
Proof.
  intros [A B C D E]. rewrite fmap_app in B. rewrite omap_app in D.
  split; rewrite ?fmap_app, ?omap_app; try done; intros k.
  - specialize (A k). by rewrite fmap_app in A.
  - specialize (C k). by rewrite fmap_app in C.
Qed.

(** Closes [owns_forks] along the calls of one preparation. *)
Ltac owns :=
  repeat match goal with
  | |- context [(?p ++ ?o :: ?o' :: ?r)%list] =>
      replace (p ++ o :: o' :: r)%list with ((p ++ [o]) ++ o' :: r)%list
        by (rewrite <- app_assoc; reflexivity)
  end;
  repeat first
    [ done
    | apply owns_quiet; [|done|done|done]
    | apply owns_context
    | apply owns_agent_new; [|done|by apply agent_key_fresh]
    | apply owns_agent_again; [|rewrite fmap_app; apply elem_of_app; left; by apply agent_key_known]
    | apply owns_child_new; [done|by apply child_key_fresh|done|done]
    | apply owns_child_again; [done|by apply child_key_known] ].

Lemma prepare_session_spec task s0 s es l prep xs ts cf un pr :
  delta s0 s es l prep → session_incs l → owns_forks prep xs →
  wp (prepare_session env entry id binding task)
    {| prepared := xs; threads := ts; cleanup_failed := cf; unsafe_outcome := un;
       preparation_complete := pr; g_reg := s |}
    (λ r g', ∃ xs' l' prep' s',
       g' = {| prepared := xs'; threads := ts; cleanup_failed := cf; unsafe_outcome := un;
               preparation_complete := pr; g_reg := s' |} ∧
       delta s0 s' es l' prep' ∧ session_incs l' ∧ prepared_to prep xs task r prep' xs').
Proof.
  intros D Hl Hown. unfold prepare_session. gsym.
  all: repeat match goal with
    | H : instance_or ?a _ = _ |- _ => destruct a; simplify_eq/=
    end.
  all: rewrite ?list_insert_snoc.
  all: do 4 eexists; split; [reflexivity|]; split; [exact D|].
  all: split; [apply Forall_app; split; [done|];
               repeat (apply session_incs_cons; [reflexivity|]); constructor|].
  all: split; [owns|split; [eexists; first [reflexivity|by rewrite app_nil_r]|]].
  all: try by (left).
  all: try by (right; eexists; split; [reflexivity|]).
  eexists. split; [reflexivity|].
  split; [|done]. split; simpl; try done; [by apply negb_true_iff, bool_decide_eq_false in H3|].
  exists a5, a6, m, m0. split; [set_solver|]. done.
Qed.

(** The loop over the tasks. *)
Lemma prepare_all_spec tasks s0 s es l prep xs ts cf un pr done_tasks :
  delta s0 s es l prep → session_incs l → owns_forks prep xs →
  Forall2 (session_ready prep) done_tasks xs →
  wp (mmap (prepare_session env entry id binding) tasks)
    {| prepared := xs; threads := ts; cleanup_failed := cf; unsafe_outcome := un;
       preparation_complete := pr; g_reg := s |}
    (λ r g', ∃ xs' l' prep' s',
       g' = {| prepared := xs'; threads := ts; cleanup_failed := cf; unsafe_outcome := un;
               preparation_complete := pr; g_reg := s' |} ∧
       delta s0 s' es l' prep' ∧ session_incs l' ∧ owns_forks prep' xs' ∧
       Forall untouched xs' ∧
       (is_ok r = true → Forall2 (session_ready prep') (done_tasks ++ tasks)%list xs')).
Proof.
  revert s l prep xs done_tasks. induction tasks as [|task tasks IH];
    intros s l prep xs done_tasks D Hl Hown Hready; simpl.
  - apply wp_ret. do 4 eexists. split; [reflexivity|]. split_and!; try done.
    + clear -Hready. induction Hready as [|t x ts xs [_ Hx] _ IH]; by constructor.
    + by rewrite app_nil_r.
  - apply wp_bind. eapply wp_mono; [by eapply prepare_session_spec|].
    intros r g' (xs' & l' & prep' & s' & -> & D' & Hl' & Hown' & (ext & ->) & Hx).
    assert (Forall2 (session_ready (prep ++ ext)%list) done_tasks xs) as Hready'.
    { eapply Forall2_impl; [done|]. intros. by apply session_ready_app. }
    destruct r as [[]|e].
    + destruct Hx as (x & -> & Hx). apply wp_bind.
      eapply wp_mono; [eapply (IH _ _ _ _ (done_tasks ++ [task])%list); [done|done|done|]|].
      { apply Forall2_app; [done|constructor; [done|constructor]]. }
      intros r g2 (xs2 & l2 & prep2 & s2 & -> & D2 & Hl2 & Ho2 & Hu2 & Hr2).
      destruct r; [apply wp_ret|]; do 4 eexists; (split; [reflexivity|]); split_and!; try done.
      intros _. specialize (Hr2 eq_refl). by rewrite <- app_assoc in Hr2.
    + do 4 eexists. split; [reflexivity|]. split_and!; try done.
      assert (Forall untouched xs) as Hu.
      { clear -Hready. induction Hready as [|t x ts xs [_ Hx] _ IH]; by constructor. }
      destruct Hx as [->|(x & -> & Hx)]; [done|]. apply Forall_app. split; [done|]. by apply Forall_singleton.
Qed.
End preparation.

(** * Clean-up *)

Section closing.
Context {O : Type} (env : Env O) (entry : RuntimeReplayBinding) (risk settle par : bool).
(** [V]: sessions may have been executed. *)
Variables (V : Prop) (s0 : rstate) (prep : history) (xs0 : list (session O)).
Implicit Types (x : session O) (h : history).

(** A session that was released: its calls are those of its suffix, if it was
    executed, and then exactly one release of each of its states. *)
Definition session_closed x h : Prop :=
  ∃ err b hr, closed x err ∧ h = (b ++ hr)%list ∧ release_part entry x err hr ∧
    (b = [] ∨ V ∧ ∃ ctx e, s_context x = Some ctx ∧ body_hist entry risk x ctx e b).

Definition session_state x h : Prop := (untouched x ∧ h = []) ∨ session_closed x h.

Record closing (hs : list history) (rest : history) (g : gstate O) : Prop := {
  cl_reg : ∃ l, delta s0 (g_reg g) (entries s0) l (prep ++ rest)%list ∧ session_incs l;
  cl_shuffled : shuffled hs rest;
  cl_same : Forall2 same_session xs0 (prepared g);
  cl_state : Forall2 session_state (prepared g) hs;
  cl_failed : cleanup_failed g = existsb (λ x, is_some (s_cleanup_error x)) (prepared g);
  cl_unsafe : unsafe_outcome g = existsb (existsb is_denied_outcome) hs
}.

Lemma at_pc_closed x ctx v h :
  V → s_context x = Some ctx → at_pc entry risk settle par x ctx (PcDone v) h → session_closed x h.
Proof.
  intros HV Hctx Hat. inversion Hat; subst. exists err, h0, h'. split_and!; try done.
  right. eauto.
Qed.

(** When no thread is inside its session, the clean-up can take over. *)
Lemma running_closing hs rest g :
  V → running entry risk settle par s0 prep xs0 hs rest g → quiescent g → closing hs rest g.
Proof.
  intros HV [Hreg Hsh Hlt Hlh Hsame Hat Hcf Hun] Hq. split; try done.
  apply Forall2_same_length_lookup. split; [done|]. intros i x h Hx Hh.
  destruct (lookup_lt_is_Some_2 (threads g) i) as [p Hp].
  { rewrite Hlt. by eapply lookup_lt_Some. }
  destruct (Hat _ _ _ _ Hx Hp Hh) as (ctx & Hctx & Hpc).
  destruct (proj1 (Forall_lookup _ _) Hq _ _ Hp) as [->|Hf].
  - inversion Hpc; subst. by left.
  - right. destruct p; try done. by eapply at_pc_closed.
Qed.

Lemma release_part_undenied x err h : release_part entry x err h → existsb is_denied_outcome h = false.
Proof. by destruct 1. Qed.

Lemma release_part_both x err k r (r' : res unit) :
  s_agent_key x = Some k →
  match r' with Ok _ => err_of r | Err e => or_else (err_of r) (Some e) end = err →
  release_part entry x err
    [ObsReleaseChild (adapter entry) (key_of x) r; ObsReleaseAgent (agent_state_store entry) k r'].
Proof. intros Hk <-. rewrite or_else_err. by constructor. Qed.

Lemma release_part_child x err (r : res unit) :
  s_agent_key x = None → err_of r = err →
  release_part entry x err [ObsReleaseChild (adapter entry) (key_of x) r].
Proof. intros Hk <-. by constructor. Qed.

(** [cleanup] of one session from its own point of view. *)
Lemma cleanup_one i x xs ts cf un pr s :
  xs !! i = Some x → untouched x →
  wp (cleanup env entry i)
    {| prepared := xs; threads := ts; cleanup_failed := cf; unsafe_outcome := un;
       preparation_complete := pr; g_reg := s |}
    (λ r g', ∃ x' err l hr s', r = Ok err ∧
       g' = {| prepared := <[i := x']> xs; threads := ts;
               cleanup_failed := cf || is_some err; unsafe_outcome := un;
               preparation_complete := pr; g_reg := s' |} ∧
       same_session x x' ∧ closed x' err ∧ release_part entry x' err hr ∧
       delta s s' (entries s) l hr ∧ session_incs l).
Proof.
  intros Hx [Ha Hr He]. pose proof (delta_refl s) as D.
  unfold cleanup, cleanup_child, cleanup_agent. gsym.
  all: try congruence.
  all: rewrite list_insert_insert_eq.
  all: do 5 eexists; split; [reflexivity|]; split;
    [simpl; rewrite ?orb_true_r, ?orb_false_r; reflexivity|]; split; [done|]; split; [done|];
    split; [|split; [exact D|repeat (apply session_incs_cons; [reflexivity|]); constructor]].
  all: first [by apply release_part_both|by apply release_part_child].
Qed.

(** [cleanup] of a session that is already closed does nothing. *)
Lemma cleanup_again i x xs ts cf un pr s :
  xs !! i = Some x → s_cleanup_attempted x = true →
  let g := {| prepared := xs; threads := ts; cleanup_failed := cf; unsafe_outcome := un;
              preparation_complete := pr; g_reg := s |} in
  wp (cleanup env entry i) g (λ r g', (∃ v, r = Ok v) ∧ g' = g).
Proof.
  intros Hx Ha. cbn zeta. unfold cleanup, cleanup_child. apply wp_bind, wp_bind.
  apply (wp_get_session i x); [done|]. sym_red. rewrite Ha. apply wp_ret. sym_red.
  apply wp_ret. eauto.
Qed.

Definition Closing (n : nat) (g : gstate O) : Prop :=
  ∃ hs rest, closing hs rest g ∧
    ∀ i x h, (i < n)%nat → prepared g !! i = Some x → hs !! i = Some h → session_closed x h.

Lemma closing_cleanup n g :
  Closing n g → (n < length xs0)%nat →
  wp (cleanup env entry n) g (λ r g', (∃ v, r = Ok v) ∧ Closing (S n) g' ∧
    preparation_complete g' = preparation_complete g).
Proof.
  intros (hs & rest & [(l & D & Hl) Hsh Hsame Hst Hcf Hun] & Hdone) Hn.
  assert (length (prepared g) = length xs0) as Hlen by (symmetry; by eapply Forall2_length).
  assert (length hs = length xs0) as Hlenh by (rewrite <- Hlen; symmetry; by eapply Forall2_length).
  destruct (lookup_lt_is_Some_2 (prepared g) n) as [x Hx]; [lia|].
  destruct (lookup_lt_is_Some_2 hs n) as [h Hh]; [lia|].
  pose proof (Forall2_lookup_lr _ _ _ _ _ _ Hst Hx Hh) as Hstate.
  destruct g as [xs ts cf un pr s]. simpl in *. destruct Hstate as [[Hu ->]|Hclosed].
  - eapply wp_mono; [by apply cleanup_one|].
    intros r g' (x' & err & l' & hr & s' & -> & -> & Hs & Hc & Hrel & D' & Hl').
    split; [eauto|]. split; [|done].
    exists (<[n := ([] ++ hr)%list]> hs), (rest ++ hr)%list.
    rewrite (d_entries _ _ _ _ _ D) in D'.
    assert (session_closed x' hr) as Hx'.
    { exists err, [], hr. split_and!; try done. by left. }
    split; [split; simpl|].
    + exists (l ++ l')%list. split; [|by apply Forall_app]. rewrite app_assoc. by eapply delta_trans.
    + by apply (shuffled_step hs rest n []).
    + by eapply Forall2_insert_same.
    + apply Forall2_insert; [done|]. by right.
    + destruct Hu as [_ _ He]. destruct Hc as [_ <-].
      rewrite Hcf. symmetry. apply (existsb_insert (λ x, is_some (s_cleanup_error x)) _ _ x); [done|].
      by rewrite He.
    + rewrite Hun. symmetry. rewrite (existsb_insert (existsb is_denied_outcome) _ _ []) by done.
      by rewrite (release_part_undenied _ _ _ Hrel), orb_false_r.
    + simpl. intros i y k Hi Hy Hk. destruct (decide (n = i)) as [<-|Hne].
      * rewrite list_lookup_insert_eq in Hy by lia. rewrite list_lookup_insert_eq in Hk by lia.
        by simplify_eq/=.
      * rewrite list_lookup_insert_ne in Hy by done. rewrite list_lookup_insert_ne in Hk by done.
        apply (Hdone i); [lia|done|done].
  - assert (s_cleanup_attempted x = true) as Ha by (by destruct Hclosed as (?&?&?&[]&_)).
    eapply wp_mono; [by apply (cleanup_again n x)|]. intros r g' [Hv ->].
    split; [done|]. split; [|done]. exists hs, rest. split; [by split; eauto|].
    simpl. intros i y k Hi Hy Hk. destruct (decide (n = i)) as [<-|Hne]; [by simplify_eq|].
    apply (Hdone i); [lia|done|done].
Qed.

Lemma closing_cleanup_all n m acc g :
  Closing n g → (n + m = length xs0)%nat →
  wp (cleanup_all env entry (seq n m) acc) g (λ r g', (∃ v, r = Ok v) ∧ Closing (length xs0) g').
Proof.
  revert n acc g. induction m as [|m IH]; intros n acc g HC Hlen; simpl.
  - apply wp_ret. replace (length xs0) with n by lia. eauto.
  - apply wp_bind. eapply wp_mono; [apply closing_cleanup; [done|lia]|].
    intros r g' ((v & ->) & HC' & _). apply IH; [done|lia].
Qed.
End closing.

(** * The isolated path *)

Section isolated.
Context {O : Type} (env : Env O).
Variables (id : string) (entry : RuntimeReplayBinding) (binding : key) (risk settle : bool).
Implicit Types (x : session O) (h : history) (V : Prop).

Lemma session_closed_mono V V' x h :
  (V → V') → session_closed entry risk V x h → session_closed entry risk V' x h.
Proof.
  intros HV (err & b & hr & H1 & H2 & H3 & H4). exists err, b, hr. split_and!; try done.
  destruct H4 as [?|[??]]; [by left|]. right. auto.
Qed.

Lemma sessions_closed_mono V V' (xs : list (session O)) hs :
  (V → V') → Forall2 (session_closed entry risk V) xs hs →
  Forall2 (session_closed entry risk V') xs hs.
Proof. intros HV H. eapply Forall2_impl; [exact H|]. intros. by eapply session_closed_mono. Qed.

(** A session whose thread returned [r]. *)
Definition session_result (par : bool) x h (r : child_result O) : Prop :=
  ∃ ctx m e b hr u, s_context x = Some ctx ∧ h = (b ++ hr)%list ∧
    body_hist entry risk x ctx e b ∧ release_part entry x None hr ∧
    existsb is_denied_outcome b = false ∧
    settle_session settle par x ctx m e None u = Ok r.

Definition unclean (xs : list (session O)) (hs : list history) : bool :=
  existsb (λ x, is_some (s_cleanup_error x)) xs || existsb (existsb is_denied_outcome) hs.

Inductive isolated_outcome (tasks : list (ReplayChildTask O)) (parallel : bool)
    (es : list (string * RuntimeReplayBinding))
  : res (list (child_result O)) → list (string * RuntimeReplayBinding) → incs → history → Prop :=
| iso_done prep rest xs hs results l :
    owns_forks prep xs → shuffled hs rest → Forall2 (session_closed entry risk True) xs hs →
    Forall2 (session_valid entry id prep) tasks xs →
    Forall2 (λ xh r, session_result (actual_parallel parallel xs) xh.1 xh.2 r) (zip xs hs) results →
    unclean xs hs = false → session_incs l →
    isolated_outcome tasks parallel es (Ok results) es l (prep ++ rest)%list
| iso_abandoned prep rest xs hs e l :
    owns_forks prep xs → shuffled hs rest →
    Forall2 (session_closed entry risk (Forall2 (session_valid entry id prep) tasks xs)) xs hs →
    session_incs l →
    isolated_outcome tasks parallel es (Err e)
      (if unclean xs hs then set_failed id entry es else es) l (prep ++ rest)%list.

Lemma actual_parallel_same parallel (xs xs' : list (session O)) :
  Forall2 same_session xs xs' → actual_parallel parallel xs' = actual_parallel parallel xs.
Proof.
  intros H. unfold actual_parallel. rewrite <- (Forall2_length _ _ _ H).
  assert (process_worker_identities xs' = process_worker_identities xs ∧
    forallb (λ x, match concurrency (s_lease x) with
                  | THREAD_SAFE | PROCESS_ISOLATED => true | SERIAL_ONLY => false end) xs' =
    forallb (λ x, match concurrency (s_lease x) with
                  | THREAD_SAFE | PROCESS_ISOLATED => true | SERIAL_ONLY => false end) xs)
    as [-> ->]; [|done].
  unfold process_worker_identities.
  induction H as [|x x' xs xs' Hx _ [IH1 IH2]]; [done|].
  split; [|cbn [forallb]; by rewrite (ss_lease _ _ Hx), IH2].
  rewrite !filter_cons, (ss_lease _ _ Hx).
  case_decide; [|done]. rewrite !fmap_cons, IH1. by rewrite (ss_lease _ _ Hx).
Qed.

(** The denied outcomes of a body that ended with a result. *)
Lemma body_ok_undenied x ctx v h : body_hist entry risk x ctx (Ok v) h → existsb is_denied_outcome h = false.
Proof.
  intros H. inversion H; subst. rewrite existsb_app. simpl.
  assert (existsb is_denied_outcome h0 = false) as -> by (by destruct H1).
  destruct H2 as [|a' _ Ha]; simpl; [done|]. by rewrite Ha.
Qed.

Lemma done_result par x ctx h r :
  s_context x = Some ctx → at_pc entry risk settle par x ctx (PcDone (Ok r)) h →
  session_result par x h r ∧ session_closed entry risk True x h ∧ s_cleanup_error x = None ∧
  existsb is_denied_outcome h = false.
Proof.
  intros Hctx Hat. pose proof (at_pc_closed _ _ _ _ True _ _ _ _ I Hctx Hat) as Hclosed.
  inversion Hat as [| | | | | | |m e err b hr u Hc Hb Hr Hu Heq Hh]; subst.
  assert (err = None) as ->.
  { destruct err; [|done]. by destruct e as [[[]]|]. }
  assert (existsb is_denied_outcome b = false) as Hnd.
  { destruct e as [v|e]; [by eapply body_ok_undenied|].
    destruct (existsb is_denied_outcome b); [|done]. rewrite Hu in Heq by done.
    simpl in Heq. by rewrite andb_false_r in Heq. }
  split_and!; [|done|by destruct Hc|].
  - exists ctx, m, e, b, hr, u. done.
  - by rewrite existsb_app, Hnd, (release_part_undenied _ _ _ _ Hr).
Qed.

(** Counting does not disturb the clean-up. *)
Lemma Closing_quiet V s0 prep xs0 (g g1 : gstate O) :
  Closing entry risk V s0 prep xs0 0 g →
  prepared g1 = prepared g → cleanup_failed g1 = cleanup_failed g →
  unsafe_outcome g1 = unsafe_outcome g →
  (∃ l, delta (g_reg g) (g_reg g1) (entries (g_reg g)) l [] ∧ session_incs l) →
  Closing entry risk V s0 prep xs0 0 g1.
Proof.
  intros (hs & rest & [(l & D & Hl) Hsh Hs Hst Hcf Hun] & _) H1 H3 H4 (l1 & D1 & Hl1).
  exists hs, rest. split; [|intros; lia].
  split; rewrite ?H1, ?H3, ?H4; try done. exists (l ++ l1)%list.
  split; [|by apply Forall_app]. rewrite (d_entries _ _ _ _ _ D) in D1.
  rewrite <- (app_nil_r (prep ++ rest)%list). by eapply delta_trans.
Qed.

Lemma quarantine_if (b : bool) s0 g l eff :
  dict_get id (entries s0) = Some entry → delta s0 (g_reg g) (entries s0) l eff → session_incs l →
  wp (if b then on_greg (quarantine id) else mret tt) g (λ r (g' : gstate O), r = Ok tt ∧
    ∃ l', delta s0 (g_reg g') (if b then set_failed id entry (entries s0) else entries s0) l' eff
      ∧ session_incs l').
Proof.
  intros Hid D Hl. destruct g as [xs ts cf un pr s]. cbn [g_reg] in D.
  destruct b; [|apply wp_ret; eauto].
  unfold quarantine. gsym. split; [done|]. eexists. split; [exact D|].
  apply Forall_app. split; [done|]. apply session_incs_cons; [done|constructor].
Qed.

(** The [except] block: every session ends closed, and the point is
    quarantined exactly when something was left unclean. *)
Lemma abandon_group_spec V s0 prep xs0 error g :
  dict_get id (entries s0) = Some entry → Closing entry risk V s0 prep xs0 0 g →
  wp (abandon_group env id entry error) g (λ r g', ∃ xs hs rest l e,
    r = Err e ∧ (e = error ∨ ∃ c, e = raise_from error c) ∧
    delta s0 (g_reg g') (if unclean xs hs then set_failed id entry (entries s0) else entries s0)
      l (prep ++ rest)%list ∧
    shuffled hs rest ∧ Forall2 (session_closed entry risk V) xs hs ∧ session_incs l ∧
    Forall2 same_session xs0 xs).
Proof.
  intros Hid HC. unfold abandon_group. apply wp_bind, wp_gets, wp_bind. sym_red.
  eapply (wp_mono _ _ (λ r g1, r = Ok tt ∧ Closing entry risk V s0 prep xs0 0 g1)).
  { destruct (preparation_complete g); [by apply wp_ret|]. destruct g as [xs ts cf un pr s].
    pose proof (delta_refl s) as D. gsym. split; [done|]. eapply Closing_quiet; try done.
    eexists. split; [exact D|]. apply session_incs_cons; [done|constructor]. }
  clear HC. intros r g1 [-> HC]. apply wp_bind, wp_gets. sym_red.
  assert (length (prepared g1) = length xs0) as ->.
  { destruct HC as (? & ? & [] & _). symmetry. by eapply Forall2_length. }
  apply wp_bind. eapply wp_mono; [by apply closing_cleanup_all|].
  intros r g2 ((v & ->) & hs & rest & [(l & D & Hl) Hsh Hs Hst Hcf Hun] & Hdone).
  apply wp_bind, wp_gets. sym_red. apply wp_bind, wp_gets. sym_red. rewrite Hcf, Hun.
  assert (Forall2 (session_closed entry risk V) (prepared g2) hs) as Hclosed.
  { apply Forall2_same_length_lookup. split; [by eapply Forall2_length|].
    intros i x h Hx Hh. apply (Hdone i x h); [|done|done].
    rewrite (Forall2_length _ _ _ Hs). by eapply lookup_lt_Some. }
  fold (unclean (prepared g2) hs). apply wp_bind.
  eapply wp_mono; [by eapply quarantine_if|]. intros r g' [-> (l' & D' & Hl')].
  destruct v as [c|], (exn_cause error); try destruct (exn_is c error);
    apply wp_raise; exists (prepared g2), hs, rest, l'; eexists; split_and!; eauto.
Qed.

(** The group right after its preparation: all threads are ready to start. *)
Lemma running_start par s0 s l prep (xs : list (session O)) tasks pr :
  delta s0 s (entries s0) l prep → session_incs l →
  Forall2 (session_ready entry id prep) tasks xs →
  Running entry risk settle par s0 prep xs
    {| prepared := xs; threads := (λ _, PcStart) <$> xs; cleanup_failed := false;
       unsafe_outcome := false; preparation_complete := pr; g_reg := s |}.
Proof.
  intros D Hl Hr. exists (replicate (length xs) []), []. split; simpl.
  - exists l. by rewrite app_nil_r.
  - constructor.
  - by rewrite length_fmap.
  - by rewrite length_replicate.
  - clear. induction xs; by constructor.
  - intros i x p h Hx Hp Hh. rewrite list_lookup_fmap, Hx in Hp. simplify_eq/=.
    apply lookup_replicate in Hh as [-> _].
    destruct (Forall2_lookup_r _ _ _ _ _ Hr Hx) as (task & _ & [[_ _ _ _ Hc] Hu]).
    destruct Hc as (rep & el & rm & em & _ & _ & Hctx). eexists. split; [exact Hctx|]. by constructor.
  - symmetry. apply not_true_iff_false. rewrite existsb_exists. intros (x & Hin & He).
    apply list_elem_of_In, list_elem_of_lookup in Hin as [i Hx].
    destruct (Forall2_lookup_r _ _ _ _ _ Hr Hx) as (task & _ & [_ [_ _ Hne]]). by rewrite Hne in He.
  - clear. induction xs; done.
Qed.

Lemma replicate_fmap {A B} (b : B) (l : list A) : (λ _, b) <$> l = replicate (length l) b.
Proof. induction l as [|a l IH]; simpl; [done|by f_equal]. Qed.

Lemma choose_mode_spec parallel (xs : list (session O)) ts cf un pr s s0 l eff :
  delta s0 s (entries s0) l eff → session_incs l →
  wp (choose_mode parallel) {| prepared := xs; threads := ts; cleanup_failed := cf;
      unsafe_outcome := un; preparation_complete := pr; g_reg := s |}
    (λ r (g' : gstate O), ∃ s' l', r = Ok (actual_parallel parallel xs) ∧
       g' = {| prepared := xs; threads := ts; cleanup_failed := cf; unsafe_outcome := un;
               preparation_complete := pr; g_reg := s' |} ∧
       delta s0 s' (entries s0) l' eff ∧ session_incs l').
Proof.
  intros D Hl. unfold choose_mode. gsym.
  all: do 2 eexists; split; [done|]; split; [done|]; split; [exact D|].
  all: try done.
  all: apply Forall_app; split; [done|repeat (apply session_incs_cons; [reflexivity|]); constructor].
Qed.

Lemma owns_same prep (xs xs' : list (session O)) :
  Forall2 same_session xs xs' → owns_forks prep xs → owns_forks prep xs'.
Proof.
  intros H [A B C D E].
  assert (key_of <$> xs' = key_of <$> xs ∧ s_agent_key <$> xs' = s_agent_key <$> xs ∧
          omap s_agent_key xs' = omap s_agent_key xs) as (E1 & E2 & E3).
  { clear -H. induction H as [|x x' xs xs' Hx _ (E1 & E2 & E3)]; [done|].
    rewrite !fmap_cons, E1, E2, (same_key_of _ _ Hx), (ss_agent _ _ Hx). split_and!; [done|done|].
    csimpl. by rewrite (ss_agent _ _ Hx), E3. }
  split; rewrite ?E1, ?E2, ?E3; done.
Qed.

Lemma closing_untouched V s0 s l prep (xs : list (session O)) ts pr :
  delta s0 s (entries s0) l prep → session_incs l → Forall untouched xs →
  Closing entry risk V s0 prep xs 0
    {| prepared := xs; threads := ts; cleanup_failed := false; unsafe_outcome := false;
       preparation_complete := pr; g_reg := s |}.
Proof.
  intros D Hl Hu. exists (replicate (length xs) []), []. split; [|intros; lia].
  split; simpl.
  - exists l. by rewrite app_nil_r.
  - constructor.
  - clear. induction xs; by constructor.
  - clear D. induction Hu as [|x xs Hx _ IH]; simpl; constructor; [|done]. left. done.
  - clear D. induction Hu as [|x xs [_ _ He] _ IH]; simpl; [done|]. by rewrite He.
  - clear. induction xs; done.
Qed.

Lemma ready_valid prep tasks (xs xs' : list (session O)) :
  Forall2 (session_ready entry id prep) tasks xs → Forall2 same_session xs xs' →
  Forall2 (session_valid entry id prep) tasks xs'.
Proof.
  intros Hready Hsame. revert tasks Hready.
  induction Hsame as [|x x' xs xs' Hx _ IH]; intros tasks Hr.
  - apply Forall2_nil_inv_r in Hr as ->. constructor.
  - apply Forall2_cons_inv_r in Hr as (t & ts & [Ht _] & Hr & ->).
    constructor; [by eapply session_valid_same|]. by apply IH.
Qed.

(** The state after every thread returned a result. *)
Lemma running_done par s0 prep tasks (xs0 : list (session O)) results g :
  Running entry risk settle par s0 prep xs0 g → threads g = done_ok results →
  Forall2 (session_ready entry id prep) tasks xs0 →
  ∃ hs rest l, delta s0 (g_reg g) (entries s0) l (prep ++ rest)%list ∧ session_incs l ∧
    shuffled hs rest ∧ Forall2 (session_closed entry risk True) (prepared g) hs ∧
    Forall2 (session_valid entry id prep) tasks (prepared g) ∧
    Forall2 (λ xh r, session_result par xh.1 xh.2 r) (zip (prepared g) hs) results ∧
    unclean (prepared g) hs = false ∧ Forall2 same_session xs0 (prepared g).
Proof.
  intros (hs & rest & [(l & D & Hl) Hsh Hlt Hlh Hsame Hat Hcf Hun]) Hts Hready.
  assert (length results = length (prepared g)) as Hlr.
  { rewrite <- Hlt, Hts. unfold done_ok. by rewrite length_fmap. }
  assert (∀ i x h r, prepared g !! i = Some x → hs !! i = Some h → results !! i = Some r →
    session_result par x h r ∧ session_closed entry risk True x h ∧ s_cleanup_error x = None ∧
    existsb is_denied_outcome h = false) as Hall.
  { intros i x h r Hx Hh Hr.
    destruct (Hat i x (PcDone (Ok r)) h Hx) as (ctx & Hctx & Hpc); [|done|by eapply done_result].
    rewrite Hts. unfold done_ok. by rewrite list_lookup_fmap, Hr. }
  exists hs, rest, l. split_and!; try done.
  - apply Forall2_same_length_lookup. split; [done|]. intros i x h Hx Hh.
    destruct (lookup_lt_is_Some_2 results i) as [r Hr]; [rewrite Hlr; by eapply lookup_lt_Some|].
    by destruct (Hall i x h r) as (_ & ? & _).
  - by eapply ready_valid.
  - apply Forall2_same_length_lookup. split; [rewrite length_zip_with; lia|].
    intros i [x h] r Hxh Hr. apply lookup_zip_with_Some in Hxh as (x' & h' & [= -> ->] & Hx & Hh).
    by destruct (Hall i x' h' r) as (? & _).
  - unfold unclean. apply orb_false_iff. split; apply not_true_iff_false; rewrite existsb_exists;
      intros (y & Hin & Hy); apply list_elem_of_In, list_elem_of_lookup in Hin as [i Hi].
    + destruct (lookup_lt_is_Some_2 hs i) as [h Hh]; [rewrite Hlh; by eapply lookup_lt_Some|].
      destruct (lookup_lt_is_Some_2 results i) as [r Hr]; [rewrite Hlr; by eapply lookup_lt_Some|].
      destruct (Hall i y h r) as (_ & _ & He & _); try done. by rewrite He in Hy.
    + destruct (lookup_lt_is_Some_2 (prepared g) i) as [x Hx];
        [rewrite <- Hlh; by eapply lookup_lt_Some|].
      destruct (lookup_lt_is_Some_2 results i) as [r Hr];
        [rewrite Hlr, <- Hlh; by eapply lookup_lt_Some|].
      destruct (Hall i x y r) as (_ & _ & _ & He); try done. by rewrite He in Hy.
Qed.

(** The isolated path does what its outcome relation lists. *)
Lemma isolated_group_spec tasks parallel mw sched s :
  dict_get id (entries s) = Some entry →
  wp (isolated_group env id entry binding risk tasks parallel mw settle sched) (start_group s)
    (λ r g', ∃ es l e, delta s (g_reg g') es l e ∧
       isolated_outcome tasks parallel (entries s) r es l e).
Proof.
  intros Hid. unfold isolated_group, start_group. apply wp_try_except, wp_bind.
  assert (owns_forks [] (@nil (session O))) as Hnil.
  { split; try (intros k; set_solver); constructor. }
  eapply wp_mono.
  { eapply (prepare_all_spec env entry id binding tasks s s _ [] [] [] _ _ _ _ []);
      [apply delta_refl|constructor|done|constructor]. }
  intros r g' (xs & l & prep & s1 & -> & D & Hl & Hown & Hu & Hr).
  destruct r as [us|e].
  2: { eapply wp_mono; [eapply (abandon_group_spec False); [done|by eapply closing_untouched]|].
       intros r g' (xs' & hs & rest & l' & e' & -> & _ & D' & Hsh & Hcl & Hl' & Hsame).
       leaf. eapply (iso_abandoned _ _ _ prep rest xs' hs); try done; [by eapply owns_same|].
       eapply (sessions_closed_mono False); [done|exact Hcl]. }
  specialize (Hr eq_refl). simpl in Hr. apply wp_bind.
  apply wp_modify. simpl. apply wp_bind. eapply wp_mono; [by eapply choose_mode_spec|].
  intros r g' (s2 & l2 & -> & -> & D2 & Hl2). clear D Hl l. cbn beta iota.
  set (par := actual_parallel parallel xs).
  pose proof (running_start par _ _ _ _ _ _ true D2 Hl2 Hr) as HR.
  assert (length tasks = length xs) as Hlen by by eapply Forall2_length.
  eapply (wp_mono _ _ (λ r g', Running entry risk settle par s prep xs g' ∧ match r with
       | Ok rs => threads g' = done_ok rs | Err e => quiescent g' end)).
  { destruct par.
    - apply run_parallel_spec; [done|done|]. apply Forall_fmap, Forall_true. by left.
    - unfold run_serial. rewrite Hlen.
      eapply wp_mono; [apply (run_serial_from env entry risk settle false s prep xs _ []); [done|]|].
      + simpl. apply replicate_fmap.
      + done. }
  intros r g' [HR' Hres]. destruct r as [results|e].
  - destruct (running_done _ _ _ _ _ _ _ HR' Hres Hr)
      as (hs & rest & l & D & Hl & Hsh & Hcl & Hv & Hrs & Hun & Hsame).
    leaf. eapply (iso_done _ _ _ prep rest (prepared g') hs); try done; [by eapply owns_same|].
    by rewrite (actual_parallel_same _ _ _ Hsame).
  - eapply wp_mono; [eapply (abandon_group_spec True); [done|]|].
    { destruct HR' as (hs & rest & HR'). exists hs, rest.
      split; [by eapply running_closing|intros; lia]. }
    intros r g2 (xs' & hs & rest & l' & e' & -> & _ & D' & Hsh & Hcl & Hl' & Hsame).
    leaf. eapply (iso_abandoned _ _ _ prep rest xs' hs); try done; [by eapply owns_same|].
    eapply sessions_closed_mono; [|done]. intros _. by eapply ready_valid.
Qed.
End isolated.
