(* ===== verification/GroupSpec.v ===== *)
(** The outcome relation of [run_child_group_from], with its serial fallback,
    and the proof that the code implements it. *)

From stdpp Require Import base strings list sets gmap.
From Stdlib Require Import ZArith Lia.
From S2P Require Import Prelude PyFloat PyValue TraceRuntime ReplayMetrics ReplayTypes.
From S2P Require Import ReplayRegistry RegistryFacts RegistrySpec ChildReplay ChildSpec.
From S2P Require Import ChildGroupSpec.

Section group.
Context {O : Type} (env : Env O).

Definition fallback_result (task : ReplayChildTask O) (ro : ReplayRestoreResult * O)
  : child_result O :=
  inl {| res_child_id := task_child_id task; res_restore := ro.1; res_outcome := ro.2;
         res_isolated := false; res_parallel := false; intent_assessment := None;
         outcome_assessment := None |}.

(** One [run_from] per task, up to the first that raises. *)
Inductive fallback_run (id : string)
  : list (ReplayChildTask O) → list (string * RuntimeReplayBinding) →
    res (list (child_result O)) → list (string * RuntimeReplayBinding) → incs → history → Prop :=
| fb_nil es : fallback_run id [] es (Ok []) es [] []
| fb_stop task tasks es e es' l eff :
    run_from_outcome (finalizes env) id (task_target_branch_id task)
      (task_minimum_fidelity task) es (@Err (ReplayRestoreResult * O) e) es' l eff →
    fallback_run id (task :: tasks) es (Err e) es' l eff
| fb_next task tasks es ro es1 l1 e1 r es' l2 e2 :
    run_from_outcome (finalizes env) id (task_target_branch_id task)
      (task_minimum_fidelity task) es (Ok ro) es1 l1 e1 →
    fallback_run id tasks es1 r es' l2 e2 →
    fallback_run id (task :: tasks) es
      (match r with Ok rs => Ok (fallback_result task ro :: rs) | Err e => Err e end)
      es' (l1 ++ l2)%list (e1 ++ e2)%list.

(** The counters of a group that returned. *)
Definition settled_incs (settle : bool) (results : list (child_result O)) : incs :=
  let failures := Z.of_nat (length (filter (λ r, is_failure r = true) results)) in
  if settle then
    [("child_candidate_success_count", (Z.of_nat (length results) - failures)%Z);
     ("child_candidate_failure_count", failures);
     one (if (failures =? 0)%Z then "child_group_success_count" else "child_group_settled_count")]
  else [one "child_group_success_count"].

Inductive group_outcome (id : string) (tasks : list (ReplayChildTask O)) (parallel settle : bool)
    (es : list (string * RuntimeReplayBinding))
  : res (list (child_result O)) → list (string * RuntimeReplayBinding) → incs → history → Prop :=
| gr_invalid e : group_outcome id tasks parallel settle es (Err e) es [] []
| gr_refused e :
    group_outcome id tasks parallel settle es (Err e) es
      [one "child_group_attempt_count"; one "child_group_failure_count"] []
| gr_fallback entry rs es' l eff :
    dict_get id es = Some entry →
    isolated_replay_child_mode (adapter_attr env (adapter entry))
      (store_attr env (agent_state_store entry)) = Ok None →
    settle = false → fallback_run id tasks es (Ok rs) es' l eff →
    group_outcome id tasks parallel settle es (Ok rs) es'
      (one "child_group_attempt_count" :: one "child_serial_fallback_group_count" :: l
       ++ [one "child_group_success_count"])%list eff
| gr_fallback_failed entry e es' l eff :
    dict_get id es = Some entry →
    isolated_replay_child_mode (adapter_attr env (adapter entry))
      (store_attr env (agent_state_store entry)) = Ok None →
    settle = false → fallback_run id tasks es (Err e) es' l eff →
    group_outcome id tasks parallel settle es (Err e) es'
      (one "child_group_attempt_count" :: one "child_serial_fallback_group_count" :: l
       ++ [one "child_group_failure_count"])%list eff
| gr_isolated entry binding risk rs es' l eff :
    NoDup (task_child_id <$> tasks) →
    dict_get id es = Some entry → lifecycle (point entry) = READY →
    adapter_binding_key entry = Some binding →
    replay_child_risk_mode (adapter_attr env (adapter entry)) = Ok risk →
    isolated_outcome id entry (bool_decide (risk ≠ None)) settle tasks parallel es (Ok rs) es' l eff →
    group_outcome id tasks parallel settle es (Ok rs) es'
      (one "child_group_attempt_count" :: l ++ settled_incs settle rs)%list eff
| gr_isolated_failed entry binding risk e es' l eff :
    dict_get id es = Some entry → lifecycle (point entry) = READY →
    adapter_binding_key entry = Some binding →
    replay_child_risk_mode (adapter_attr env (adapter entry)) = Ok risk →
    isolated_outcome id entry (bool_decide (risk ≠ None)) settle tasks parallel es (Err e) es' l eff →
    group_outcome id tasks parallel settle es (Err e) es'
      (one "child_group_attempt_count" :: l ++ [one "child_group_failure_count"])%list eff.

Lemma fallback_spec id tasks s :
  wp (mmap (fallback_task env id) tasks) s (λ r s', ∃ es l e,
    delta s s' es l e ∧ fallback_run id tasks (entries s) r es l e).
Proof.
  revert s. induction tasks as [|task tasks IH]; intros s; simpl.
  - apply wp_ret. do 3 eexists. split; [apply delta_refl|constructor].
  - apply wp_bind. unfold fallback_task at 1. apply wp_bind.
    eapply wp_mono; [apply run_from_spec|]. intros r s1 (es1 & l1 & e1 & D1 & H1).
    destruct r as [ro|e]; [|leaf; by apply fb_stop].
    apply wp_ret, wp_bind. eapply wp_mono; [apply IH|].
    intros r s2 (es2 & l2 & e2 & D2 & H2). rewrite (d_entries _ _ _ _ _ D1) in H2.
    pose proof (delta_trans _ _ _ _ _ _ _ _ _ D1 D2) as D.
    pose proof (fb_next _ _ _ _ _ _ _ _ _ _ _ _ H1 H2) as Hnext.
    destruct r; [apply wp_ret|]; leaf; exact Hnext.
Qed.

Lemma count_settled_spec settle results s0 s es l eff (Q : res unit → rstate → Prop) :
  delta s0 s es l eff →
  (∀ s', delta s0 s' es (l ++ settled_incs settle results)%list eff → Q (Ok tt) s') →
  wp (count_settled settle results) s Q.
Proof.
  intros D HQ. unfold count_settled, settled_incs in *.
  destruct settle; sym; try (case_match; sym); by apply HQ.
Qed.

Lemma wp_run_isolated id entry binding risk tasks parallel mw settle sched s
    (Q : res (list (child_result O)) → rstate → Prop) :
  wp (isolated_group env id entry binding risk tasks parallel mw settle sched) (start_group s)
    (λ r g, Q r (g_reg g)) →
  wp (run_isolated env id entry binding risk tasks parallel mw settle sched) s Q.
Proof. unfold wp, run_isolated. by destruct (isolated_group _ _ _ _ _ _ _ _ _ _ _). Qed.

(** [run_child_group_from] does what its outcome relation lists. *)
Lemma run_child_group_from_spec id tasks parallel mw settle sched s :
  wp (run_child_group_from env id tasks parallel mw settle sched) s (λ r s', ∃ es l e,
    delta s s' es l e ∧ group_outcome id tasks parallel settle (entries s) r es l e).
Proof.
  pose proof (delta_refl s) as D. unfold run_child_group_from. sym.
  2,3: leaf; constructor.
  unfold child_group_body, ensure_ready, replayable_binding. sym.
  all: try same_entry; try clash; try congruence.
  all: try (leaf; apply gr_refused).
  - apply wp_run_isolated. pose proof (d_entries _ _ _ _ _ D) as He.
    eapply wp_mono; [apply isolated_group_spec; by rewrite He|].
    intros r g (es & l & e & D' & Hiso). rewrite He in Hiso.
    pose proof (delta_trans _ _ _ _ _ _ _ _ _ D D') as D2. clear D D'. delta_norm D2.
    apply bool_decide_eq_true in H0, H2. destruct r as [rs|x].
    + apply wp_bind. eapply count_settled_spec; [exact D2|]. clear D2. intros s2 D2.
      apply wp_ret. leaf. by eapply gr_isolated.
    + sym. leaf. by eapply gr_isolated_failed.
  - pose proof (d_entries _ _ _ _ _ D) as He. eapply wp_mono; [apply fallback_spec|].
    intros r g (es & l & e & D' & Hfb). rewrite He in Hfb.
    pose proof (delta_trans _ _ _ _ _ _ _ _ _ D D') as D2. clear D D'. delta_norm D2.
    assert (settle = false) as -> by (by destruct settle).
    destruct r as [rs|x]; sym; leaf; [by eapply gr_fallback|by eapply gr_fallback_failed].
Qed.
End group.
