(* ===== verification/ExampleEnv.v ===== *)
(** Concrete collaborators, used to evaluate the model on examples: an adapter
    and a store that succeed, with fresh keys from the length of the history,
    and variants that misbehave in one way. *)

From stdpp Require Import base strings list sets gmap.
From Stdlib Require Import ZArith Lia.
From S2P Require Import Prelude PyFloat PyValue TraceRuntime ReplayMetrics ReplayTypes.
From S2P Require Import ReplayRegistry ChildReplay.

Definition fresh (h : history) : Z := Z.of_nat (length h).

Definition good_lease (h : history) : AdapterStateLease :=
  {| binding_key := Some (fresh h); lease_fidelity := EXACT; projection_digest := Some "d" |}.

Definition good_receipt : RestoreReceipt :=
  {| rc_achieved_fidelity := EXACT; restored_projection_digest := Some "d";
     rc_prefix_reused := Some true |}.

Definition good_report : EquivalenceReport :=
  {| rp_achieved_fidelity := EXACT; equivalent := true; expected_digest := Some "d";
     observed_digest := Some "d"; checks := []; rp_sanitized_reason := None |}.

Definition good_assessment : ReplayRiskAssessment :=
  {| disposition := ALLOW; policy_id := "policy"; risk_sanitized_reason := None |}.

(** What the variants change: the lease object, the releases, the finalizer,
    the restore receipt and the two risk assessments. *)
Record behaviour := {
  bh_lease : history → res lease_object;
  bh_release : res unit;
  bh_finalize : res unit;
  bh_receipt : RestoreReceipt;
  bh_intent : ReplayRiskDisposition;
  bh_outcome : ReplayRiskDisposition
}.

Definition assess (d : ReplayRiskDisposition) : ReplayRiskAssessment :=
  {| disposition := d; policy_id := "policy"; risk_sanitized_reason := None |}.

Definition env_of {O} (b : behaviour) : Env O := {|
  clock := λ _, f0;
  id_factory := λ h, "rp-" ++ py_int (fresh h);
  event_id_factory := λ h, "ev-" ++ py_int (fresh h);
  adapter_attr := λ _ _, Callable;
  store_attr := λ _ _, Callable;
  capture_agent_state := λ h _ _, Ok (Some (fresh h));
  release_agent_state := λ _ _ _, Ok tt;
  restore_agent_state := λ _ _ _, Ok tt;
  fork_agent_state := λ h _ _ _, Ok (Some (fresh h));
  capture_replay_state := λ h _ _, bh_lease b h;
  release_replay_state := λ _ _ _, bh_release b;
  restore_replay_state := λ _ _ _ _, Ok (Some (bh_receipt b));
  validate_replay_equivalence := λ _ _ _ _, Ok (Some good_report);
  finalize_replay_suffix := λ _ _ _ _ _, bh_finalize b;
  fork_replay_child := λ h _ _ _, Ok (Some
    {| raw_child_key := Some (fresh h); child_receipt := good_receipt;
       concurrency := THREAD_SAFE; worker_identity := None |});
  validate_replay_child_equivalence := λ _ _ _ _, Ok (Some good_report);
  release_replay_child := λ _ _ _, Ok tt;
  assess_replay_child_intent := λ _ _ _ _, Ok (Some (assess (bh_intent b)));
  assess_replay_child_outcome := λ _ _ _ _ _, Ok (Some (assess (bh_outcome b)))
|}.

Definition good : behaviour :=
  {| bh_lease := λ h, Ok (LeaseInstance (good_lease h)); bh_release := Ok tt;
     bh_finalize := Ok tt; bh_receipt := good_receipt; bh_intent := ALLOW;
     bh_outcome := ALLOW |}.

Definition env0 : Env Z := env_of good.

Definition boom : exn := Exn "OSError" "boom" (Some 7%Z) None None.

(** The adapter returns an object of another class, without [binding_key]. *)
Definition alien_env : Env Z := env_of
  {| bh_lease := λ _, Ok (LeaseAlien "Lease" None); bh_release := Ok tt; bh_finalize := Ok tt;
     bh_receipt := good_receipt; bh_intent := ALLOW; bh_outcome := ALLOW |}.

(** The adapter returns an object of another class with a [binding_key], and
    releasing it fails. *)
Definition stuck_env : Env Z := env_of
  {| bh_lease := λ h, Ok (LeaseAlien "Lease" (Some (Some (fresh h)))); bh_release := Err boom;
     bh_finalize := Ok tt; bh_receipt := good_receipt; bh_intent := ALLOW; bh_outcome := ALLOW |}.

(** The finalizer raises. *)
Definition unfinished_env : Env Z := env_of
  {| bh_lease := λ h, Ok (LeaseInstance (good_lease h)); bh_release := Ok tt;
     bh_finalize := Err boom; bh_receipt := good_receipt; bh_intent := ALLOW;
     bh_outcome := ALLOW |}.

(** Outcomes are denied after the fact. *)
Definition denying_env : Env Z := env_of
  {| bh_lease := λ h, Ok (LeaseInstance (good_lease h)); bh_release := Ok tt;
     bh_finalize := Ok tt; bh_receipt := good_receipt; bh_intent := ALLOW; bh_outcome := DENY |}.

Definition agent0 : AgentCursor :=
  {| history_index := 0; history_digest := "hd"; context_digest := "cd" |}.

Definition trace0 : TraceLog :=
  {| trace_id := "t"; branch_id := "b"; events := []; event_ids := ∅ |}.

(** A registry with one captured point. *)
Definition captured {O} (env : Env O) : res ReplayPoint * TraceLog * rstate :=
  capture_at_head env trace0 agent0 1 2 None empty_registry.

Definition state1 : rstate := (captured env0).2.
Definition id1 : string := "rp-1".

Definition task (child : string) : ReplayChildTask Z :=
  {| task_child_id := child; task_target_branch_id := "b2"; task_minimum_fidelity := EXACT;
     task_execute := λ h _, Ok (fresh h); task_intent := PMap true [] |}.

(** The captured point and its entry. *)
Definition no_point : ReplayPoint :=
  {| replay_point_id := ""; cursor := {| cur_trace_id := ""; cur_branch_id := "";
     after_event_id := None; next_sequence := 0; agent_cursor := agent0 |};
     fidelity := EXACT; captured_projection_digest := None; lifecycle := FAILED;
     created_event_id := ""; replaces_replay_point_id := None |}.

Definition get_ok {A} (d : A) (r : res A) : A := match r with Ok a => a | Err _ => d end.

Definition point1 : ReplayPoint := get_ok no_point (captured env0).1.1.

Definition entry1 : RuntimeReplayBinding :=
  {| point := point1; agent_state_key := 3%Z; adapter_binding_key := Some 4%Z;
     agent_state_store := 1; adapter := 2; agent_released := false; adapter_released := false |}.
