(* ===== verification/RegistryInvariant.v ===== *)
(** Reachable registries and their invariant.

    A registry changes by the operations of [ReplayPointRegistry] only; a
    reachable state is one that a sequence of them builds from the empty
    registry.  The invariant relates the lifecycle of a point to what it still
    holds. *)

From stdpp Require Import base strings list sets gmap.
From Stdlib Require Import ZArith Lia.
From S2P Require Import Prelude PyFloat PyValue TraceRuntime ReplayMetrics ReplayTypes.
From S2P Require Import ReplayRegistry RegistryFacts RegistrySpec CaptureSpec ChildReplay.
From S2P Require Import ChildSpec ChildGroupSpec GroupSpec ExampleEnv.

Section reachability.
Context {O : Type} (env : Env O).

(** One operation of one thread. *)
Inductive step (s s' : rstate) : Prop :=
| step_capture trace ac store ad replaces r trace' :
    capture_at_head env trace ac store ad replaces s = (r, trace', s') → step s s'
| step_select tid bid affected minimum r :
    select_before tid bid affected minimum s = (r, s') → step s s'
| step_run_from id target minimum execute r :
    run_from env id target minimum execute s = (r, s') → step s s'
| step_child_group id tasks parallel max_workers settle sched r :
    run_child_group_from env id tasks parallel max_workers settle sched s = (r, s') → step s s'
| step_release id r :
    release env id s = (r, s') → step s s'.

Inductive reachable : rstate → Prop :=
| reach_empty : reachable empty_registry
| reach_step s s' : reachable s → step s s' → reachable s'.

(** What an operation did, whichever it was. *)
Inductive op_outcome (es : list (string * RuntimeReplayBinding))
  : list (string * RuntimeReplayBinding) → incs → history → Prop :=
| oo_capture store ad ac trace r trace' es' l e :
    capture_outcome store ad ac trace es r trace' es' l e → op_outcome es es' l e
| oo_select l :
    Forall (λ c, c.1 ∈ ["replay_point_selection_count"; "replay_point_fidelity_fallback_count";
                        "replay_point_fidelity_filtered_selection_count"]) l →
    op_outcome es es l []
| oo_run_from id target minimum (r : res (ReplayRestoreResult * O)) es' l e :
    run_from_outcome (finalizes env) id target minimum es r es' l e → op_outcome es es' l e
| oo_group id tasks parallel settle r es' l e :
    group_outcome env id tasks parallel settle es r es' l e → op_outcome es es' l e
| oo_release id r es' l e : release_outcome id es r es' l e → op_outcome es es' l e.

Lemma select_before_spec tid bid affected minimum s :
  wp (select_before tid bid affected minimum) s (λ _ s', ∃ es l e,
    delta s s' es l e ∧ es = entries s ∧ e = [] ∧
    Forall (λ c, c.1 ∈ ["replay_point_selection_count"; "replay_point_fidelity_fallback_count";
                        "replay_point_fidelity_filtered_selection_count"]) l).
Proof.
  pose proof (delta_refl s) as D. unfold select_before. sym.
  all: leaf; split_and!; try done; repeat constructor; set_solver.
Qed.

Lemma step_outcome s s' :
  step s s' → ∃ es l e, delta s s' es l e ∧ op_outcome (entries s) es l e.
Proof.
  intros [trace ac store ad rp r trace' H|tid bid aff m r H|id t m ex r H|id ts p mw st sc r H|id r H].
  - apply capture_at_head_spec in H as (es & l & e & D & H). leaf. by eapply oo_capture.
  - pose proof (wp_elim _ _ _ _ _ (select_before_spec tid bid aff m s) H)
      as (es & l & e & D & -> & -> & Hl). leaf. by eapply oo_select.
  - pose proof (wp_elim _ _ _ _ _ (run_from_spec env id t m ex s) H) as (es & l & e & D & Ho).
    leaf. by eapply oo_run_from.
  - pose proof (wp_elim _ _ _ _ _ (run_child_group_from_spec env id ts p mw st sc s) H)
      as (es & l & e & D & Ho). leaf. by eapply oo_group.
  - pose proof (wp_elim _ _ _ _ _ (release_spec env id s) H) as (es & l & e & D & Ho).
    leaf. by eapply oo_release.
Qed.

(** * The invariant *)

Record entry_ok (b : RuntimeReplayBinding) : Prop := {
  eo_binding : adapter_binding_key b = None ↔ fidelity (point b) = NON_REPLAYABLE;
  eo_unbound : adapter_binding_key b = None → adapter_released b = true;
  eo_settled : lifecycle (point b) ≠ RELEASING;
  eo_released : lifecycle (point b) = RELEASED ↔
    adapter_released b = true ∧ agent_released b = true;
  eo_ready : lifecycle (point b) = READY →
    agent_released b = false ∧ (adapter_released b = true → adapter_binding_key b = None)
}.

Record registry_wf (es : list (string * RuntimeReplayBinding)) : Prop := {
  rw_nodup : NoDup (dict_keys es);
  rw_entries : ∀ id b, dict_get id es = Some b → replay_point_id (point b) = id ∧ entry_ok b
}.

Lemma registry_wf_set id b es :
  registry_wf es → replay_point_id (point b) = id → entry_ok b → registry_wf (dict_set id b es).
Proof.
  intros [Hn He] Hid Hb. split; [by apply dict_keys_set_NoDup|].
  intros id' b'. destruct (decide (id' = id)) as [->|Hne].
  - rewrite dict_get_set_eq. by intros [= <-].
  - rewrite dict_get_set_ne by done. apply He.
Qed.

Lemma mk_lease_binding raw lease :
  mk_AdapterStateLease raw = Ok lease →
  binding_key lease = None ↔ lease_fidelity lease = NON_REPLAYABLE.
Proof.
  unfold mk_AdapterStateLease. intros H. inv_res.
  destruct (decide (lease_fidelity raw = NON_REPLAYABLE)) as [Hf|Hf];
    apply require_Ok, bool_decide_eq_true in H0; simpl; naive_solver.
Qed.

Lemma capture_wf store ad ac trace es r trace' es' l e :
  capture_outcome store ad ac trace es r trace' es' l e → registry_wf es → registry_wf es'.
Proof.
  destruct 1 as [| |rid eid rp cur p k lo trace' es' l e Hc Hn Hb]; [done|done|].
  intros Hwf. inversion Hb as [|k' raw lease event tr Hraw Hrep Hev Happ Hget]; subst.
  apply registry_wf_set; [done|done|]. pose proof (mk_lease_binding _ _ Hraw) as Hbk.
  split; simpl; try done.
  - intros ->. by apply bool_decide_eq_true.
  - split; [done|]. by intros [_ ?].
  - intros _. split; [done|]. intros Hd. by apply bool_decide_eq_true in Hd.
Qed.

(** Quarantine applies to a ready, bound point. *)
Lemma set_failed_wf id b es :
  registry_wf es → dict_get id es = Some b → lifecycle (point b) = READY →
  registry_wf (set_failed id b es).
Proof.
  intros Hwf Hb Hready. destruct (rw_entries _ Hwf _ _ Hb) as [Hid [H1 H2 H3 H4 H5]].
  apply registry_wf_set; [done|done|]. destruct (H5 Hready) as [Hg _].
  split; simpl; try done. rewrite Hg. naive_solver.
Qed.

Lemma admission_Ok_inv es id b k :
  admission es id = Ok (b, k) →
  dict_get id es = Some b ∧ lifecycle (point b) = READY ∧ fidelity (point b) ≠ NON_REPLAYABLE ∧
  adapter_binding_key b = Some k.
Proof.
  unfold admission. destruct (dict_get id es) as [c|]; [|done]. intros H. inv_res.
  destruct (adapter_binding_key c) eqn:Hk; [|done]. injection H as -> ->.
  apply bool_decide_eq_true in H0. apply negb_true_iff, bool_decide_eq_false in H1. done.
Qed.

Lemma run_from_wf fz id target minimum es (r : res (ReplayRestoreResult * O)) es' l e :
  run_from_outcome fz id target minimum es r es' l e → registry_wf es → registry_wf es'.
Proof.
  destruct 1; try done. intros Hwf. apply admission_Ok_inv in H0 as (? & ? & _).
  by apply set_failed_wf.
Qed.

Lemma fallback_wf id tasks es r es' l e :
  fallback_run env id tasks es r es' l e → registry_wf es → registry_wf es'.
Proof. induction 1; eauto using run_from_wf. Qed.

Lemma isolated_wf id entry risk settle tasks parallel es r es' l e :
  @isolated_outcome O id entry risk settle tasks parallel es r es' l e →
  dict_get id es = Some entry → lifecycle (point entry) = READY → registry_wf es → registry_wf es'.
Proof. destruct 1; [done|]. intros. destruct (unclean xs hs); [|done]. by apply set_failed_wf. Qed.

Lemma group_wf id tasks parallel settle es r es' l e :
  group_outcome env id tasks parallel settle es r es' l e → registry_wf es → registry_wf es'.
Proof. destruct 1; eauto using fallback_wf, isolated_wf. Qed.

Lemma after_release_ok b ra rg :
  entry_ok b → (ra ≠ None ↔ holds_adapter b) → (rg ≠ None ↔ agent_released b = false) →
  entry_ok (after_release b ra rg).
Proof.
  intros [H1 H2 H3 H4 H5] Ha Hg. unfold after_release, released_lifecycle.
  assert (adapter_binding_key b = None → ra = None) as Hnone.
  { intros Hb. destruct ra; [|done]. destruct (proj1 Ha) as [_ ?]; done. }
  destruct b as [p ak abk st ad gr ar]; simpl in *.
  destruct ra as [[?|?]|], rg as [[?|?]|], ar, gr; split; simpl in *; naive_solver.
Qed.

Lemma release_wf id es r es' l e :
  release_outcome id es r es' l e → registry_wf es → registry_wf es'.
Proof.
  destruct 1 as [| |b ra rg c Hb Hl Ha Hg _]; [done|done|]. intros Hwf.
  destruct (rw_entries _ Hwf _ _ Hb) as [Hid Hok]. apply registry_wf_set; [done| |].
  - unfold after_release. by destruct ra as [[]|], rg as [[]|].
  - by apply after_release_ok.
Qed.

Lemma op_wf es es' l e : op_outcome es es' l e → registry_wf es → registry_wf es'.
Proof. destruct 1; eauto using capture_wf, run_from_wf, group_wf, release_wf. Qed.

Lemma reachable_wf s : reachable s → registry_wf (entries s).
Proof.
  induction 1 as [|s s' _ IH (es & l & e & D & Ho)%step_outcome].
  - split; [constructor|done].
  - rewrite (d_entries _ _ _ _ _ D). by eapply op_wf.
Qed.
End reachability.

(** The example registry is reachable. *)
Lemma reach_captured {O} (env : Env O) : reachable env (captured env).2.
Proof.
  eapply reach_step; [constructor|]. unfold captured.
  destruct (capture_at_head env trace0 agent0 1 2 None empty_registry) as [[r t] s] eqn:E.
  by eapply step_capture.
Qed.
