(* ===== verification/RegistryAccounting.v ===== *)
(** Accounting over whole histories: which calls the operations make, what the
    adapter bindings amount to, and which counters balance. *)

From stdpp Require Import base strings list sets gmap.
From Stdlib Require Import ZArith Lia.
From S2P Require Import Prelude PyFloat PyValue TraceRuntime ReplayMetrics ReplayTypes.
From S2P Require Import ReplayRegistry RegistryFacts RegistrySpec CaptureSpec ChildReplay.
From S2P Require Import ChildSpec ChildGroupSpec GroupSpec RegistryInvariant.

(** * Totals *)

Lemma total_perm f l l' : l ≡ₚ l' → total f l = total f l'.
Proof.
  induction 1 as [|[g n] l l' _ IH|[g n] [g' n'] l|l1 l2 l3 _ IH1 _ IH2]; simpl; try lia.
Qed.

Lemma total_only (fs : list string) f (l : incs) : Forall (λ c, c.1 ∈ fs) l → f ∉ fs → total f l = 0%Z.
Proof.
  intros H Hf. induction H as [|[g n] l Hg _ IH]; simpl; [done|].
  rewrite decide_False; [lia|]. intros ->. by apply Hf.
Qed.

Definition sum_total (fs : list string) (l : incs) : Z :=
  foldr (λ f acc, (total f l + acc)%Z) 0%Z fs.

(** [f = g + h + ...] for counters that balance. *)
Definition BALANCES : list (string * list string) :=
  [("replay_attempt_count", ["replay_success_count"; "replay_failure_count"]);
   ("restore_attempt_count", ["restore_success_count"; "restore_failure_count"]);
   ("restore_success_count", ["prefix_reuse_verified_count"; "prefix_reconstruction_count";
                              "prefix_reuse_unknown_count"]);
   ("equivalence_attempt_count", ["equivalence_verified_count"; "equivalence_unverified_count";
                                  "equivalence_failure_count"]);
   ("suffix_attempt_count", ["suffix_success_count"; "suffix_failure_count"]);
   ("suffix_finalization_attempt_count", ["suffix_finalization_success_count";
                                          "suffix_finalization_failure_count"]);
   ("release_attempt_count", ["release_success_count"; "release_failure_count"]);
   ("child_group_attempt_count", ["child_group_success_count"; "child_group_settled_count";
                                  "child_group_failure_count"])].

Definition balanced (l : incs) : Prop :=
  Forall (λ b, total b.1 l = sum_total b.2 l) BALANCES.

Lemma sum_total_app fs l1 l2 : sum_total fs (l1 ++ l2)%list = (sum_total fs l1 + sum_total fs l2)%Z.
Proof. induction fs as [|f fs IH]; simpl; [done|]. rewrite total_app, IH. lia. Qed.

Lemma sum_total_perm fs l l' : l ≡ₚ l' → sum_total fs l = sum_total fs l'.
Proof. intros H. induction fs as [|f fs IH]; simpl; [done|]. by rewrite IH, (total_perm f _ _ H). Qed.

Lemma balanced_app l1 l2 : balanced l1 → balanced l2 → balanced (l1 ++ l2)%list.
Proof.
  unfold balanced. rewrite !Forall_forall. intros H1 H2 b Hb.
  rewrite total_app, sum_total_app, H1, H2 by done. lia.
Qed.

Lemma balanced_perm l l' : l ≡ₚ l' → balanced l → balanced l'.
Proof.
  unfold balanced. rewrite !Forall_forall. intros Hp H b Hb.
  by rewrite <- (total_perm _ _ _ Hp), <- (sum_total_perm _ _ _ Hp), H.
Qed.

(** Counters outside the table of balances. *)
Definition unbalanced_field (f : string) : bool :=
  negb (mem_str f (BALANCES ≫= λ b, b.1 :: b.2)).

Lemma balanced_other l : Forall (λ c, unbalanced_field c.1 = true) l → balanced l.
Proof.
  intros H. apply Forall_forall. intros b Hb.
  assert (∀ f, f ∈ b.1 :: b.2 → total f l = 0%Z) as Hz.
  { intros f Hf. eapply (total_only (filter (λ g, g ≠ f) l.*1)).
    - apply Forall_forall. intros c Hc. apply list_elem_of_filter. split.
      + intros Hcf. pose proof (proj1 (Forall_forall _ _) H _ Hc) as Hn. simpl in Hn.
        rewrite Hcf in Hn. apply negb_true_iff, not_true_iff_false in Hn. apply Hn, mem_str_In.
        apply list_elem_of_bind. eauto.
      + by apply list_elem_of_fmap_2.
    - intros Hin. by apply list_elem_of_filter in Hin as [? _]. }
  rewrite (Hz b.1) by set_solver.
  assert (∀ fs, fs ⊆ b.2 → sum_total fs l = 0%Z) as Hs; [|by rewrite Hs].
  induction fs as [|f fs IH]; intros Hfs; simpl; [done|].
  rewrite Hz, IH; set_solver.
Qed.

Ltac balanced_compute := by (repeat (constructor; [vm_compute; reflexivity|]); constructor).

Lemma session_balanced l : session_incs l → balanced l.
Proof.
  intros H. apply balanced_other. eapply Forall_impl; [exact H|]. intros c Hc. simpl in Hc.
  unfold SESSION_COUNTERS in Hc.
  repeat (apply elem_of_cons in Hc as [->|Hc]; [reflexivity|]). by apply not_elem_of_nil in Hc.
Qed.

Lemma restore_balanced entry binding rq r l e :
  restore_outcome entry binding rq r l e → balanced l.
Proof.
  destruct 1 as [|r receipt m c _ <-]; [balanced_compute|].
  unfold prefix_counter. destruct (rc_prefix_reused receipt) as [[]|]; balanced_compute.
Qed.

Lemma equivalence_balanced entry binding rc mn r l e :
  equivalence_outcome entry binding rc mn r l e → balanced l.
Proof.
  destruct 1 as [|r rep el m c _ <-]; [balanced_compute|].
  unfold equivalence_counter. destruct (verified rep); balanced_compute.
Qed.

Lemma reached_balanced id t mn entry binding rr l e :
  reached_suffix id t mn entry binding rr l e → balanced l.
Proof. destruct 1. apply balanced_app; eauto using restore_balanced, equivalence_balanced. Qed.

(** An operation's own counters around the counters of its parts. *)
Lemma balanced_around (a : string * Z) l (b : incs) :
  balanced (a :: b) → balanced l → balanced (a :: l ++ b)%list.
Proof.
  intros H1 H2. eapply (balanced_perm ((a :: b) ++ l)%list); [|by apply balanced_app].
  simpl. constructor. apply Permutation_app_comm.
Qed.

Lemma run_from_balanced {O} fz id t mn es (r : res (ReplayRestoreResult * O)) es' l e :
  run_from_outcome fz id t mn es r es' l e → balanced l.
Proof.
  destruct 1; try balanced_compute.
  - apply balanced_around; [balanced_compute|by eapply restore_balanced].
  - rewrite app_assoc. apply balanced_around; [balanced_compute|].
    apply balanced_app; eauto using restore_balanced, equivalence_balanced.
  - rewrite app_assoc. apply balanced_around; [balanced_compute|].
    apply balanced_app; eauto using restore_balanced, equivalence_balanced.
  - apply balanced_around; [|by eapply reached_balanced].
    destruct fin as [[]|]; balanced_compute.
  - apply balanced_around; [|by eapply reached_balanced].
    destruct fin as [[]|]; balanced_compute.
  - apply balanced_around; [|by eapply reached_balanced].
    destruct fin as [[]|]; balanced_compute.
Qed.

Lemma capture_balanced store ad ac trace es r trace' es' l e :
  capture_outcome store ad ac trace es r trace' es' l e → balanced l.
Proof.
  destruct 1 as [x l [->|[->| ->]]|rid eid rp cur er k lo l1 e1 x l2 e2 _ _ Hb Hc
                |rid eid rp cur p k lo trace' es' l e _ _ Hb]; try balanced_compute.
  - assert (balanced l1) as H1.
    { inversion Hb as [????? _ Hl|]; subst. destruct Hl as [->| ->]; balanced_compute. }
    assert (balanced l2) as H2.
    { destruct Hc as [|binding ra rg _ _ _].
      - destruct rp; balanced_compute.
      - destruct rp; unfold first_error, flag; destruct (is_some binding || is_some k),
          (fin_error ra), (fin_error rg); balanced_compute. }
    assert (balanced (one "capture_attempt_count"
              :: replacement_incs rp "replacement_capture_attempt_count")) as H0.
    { destruct rp; balanced_compute. }
    by apply (balanced_app (_ :: _)); [|apply balanced_app].
  - inversion Hb; subst. destruct rp; balanced_compute.
Qed.

Lemma release_balanced id es r es' l e : release_outcome id es r es' l e → balanced l.
Proof.
  destruct 1 as [| |b ra rg c _ _ _ _ ->]; try balanced_compute.
  destruct (is_ok _); balanced_compute.
Qed.

Section ops.
Context {O : Type} (env : Env O).

Lemma fallback_balanced id tasks es r es' l e :
  fallback_run env id tasks es r es' l e → balanced l.
Proof.
  induction 1; [balanced_compute|by eapply run_from_balanced|].
  apply balanced_app; [by eapply run_from_balanced|done].
Qed.

Lemma isolated_incs id entry risk settle tasks parallel es r es' l e :
  @isolated_outcome O id entry risk settle tasks parallel es r es' l e → session_incs l.
Proof. by destruct 1. Qed.

Lemma settled_balanced settle (rs : list (child_result O)) :
  balanced (one "child_group_attempt_count" :: settled_incs settle rs).
Proof.
  unfold settled_incs. destruct settle; [|balanced_compute].
  destruct (_ =? 0)%Z; balanced_compute.
Qed.

Lemma group_balanced id tasks parallel settle es r es' l e :
  group_outcome env id tasks parallel settle es r es' l e → balanced l.
Proof.
  destruct 1; try balanced_compute.
  - apply (balanced_around _ (_ :: l)); [balanced_compute|].
    apply (balanced_app [_]); [balanced_compute|by eapply fallback_balanced].
  - apply (balanced_around _ (_ :: l)); [balanced_compute|].
    apply (balanced_app [_]); [balanced_compute|by eapply fallback_balanced].
  - apply balanced_around; [apply settled_balanced|]. eapply session_balanced, isolated_incs; eauto.
  - apply balanced_around; [balanced_compute|]. eapply session_balanced, isolated_incs; eauto.
Qed.

Lemma op_balanced es es' l e : op_outcome env es es' l e → balanced l.
Proof.
  destruct 1; eauto using capture_balanced, run_from_balanced, group_balanced, release_balanced.
  apply balanced_other. eapply Forall_impl; [done|]. intros c Hc. simpl in Hc.
  repeat (apply elem_of_cons in Hc as [->|Hc]; [reflexivity|]). by apply not_elem_of_nil in Hc.
Qed.

(** The counters of a reachable registry balance. *)
Lemma reachable_balanced s f parts :
  reachable env s → (f, parts) ∈ BALANCES →
  cnt s f = foldr (λ g acc, (cnt s g + acc)%Z) 0%Z parts.
Proof.
  intros Hr Hb. induction Hr as [|s s' _ IH (es & l & e & D & Ho)%step_outcome].
  - assert (∀ g, cnt empty_registry g = 0%Z) as Hz by done.
    rewrite Hz. clear Hb. induction parts as [|g parts IH]; simpl; [done|]. by rewrite <- IH, Hz.
  - apply op_balanced in Ho. pose proof (proj1 (Forall_forall _ _) Ho _ Hb) as Hl. simpl in Hl.
    rewrite (d_counts _ _ _ _ _ D), IH, Hl. clear -D.
    induction parts as [|g parts IHp]; simpl; [done|].
    rewrite (d_counts _ _ _ _ _ D), <- IHp. lia.
Qed.
End ops.

(** * Adapter bindings *)

(** The bindings that captures returned and that releases gave back. *)
Definition acquired_of (o : obs) : list (Z * key) :=
  match o with
  | ObsCaptureAdapter ad _ (Ok lo) =>
      match lease_binding lo with Ok (Some k) => [(ad, k)] | _ => [] end
  | _ => []
  end.
Definition released_of (o : obs) : list (Z * key) :=
  match o with ObsReleaseAdapter ad k (Ok _) => [(ad, k)] | _ => [] end.
Definition acquired (h : history) : list (Z * key) := h ≫= acquired_of.
Definition released (h : history) : list (Z * key) := h ≫= released_of.

(** The binding an entry still holds. *)
Definition hold (b : RuntimeReplayBinding) : list (Z * key) :=
  if adapter_released b then []
  else match adapter_binding_key b with Some k => [(adapter b, k)] | None => [] end.
Definition held (es : list (string * RuntimeReplayBinding)) : list (Z * key) :=
  es ≫= λ e, hold e.2.

Lemma held_cons e es : held (e :: es) = (hold e.2 ++ held es)%list.
Proof. done. Qed.

Lemma held_set id b b' es :
  dict_get id es = Some b → (held (dict_set id b' es) ++ hold b ≡ₚ held es ++ hold b')%list.
Proof.
  induction es as [|[k c] es IH]; simpl; [done|]. case_decide as Hk.
  - intros [= ->]. rewrite !held_cons. simpl.
    rewrite (Permutation_app_comm (hold b') (held es)), (Permutation_app_comm (hold b) (held es)).
    by rewrite <- !app_assoc, (Permutation_app_comm (hold b')).
  - intros Hb. rewrite !held_cons, <- !app_assoc. by rewrite IH.
Qed.

Lemma held_set_same id b b' es :
  dict_get id es = Some b → hold b' = hold b → held (dict_set id b' es) ≡ₚ held es.
Proof.
  intros Hb Hh. pose proof (held_set id b b' es Hb) as H. rewrite Hh in H.
  by apply Permutation_app_inv_r in H.
Qed.

Definition ORPHANS : string := "orphaned_adapter_binding_count".

(** An operation keeps the account of bindings balanced. *)
Definition accounted (es es' : list (string * RuntimeReplayBinding)) (l : incs) (eff : history)
  : Prop :=
  ∃ orphans, (acquired eff ++ held es ≡ₚ released eff ++ held es' ++ orphans)%list ∧
    Z.of_nat (length orphans) = total ORPHANS l.

(** Calls that neither capture nor release an adapter binding. *)
Definition is_quiet (o : obs) : bool :=
  match o with ObsCaptureAdapter _ _ _ | ObsReleaseAdapter _ _ _ => false | _ => true end.

Lemma quiet_calls h :
  Forall (λ o, is_quiet o = true) h → acquired h = [] ∧ released h = [].
Proof.
  intros H. induction H as [|o h Ho _ [IH1 IH2]]; [done|].
  change (acquired (o :: h)) with (acquired_of o ++ acquired h)%list.
  change (released (o :: h)) with (released_of o ++ released h)%list.
  rewrite IH1, IH2. by destruct o.
Qed.

Lemma accounted_quiet es es' l eff :
  Forall (λ o, is_quiet o = true) eff → total ORPHANS l = 0%Z → held es' ≡ₚ held es →
  accounted es es' l eff.
Proof.
  intros [Ha Hr]%quiet_calls Hl Hh. exists []. rewrite Ha, Hr, app_nil_r. simpl.
  split; [by symmetry|done].
Qed.

Lemma acquired_app h1 h2 : acquired (h1 ++ h2)%list = (acquired h1 ++ acquired h2)%list.
Proof. apply bind_app. Qed.
Lemma released_app h1 h2 : released (h1 ++ h2)%list = (released h1 ++ released h2)%list.
Proof. apply bind_app. Qed.

(** No counter of a replay or of a session counts orphans. *)
Definition no_orphan (l : incs) : Prop := Forall (λ c, c.1 ≠ ORPHANS) l.

Lemma no_orphan_total l : no_orphan l → total ORPHANS l = 0%Z.
Proof. induction 1 as [|[f n] l Hf _ IH]; simpl; [done|]. by rewrite decide_False, IH. Qed.

Ltac no_orphan_compute := by (repeat (constructor; [done|]); constructor).

Lemma session_no_orphan l : session_incs l → no_orphan l.
Proof.
  intros H. eapply Forall_impl; [exact H|]. intros c Hc Heq. simpl in Hc. rewrite Heq in Hc.
  unfold SESSION_COUNTERS in Hc.
  repeat (apply elem_of_cons in Hc as [Hc|Hc]; [discriminate Hc|]). by apply not_elem_of_nil in Hc.
Qed.

Definition quiet (h : history) : Prop := Forall (λ o, is_quiet o = true) h.

Lemma restore_quiet entry binding rq r l e :
  restore_outcome entry binding rq r l e → no_orphan l ∧ quiet e.
Proof.
  destruct 1 as [|r receipt m c _ <-]; split; try no_orphan_compute.
  unfold prefix_counter. destruct (rc_prefix_reused receipt) as [[]|]; no_orphan_compute.
Qed.

Lemma equivalence_quiet entry binding rc mn r l e :
  equivalence_outcome entry binding rc mn r l e → no_orphan l ∧ quiet e.
Proof.
  destruct 1 as [|r rep el m c _ <-]; split; try no_orphan_compute.
  unfold equivalence_counter. destruct (verified rep); no_orphan_compute.
Qed.

Lemma reached_quiet id t mn entry binding rr l e :
  reached_suffix id t mn entry binding rr l e → no_orphan l ∧ quiet e.
Proof.
  destruct 1 as [receipt rep el rm em l1 e1 l2 e2 [H1 H2]%restore_quiet [H3 H4]%equivalence_quiet].
  split; [by apply Forall_app|]. apply Forall_app. split; [done|]. apply Forall_app.
  split; [done|]. no_orphan_compute.
Qed.

Lemma run_from_quiet {O} fz id t mn es (r : res (ReplayRestoreResult * O)) es' l e :
  run_from_outcome fz id t mn es r es' l e → no_orphan l ∧ quiet e.
Proof.
  unfold no_orphan, quiet. destruct 1;
    repeat match goal with
    | H : restore_outcome _ _ _ _ _ _ |- _ => apply restore_quiet in H as [??]
    | H : equivalence_outcome _ _ _ _ _ _ _ |- _ => apply equivalence_quiet in H as [??]
    | H : reached_suffix _ _ _ _ _ _ _ _ |- _ => apply reached_quiet in H as [??]
    end; split; repeat first [done | apply Forall_nil; exact I | apply Forall_app; split
                             | apply Forall_cons; split ];
    try (destruct fin as [[]|]; no_orphan_compute).
Qed.

Lemma acquisition_calls store ad cur rq eff k lo :
  acquisition store ad cur rq eff k lo →
  acquired eff = match lease_binding lo with Ok (Some b) => [(ad, b)] | _ => [] end ∧
  released eff = [].
Proof.
  destruct 1; try done. split; [|done]. unfold acquired. simpl.
  by destruct (lease_binding lo) as [[]|].
Qed.

Lemma replacement_no_orphan rp c : c ≠ ORPHANS → no_orphan (replacement_incs rp c).
Proof. intros Hc. destruct rp; [by repeat constructor|constructor]. Qed.

(** A failed capture releases its binding, or counts it as orphaned. *)
Lemma compensation_accounted store ad rp error k lo x l e :
  compensation_outcome store ad rp error k lo x l e →
  ∃ orphans, match lease_binding lo with Ok (Some b) => [(ad, b)] | _ => [] end
               = (released e ++ orphans)%list ∧ acquired e = [] ∧
    Z.of_nat (length orphans) = total ORPHANS l.
Proof.
  destruct 1 as [x Hb|binding ra rg Hb Ha Hg].
  - exists []. rewrite Hb. split_and!; try done. destruct rp; done.
  - rewrite Hb.
    destruct binding as [b|], ra as [[?|c]|], k as [k|], rg as [[?|c']|]; try done.
    all: first [ exists []; split_and!; [done|done|] | exists [(ad, b)]; split_and!; [done|done|] ].
    all: by destruct rp.
Qed.

Lemma capture_accounted store ad ac trace es r trace' es' l e :
  capture_outcome store ad ac trace es r trace' es' l e → accounted es es' l e.
Proof.
  destruct 1 as [x l Hl|rid eid rp cur er k lo l1 e1 x l2 e2 _ _ Hb Hc
                |rid eid rp cur p k lo trace' es' l e _ _ Hb].
  - apply accounted_quiet; [constructor| |done]. by destruct Hl as [->|[->| ->]].
  - inversion Hb as [????? Hacq Hl|]; subst. apply acquisition_calls in Hacq as [Ha Hr].
    apply compensation_accounted in Hc as (orphans & Ho & Hq & Hlen). exists orphans.
    rewrite acquired_app, released_app, Ha, Hr, Hq, app_nil_r, Ho. simpl. split.
    + by rewrite <- app_assoc, (Permutation_app_comm orphans).
    + rewrite !total_app, Hlen. destruct rp, Hl as [->| ->]; done.
  - inversion Hb as [|k' raw lease event tr Hraw Hrep Hev Happ Hget]; subst. exists [].
    split; [|by destruct rp]. rewrite app_nil_r, dict_set_fresh by done.
    unfold acquired, released. simpl. unfold held at 2. rewrite bind_app. simpl.
    rewrite app_nil_r, (Permutation_app_comm (held es)). fold (held es).
    unfold hold. simpl. destruct (binding_key lease) eqn:Hk; simpl; done.
Qed.

Lemma release_accounted id es r es' l e : release_outcome id es r es' l e → accounted es es' l e.
Proof.
  destruct 1 as [| |b ra rg c Hb Hl Ha Hg ->]; try (by apply accounted_quiet; [constructor|done|done]).
  exists []. split; [|by destruct (is_ok _)].
  rewrite acquired_app, released_app, app_nil_r.
  assert (acquired (adapter_call b ra) = []) as -> by (unfold adapter_call; by destruct ra, (adapter_binding_key b)).
  assert (acquired (agent_call b rg) = [] ∧ released (agent_call b rg) = []) as [-> ->] by by destruct rg.
  rewrite app_nil_r. simpl. apply (Permutation_app_inv_r (hold b)).
  rewrite <- app_assoc, (held_set id b) by done.
  rewrite Permutation_app_comm, (Permutation_app_comm (held es)).
  rewrite app_assoc. apply Permutation_app_tail.
  unfold after_release, adapter_call, holds_adapter, hold in *.
  destruct b as [p ak abk st ad gr ar]; simpl in *.
  destruct ra as [[?|?]|], rg as [[?|?]|], ar, abk; simpl in *; naive_solver.
Qed.

Section group_account.
Context {O : Type} (env : Env O).

Lemma closed_quiet entry risk V (x : session O) h : session_closed entry risk V x h → quiet h.
Proof.
  intros (err & b & hr & _ & -> & Hr & Hb). apply Forall_app. split.
  - destruct Hb as [->|(_ & ctx & e & _ & Hb)]; [constructor|]. unfold quiet.
    destruct Hb; repeat match goal with
      | H : intent_part _ _ _ _ _ |- _ => destruct H
      | H : outcome_part _ _ _ _ _ |- _ => destruct H
      end; no_orphan_compute.
  - unfold quiet. destruct Hr; no_orphan_compute.
Qed.

Lemma isolated_quiet id entry risk settle tasks parallel es r es' l e :
  @isolated_outcome O id entry risk settle tasks parallel es r es' l e →
  no_orphan l ∧ quiet e ∧ (dict_get id es = Some entry → held es' ≡ₚ held es).
Proof.
  assert (∀ V prep rest (xs : list (session O)) hs, owns_forks prep xs → shuffled hs rest →
    Forall2 (session_closed entry risk V) xs hs → quiet (prep ++ rest)%list) as Hq.
  { intros V prep rest xs hs Ho Hs Hc. apply Forall_app. split.
    - eapply Forall_impl; [apply (of_prep _ _ Ho)|]. by intros [].
    - unfold quiet. rewrite (shuffled_perm _ _ Hs). clear Ho Hs.
      induction Hc as [|x h xs hs Hx _ IH]; simpl; [constructor|].
      apply Forall_app. split; [by eapply closed_quiet|done]. }
  destruct 1; split_and!; eauto using session_no_orphan.
  intros Hid. destruct (unclean xs hs); [|done]. by eapply held_set_same.
Qed.

Lemma run_from_held fz id t mn es (r : res (ReplayRestoreResult * O)) es' l e :
  run_from_outcome fz id t mn es r es' l e → held es' ≡ₚ held es.
Proof.
  destruct 1; try done. apply admission_Ok_inv in H0 as (Hb & _). by eapply held_set_same.
Qed.

Lemma fallback_quiet id tasks es r es' l e :
  fallback_run env id tasks es r es' l e → no_orphan l ∧ quiet e ∧ held es' ≡ₚ held es.
Proof.
  induction 1 as [es|tk tks es x es' l e Hr|tk tks es ro es1 l1 e1 r es' l2 e2 Hr _ (IH1 & IH2 & IH3)].
  - split_and!; [constructor|constructor|done].
  - destruct (run_from_quiet _ _ _ _ _ _ _ _ _ Hr). split_and!; [done|done|by eapply run_from_held].
  - destruct (run_from_quiet _ _ _ _ _ _ _ _ _ Hr). split_and!; [by apply Forall_app|by apply Forall_app|].
    rewrite IH3. by eapply run_from_held.
Qed.

Lemma group_accounted id tasks parallel settle es r es' l e :
  group_outcome env id tasks parallel settle es r es' l e → accounted es es' l e.
Proof.
  destruct 1.
  1,2: by apply accounted_quiet; [constructor|done|done].
  1,2: destruct (fallback_quiet _ _ _ _ _ _ _ H2) as (Ho & Hq & Hh);
       apply accounted_quiet; [done| |done]; simpl;
       rewrite total_app, (no_orphan_total _ Ho); done.
  - destruct (isolated_quiet _ _ _ _ _ _ _ _ _ _ _ H4) as (Ho & Hq & Hh).
    apply accounted_quiet; [done| |by apply Hh]. simpl. rewrite total_app, (no_orphan_total _ Ho).
    unfold settled_incs. destruct settle; [|done]. by destruct (_ =? 0)%Z.
  - destruct (isolated_quiet _ _ _ _ _ _ _ _ _ _ _ H3) as (Ho & Hq & Hh).
    apply accounted_quiet; [done| |by apply Hh]. simpl. by rewrite total_app, (no_orphan_total _ Ho).
Qed.

Lemma op_accounted es es' l e : op_outcome env es es' l e → accounted es es' l e.
Proof.
  destruct 1; eauto using capture_accounted, group_accounted, release_accounted.
  - apply accounted_quiet; [constructor| |done]. eapply total_only; [done|]. set_solver.
  - destruct (run_from_quiet _ _ _ _ _ _ _ _ _ H). apply accounted_quiet; [done| |].
    + by apply no_orphan_total.
    + by eapply run_from_held.
Qed.

(** Every binding an adapter handed out was given back, is held by an entry,
    or is one of the counted orphans. *)
Lemma reachable_accounted s :
  reachable env s → ∃ orphans,
    (acquired (effects (hist s)) ≡ₚ released (effects (hist s)) ++ held (entries s) ++ orphans)%list ∧
    Z.of_nat (length orphans) = cnt s ORPHANS.
Proof.
  induction 1 as [|s s' _ (orphans & IH & Hlen) (es & l & e & D & Ho)%step_outcome].
  - by exists [].
  - apply op_accounted in Ho as (o' & Hp & Hl). exists (orphans ++ o')%list.
    rewrite (delta_effects _ _ _ _ _ D), acquired_app, released_app, (d_entries _ _ _ _ _ D), IH.
    split.
    + rewrite (Permutation_app_comm (held (entries s))), <- !app_assoc.
      rewrite (Permutation_app_comm (held (entries s)) (acquired e)), Hp.
      apply Permutation_app_head. rewrite (Permutation_app_comm orphans), <- !app_assoc.
      do 2 apply Permutation_app_head. apply Permutation_app_comm.
    + rewrite length_app, (d_counts _ _ _ _ _ D), <- Hlen, <- Hl. lia.
Qed.
End group_account.
