(* ===== verification/RegistryTheorems.v ===== *)
(** The theorems about the replay-point registry: captures, releases, replays,
    selection, the registry invariant and the accounts of bindings and
    counters. *)

From stdpp Require Import base strings list sets gmap.
From Stdlib Require Import ZArith Lia.
From S2P Require Import Prelude PyFloat PyValue TraceRuntime ReplayMetrics ReplayTypes.
From S2P Require Import ReplayRegistry RegistryFacts RegistrySpec SelectionSpec CaptureSpec.
From S2P Require Import ChildReplay ChildSpec ChildGroupSpec GroupSpec ExampleEnv.
From S2P Require Import RegistryInvariant RegistryAccounting.

(** ** Views of a history *)

Definition agent_acquired_of (o : obs) : list (Z * key) :=
  match o with ObsCaptureAgent st _ (Ok (Some k)) => [(st, k)] | _ => [] end.
Definition agent_release_of (o : obs) : list (Z * key) :=
  match o with ObsReleaseAgent st k _ => [(st, k)] | _ => [] end.
Definition adapter_release_of (o : obs) : list (Z * key) :=
  match o with ObsReleaseAdapter ad k _ => [(ad, k)] | _ => [] end.

(** The agent states captured, and the release calls made, whatever their
    outcome. *)
Definition agent_acquired (h : history) : list (Z * key) := h ≫= agent_acquired_of.
Definition agent_release_calls (h : history) : list (Z * key) := h ≫= agent_release_of.
Definition adapter_release_calls (h : history) : list (Z * key) := h ≫= adapter_release_of.

(** Every object that [capture_replay_state] returned offers [binding_key]. *)
Definition leases_have_binding (h : history) : Prop :=
  Forall (λ o, match o with ObsCaptureAdapter _ _ (Ok lo) => is_ok (lease_binding lo) = true
                          | _ => True end) h.

Definition keyed (a : Z) (k : option key) : list (Z * key) :=
  match k with Some k => [(a, k)] | None => [] end.

Definition binding_of (lo : lease_object) : option key :=
  match lease_binding lo with Ok b => b | Err _ => None end.

Lemma acquisition_views store ad cur rq eff k lo :
  acquisition store ad cur rq eff k lo →
  acquired eff = keyed ad (binding_of lo) ∧ adapter_release_calls eff = [] ∧
  agent_acquired eff = keyed store k ∧ agent_release_calls eff = [] ∧
  (leases_have_binding eff → is_ok (lease_binding lo) = true).
Proof.
  destruct 1; split_and!; try done.
  - unfold acquired, binding_of. simpl. by destruct (lease_binding lo) as [[]|].
  - intros [_ [H _]%Forall_cons]%Forall_cons. done.
Qed.

Lemma compensation_views store ad rp error k lo x l e :
  compensation_outcome store ad rp error k lo x l e →
  acquired e = [] ∧ adapter_release_calls e = keyed ad (binding_of lo) ∧ agent_acquired e = [] ∧
  (is_ok (lease_binding lo) = true → agent_release_calls e = keyed store k).
Proof.
  unfold binding_of. destruct 1 as [x Hb|binding ra rg Hb Ha Hg]; rewrite Hb; [done|].
  destruct binding, ra, k, rg; done.
Qed.

Lemma views_app h1 h2 :
  adapter_release_calls (h1 ++ h2)%list
    = (adapter_release_calls h1 ++ adapter_release_calls h2)%list ∧
  agent_release_calls (h1 ++ h2)%list = (agent_release_calls h1 ++ agent_release_calls h2)%list ∧
  agent_acquired (h1 ++ h2)%list = (agent_acquired h1 ++ agent_acquired h2)%list.
Proof. split_and!; apply bind_app. Qed.

Lemma dict_get_app {V} k (d1 d2 : list (string * V)) :
  dict_get k (d1 ++ d2)%list = match dict_get k d1 with Some v => Some v | None => dict_get k d2 end.
Proof. induction d1 as [|[k' v] d1 IH]; simpl; [done|]. by case_decide. Qed.

(** A key that the ledger does not report. *)
Lemma snapshot_other l f :
  mem_str f (COUNT_FIELDS ++ MINUTE_FIELDS ++ ["restored_fidelity_counts"])%list = false →
  dict_get f (snapshot l) = None.
Proof.
  intros H. apply dict_get_None. unfold dict_keys, snapshot.
  rewrite !fmap_app, <- !list_fmap_compose. unfold compose. simpl.
  intros Hin. apply not_true_iff_false in H. apply H, mem_str_In, Hin.
Qed.

Lemma captured_event_fields rid eid trace cur lease rp event :
  normalized rid → mk_TraceEvent (captured_event rid eid trace cur lease rp) = Ok event →
  kind event = LIFECYCLE ∧ ev_replay_point_id event = Some rid ∧
  sequence event = next_sequence cur.
Proof.
  intros Hn H. unfold mk_TraceEvent in H. inv_res. simpl in *.
  rewrite (normalized_require rid) in H7 by done. by simplify_eq/=.
Qed.

(** The calls of a release and the state it leaves, for an entry of a
    reachable registry. *)
Lemma release_views b ra rg :
  entry_ok b → (ra ≠ None ↔ holds_adapter b) → (rg ≠ None ↔ agent_released b = false) →
  lifecycle (point b) ≠ RELEASED →
  let r := release_result (point (after_release b ra rg)) ra rg in
  (adapter_release_calls (adapter_call b ra) ++ adapter_release_calls (agent_call b rg))%list
    = hold b ∧
  (agent_release_calls (adapter_call b ra) ++ agent_release_calls (agent_call b rg))%list
    = (if agent_released b then [] else [(agent_state_store b, agent_state_key b)]) ∧
  lifecycle (point (after_release b ra rg)) = (if is_ok r then RELEASED else FAILED) ∧
  (is_ok r = true → r = Ok (point (after_release b ra rg))).
Proof.
  intros [H1 H2 H3 H4 H5] Ha Hg Hl. unfold holds_adapter, hold, adapter_call, after_release in *.
  destruct b as [p ak abk st ad gr ar]; simpl in *.
  destruct ra as [[?|?]|], rg as [[?|?]|], ar, gr, abk; simpl in *; naive_solver.
Qed.

Definition failed_finalize (o : obs) : bool :=
  match o with ObsFinalize _ _ _ _ (Err _) => true | _ => false end.

Lemma reached_finalize id t mn entry binding rr l e :
  reached_suffix id t mn entry binding rr l e →
  existsb failed_finalize e = false.
Proof. intros H. by destruct (reached_facts _ _ _ _ _ _ _ _ H) as (? & ? & -> & _). Qed.

(** A replay that executed its suffix reached it by the full protocol. *)
Lemma run_from_executed {O} fz id target mn es (r : res (ReplayRestoreResult * O)) es' l e rr x :
  run_from_outcome fz id target mn es r es' l e → ObsExecute rr x ∈ e →
  ∃ tg b k l0 e0 rest, admission es id = Ok (b, k) ∧ reached_suffix id tg mn b k rr l0 e0 ∧
    e = (e0 ++ ObsExecute rr x :: rest)%list.
Proof.
  intros Ho Hin. destruct Ho; try (exfalso; set_solver).
  1-3: exfalso; repeat match goal with
    | H : restore_outcome _ _ _ _ _ _ |- _ => destruct H
    | H : equivalence_outcome _ _ _ _ _ _ _ |- _ => destruct H
    end; set_solver.
  all: match goal with H : reached_suffix _ _ _ _ _ _ _ _ |- _ =>
    destruct (reached_facts _ _ _ _ _ _ _ _ H) as (? & ? & -> & _) end.
  all: apply elem_of_app in Hin as [Hin|Hin]; [exfalso; set_solver|].
  all: apply elem_of_cons in Hin as [[= -> ->]|Hin];
    [|exfalso; destruct fin as [[]|]; set_solver].
  all: eexists _, _, _, _, _, _; split; [eassumption|split; [eassumption|reflexivity]].
Qed.

Section claims.
Context {O : Type} (env : Env O).

(** ** Capture *)

(** C13: a capture that fails leaves the trace and the registry's entries as
    they were, and asks for the release of exactly the adapter binding it
    acquired, once; when the lease object offers [binding_key], the same holds
    of the agent state. *)
Theorem capture_failure_compensates trace ac store ad replaces s e trace' s' :
  capture_at_head env trace ac store ad replaces s = (Err e, trace', s') →
  trace' = trace ∧ entries s' = entries s ∧
  adapter_release_calls (calls s s') = acquired (calls s s') ∧
  (leases_have_binding (calls s s') →
   agent_release_calls (calls s s') = agent_acquired (calls s s')).
Proof.
  intros H. apply capture_at_head_spec in H as (es & l & eff & D & Ho).
  rewrite (delta_calls _ _ _ _ _ D), (d_entries _ _ _ _ _ D).
  inversion Ho as [|rid eid rp cur er k lo l1 e1 x l2 e2 _ _ Hb Hc|]; subst; [done|].
  inversion Hb as [????? Hacq _|]; subst.
  apply acquisition_views in Hacq as (A1 & A2 & A3 & A4 & A5).
  apply compensation_views in Hc as (C1 & C2 & C3 & C4).
  destruct (views_app e1 e2) as (-> & -> & ->). rewrite acquired_app.
  rewrite A1, A2, A3, A4, C1, C2, C3, !app_nil_r. split_and!; try done.
  intros [Hl _]%Forall_app. by apply C4, A5.
Qed.

(** A capture that succeeds appends one lifecycle event to the trace at
    its head and adds one entry under a fresh identifier: a ready point at the
    captured cursor that holds the agent state and the adapter binding that
    the two captures returned; the point is non-replayable exactly when there
    is no binding, and a replaced point is a released one of the same trace on
    another branch whose projection does not differ. *)
Theorem capture_success_registers trace ac store ad replaces s p trace' s' :
  capture_at_head env trace ac store ad replaces s = (Ok p, trace', s') →
  ∃ cur event k lease,
    locked_cursor trace ac = Ok cur ∧ events trace' = (events trace ++ [event])%list ∧
    kind event = LIFECYCLE ∧ ev_replay_point_id event = Some (replay_point_id p) ∧
    sequence event = next_sequence cur ∧
    dict_get (replay_point_id p) (entries s) = None ∧
    entries s' = (entries s ++ [(replay_point_id p, captured_entry p k lease store ad)])%list ∧
    lifecycle p = READY ∧ cursor p = cur ∧ fidelity p = lease_fidelity lease ∧
    (binding_key lease = None ↔ fidelity p = NON_REPLAYABLE) ∧
    replacement_ok (entries s) (replaces_replay_point_id p) cur lease ∧
    calls s s' = [ObsCaptureAgent store cur (Ok (Some k));
                  ObsCaptureAdapter ad {| cap_replay_point_id := replay_point_id p;
                                          cap_cursor := cur |} (Ok (LeaseInstance lease))].
Proof.
  intros H. apply capture_at_head_spec in H as (es & l & eff & D & Ho).
  rewrite (delta_calls _ _ _ _ _ D), (d_entries _ _ _ _ _ D).
  inversion Ho as [| |rid eid rp cur q k lo tr es' l' e' Hcur Hn Hb]; subst.
  inversion Hb as [|k' raw lease event tr Hraw Hrep Hev Happ Hget]; subst.
  destruct (append_Ok _ _ _ Happ) as (_ & _ & _ & Hevents & _).
  destruct (captured_event_fields _ _ _ _ _ _ _ Hn Hev) as (Hkind & Hrid & Hseq).
  exists cur, event, k', lease. rewrite (dict_set_fresh _ _ _ Hget).
  split_and!; try done. by apply (mk_lease_binding _ _ Hraw).
Qed.

(** When [capture_replay_state] returns an object of another
    class that has no [binding_key], the compensation itself raises
    [AttributeError] and the captured agent state is never released. *)
Theorem capture_alien_lease_leaks_agent trace ac store ad replaces s r trace' s' rq cls :
  capture_at_head env trace ac store ad replaces s = (r, trace', s') →
  ObsCaptureAdapter ad rq (Ok (LeaseAlien cls None)) ∈ calls s s' →
  (∃ e, r = Err e ∧ exn_class e = "AttributeError") ∧
  (∃ k, agent_acquired (calls s s') = [(store, k)]) ∧ agent_release_calls (calls s s') = [].
Proof.
  intros H. apply capture_at_head_spec in H as (es & l & eff & D & Ho).
  rewrite (delta_calls _ _ _ _ _ D). intros Hin.
  inversion Ho as [|rid eid rp cur er k lo l1 e1 x l2 e2 _ _ Hb Hc
                  |rid eid rp cur q k lo tr es' l' e' _ _ Hb]; subst; [set_solver| |].
  - inversion Hb as [????? Hacq _|]; subst.
    assert (lo = LeaseAlien cls None ∧ k ≠ None) as [-> Hk].
    { inversion Hc as [|? ra rg _ Ha Hg]; subst.
      - destruct Hacq; set_solver.
      - unfold compensation_calls in Hin. destruct Hacq; repeat case_match; set_solver. }
    destruct (acquisition_views _ _ _ _ _ _ _ Hacq) as (_ & _ & A3 & A4 & _).
    inversion Hc as [y Hy|? ? ? Hy]; simplify_eq/=.
    destruct (views_app e1 []) as (_ & -> & ->). rewrite A3, A4. simpl.
    destruct k as [k|]; [|done]. split_and!; eauto.
  - inversion Hb; subst. set_solver.
Qed.

(** ** The registry *)

(** C32: in every reachable registry identifiers are unique and name their
    points, no operation leaves a point in state releasing, a point is released
    exactly when both its states are, a ready point still holds its agent state
    and its binding, and a point has no binding exactly when it is
    non-replayable. *)
Theorem registry_invariant s id b :
  reachable env s → dict_get id (entries s) = Some b →
  NoDup (dict_keys (entries s)) ∧ replay_point_id (point b) = id ∧
  lifecycle (point b) ≠ RELEASING ∧
  (lifecycle (point b) = RELEASED ↔ adapter_released b = true ∧ agent_released b = true) ∧
  (lifecycle (point b) = READY →
   agent_released b = false ∧ (adapter_released b = true → adapter_binding_key b = None)) ∧
  (adapter_binding_key b = None ↔ fidelity (point b) = NON_REPLAYABLE).
Proof.
  intros Hr Hb. destruct (reachable_wf env s Hr) as [Hn He].
  destruct (He _ _ Hb) as [Hid [H1 H2 H3 H4 H5]]. done.
Qed.

Lemma metrics_count s f :
  mem_str f COUNT_FIELDS = true → dict_get f (metrics s) = Some (PInt (cnt s f)).
Proof.
  intros Hf. unfold metrics. rewrite dict_get_app, snapshot_count by done. done.
Qed.

Lemma metrics_active_bindings s :
  registry_wf (entries s) →
  dict_get "active_adapter_binding_count" (metrics s)
    = Some (PInt (Z.of_nat (length (held (entries s))))).
Proof.
  intros Hwf. unfold metrics. rewrite dict_get_app, snapshot_other by done. simpl.
  do 3 f_equal. unfold count_entries. destruct Hwf as [Hn He]. unfold held.
  assert (∀ e, e ∈ entries s → adapter_binding_key e.2 = None → adapter_released e.2 = true) as Hb.
  { intros [k b] Hin Hk. simpl in *. destruct (He k b) as [_ Hok]; [by apply dict_in_get|].
    by apply (eo_unbound _ Hok). }
  clear Hn He. induction (entries s) as [|e es IH]; [done|].
  rewrite filter_cons, bind_cons, length_app. unfold hold at 1.
  destruct (adapter_released e.2) eqn:Hr; simpl.
  - apply IH. set_solver.
  - destruct (adapter_binding_key e.2) eqn:Hk; [|rewrite Hb in Hr by set_solver; done].
    cbn [length app]. rewrite !Nat2Z.inj_succ, IH by set_solver. done.
Qed.

(** C4: over the whole history of a reachable registry, every binding that an
    adapter handed out was released successfully, or is held by an entry, or
    was orphaned by a failed compensation, each exactly once; and the metrics
    report the number of the held and of the orphaned ones. *)
Theorem bindings_accounted s :
  reachable env s →
  ∃ orphans,
    (acquired (effects (hist s)) ≡ₚ
       released (effects (hist s)) ++ held (entries s) ++ orphans)%list ∧
    dict_get "active_adapter_binding_count" (metrics s)
      = Some (PInt (Z.of_nat (length (held (entries s))))) ∧
    dict_get "orphaned_adapter_binding_count" (metrics s)
      = Some (PInt (Z.of_nat (length orphans))).
Proof.
  intros Hr. destruct (reachable_accounted env s Hr) as (orphans & Hp & Hl). exists orphans.
  split; [done|]. split; [by apply metrics_active_bindings, (reachable_wf env)|].
  rewrite metrics_count by done. unfold ORPHANS in Hl. by rewrite Hl.
Qed.

(** If adapters hand out distinct bindings, no binding is ever released
    successfully twice, and no binding that an entry still holds has been
    released. *)
Theorem bindings_released_once s :
  reachable env s → NoDup (acquired (effects (hist s))) →
  NoDup (released (effects (hist s))) ∧
  ∀ b, b ∈ held (entries s) → b ∉ released (effects (hist s)).
Proof.
  intros Hr Hn. destruct (reachable_accounted env s Hr) as (orphans & Hp & _).
  rewrite Hp in Hn. apply NoDup_app in Hn as (H1 & H2 & _). split; [done|].
  intros b Hb Hin. apply (H2 b Hin). apply elem_of_app. by left.
Qed.

(** The counters that the metrics report balance in every reachable
    registry: each attempt of a replay, a restore, an equivalence check, a
    suffix, a finalization, a release or a child group is counted as exactly
    one success or failure (of the kinds the table lists). *)
Theorem counters_balance s f parts :
  reachable env s → (f, parts) ∈ BALANCES →
  dict_get f (metrics s) = Some (PInt (foldr (λ g acc, (cnt s g + acc)%Z) 0%Z parts)) ∧
  Forall (λ g, dict_get g (metrics s) = Some (PInt (cnt s g))) parts.
Proof.
  intros Hr Hb. rewrite <- (reachable_balanced env s f parts Hr Hb).
  assert (Forall (λ b, Forall (λ g, mem_str g COUNT_FIELDS = true) (b.1 :: b.2)) BALANCES) as Hk.
  { repeat (constructor; [repeat (constructor; [reflexivity|]); constructor|]). constructor. }
  pose proof (proj1 (Forall_forall _ _) Hk _ Hb) as [Hf Hp]%Forall_cons. simpl in *.
  split; [by apply metrics_count|]. eapply Forall_impl; [exact Hp|]. intros g Hg.
  by apply metrics_count.
Qed.

(** ** Release *)

(** Releasing a released point changes nothing and calls nobody.
    Otherwise the adapter is asked exactly for the binding the entry still
    holds, the store exactly for an unreleased agent state, no other entry
    changes, and the point ends released when the operation returns it and
    failed when the operation raises. *)
Theorem release_settles s id b r s' :
  reachable env s → dict_get id (entries s) = Some b → release env id s = (r, s') →
  (lifecycle (point b) = RELEASED →
   r = Ok (point b) ∧ entries s' = entries s ∧ calls s s' = []) ∧
  (lifecycle (point b) ≠ RELEASED → ∃ b',
   entries s' = dict_set id b' (entries s) ∧
   adapter_release_calls (calls s s') = hold b ∧
   agent_release_calls (calls s s')
     = (if agent_released b then [] else [(agent_state_store b, agent_state_key b)]) ∧
   lifecycle (point b') = (if is_ok r then RELEASED else FAILED) ∧
   (is_ok r = true → r = Ok (point b'))).
Proof.
  intros Hr Hb H. destruct (rw_entries _ (reachable_wf env s Hr) _ _ Hb) as [_ Hok].
  pose proof (wp_elim _ _ _ _ _ (release_spec env id s) H) as (es & l & e & D & Ho).
  rewrite (delta_calls _ _ _ _ _ D), (d_entries _ _ _ _ _ D).
  inversion Ho as [|b0 Hb0|b0 ra rg c Hb0 Hl Ha Hg]; subst; simplify_eq.
  - split; [done|congruence].
  - split; [congruence|]. intros _. exists (after_release b ra rg).
    destruct (views_app (adapter_call b ra) (agent_call b rg)) as (-> & -> & _).
    split; [done|]. by apply release_views.
Qed.

(** A release that returned can be repeated: it returns the same point,
    calls nobody and changes no entry. *)
Theorem release_idempotent s id p s1 r s2 :
  reachable env s → release env id s = (Ok p, s1) → release env id s1 = (r, s2) →
  r = Ok p ∧ entries s2 = entries s1 ∧ calls s1 s2 = [].
Proof.
  intros Hr H1 H2.
  assert (∃ b, dict_get id (entries s1) = Some b ∧ point b = p ∧ lifecycle p = RELEASED)
    as (b & Hb & Hp & Hl).
  { pose proof (wp_elim _ _ _ _ _ (release_spec env id s) H1) as (es & l & e & D & Ho).
    rewrite (d_entries _ _ _ _ _ D).
    inversion Ho as [|b0 Hb0|b0 ra rg c Hb0 Hl Ha Hg Hc Hres]; subst; [eauto|].
    destruct (rw_entries _ (reachable_wf env s Hr) _ _ Hb0) as [_ Hok].
    destruct (release_views b0 ra rg Hok Ha Hg Hl) as (_ & _ & Hlc & Heq).
    change (release_result (point (after_release b0 ra rg)) ra rg = Ok p) in Hres.
    rewrite Hres in Hlc, Heq. specialize (Heq eq_refl). injection Heq as Heq.
    exists (after_release b0 ra rg). rewrite dict_get_set_eq, Heq. done. }
  pose proof (wp_elim _ _ _ _ _ (release_spec env id s1) H2) as (es & l & e & D & Ho).
  rewrite (delta_calls _ _ _ _ _ D), (d_entries _ _ _ _ _ D).
  inversion Ho as [|b0 Hb0|b0 ra rg c Hb0 Hl' _ _]; subst; simplify_eq; done.
Qed.

(** When the collaborators' release calls return, releasing a known point
    returns it in state released, from any state of the registry: a release
    that failed can be retried to completion. *)
Theorem release_completes s id b :
  (∀ h ad k, release_replay_state env h ad k = Ok tt) →
  (∀ h st k, release_agent_state env h st k = Ok tt) →
  reachable env s → dict_get id (entries s) = Some b →
  ∃ p s', release env id s = (Ok p, s') ∧ lifecycle p = RELEASED ∧ replay_point_id p = id.
Proof.
  intros Hra Hrg Hr Hb. destruct (rw_entries _ (reachable_wf env s Hr) _ _ Hb) as [Hid Hok].
  assert (wp (release env id) s (λ r _, ∃ p, r = Ok p ∧ lifecycle p = RELEASED ∧
    replay_point_id p = id)) as Hw.
  { pose proof (delta_refl s) as D. unfold release, release_body, release_mark.
    unfold release_adapter, release_agent, release_settle.
    sym. all: try congruence; simplify_eq/=; eexists; (split; [done|split; [|done]]); try done.
    all: unfold released_lifecycle; simpl; repeat case_match; try done.
    all: exfalso; pose proof (eo_unbound _ Hok) as Hu.
    all: destruct (adapter_released b), (agent_released b), (adapter_binding_key b); simpl in *;
      try congruence; by specialize (Hu eq_refl). }
  unfold wp in Hw. destruct (release env id s) as [r s'] eqn:E. simpl in Hw.
  destruct Hw as (p & -> & Hp). by exists p, s'.
Qed.

(** ** Replay *)

(** C1: a suffix is executed only from a ready point, after the adapter
    restored the point's binding, the restored state met the equivalence
    contract, and the agent state was restored, in this order; what the suffix
    sees never claims a fidelity above the captured one, and it is marked
    eligible for promotion exactly when it is equivalent, at least semantically
    equivalent and meets the requested fidelity. *)
Theorem suffix_only_after_validation id target minimum execute s r s' rr x :
  run_from env id target minimum execute s = (r, s') → ObsExecute rr x ∈ calls s s' →
  ∃ b k receipt request rest,
    dict_get id (entries s) = Some b ∧ lifecycle (point b) = READY ∧
    adapter_binding_key b = Some k ∧
    calls s s' =
      ObsRestoreAdapter (adapter b) k request (Ok (Some receipt))
      :: ObsValidate (adapter b) k receipt (Ok (Some (report rr)))
      :: ObsRestoreAgent (agent_state_store b) (agent_state_key b) (Ok tt)
      :: ObsExecute rr x :: rest ∧
    contract_ok (point b) receipt (report rr) ∧
    rr_achieved_fidelity rr = rp_achieved_fidelity (report rr) ∧
    rr_achieved_fidelity rr ≠ NON_REPLAYABLE ∧
    fidelity_meets (fidelity (point b)) (rr_achieved_fidelity rr) = true ∧
    promotion_eligible rr =
      equivalent (report rr) && fidelity_meets (rr_achieved_fidelity rr) SEMANTIC_EQUIVALENT
      && fidelity_meets (rr_achieved_fidelity rr) minimum.
Proof.
  intros H. pose proof (wp_elim _ _ _ _ _ (run_from_spec env id target minimum execute s) H)
    as (es & l & e & D & Ho). rewrite (delta_calls _ _ _ _ _ D). intros Hin.
  destruct (run_from_executed _ _ _ _ _ _ _ _ _ _ _ Ho Hin)
    as (tg & b & k & l0 & e0 & rest & Hadm & Hreach & ->).
  apply admission_Ok_inv in Hadm as (Hb & Hrd & _ & Hk).
  destruct (reached_facts _ _ _ _ _ _ _ _ Hreach) as (receipt & rq & -> & Hfacts).
  exists b, k, receipt, rq, rest. split_and!; try done; naive_solver.
Qed.

(** A replay that returns leaves every entry as it was; its result carries
    the validated restore and the suffix's outcome, and if the adapter has a
    finalizer it was told of the success and accepted it. *)
Theorem replay_returns id target minimum execute s rr o s' :
  run_from env id target minimum execute s = (Ok (rr, o), s') →
  entries s' = entries s ∧ rr_replay_point_id rr = id ∧
  ∃ rr0 b k request, ObsExecute rr0 (Ok tt) ∈ calls s s' ∧
    rr = with_suffix rr0 (suffix_minutes rr) (replay_wall_minutes rr) ∧
    dict_get id (entries s) = Some b ∧ adapter_binding_key b = Some k ∧
    (finalizes env (adapter b) = true →
     ObsFinalize (adapter b) k request true (Ok tt) ∈ calls s s').
Proof.
  intros H. pose proof (wp_elim _ _ _ _ _ (run_from_spec env id target minimum execute s) H)
    as (es & l & e & D & Ho). rewrite (delta_calls _ _ _ _ _ D), (d_entries _ _ _ _ _ D).
  inversion Ho as [| | | | | | |tg b k rr0 o' sm wall fin l0 e0 Ht Hadm Hreach Hfin Hfe]; subst.
  apply admission_Ok_inv in Hadm as (Hb & Hrd & _ & Hk).
  split; [done|]. split; [by destruct Hreach|].
  exists rr0, b, k, {| rst_replay_point_id := id; rst_target_branch_id := tg;
                       rst_minimum_fidelity := minimum |}.
  split; [set_solver|]. split; [by destruct rr0|].
  split; [done|]. split; [done|]. intros Hfz.
  destruct fin as [[[]|]|]; try done; [set_solver|]. by apply Hfin in Hfz.
Qed.

(** A replay changes the registry's entries exactly when finalizing the
    suffix failed: then the operation raises and the point is quarantined in
    state failed, whatever the suffix itself did. *)
Theorem replay_quarantine id target minimum execute s r s' :
  run_from env id target minimum execute s = (r, s') →
  if existsb failed_finalize (calls s s')
  then is_ok r = false ∧ ∃ b, dict_get id (entries s) = Some b ∧
         lifecycle (point b) = READY ∧ entries s' = set_failed id b (entries s)
  else entries s' = entries s.
Proof.
  intros H. pose proof (wp_elim _ _ _ _ _ (run_from_spec env id target minimum execute s) H)
    as (es & l & e & D & Ho). rewrite (delta_calls _ _ _ _ _ D), (d_entries _ _ _ _ _ D).
  destruct Ho; try done.
  - destruct H2; done.
  - destruct H2, H3; done.
  - destruct H2, H3; done.
  - rewrite existsb_app, (reached_finalize _ _ _ _ _ _ _ _ H2). simpl.
    by destruct fin as [[]|].
  - rewrite existsb_app, (reached_finalize _ _ _ _ _ _ _ _ H2). simpl.
    destruct fin as [[]|]; try done. simpl. split; [done|].
    apply admission_Ok_inv in H1 as (? & ? & _). eauto.
  - rewrite existsb_app, (reached_finalize _ _ _ _ _ _ _ _ H2). simpl.
    by destruct fin as [[]|].
Qed.

(** ** Selection *)

(** The selected point is a ready, replayable point of the branch at or
    before the affected event; if some candidate meets the requested fidelity
    it is the latest of those that do, and otherwise the latest candidate. *)
Theorem selection_is_nearest_trusted tid bid affected minimum s p s' :
  select_before tid bid affected minimum s = (Ok p, s') →
  candidate_of tid bid affected s p ∧ entries s' = entries s ∧
  ∀ q, candidate_of tid bid affected s q →
    (fidelity_meets (fidelity q) minimum = true →
       fidelity_meets (fidelity p) minimum = true ∧ (point_sequence q ≤ point_sequence p)%Z) ∧
    (fidelity_meets (fidelity p) minimum = false → (point_sequence q ≤ point_sequence p)%Z).
Proof.
  intros H. pose proof (wp_elim _ _ _ _ _ (select_before_selects tid bid affected minimum s) H)
    as [(l & D) [Hc Hp]]. split_and!; [done|by rewrite (d_entries _ _ _ _ _ D)|]. intros q Hq. by apply Hp.
Qed.

(** A selection with non-blank identifiers succeeds exactly when a
    candidate exists. *)
Theorem selection_total tid bid affected minimum s r s' :
  py_strip tid ≠ "" → py_strip bid ≠ "" →
  select_before tid bid affected minimum s = (r, s') →
  is_ok r = true ↔ ∃ p, candidate_of tid bid affected s p.
Proof.
  intros Ht Hb H.
  pose proof (wp_elim _ _ _ _ _ (select_before_selects tid bid affected minimum s) H) as [_ Hp].
  destruct r as [p|e]; simpl; [split; [|done]; exists p; by destruct Hp|].
  split; [done|]. intros [p Hc]. destruct Hp as [|[|Hn]]; [done|done|]. by destruct (Hn p).
Qed.
End claims.

(** ** The hypotheses hold on concrete runs *)

Definition execute0 : history → ReplayRestoreResult → res Z := λ h _, Ok (fresh h).
Definition replayed : res (ReplayRestoreResult * Z) * rstate :=
  run_from env0 id1 "b2" EXACT execute0 state1.
Definition unfinished : res (ReplayRestoreResult * Z) * rstate :=
  run_from unfinished_env id1 "b2" EXACT execute0 state1.
Definition released1 : res ReplayPoint * rstate := release env0 id1 state1.
Definition selected1 : res ReplayPoint * rstate := select_before "t" "b" 0 EXACT state1.

Definition stuck_error : exn :=
  raise_from (TypeError "capture_replay_state must return an AdapterStateLease") boom.

Lemma capture_failure_compensates_witness :
  let s := (captured stuck_env).2 in
  acquired (calls empty_registry s) = [(2%Z, 4%Z)] ∧
  adapter_release_calls (calls empty_registry s) = acquired (calls empty_registry s) ∧
  agent_release_calls (calls empty_registry s) = agent_acquired (calls empty_registry s).
Proof.
  split; [vm_compute; reflexivity|].
  destruct (capture_failure_compensates stuck_env trace0 agent0 1 2 None empty_registry
    stuck_error trace0 (captured stuck_env).2) as (_ & _ & H1 & H2); [vm_compute; reflexivity|].
  split; [exact H1|]. apply H2. vm_compute. repeat constructor.
Defined.

Lemma capture_success_registers_witness :
  lifecycle point1 = READY ∧ ∃ event, events (captured env0).1.2 = [event].
Proof.
  destruct (capture_success_registers env0 trace0 agent0 1 2 None empty_registry point1
    (captured env0).1.2 state1) as (cur & event & k & lease & H); [vm_compute; reflexivity|].
  destruct H as (_ & He & _ & _ & _ & _ & _ & Hl & _). split; [exact Hl|]. exists event. exact He.
Defined.

Lemma capture_alien_lease_leaks_agent_witness :
  let s := (captured alien_env).2 in
  (∃ k, agent_acquired (calls empty_registry s) = [(1%Z, k)]) ∧
  agent_release_calls (calls empty_registry s) = [].
Proof.
  refine (proj2 (capture_alien_lease_leaks_agent alien_env trace0 agent0 1 2 None empty_registry
    (captured alien_env).1.1 (captured alien_env).1.2 (captured alien_env).2
    {| cap_replay_point_id := id1; cap_cursor := cursor point1 |} "Lease" _ _)).
  - vm_compute. reflexivity.
  - vm_compute. right. left.
Defined.

Lemma registry_invariant_witness :
  lifecycle (point entry1) ≠ RELEASING ∧ replay_point_id (point entry1) = id1.
Proof.
  destruct (registry_invariant env0 state1 id1 entry1) as (_ & H1 & H2 & _);
    [apply reach_captured|vm_compute; reflexivity|]. split; [exact H2|exact H1].
Defined.

Lemma bindings_accounted_witness :
  acquired (effects (hist state1)) = [(2%Z, 4%Z)] ∧ ∃ orphans,
    (acquired (effects (hist state1)) ≡ₚ
       released (effects (hist state1)) ++ held (entries state1) ++ orphans)%list.
Proof.
  split; [vm_compute; reflexivity|].
  destruct (bindings_accounted env0 state1) as (o & H & _); [apply reach_captured|].
  exists o. exact H.
Defined.

Lemma bindings_released_once_witness :
  NoDup (released (effects (hist state1))).
Proof.
  refine (proj1 (bindings_released_once env0 state1 (reach_captured env0) _)).
  vm_compute. apply NoDup_singleton.
Defined.

Lemma counters_balance_witness :
  dict_get "release_attempt_count" (metrics state1)
    = Some (PInt (cnt state1 "release_success_count" + (cnt state1 "release_failure_count" + 0))).
Proof.
  refine (proj1 (counters_balance env0 state1 "release_attempt_count"
    ["release_success_count"; "release_failure_count"] (reach_captured env0) _)).
  vm_compute. do 6 right. left.
Defined.

Lemma release_settles_witness : ∃ b', entries released1.2 = dict_set id1 b' (entries state1).
Proof.
  destruct (release_settles env0 state1 id1 entry1 released1.1 released1.2) as [_ H];
    [apply reach_captured|vm_compute; reflexivity|vm_compute; reflexivity|].
  destruct H as (b' & H & _); [vm_compute; discriminate|]. exists b'. exact H.
Defined.

Lemma release_idempotent_witness :
  (release env0 id1 released1.2).1 = released1.1.
Proof.
  refine (proj1 (release_idempotent env0 state1 id1 (with_lifecycle point1 RELEASED) released1.2
    (release env0 id1 released1.2).1 (release env0 id1 released1.2).2 (reach_captured env0) _ _));
    vm_compute; reflexivity.
Defined.

Lemma release_completes_witness :
  ∃ p s', release env0 id1 state1 = (Ok p, s') ∧ lifecycle p = RELEASED ∧ replay_point_id p = id1.
Proof.
  apply (release_completes env0 state1 id1 entry1);
    [intros; reflexivity|intros; reflexivity|apply reach_captured|vm_compute; reflexivity].
Defined.

Definition restore1 : ReplayRestoreResult := restore_result id1 "b2" good_receipt good_report true f0 f0.

Lemma suffix_only_after_validation_witness :
  promotion_eligible restore1 = true ∧ ∃ b receipt, contract_ok (point b) receipt (report restore1).
Proof.
  split; [reflexivity|].
  destruct (suffix_only_after_validation env0 id1 "b2" EXACT execute0 state1 replayed.1 replayed.2
    restore1 (Ok tt)) as (b & k & receipt & rq & rest & H);
    [vm_compute; reflexivity|vm_compute; right; right; right; left|].
  exists b, receipt. destruct H as (_ & _ & _ & _ & H & _). exact H.
Defined.

Lemma replay_returns_witness : entries replayed.2 = entries state1.
Proof.
  refine (proj1 (replay_returns env0 id1 "b2" EXACT execute0 state1 restore1 17%Z replayed.2 _)).
  vm_compute. reflexivity.
Defined.

Lemma replay_quarantine_witness :
  is_ok unfinished.1 = false.
Proof.
  pose proof (replay_quarantine unfinished_env id1 "b2" EXACT execute0 state1 unfinished.1
    unfinished.2) as H.
  assert (existsb failed_finalize (calls state1 unfinished.2) = true) as E by (vm_compute; reflexivity).
  rewrite E in H. refine (proj1 (H _)). vm_compute. reflexivity.
Defined.

Lemma selection_is_nearest_trusted_witness : candidate_of "t" "b" 0 state1 point1.
Proof.
  refine (proj1 (selection_is_nearest_trusted "t" "b" 0 EXACT state1 point1 selected1.2 _)).
  vm_compute. reflexivity.
Defined.

Lemma selection_total_witness : ∃ p, candidate_of "t" "b" 0 state1 p.
Proof.
  apply (selection_total "t" "b" 0 EXACT state1 selected1.1 selected1.2);
    vm_compute; first [discriminate|reflexivity].
Defined.
