(* ===== verification/RegistryThreads.v ===== *)
(** [run_from] and [release] of several threads on one registry:
    [loopx/capabilities/explore/replay_runtime.py].

    A thread is a [prog]: actions on the registry, which are the sections under
    the registry lock and the blocks around one call of a collaborator, and the
    acquisition and the release of the [replay_lock] of its point.  The actions
    are the blocks of [run_from] and [release] in ReplayRegistry.v; between two
    actions any other thread may run.  [solo] runs a thread alone, [step] gives
    one turn to one thread of a [config]. *)

From stdpp Require Import base strings list sets gmap.
From Stdlib Require Import ZArith Lia.
From S2P Require Import Prelude PyFloat PyValue TraceRuntime ReplayMetrics ReplayTypes.
From S2P Require Import ReplayRegistry RegistryFacts.

Inductive prog (A : Type) :=
| Halt (r : res A)
| Act (f : rstate → prog A * rstate)
| Lock (k : prog A)
| Unlock (k : prog A).
Arguments Halt {A} r.
Arguments Act {A} f.
Arguments Lock {A} k.
Arguments Unlock {A} k.

(** One action: [k] goes on with its value, [h] with its exception. *)
Definition act {A X} (m : M rstate X) (k : X → prog A) (h : exn → prog A) : prog A :=
  Act (λ s, match m s with (Ok x, s') => (k x, s') | (Err e, s') => (h e, s') end).

(** A thread that runs alone. *)
Fixpoint solo {A} (p : prog A) : M rstate A :=
  match p with
  | Halt r => lift r
  | Act f => λ s, match f s with (p', s') => solo p' s' end
  | Lock k | Unlock k => solo k
  end.

Section threads.
Context {O : Type} (env : Env O).

(** What [run_from] and [release] return. *)
Definition answer : Type := (ReplayRestoreResult * O) + ReplayPoint.

(** The [finally] block, and the [except] block before it. *)
Definition leave (minutes : string) (started : float) (r : res answer) : prog answer :=
  act (add_elapsed env minutes started) (λ _, Halt r) (λ e, Halt (Err e)).

Definition failed (counter minutes : string) (started : float) (e : exn) : prog answer :=
  act (inc counter) (λ _, leave minutes started (Err e)) (λ e', leave minutes started (Err e')).

Definition run_from_thread (id target_branch_id : string) (minimum : ReplayFidelity)
    (execute : history → ReplayRestoreResult → res O) : prog answer :=
  act (target_branch_id ← lift (require_nonempty_text target_branch_id "target_branch_id");
       replay_started ← now env; _ ← inc "replay_attempt_count"; mret (target_branch_id, replay_started))
    (λ ts,
      let replay_started := ts.2 in
      let fail := failed "replay_failure_count" "replay_wall_minutes" replay_started in
      act (check_replayable id) (λ binding,
        Lock (act (recheck_ready id) (λ entry,
          let request := {| rst_replay_point_id := id; rst_target_branch_id := ts.1;
                            rst_minimum_fidelity := minimum |} in
          act (restore_phase env entry binding request) (λ rm,
            act (equivalence_phase env entry binding rm.1 minimum) (λ rem,
              act (restore_agent_phase env id ts.1 entry rm rem) (λ restore,
                act (suffix_execute env restore execute) (λ so,
                  act (suffix_finalize env entry binding request so.1 so.2) (λ fm,
                    act (settle_suffix env id replay_started restore so.2 fm.1 fm.2)
                      (λ a, Unlock (leave "replay_wall_minutes" replay_started (Ok (inl a))))
                      (λ e, Unlock (fail e)))
                    (λ e, Unlock (fail e)))
                  (λ e, Unlock (fail e)))
                (λ e, Unlock (fail e)))
              (λ e, Unlock (fail e)))
            (λ e, Unlock (fail e)))
          (λ e, Unlock (fail e))))
        fail)
    (λ e, Halt (Err e)).

Definition release_thread (id : string) : prog answer :=
  act (release_started ← now env; _ ← inc "release_attempt_count"; mret release_started)
    (λ release_started,
      let fail := failed "release_failure_count" "release_minutes" release_started in
      let finish p := leave "release_minutes" release_started (Ok (inr p)) in
      act (release_mark id) (λ done,
        match done with
        | Some p => finish p
        | None =>
            Lock (act (release_adapter env id) (λ adapter_error,
              act (release_agent env id) (λ agent_error,
                Unlock (act (release_settle id adapter_error agent_error) finish fail))
                (λ e, Unlock (fail e)))
              (λ e, Unlock (fail e)))
        end)
        fail)
    (λ e, Halt (Err e)).

(** An operation that a thread performs. *)
Inductive operation :=
| RunFrom (id target_branch_id : string) (minimum : ReplayFidelity)
    (execute : history → ReplayRestoreResult → res O)
| Release (id : string).

Definition op_point (o : operation) : string :=
  match o with RunFrom id _ _ _ | Release id => id end.

Definition op_prog (o : operation) : prog answer :=
  match o with RunFrom id t m ex => run_from_thread id t m ex | Release id => release_thread id end.

(** * Configurations *)

Record thread := { th_point : string; th_prog : prog answer }.

(** The registry, the holder of each replay lock, the threads, and the calls
    made so far with the point they were made for. *)
Record config := {
  reg : rstate;
  holders : gmap string nat;
  threads : list thread;
  log : list (string * obs)
}.

Definition advance (c : config) (t : nat) (th : thread) (p : prog answer) (s : rstate)
    (locks : gmap string nat) : config :=
  {| reg := s; holders := locks;
     threads := <[t := {| th_point := th_point th; th_prog := p |}]> (threads c);
     log := (log c ++ (pair (th_point th) <$> calls (reg c) s))%list |}.

Definition step (c : config) (t : nat) : config :=
  match threads c !! t with
  | None => c
  | Some th =>
      match th_prog th with
      | Halt _ => c
      | Act f => let '(p, s) := f (reg c) in advance c t th p s (holders c)
      | Lock k =>
          match holders c !! th_point th with
          | Some _ => c
          | None => advance c t th k (reg c) (<[th_point th := t]> (holders c))
          end
      | Unlock k => advance c t th k (reg c) (delete (th_point th) (holders c))
      end
  end.

Definition start (s : rstate) (ops : list operation) : config :=
  {| reg := s; holders := ∅;
     threads := (λ o, {| th_point := op_point o; th_prog := op_prog o |}) <$> ops; log := [] |}.

Definition run (c : config) (schedule : list nat) : config := fold_left step schedule c.

Definition halted (th : thread) : bool := match th_prog th with Halt _ => true | _ => false end.
End threads.
Arguments thread O : clear implicits.
Arguments config O : clear implicits.
Arguments operation O : clear implicits.
