(* ===== verification/RegistryConcurrency.v ===== *)
(** The theorems about threads on one registry: a thread alone is [run_from] or
    [release]; under every interleaving a binding is released at most once and
    never used after its release, the registry is well formed when all threads
    have ended, and all threads end. *)

From stdpp Require Import base strings list sets gmap.
From Stdlib Require Import ZArith Lia.
From S2P Require Import Prelude PyFloat PyValue TraceRuntime ReplayMetrics ReplayTypes.
From S2P Require Import ReplayRegistry RegistryFacts RegistrySpec RegistryInvariant.
From S2P Require Import ExampleEnv RegistryThreads ListLib.

(** * A thread alone *)

Definition wrap {A B} (f : A → B) (x : res A * rstate) : res B * rstate :=
  (match x.1 with Ok a => Ok (f a) | Err e => Err e end, x.2).

Section solo.
Context {O : Type} (env : Env O).

Lemma solo_act {A X} (m : M rstate X) (k : X → prog A) (h : exn → prog A) s :
  solo (act m k h) s =
  match m s with (Ok x, s') => solo (k x) s' | (Err e, s') => solo (h e) s' end.
Proof. unfold act. simpl. by destruct (m s) as [[x|e] s']. Qed.

Lemma solo_leave field started (r : res (answer (O := O))) s :
  solo (leave env field started r) s =
  match add_elapsed env field started s with (Ok _, s') => (r, s') | (Err e, s') => (Err e, s') end.
Proof. unfold leave. by rewrite solo_act. Qed.

Lemma solo_failed counter field started e s :
  solo (A := answer (O := O)) (failed env counter field started e) s =
  try_finally (_ ← inc counter; raise e) (add_elapsed env field started) s.
Proof.
  unfold failed, try_finally. rewrite solo_act. unfold mbind, M_bind, raise.
  by destruct (inc counter s) as [[[]|e'] s']; rewrite solo_leave.
Qed.

(** One block of a body under the [except] and the [finally]. *)
Lemma guarded_bind {A X} counter field started (m : M rstate X) (k : X → M rstate A) s :
  try_finally (try_except (m ≫= k) (λ e, _ ← inc counter; raise e)) (add_elapsed env field started) s =
  match m s with
  | (Ok x, s') =>
      try_finally (try_except (k x) (λ e, _ ← inc counter; raise e)) (add_elapsed env field started) s'
  | (Err e, s') => try_finally (_ ← inc counter; raise e) (add_elapsed env field started) s'
  end.
Proof. unfold try_finally, try_except, mbind, M_bind. by destruct (m s) as [[x|e] s']. Qed.

Lemma wrap_failed {A B} (f : A → B) counter field started e s :
  wrap f (try_finally (_ ← inc counter; raise e) (add_elapsed env field started) s) =
  try_finally (_ ← inc counter; raise e) (add_elapsed env field started) s.
Proof.
  unfold wrap, try_finally, mbind, M_bind, raise. destruct (inc counter s) as [[[]|e'] s']; simpl;
    by destruct (add_elapsed env field started s') as [[?|?] ?].
Qed.

Ltac block :=
  rewrite guarded_bind, solo_act;
  match goal with |- match ?m with _ => _ end = _ => destruct m as [[?|?] ?] end;
  [|cbn [solo]; rewrite solo_failed; by rewrite wrap_failed]; cbn [solo].

Lemma wrap_return {A B} (f : A → B) counter field started (m : M rstate A) s :
  wrap f (try_finally (try_except m (λ e, _ ← inc counter; raise e)) (add_elapsed env field started) s) =
  match m s with
  | (Ok a, s') => try_finally (lift (Ok (f a))) (add_elapsed env field started) s'
  | (Err e, s') => try_finally (_ ← inc counter; raise e) (add_elapsed env field started) s'
  end.
Proof.
  destruct (m s) as [[a|e] s'] eqn:E.
  - unfold wrap, try_finally, try_except, lift. rewrite E.
    by destruct (add_elapsed env field started s') as [[?|?] ?].
  - rewrite <- (wrap_failed f). unfold try_finally, try_except. by rewrite E.
Qed.

Lemma run_bind {A X} (m : M rstate X) (f : X → M rstate A) s :
  (m ≫= f) s = match m s with (Ok x, s') => f x s' | (Err e, s') => (Err e, s') end.
Proof. done. Qed.

Lemma run_from_solo_eq id target minimum execute s :
  solo (run_from_thread env id target minimum execute) s =
  wrap inl (run_from env id target minimum execute s).
Proof.
  unfold run_from_thread, run_from. rewrite solo_act.
  rewrite !run_bind. destruct (lift _ s) as [[t|e] s0]; [|done].
  rewrite !run_bind. destruct (now env s0) as [[started|e] s1]; [|done].
  rewrite !run_bind. destruct (inc "replay_attempt_count" s1) as [[[]|e] s2]; [|done].
  cbn [mret M_ret fst snd]. unfold run_from_body. do 5 block.
  rewrite guarded_bind, solo_act. unfold suffix_phase. rewrite run_bind.
  destruct (suffix_execute env _ execute _) as [[so|e] s3];
    [|cbn [solo]; rewrite solo_failed; by rewrite wrap_failed].
  rewrite solo_act, run_bind.
  destruct (suffix_finalize env _ _ _ _ _ s3) as [[fm|e] s4];
    [|cbn [solo]; rewrite solo_failed; by rewrite wrap_failed].
  cbn [mret M_ret fst snd]. rewrite solo_act, wrap_return.
  destruct (settle_suffix env id started _ _ _ _ s4) as [[ans|e] s5]; cbn [solo].
  - by rewrite solo_leave.
  - by rewrite solo_failed.
Qed.

Lemma release_solo_eq id s :
  solo (release_thread env id) s = wrap inr (release env id s).
Proof.
  unfold release_thread, release. rewrite solo_act.
  rewrite !run_bind. destruct (now env s) as [[started|e] s1]; [|done].
  rewrite !run_bind. destruct (inc "release_attempt_count" s1) as [[[]|e] s2]; [|done].
  cbn [mret M_ret fst snd]. unfold release_body.
  rewrite guarded_bind, solo_act. destruct (release_mark id s2) as [[[p|]|e] s3]; cbn [solo].
  - rewrite wrap_return. by rewrite solo_leave.
  - do 2 block. rewrite solo_act, wrap_return.
    destruct (release_settle id _ _ _) as [[ans|e] s5].
    + by rewrite solo_leave.
    + by rewrite solo_failed.
  - rewrite solo_failed. by rewrite wrap_failed.
Qed.
End solo.

(** * The protocol of a thread *)

(** Where a thread stands with respect to its point: it has neither marked it
    nor holds its lock ([Fresh]); it holds the lock of a replay, before and
    after the second check ([Entering], [Using]); it has marked the point as
    releasing, without and with the lock ([Marked], [Releasing]); or it has
    written the final lifecycle ([Closed]). *)
Inductive mode := Fresh | Entering | Using | Marked | Releasing | Closed.

#[export] Instance mode_eq_dec : EqDecision mode.
Proof. solve_decision. Defined.

Definition holding (m : mode) : bool :=
  match m with Entering | Using | Releasing => true | _ => false end.

(** Calls that need the states of the point. *)
Definition is_use (o : obs) : bool :=
  match o with
  | ObsRestoreAdapter _ _ _ _ | ObsValidate _ _ _ _ | ObsFinalize _ _ _ _ _ | ObsExecute _ _
  | ObsRestoreAgent _ _ _ => true
  | _ => false
  end.

(** What an action does to the entry of the point, and the calls it makes. *)
Inductive move : mode → mode → RuntimeReplayBinding → RuntimeReplayBinding → history → Prop :=
| mv_mark b :
    lifecycle (point b) ≠ RELEASED → move Fresh Marked b (set_lifecycle RELEASING b) []
| mv_enter b : lifecycle (point b) = READY → move Entering Using b b []
| mv_use b e : Forall (λ o, is_use o = true) e → move Using Using b b e
| mv_quarantine b : move Using Using b (set_lifecycle FAILED b) []
| mv_adapter b ra :
    (ra ≠ None ↔ holds_adapter b) →
    move Releasing Releasing b (if ra is Some (Ok _) then with_adapter_released b else b)
      (adapter_call b ra)
| mv_agent b rg :
    (rg ≠ None ↔ agent_released b = false) →
    move Releasing Releasing b (if rg is Some (Ok _) then with_agent_released b else b)
      (agent_call b rg)
| mv_settle b : move Marked Closed b (set_lifecycle (released_lifecycle b) b) [].

Definition pre (id : string) (m : mode) (s : rstate) : Prop :=
  match m with Fresh | Entering => True | _ => is_Some (dict_get id (entries s)) end.

Definition act_ok (id : string) (m m' : mode) (s s' : rstate) : Prop :=
  ∃ es l e, delta s s' es l e ∧
    ((m' = m ∧ es = entries s ∧ e = []) ∨
     ∃ b b', dict_get id (entries s) = Some b ∧ es = dict_set id b' (entries s) ∧ move m m' b b' e).

(** The thread [p] at [m] ends within [n] steps and keeps to the protocol. *)
Inductive follows {A} (id : string) : mode → nat → prog A → Prop :=
| fo_halt m n r : holding m = false → m ≠ Marked → follows id m n (Halt r)
| fo_act m n f :
    (∀ s, pre id m s → ∃ m', act_ok id m m' s (f s).2 ∧ follows id m' n (f s).1) →
    follows id m (S n) (Act f)
| fo_lock_replay n k : follows id Entering n k → follows id Fresh (S n) (Lock k)
| fo_lock_release n k : follows id Releasing n k → follows id Marked (S n) (Lock k)
| fo_unlock_replay m n k :
    m = Entering ∨ m = Using → follows id Fresh n k → follows id m (S n) (Unlock k)
| fo_unlock_release n k : follows id Marked n k → follows id Releasing (S n) (Unlock k).

Section protocol.
Context {O : Type} (env : Env O).
Notation answer := (answer (O := O)).

Lemma dict_set_same {V} k (v : V) d : dict_get k d = Some v → dict_set k v d = d.
Proof.
  induction d as [|[k' v'] d IH]; simpl; [done|]. destruct (decide (k = k')) as [->|]; [congruence|].
  intros H. by rewrite IH.
Qed.

Lemma follows_act {X} id m n (mm : M rstate X) (k : X → prog answer) h :
  (∀ s, pre id m s → wp mm s (λ r s', ∃ m', act_ok id m m' s s' ∧
     match r with Ok x => follows id m' n (k x) | Err e => follows id m' n (h e) end)) →
  follows id m (S n) (act mm k h).
Proof.
  intros H. constructor. intros s Hs. destruct (H s Hs) as (m' & Ha & Hf). exists m'.
  destruct (mm s) as [[x|e] s']; done.
Qed.

(** An action that neither calls a collaborator nor changes an entry. *)
Lemma act_idle id m s s' l : delta s s' (entries s) l [] → act_ok id m m s s'.
Proof. intros D. eexists _, _, _. split; [exact D|]. by left. Qed.

Lemma act_move id m m' s s' b b' l e :
  delta s s' (dict_set id b' (entries s)) l e → dict_get id (entries s) = Some b →
  move m m' b b' e → act_ok id m m' s s'.
Proof. intros D Hb Hm. eexists _, _, _. split; [exact D|]. right. eauto. Qed.

Lemma act_use id m s s' b l e :
  delta s s' (entries s) l e → dict_get id (entries s) = Some b → move m m b b e →
  act_ok id m m s s'.
Proof. intros D Hb. eapply act_move; [|done]. by rewrite dict_set_same. Qed.

(** Ends a thread that no longer changes its point. *)
Definition settled (m : mode) : Prop := m = Fresh ∨ m = Closed.

Lemma follows_leave id m n field started r :
  mem_str field MINUTE_FIELDS = true → settled m →
  follows id m (S n) (leave env field started r : prog answer).
Proof.
  intros Hf Hm. apply follows_act. intros s _. pose proof (delta_refl s) as D.
  eapply (step_add_elapsed env D); [done|]. intros s' D'. exists m.
  split; [by eapply act_idle|]. constructor; by destruct Hm as [-> | ->].
Qed.

Lemma follows_failed id m n counter field started e :
  known counter → mem_str field MINUTE_FIELDS = true → settled m →
  follows id m (S (S n)) (failed env counter field started e : prog answer).
Proof.
  intros Hc Hf Hm. apply follows_act. intros s _. pose proof (delta_refl s) as D.
  eapply (step_inc D); [done|]. intros s' D'. exists m.
  split; [by eapply act_idle|]. by apply follows_leave.
Qed.

Lemma follows_abort id m n started e :
  m = Entering ∨ m = Using →
  follows id m (S (S (S n)))
    (Unlock (failed env "replay_failure_count" "replay_wall_minutes" started e) : prog answer).
Proof. intros Hm. constructor; [done|]. apply follows_failed; [done|done|by left]. Qed.

(** The blocks of a replay, after the second check. *)
Section in_use.
Variables (id : string) (n : nat) (b : RuntimeReplayBinding) (s : rstate).
Hypothesis Hb : dict_get id (entries s) = Some b.

Lemma using_restore entry binding request :
  wp (restore_phase env entry binding request) s (λ r s', act_ok id Using Using s s').
Proof.
  eapply wp_mono; [apply restore_phase_spec|]. intros r s' (es & l & e & D & -> & Ho).
  eapply act_use; [exact D|exact Hb|]. constructor. destruct Ho; by repeat constructor.
Qed.

Lemma using_equivalence entry binding receipt minimum :
  wp (equivalence_phase env entry binding receipt minimum) s (λ r s', act_ok id Using Using s s').
Proof.
  eapply wp_mono; [apply equivalence_phase_spec|]. intros r s' (es & l & e & D & -> & Ho).
  eapply act_use; [exact D|exact Hb|]. constructor. destruct Ho; by repeat constructor.
Qed.

Ltac calls_used := repeat first [eapply act_use; [eassumption|exact Hb|]; constructor; by repeat constructor
                           |by eapply act_idle].

Lemma using_agent target entry rm rem :
  wp (restore_agent_phase env id target entry rm rem) s (λ r s', act_ok id Using Using s s').
Proof. pose proof (delta_refl s) as D. unfold restore_agent_phase. sym; calls_used. Qed.

Lemma using_execute restore execute :
  wp (suffix_execute env restore execute) s (λ r s', act_ok id Using Using s s').
Proof. pose proof (delta_refl s) as D. unfold suffix_execute. sym; calls_used. Qed.

Lemma using_finalize entry binding request started (outcome : res O) :
  wp (suffix_finalize env entry binding request started outcome) s (λ r s', act_ok id Using Using s s').
Proof. pose proof (delta_refl s) as D. unfold suffix_finalize. sym; calls_used. Qed.

Lemma using_settle started restore (outcome : res O) fe m :
  wp (settle_suffix env id started restore outcome fe m) s (λ r s', act_ok id Using Using s s').
Proof.
  pose proof (delta_refl s) as D. unfold settle_suffix, quarantine. sym.
  all: first [by eapply act_idle|eapply act_move; [eassumption|exact Hb|constructor]].
Qed.
End in_use.

Lemma follows_using {X} id n (mm : M rstate X) (k : X → prog answer) started :
  (∀ s b, dict_get id (entries s) = Some b → wp mm s (λ r s', act_ok id Using Using s s')) →
  (∀ x, follows id Using (S (S (S n))) (k x)) →
  follows id Using (S (S (S (S n))))
    (act mm k (λ e, Unlock (failed env "replay_failure_count" "replay_wall_minutes" started e))).
Proof.
  intros Hm Hk. apply follows_act. intros s [b Hb]. eapply wp_mono; [by eapply Hm|].
  intros r s' Ha. exists Using. split; [done|]. destruct r; [done|]. apply follows_abort. by right.
Qed.

Lemma run_from_follows id target minimum execute :
  follows id Fresh 13 (run_from_thread env id target minimum execute).
Proof.
  apply follows_act. intros s _. pose proof (delta_refl s) as D. sym.
  2: { exists Fresh. split; [by eapply act_idle|]. by constructor. }
  exists Fresh. split; [by eapply act_idle|]. clear. apply follows_act. intros s _.
  pose proof (delta_refl s) as D. unfold check_replayable, ensure_ready, replayable_binding. sym.
  all: exists Fresh; split; [by eapply act_idle|]; try (apply follows_failed; [done|done|by left]).
  clear. constructor. apply follows_act. intros s _. pose proof (delta_refl s) as D.
  unfold recheck_ready, ensure_ready. sym.
  2,3: exists Entering; split; [by eapply act_idle|]; apply follows_abort; by left.
  exists Using. split.
  { eapply act_move; [by rewrite dict_set_same|done|]. constructor. by apply bool_decide_eq_true in H0. }
  apply follows_using; [intros; by eapply using_restore|intros rm].
  apply follows_using; [intros; by eapply using_equivalence|intros rem].
  apply follows_using; [intros; by eapply using_agent|intros restore].
  apply follows_using; [intros; by eapply using_execute|intros so].
  apply follows_using; [intros; by eapply using_finalize|intros fm].
  apply follows_using; [intros; by eapply using_settle|intros ans].
  constructor; [by right|]. apply follows_leave; [done|by left].
Qed.

Lemma release_follows id : follows id Fresh 9 (release_thread env id).
Proof.
  apply follows_act. intros s _. pose proof (delta_refl s) as D. sym.
  exists Fresh. split; [by eapply act_idle|]. clear. apply follows_act. intros s _.
  pose proof (delta_refl s) as D. unfold release_mark. sym.
  { exists Fresh. split; [by eapply act_idle|]. apply follows_leave; [done|by left]. }
  2: { exists Fresh. split; [by eapply act_idle|]. apply follows_failed; [done|done|by left]. }
  exists Marked. split; [by eapply act_move; [eassumption|done|constructor]|].
  clear. constructor. apply follows_act. intros s [b Hb].
  pose proof (delta_refl s) as D. rewrite <- (dict_set_same id b (entries s) Hb) in D.
  eapply (release_adapter_step env D). intros ra s' Hra D'. exists Releasing.
  split; [by eapply act_move; [exact D'|done|constructor]|].
  clear. apply follows_act. intros s [b Hb].
  pose proof (delta_refl s) as D. rewrite <- (dict_set_same id b (entries s) Hb) in D.
  eapply (release_agent_step env D). intros rg s' Hrg D'. exists Releasing.
  split; [by eapply act_move; [exact D'|done|constructor]|].
  clear. apply fo_unlock_release, follows_act. intros s [b Hb].
  pose proof (delta_refl s) as D. rewrite <- (dict_set_same id b (entries s) Hb) in D.
  unfold release_settle. sym.
  all: exists Closed; split; [eapply act_move; [eassumption|done|constructor]|].
  all: lazymatch goal with
       | |- follows _ _ _ (leave _ _ _ _) => apply follows_leave; [done|by right]
       | _ => apply follows_failed; [done|done|by right]
       end.
Qed.
End protocol.

(** * One point under all threads *)

Definition adapter_released_ok (o : obs) : bool :=
  match o with ObsReleaseAdapter _ _ (Ok _) => true | _ => false end.
Definition agent_released_ok (o : obs) : bool :=
  match o with ObsReleaseAgent _ _ (Ok _) => true | _ => false end.
Definition released_ok (o : obs) : bool := adapter_released_ok o || agent_released_ok o.

Definition times (P : obs → bool) (T : history) : nat := length (List.filter P T).

(** No call that needs the states of the point follows a successful release. *)
Definition unused_after_release (T : history) : Prop :=
  ∀ T1 o T2, T = (T1 ++ o :: T2)%list → is_use o = true → Forall (λ o', released_ok o' = false) T1.

Lemma times_app P T T' : times P (T ++ T')%list = (times P T + times P T')%nat.
Proof. unfold times. by rewrite List.filter_app, length_app. Qed.

Lemma times_zero P T : times P T = 0%nat → Forall (λ o, P o = false) T.
Proof.
  unfold times. induction T as [|o T IH]; [done|]. simpl.
  destruct (P o) eqn:Ho; [done|]. intros H. constructor; auto.
Qed.

Lemma unused_app T e :
  unused_after_release T →
  Forall (λ o, is_use o = false) e ∨ Forall (λ o, released_ok o = false) (T ++ e)%list →
  unused_after_release (T ++ e)%list.
Proof.
  intros HT [He|He] T1 o T2 E Ho.
  - apply app_eq_inv in E as [(q & -> & E)|(q & -> & ->)].
    + destruct q as [|o' q]; simplify_eq/=; [|by eapply HT].
      apply Forall_cons in He as [He _]. congruence.
    + apply Forall_app in He as [_ He]. apply Forall_cons in He as [He _]. congruence.
  - rewrite E in He. by apply Forall_app in He as [? _].
Qed.

Record log_ok (b : RuntimeReplayBinding) (T : history) : Prop := {
  lo_adapter : (times adapter_released_ok T ≤ 1)%nat;
  lo_agent : (times agent_released_ok T ≤ 1)%nat;
  lo_adapter_none : adapter_released b = false ∨ adapter_binding_key b = None →
    times adapter_released_ok T = 0%nat;
  lo_agent_none : agent_released b = false → times agent_released_ok T = 0%nat;
  lo_unused : unused_after_release T
}.

Definition mode_ok (b : RuntimeReplayBinding) (m : mode) : Prop :=
  match m with
  | Using => agent_released b = false ∧ (adapter_released b = true → adapter_binding_key b = None)
  | Marked | Releasing => lifecycle (point b) ≠ READY
  | _ => True
  end.

(** The release of the point is under way or half recorded. *)
Definition unsettled (b : RuntimeReplayBinding) : Prop :=
  lifecycle (point b) = RELEASING ∨
  (adapter_released b = true ∧ agent_released b = true ∧ lifecycle (point b) ≠ RELEASED).

Record shared_ok (id : string) (b : RuntimeReplayBinding) : Prop := {
  so_id : replay_point_id (point b) = id;
  so_binding : adapter_binding_key b = None ↔ fidelity (point b) = NON_REPLAYABLE;
  so_unbound : adapter_binding_key b = None → adapter_released b = true;
  so_released : lifecycle (point b) = RELEASED → adapter_released b = true ∧ agent_released b = true;
  so_ready : lifecycle (point b) = READY →
    agent_released b = false ∧ (adapter_released b = true → adapter_binding_key b = None)
}.

(** [at_point t m]: thread [t] works on the point and is at [m]. *)
Record point_inv (id : string) (b : RuntimeReplayBinding) (T : history) (at_point : nat → mode → Prop)
  : Prop := {
  pi_shared : shared_ok id b;
  pi_modes : ∀ t m, at_point t m → mode_ok b m;
  pi_pending : unsettled b → ∃ t m, at_point t m ∧ (m = Marked ∨ m = Releasing);
  pi_log : log_ok b T
}.

Lemma shared_settled id b : shared_ok id b → ¬ unsettled b → entry_ok b.
Proof.
  intros [Hid Hb Hu Hr Hd] Hs. unfold unsettled in Hs. split; [done|done|tauto| |done].
  split; [done|]. intros [? ?]. destruct (decide (lifecycle (point b) = RELEASED)); tauto.
Qed.

Lemma entry_shared id b : replay_point_id (point b) = id → entry_ok b → shared_ok id b ∧ ¬ unsettled b.
Proof. intros Hid [Hb Hu Hs Hr Hd]. unfold unsettled. split; [split; tauto|tauto]. Qed.

(** Calls that are no successful release leave the counts alone. *)
Lemma log_ok_quiet b b' T e :
  log_ok b T → adapter_released b' = adapter_released b → agent_released b' = agent_released b →
  adapter_binding_key b' = adapter_binding_key b → Forall (λ o, released_ok o = false) e →
  (Forall (λ o, is_use o = false) e ∨
   (agent_released b = false ∧ (adapter_released b = true → adapter_binding_key b = None))) →
  log_ok b' (T ++ e)%list.
Proof.
  intros [H1 H2 H3 H4 H5] Ha Hg Hk He Hu.
  assert (times adapter_released_ok e = 0%nat ∧ times agent_released_ok e = 0%nat) as [E1 E2].
  { clear Hu. induction He as [|o e Ho _ [IH1 IH2]]; [done|]. unfold times, released_ok in *. simpl.
    apply orb_false_iff in Ho as [-> ->]. done. }
  split; rewrite ?times_app, ?E1, ?E2, ?Nat.add_0_r, ?Ha, ?Hg, ?Hk; try done.
  apply unused_app; [done|]. destruct Hu as [?|[Hu1 Hu2]]; [by left|right].
  apply Forall_app. split; [|done].
  assert (times adapter_released_ok T = 0%nat) as Z1.
  { apply H3. destruct (adapter_released b); auto. }
  apply times_zero in Z1. specialize (H4 Hu1). apply times_zero in H4.
  rewrite Forall_forall in *. intros o Ho. unfold released_ok. by rewrite Z1, H4.
Qed.

Lemma log_ok_adapter b T ra :
  log_ok b T → (ra ≠ None ↔ holds_adapter b) →
  log_ok (if ra is Some (Ok _) then with_adapter_released b else b) (T ++ adapter_call b ra)%list.
Proof.
  intros HT Hra. assert (∀ e, Forall (λ o, is_use o = false) (adapter_call b e)) as Hno.
  { intros e. unfold adapter_call. destruct e, (adapter_binding_key b); by repeat constructor. }
  destruct ra as [[u|e]|].
  - destruct (proj1 Hra ltac:(done)) as [Hf Hk]. unfold adapter_call in *.
    destruct (adapter_binding_key b) as [k|] eqn:Ek; [|done]. destruct HT as [H1 H2 H3 H4 H5].
    specialize (H3 (or_introl Hf)).
    split; rewrite ?times_app; cbn [times List.filter adapter_released_ok agent_released_ok length];
      rewrite ?H3, ?Nat.add_0_r; simpl; try done.
    + rewrite Ek. by intros [?|?].
    + apply unused_app; [done|]. left. by repeat constructor.
  - eapply log_ok_quiet; [done..| |by left]. unfold adapter_call.
    destruct (adapter_binding_key b); by repeat constructor.
  - by rewrite app_nil_r.
Qed.

Lemma log_ok_agent b T rg :
  log_ok b T → (rg ≠ None ↔ agent_released b = false) →
  log_ok (if rg is Some (Ok _) then with_agent_released b else b) (T ++ agent_call b rg)%list.
Proof.
  intros HT Hrg. destruct rg as [[u|e]|].
  - assert (agent_released b = false) as Hf by (by apply Hrg). destruct HT as [H1 H2 H3 H4 H5].
    specialize (H4 Hf).
    split; rewrite ?times_app; cbn [times List.filter adapter_released_ok agent_released_ok length];
      rewrite ?H4, ?Nat.add_0_r; simpl; try done.
    apply unused_app; [done|]. left. by repeat constructor.
  - eapply log_ok_quiet; [done..| |by left; repeat constructor]. by repeat constructor.
  - by rewrite app_nil_r.
Qed.

(** The flags and the identity of an entry, which a change of lifecycle keeps. *)
Lemma shared_lifecycle id b l :
  shared_ok id b → l ≠ READY → (l = RELEASED → adapter_released b = true ∧ agent_released b = true) →
  shared_ok id (set_lifecycle l b).
Proof. intros [? ? ? ? ?] Hl Hr. by split. Qed.

Lemma mode_lifecycle b m l : mode_ok b m → l ≠ READY → mode_ok (set_lifecycle l b) m.
Proof. by destruct m. Qed.

(** Thread [t] goes from [m] to [m'], the other threads stay; a thread that
    holds the lock is alone with it. *)
Record turned (t : nat) (m m' : mode) (at_point at_point' : nat → mode → Prop) : Prop := {
  tu_before : at_point t m;
  tu_after : at_point' t m';
  tu_others : ∀ u x, at_point' u x → (u = t ∧ x = m') ∨ (u ≠ t ∧ at_point u x);
  tu_kept : ∀ u x, u ≠ t → at_point u x → at_point' u x;
  tu_alone : holding m = true → ∀ u x, at_point u x → holding x = true → u = t;
  tu_unique : ∀ x, at_point t x → x = m
}.

Lemma modes_move b' t m m' P P' :
  turned t m m' P P' → (∀ u x, u ≠ t → P u x → mode_ok b' x) → mode_ok b' m' →
  ∀ u x, P' u x → mode_ok b' x.
Proof. intros Ht H1 H2 u x Hx. destruct (tu_others _ _ _ _ _ Ht u x Hx) as [[-> ->]|[Hu Hx']]; eauto. Qed.

(** Another thread releases the point. *)
Lemma pending_move id b b' T t m m' P P' :
  point_inv id b T P → turned t m m' P P' →
  (unsettled b' → unsettled b) → m ≠ Marked → m ≠ Releasing →
  unsettled b' → ∃ u x, P' u x ∧ (x = Marked ∨ x = Releasing).
Proof.
  intros Hinv Ht Hu Hm1 Hm2 Hb'. destruct (pi_pending _ _ _ _ Hinv (Hu Hb')) as (u & x & Hx & Hmx).
  exists u, x. split; [|done]. apply (tu_kept _ _ _ _ _ Ht); [|done].
  intros ->. apply (tu_unique _ _ _ _ _ Ht) in Hx. subst x. tauto.
Qed.

(** A thread that releases finds no other thread that replays. *)
Lemma no_replay t m' P P' u x : turned t Releasing m' P P' → u ≠ t → P u x → x ≠ Using.
Proof. intros Ht Hu Hx ->. by apply Hu, (tu_alone _ _ _ _ _ Ht eq_refl u Using). Qed.

Lemma release_move_inv id b b' T e t P P' :
  point_inv id b T P → turned t Releasing Releasing P P' →
  b' = b ∨ b' = with_adapter_released b ∨ b' = with_agent_released b → log_ok b' (T ++ e)%list →
  point_inv id b' (T ++ e)%list P'.
Proof.
  intros [Hs Hm _ _] Ht Hb' Hl. pose proof (Hm t Releasing (tu_before _ _ _ _ _ Ht)) as Htm.
  split; [|eapply modes_move; [done| |]| |done].
  - destruct Hs as [? ? Hu Hrl Hrd]. simpl in Htm.
    destruct Hb' as [->|[->| ->]]; split; simpl; try done; intros ?%Hrl; tauto.
  - intros u x Hu Hx. specialize (Hm u x Hx). pose proof (no_replay _ _ _ _ _ _ Ht Hu Hx).
    destruct Hb' as [->|[->| ->]]; by destruct x.
  - by destruct Hb' as [->|[->| ->]].
  - intros _. exists t, Releasing. split; [apply Ht|by right].
Qed.

Lemma move_inv id b b' T e t m m' P P' :
  point_inv id b T P → turned t m m' P P' → move m m' b b' e → point_inv id b' (T ++ e)%list P'.
Proof.
  intros Hinv Ht Hmv. pose proof (pi_shared _ _ _ _ Hinv) as Hs. pose proof (pi_modes _ _ _ _ Hinv) as Hm.
  pose proof (pi_log _ _ _ _ Hinv) as Hl. pose proof (Hm t m (tu_before _ _ _ _ _ Ht)) as Htm.
  assert (∀ l, l ≠ READY → ∀ u x, u ≠ t → P u x → mode_ok (set_lifecycle l b) x) as Hlc.
  { intros l ? u x _ Hx. apply mode_lifecycle; eauto. }
  destruct Hmv as [b Hr|b Hr|b e He|b|b ra Hra|b rg Hrg|b].
  - split; [by apply shared_lifecycle|eapply modes_move; [done|by apply Hlc|done]| |].
    + intros _. exists t, Marked. split; [apply Ht|by left].
    + eapply log_ok_quiet; eauto.
  - split; [done|eapply modes_move; [done|by eauto|by apply (so_ready _ _ Hs)]|by eapply pending_move|].
    by rewrite app_nil_r.
  - split; [done|eapply modes_move; [done|by eauto|done]|by eapply pending_move|].
    eapply log_ok_quiet; [done..| |by right]. eapply Forall_impl; [done|]. by intros [].
  - split; [by apply shared_lifecycle|eapply modes_move; [done|by apply Hlc|done]| |].
    + intros [?|(_ & Hg & _)]; [done|]. simpl in Hg. destruct Htm. congruence.
    + eapply log_ok_quiet; eauto.
  - eapply release_move_inv; [done|done| |by apply log_ok_adapter]. destruct ra as [[?|?]|]; auto.
  - eapply release_move_inv; [done|done| |by apply log_ok_agent]. destruct rg as [[?|?]|]; auto.
  - assert (released_lifecycle b ≠ READY) as Hn
      by (unfold released_lifecycle; by destruct (adapter_released b), (agent_released b)).
    split; [apply shared_lifecycle; [done|done|]|eapply modes_move; [done|by apply Hlc|done]| |].
    + unfold released_lifecycle. by destruct (adapter_released b), (agent_released b).
    + unfold unsettled, set_lifecycle, released_lifecycle. simpl.
      destruct (adapter_released b), (agent_released b); simpl; intros [?|(? & ? & ?)]; done.
    + eapply log_ok_quiet; eauto.
Qed.

(** The acquisition and the release of the lock. *)
Definition shift (m m' : mode) : Prop :=
  m' = m ∨ (m = Fresh ∧ m' = Entering) ∨ (m = Marked ∧ m' = Releasing) ∨
  ((m = Entering ∨ m = Using) ∧ m' = Fresh) ∨ (m = Releasing ∧ m' = Marked).

Lemma shift_inv id b T t m m' P P' :
  point_inv id b T P → turned t m m' P P' → shift m m' → point_inv id b T P'.
Proof.
  intros [Hs Hm Hp Hl] Ht Hsh. pose proof (Hm t m (tu_before _ _ _ _ _ Ht)) as Htm.
  split; [done|eapply modes_move; [done|by eauto|]| |done].
  - by destruct Hsh as [->|[[-> ->]|[[-> ->]|[[[->| ->] ->]|[-> ->]]]]].
  - intros (u & x & Hx & Hmx)%Hp. destruct (decide (u = t)) as [->|Hu].
    + apply (tu_unique _ _ _ _ _ Ht) in Hx as ->. exists t, m'. split; [apply Ht|].
      destruct Hsh as [->|[[-> ->]|[[-> ->]|[[[->| ->] ->]|[-> ->]]]]]; naive_solver.
    + exists u, x. split; [by apply (tu_kept _ _ _ _ _ Ht)|done].
Qed.

Lemma point_inv_iff id b T P P' :
  (∀ u x, P' u x ↔ P u x) → point_inv id b T P → point_inv id b T P'.
Proof.
  intros HP [Hs Hm Hp Hl]. split; [done| | |done].
  - intros t m Ht%HP. eauto.
  - intros (t & m & ? & ?)%Hp. exists t, m. by rewrite HP.
Qed.

(** * Configurations *)

Section config.
Context {O : Type} (env : Env O).
Implicit Types (c : config O) (gs : list (mode * nat)).

Definition at_point c gs (id : string) (t : nat) (m : mode) : Prop :=
  ∃ th n, threads c !! t = Some th ∧ gs !! t = Some (m, n) ∧ th_point th = id.

Definition log_of (id : string) c : history := snd <$> filter (λ x, x.1 = id) (log c).

(** [gs] gives the mode of each thread and a bound on its remaining steps. *)
Record config_inv c gs : Prop := {
  ci_length : length gs = length (threads c);
  ci_threads : ∀ t th m n, threads c !! t = Some th → gs !! t = Some (m, n) →
    follows (th_point th) m n (th_prog th);
  ci_holders : ∀ id t, holders c !! id = Some t ↔ ∃ m, at_point c gs id t m ∧ holding m = true;
  ci_keys : NoDup (dict_keys (entries (reg c)));
  ci_points : ∀ id,
    match dict_get id (entries (reg c)) with
    | Some b => point_inv id b (log_of id c) (at_point c gs id)
    | None => log_of id c = [] ∧ ∀ t m, at_point c gs id t m → m = Fresh ∨ m = Entering
    end
}.

Section turn.
Variables (c : config O) (gs : list (mode * nat)) (t : nat) (th : thread O).
Variables (m m' : mode) (n n' : nat) (p : prog (answer (O := O))) (s : rstate) (locks : gmap string nat).
Hypothesis Hinv : config_inv c gs.
Hypothesis Hth : threads c !! t = Some th.
Hypothesis Hg : gs !! t = Some (m, n).

Let c' := advance c t th p s locks.
Let gs' := <[t := (m', n')]> gs.

Lemma at_advance id u x :
  at_point c' gs' id u x ↔
  (u = t ∧ x = m' ∧ th_point th = id) ∨ (u ≠ t ∧ at_point c gs id u x).
Proof.
  unfold at_point, c', gs', advance. simpl. apply lookup_lt_Some in Hth as Hlt.
  apply lookup_lt_Some in Hg as Hlg. destruct (decide (u = t)) as [->|Hu].
  - rewrite !list_lookup_insert_eq by done. split.
    + intros (th' & n0 & ? & ? & ?). simplify_eq/=. by left.
    + intros [(_ & -> & Hp)|[? _]]; [|done]. eexists _, _. by split_and!.
  - rewrite !list_lookup_insert_ne by done. naive_solver.
Qed.

Lemma at_unique id x : at_point c gs id t x → x = m ∧ th_point th = id.
Proof. intros (th' & n0 & ? & ? & ?). by simplify_eq. Qed.

Lemma at_self : at_point c gs (th_point th) t m.
Proof. by exists th, n. Qed.

Lemma turned_point : turned t m m' (at_point c gs (th_point th)) (at_point c' gs' (th_point th)).
Proof.
  split.
  - apply at_self.
  - apply at_advance. by left.
  - intros u x [(-> & -> & _)|?]%at_advance; auto.
  - intros u x Hu Hx. apply at_advance. by right.
  - intros Hh u x Hx Hhx.
    assert (holders c !! th_point th = Some u) as E1 by (apply (ci_holders _ _ Hinv); eauto).
    assert (holders c !! th_point th = Some t) as E2
      by (apply (ci_holders _ _ Hinv); eauto using at_self). congruence.
  - by intros x [? _]%at_unique.
Qed.

Lemma at_other id : id ≠ th_point th → ∀ u x, at_point c' gs' id u x ↔ at_point c gs id u x.
Proof.
  intros Hid u x. rewrite at_advance. split; [naive_solver|]. intros Hx. right. split; [|done].
  intros ->. apply at_unique in Hx as [_ ?]. done.
Qed.

Lemma log_advance id :
  log_of id c' = (log_of id c ++ if decide (id = th_point th) then calls (reg c) s else [])%list.
Proof.
  unfold log_of, c', advance. simpl. rewrite filter_app, fmap_app. f_equal. case_decide as Hid.
  - subst. rewrite filter_all; [|by apply Forall_fmap, Forall_true].
    rewrite <- list_fmap_compose. apply list_fmap_id.
  - rewrite filter_none; [done|]. by apply Forall_fmap, Forall_true.
Qed.

Lemma threads_advance :
  follows (th_point th) m' n' p →
  ∀ u uh x k, threads c' !! u = Some uh → gs' !! u = Some (x, k) →
    follows (th_point uh) x k (th_prog uh).
Proof.
  intros Hf u uh x k. unfold c', gs', advance. simpl. apply lookup_lt_Some in Hth as Hlt.
  apply lookup_lt_Some in Hg as Hlg. destruct (decide (u = t)) as [->|Hu].
  - rewrite !list_lookup_insert_eq by done. intros. by simplify_eq/=.
  - rewrite !list_lookup_insert_ne by done. apply (ci_threads _ _ Hinv).
Qed.
End turn.

Lemma pre_holds c gs t th m n :
  config_inv c gs → threads c !! t = Some th → gs !! t = Some (m, n) → pre (th_point th) m (reg c).
Proof.
  intros Hinv Hth Hg. pose proof (ci_points _ _ Hinv (th_point th)) as Hp. unfold pre.
  destruct (dict_get (th_point th) (entries (reg c))) as [b|]; [by destruct m|].
  destruct Hp as [_ Hp]. destruct (Hp t m) as [->| ->]; [|done..]. by exists th, n.
Qed.

Lemma move_holding m m' b b' e : move m m' b b' e → holding m' = holding m.
Proof. by destruct 1. Qed.

Lemma holders_advance c gs t th m m' n n' p s :
  config_inv c gs → threads c !! t = Some th → gs !! t = Some (m, n) → holding m' = holding m →
  ∀ id u, holders c !! id = Some u ↔
    ∃ x, at_point (advance c t th p s (holders c)) (<[t := (m', n')]> gs) id u x ∧ holding x = true.
Proof.
  intros Hinv Hth Hg Hh id u. rewrite (ci_holders _ _ Hinv).
  setoid_rewrite (at_advance c gs t th m m' n n' p s (holders c) Hth Hg). split.
  - intros (x & Hx & Hhx). destruct (decide (u = t)) as [->|Hu]; [|exists x; auto].
    destruct (at_unique c gs t th m n Hth Hg id x Hx) as [-> Hp]. exists m'. rewrite Hh. auto.
  - intros (x & [(-> & -> & Hp)|[_ Hx]] & Hhx); [|eauto]. exists m. rewrite <- Hh. split; [|done].
    by exists th, n.
Qed.

Lemma act_inv c gs t th m m' n p s :
  config_inv c gs → threads c !! t = Some th → gs !! t = Some (m, S n) →
  act_ok (th_point th) m m' (reg c) s → follows (th_point th) m' n p →
  config_inv (advance c t th p s (holders c)) (<[t := (m', n)]> gs).
Proof.
  intros Hinv Hth Hg (es & l & e & D & Hact) Hf.
  pose proof (turned_point c gs t th m m' (S n) n p s (holders c) Hinv Hth Hg) as Htu.
  pose proof (at_other c gs t th m m' (S n) n p s (holders c) Hth Hg) as Hot.
  pose proof (log_advance c t th p s (holders c)) as Hlog.
  rewrite (delta_calls _ _ _ _ _ D) in Hlog.
  assert (holding m' = holding m) as Hh.
  { destruct Hact as [(-> & _)|(b & b' & _ & _ & Hm)]; [done|by eapply move_holding]. }
  split.
  - simpl. rewrite !length_insert. apply (ci_length _ _ Hinv).
  - exact (threads_advance c gs t th m m' (S n) n p s (holders c) Hinv Hth Hg Hf).
  - exact (holders_advance c gs t th m m' (S n) n p s Hinv Hth Hg Hh).
  - simpl. rewrite (d_entries _ _ _ _ _ D). destruct Hact as [(_ & -> & _)|(b & b' & _ & -> & _)].
    + apply (ci_keys _ _ Hinv).
    + apply dict_keys_set_NoDup, (ci_keys _ _ Hinv).
  - intros id. pose proof (ci_points _ _ Hinv id) as Hp. rewrite Hlog. simpl.
    rewrite (d_entries _ _ _ _ _ D). destruct (decide (id = th_point th)) as [->|Hid].
    + destruct Hact as [(-> & -> & ->)|(b & b' & Hb & -> & Hm)].
      * rewrite app_nil_r. destruct (dict_get (th_point th) (entries (reg c))) as [b|].
        -- eapply shift_inv; [done|done|by left].
        -- destruct Hp as [-> Hp]. split; [done|]. intros u x Hx.
           destruct (tu_others _ _ _ _ _ Htu u x Hx) as [[-> ->]|[_ ?]]; [|by eapply Hp].
           eapply (Hp t), Htu.
      * rewrite Hb in Hp. rewrite dict_get_set_eq. by eapply move_inv.
    + rewrite app_nil_r. replace (dict_get id es) with (dict_get id (entries (reg c))).
      2: { destruct Hact as [(_ & -> & _)|(b & b' & _ & -> & _)]; [done|]. by rewrite dict_get_set_ne. }
      destruct (dict_get id (entries (reg c))) as [b|].
      * eapply point_inv_iff; [by apply Hot|done].
      * destruct Hp as [-> Hp]. split; [done|]. intros u x Hx%Hot; [|done]. by eapply Hp.
Qed.

Lemma lock_inv c gs t th m m' n p locks :
  config_inv c gs → threads c !! t = Some th → gs !! t = Some (m, S n) →
  shift m m' → (m = Fresh ∨ m = Entering → m' = Fresh ∨ m' = Entering) →
  follows (th_point th) m' n p →
  (∀ id u, locks !! id = Some u ↔
     ∃ x, at_point (advance c t th p (reg c) locks) (<[t := (m', n)]> gs) id u x ∧ holding x = true) →
  config_inv (advance c t th p (reg c) locks) (<[t := (m', n)]> gs).
Proof.
  intros Hinv Hth Hg Hsh Hfresh Hf Hlocks.
  pose proof (turned_point c gs t th m m' (S n) n p (reg c) locks Hinv Hth Hg) as Htu.
  pose proof (at_other c gs t th m m' (S n) n p (reg c) locks Hth Hg) as Hot.
  pose proof (log_advance c t th p (reg c) locks) as Hlog.
  rewrite (delta_calls _ _ _ _ _ (delta_refl (reg c))) in Hlog. split.
  - simpl. rewrite !length_insert. apply (ci_length _ _ Hinv).
  - exact (threads_advance c gs t th m m' (S n) n p (reg c) locks Hinv Hth Hg Hf).
  - done.
  - apply (ci_keys _ _ Hinv).
  - intros id. pose proof (ci_points _ _ Hinv id) as Hp. rewrite Hlog. simpl.
    replace (if decide (id = th_point th) then [] else []) with (@nil obs) by (by case_decide).
    rewrite app_nil_r. destruct (decide (id = th_point th)) as [->|Hid].
    + destruct (dict_get (th_point th) (entries (reg c))) as [b|]; [by eapply shift_inv|].
      destruct Hp as [-> Hp]. split; [done|]. intros u x Hx.
      destruct (tu_others _ _ _ _ _ Htu u x Hx) as [[-> ->]|[_ ?]]; [|by eapply Hp].
      eapply Hfresh, (Hp t), Htu.
    + destruct (dict_get id (entries (reg c))) as [b|].
      * eapply point_inv_iff; [by apply Hot|done].
      * destruct Hp as [-> Hp]. split; [done|]. intros u x Hx%Hot; [|done]. by eapply Hp.
Qed.

Lemma acquire_holders c gs t th m m' n n' p :
  config_inv c gs → threads c !! t = Some th → gs !! t = Some (m, n) →
  holders c !! th_point th = None → holding m' = true →
  let locks := <[th_point th := t]> (holders c) in
  ∀ id u, locks !! id = Some u ↔
    ∃ x, at_point (advance c t th p (reg c) locks) (<[t := (m', n')]> gs) id u x ∧ holding x = true.
Proof.
  intros Hinv Hth Hg Hfree Hh locks id u. unfold locks.
  setoid_rewrite (at_advance c gs t th m m' n n' p (reg c) locks Hth Hg).
  destruct (decide (id = th_point th)) as [->|Hid].
  - rewrite lookup_insert_eq. split; [intros [= <-]; eauto 10|].
    intros (x & [(-> & _)|[_ Hx]] & Hhx); [done|].
    assert (holders c !! th_point th = Some u) by (apply (ci_holders _ _ Hinv); eauto). congruence.
  - rewrite lookup_insert_ne, (ci_holders _ _ Hinv) by done. split.
    + intros (x & Hx & Hhx). exists x. split; [|done]. right. split; [|done].
      intros ->. by apply (at_unique c gs t th m n Hth Hg) in Hx as [_ ?].
    + intros (x & [(_ & _ & ?)|[_ Hx]] & Hhx); [done|eauto].
Qed.

Lemma free_holders c gs t th m m' n n' p :
  config_inv c gs → threads c !! t = Some th → gs !! t = Some (m, n) →
  holding m = true → holding m' = false →
  let locks := delete (th_point th) (holders c) in
  ∀ id u, locks !! id = Some u ↔
    ∃ x, at_point (advance c t th p (reg c) locks) (<[t := (m', n')]> gs) id u x ∧ holding x = true.
Proof.
  intros Hinv Hth Hg Hm Hh locks id u. unfold locks.
  setoid_rewrite (at_advance c gs t th m m' n n' p (reg c) locks Hth Hg).
  destruct (decide (id = th_point th)) as [->|Hid].
  - rewrite lookup_delete_eq. split; [done|]. intros (x & [(_ & -> & _)|[Hu Hx]] & Hhx); [congruence|].
    destruct Hu. assert (holders c !! th_point th = Some u) by (apply (ci_holders _ _ Hinv); eauto).
    assert (holders c !! th_point th = Some t); [|congruence]. apply (ci_holders _ _ Hinv).
    exists m. split; [by exists th, n|done].
  - rewrite lookup_delete_ne, (ci_holders _ _ Hinv) by done. split.
    + intros (x & Hx & Hhx). exists x. split; [|done]. right. split; [|done].
      intros ->. by apply (at_unique c gs t th m n Hth Hg) in Hx as [_ ?].
    + intros (x & [(_ & _ & ?)|[_ Hx]] & Hhx); [done|eauto].
Qed.

Definition budget gs : nat := sum_list_with snd gs.

Lemma budget_insert gs t m m' n : gs !! t = Some (m, S n) → (budget (<[t := (m', n)]> gs) < budget gs)%nat.
Proof. intros Hg. pose proof (sum_insert snd gs t _ (m', n) Hg). unfold budget. simpl in *. lia. Qed.

(** A thread that has ended or waits for its lock. *)
Definition waits c (t : nat) : Prop :=
  match threads c !! t with
  | None => True
  | Some th => halted th = true ∨
      ∃ k, th_prog th = Lock k ∧ is_Some (holders c !! th_point th)
  end.

Lemma step_config_inv c gs t :
  config_inv c gs →
  (step c t = c ∧ waits c t) ∨
  ∃ gs', config_inv (step c t) gs' ∧ (budget gs' < budget gs)%nat ∧
         length (threads (step c t)) = length (threads c).
Proof.
  intros Hinv. unfold step, waits. destruct (threads c !! t) as [th|] eqn:Hth; [|by left].
  assert (is_Some (gs !! t)) as [[m k] Hg].
  { apply lookup_lt_is_Some. rewrite (ci_length _ _ Hinv). by eapply lookup_lt_Some. }
  pose proof (ci_threads _ _ Hinv _ _ _ _ Hth Hg) as Hf.
  pose proof (pre_holds _ _ _ _ _ _ Hinv Hth Hg) as Hpre.
  assert (∀ p s l, length (threads (advance c t th p s l)) = length (threads c)) as Hlen.
  { intros. simpl. apply length_insert. }
  unfold halted. destruct (th_prog th) as [r|f|q|q].
  - left. auto.
  - right. inversion Hf as [|? n ? Hact| | | |]; subst. destruct (Hact (reg c) Hpre) as (m' & Ha & Hf').
    destruct (f (reg c)) as [p' s']. exists (<[t := (m', n)]> gs).
    split_and!; [by eapply act_inv|by eapply budget_insert|done].
  - destruct (holders c !! th_point th) eqn:Hh; [left; eauto|right].
    inversion Hf as [| |n ? Hq|n ? Hq| |]; subst; eexists (<[t := (_, n)]> gs);
      (split_and!; [|by eapply budget_insert|done]);
      (eapply lock_inv; [done|done|exact Hg| | |exact Hq|by eapply acquire_holders]);
      unfold shift; naive_solver.
  - right. inversion Hf as [| | | |? n ? Hm Hq|n ? Hq]; subst; eexists (<[t := (_, n)]> gs);
      (split_and!; [|by eapply budget_insert|done]);
      (eapply lock_inv; [done|done|exact Hg| | |exact Hq|
         eapply free_holders; [done|done|done| |done]]);
      unfold shift; try naive_solver; by destruct Hm as [-> | ->].
Qed.

Lemma run_config_inv c gs ts :
  config_inv c gs → ∃ gs', config_inv (run c ts) gs' ∧ (budget gs' ≤ budget gs)%nat ∧
    length (threads (run c ts)) = length (threads c).
Proof.
  revert c gs. induction ts as [|t ts IH]; intros c gs Hinv; [by exists gs|]. simpl.
  destruct (step_config_inv c gs t Hinv) as [[-> _]|(gs' & Hi & Hb & Hlen)]; [by apply IH|].
  destruct (IH _ _ Hi) as (gs'' & ? & ? & ?). exists gs''. split_and!; [done|lia|congruence].
Qed.

(** A round without progress leaves everything as it is. *)
Lemma round_stuck c gs ts :
  config_inv c gs →
  (∃ gs', config_inv (run c ts) gs' ∧ (budget gs' < budget gs)%nat) ∨
  (run c ts = c ∧ ∀ t, t ∈ ts → waits c t).
Proof.
  revert c gs. induction ts as [|t ts IH]; intros c gs Hinv; [right; split; [done|]|].
  { by intros t ?%elem_of_nil. }
  simpl. destruct (step_config_inv c gs t Hinv) as [[-> Hw]|(gs' & Hi & Hb & _)].
  - destruct (IH c gs Hinv) as [?|[-> Hall]]; [by left|right]. split; [done|].
    by intros u [->|?]%elem_of_cons; auto.
  - left. destruct (run_config_inv _ _ ts Hi) as (gs'' & ? & ? & _). exists gs''. split; [done|lia].
Qed.

Definition all_halted c : Prop := Forall (λ th, halted th = true) (threads c).

Definition fair_round (n : nat) (ts : list nat) : Prop := ∀ t, (t < n)%nat → t ∈ ts.

Lemma halted_forallb c : forallb halted (threads c) = true → all_halted c.
Proof.
  unfold all_halted. intros H. apply Forall_forall. intros th Hth.
  rewrite forallb_forall in H. by apply H, list_elem_of_In.
Qed.

(** The holder of a lock never waits for one. *)
Lemma holder_moves c gs id t : config_inv c gs → holders c !! id = Some t → ¬ waits c t.
Proof.
  intros Hinv (m & (th & n & Hth & Hg & _) & Hh)%(ci_holders _ _ Hinv). unfold waits. rewrite Hth.
  pose proof (ci_threads _ _ Hinv _ _ _ _ Hth Hg) as Hf. unfold halted.
  intros [E|(k & E & _)]; destruct (th_prog th); try done; inversion Hf; subst; simpl in *; congruence.
Qed.

Lemma round_progress c gs ts :
  config_inv c gs → fair_round (length (threads c)) ts → ¬ all_halted c →
  ∃ gs', config_inv (run c ts) gs' ∧ (budget gs' < budget gs)%nat.
Proof.
  intros Hinv Hfair Hn. destruct (round_stuck c gs ts Hinv) as [?|[_ Hw]]; [done|]. exfalso.
  apply not_Forall_Exists in Hn; [|apply _]. apply Exists_exists in Hn as (th & Hin & Hnh).
  apply list_elem_of_lookup in Hin as [t Hth]. pose proof (Hw t) as Hwt. unfold waits in Hwt.
  rewrite Hth in Hwt. destruct Hwt as [?|(k & _ & [u Hu])]; [by eapply Hfair, lookup_lt_Some|done|].
  apply (holder_moves c gs _ u Hinv Hu), Hw, Hfair.
  apply (ci_holders _ _ Hinv) in Hu as (m & (uh & n & Huh & _) & _). by eapply lookup_lt_Some.
Qed.

Lemma halted_run c ts : all_halted c → run c ts = c.
Proof.
  intros Hh. induction ts as [|t ts IH]; [done|]. simpl. replace (step c t) with c; [done|].
  unfold step. destruct (threads c !! t) as [th|] eqn:Hth; [|done].
  assert (halted th = true) as Hth' by exact (Forall_lookup_1 _ _ _ _ Hh Hth).
  unfold halted in Hth'. by destruct (th_prog th).
Qed.

Lemma halts_in c gs b rounds :
  config_inv c gs → (budget gs ≤ b)%nat → (b < length rounds)%nat →
  Forall (fair_round (length (threads c))) rounds → all_halted (run c (concat rounds)).
Proof.
  revert c gs rounds. induction b as [|b IH]; intros c gs rounds Hinv Hb Hl Hf.
  all: destruct (decide (Forall (λ th, halted th = true) (threads c))) as [Hh|Hh];
    [by rewrite halted_run|].
  all: destruct rounds as [|r rounds]; simpl in Hl; [lia|]; apply Forall_cons in Hf as [Hr Hf].
  all: destruct (round_progress c gs r Hinv Hr Hh) as (gs' & Hi & Hlt); [try lia].
  cbn [concat]. unfold run in *. rewrite fold_left_app.
  destruct (run_config_inv c gs r Hinv) as (_ & _ & _ & Hlen). unfold run in Hlen.
  eapply IH; [exact Hi|lia|lia|]. by rewrite Hlen.
Qed.

(** ** The start *)

Definition budget_of (o : operation O) : nat := match o with RunFrom _ _ _ _ => 13 | Release _ => 9 end.

Lemma start_config_inv s ops :
  registry_wf (entries s) → config_inv (start env s ops) ((λ o, (Fresh, budget_of o)) <$> ops).
Proof.
  intros [Hk He]. assert (∀ id t m, at_point (start env s ops) ((λ o, (Fresh, budget_of o)) <$> ops) id t m →
    m = Fresh) as Hfresh.
  { intros id t m (th & n & _ & Hg & _). rewrite list_lookup_fmap in Hg.
    by destruct (ops !! t); simplify_eq/=. }
  split.
  - simpl. by rewrite !length_fmap.
  - intros t th m n Hth Hg. simpl in Hth. rewrite list_lookup_fmap in Hth.
    rewrite list_lookup_fmap in Hg.
    destruct (ops !! t) as [o|]; simplify_eq/=.
    destruct o; [apply run_from_follows|apply release_follows].
  - intros id t. simpl. rewrite lookup_empty. split; [done|]. intros (m & Hm%Hfresh & Hh). by subst.
  - done.
  - intros id. simpl. destruct (dict_get id (entries s)) as [b|] eqn:Hb.
    + destruct (He id b Hb) as [Hid Hok]. destruct (entry_shared id b Hid Hok) as [Hs Hu].
      split; [done| |done|].
      * by intros t m ->%Hfresh.
      * change (log_of id (start env s ops)) with (@nil obs).
        split; [apply Nat.le_0_l|apply Nat.le_0_l|done|done|]. intros T1 o T2 E. by destruct T1.
    + split; [done|]. intros t m Hm%Hfresh. by left.
Qed.

Lemma budget_bound ops : (budget ((λ o, (Fresh, budget_of o)) <$> ops) ≤ 13 * length ops)%nat.
Proof.
  unfold budget. induction ops as [|o ops IH]; [simpl; lia|].
  rewrite fmap_cons. cbn [sum_list_with length snd]. destruct o; cbn [budget_of]; lia.
Qed.

(** * Theorems *)

(** C3: Under every interleaving of threads that replay and release points of a
    well-formed registry, and for every behaviour of the collaborators, the
    adapter binding and the agent state of a point are each released
    successfully at most once, and no call that needs them (restore, validate,
    execute, finalize) is made for the point after such a release. *)
Theorem concurrent_release_safe s ops schedule id b :
  registry_wf (entries s) →
  let c := run (start env s ops) schedule in
  dict_get id (entries (reg c)) = Some b →
  (times adapter_released_ok (log_of id c) ≤ 1)%nat ∧ (times agent_released_ok (log_of id c) ≤ 1)%nat ∧
  ∀ T1 o T2, log_of id c = (T1 ++ o :: T2)%list → is_use o = true →
    Forall (λ o', released_ok o' = false) T1.
Proof.
  intros Hwf c Hb. destruct (run_config_inv _ _ schedule (start_config_inv s ops Hwf)) as (gs & Hinv & _).
  pose proof (ci_points _ _ Hinv id) as Hp. fold c in Hp. rewrite Hb in Hp.
  destruct (pi_log _ _ _ _ Hp) as [H1 H2 _ _ H5]. auto.
Qed.

(** C38: All threads end: there is no deadlock on the replay locks, and after
    thirteen fair rounds per thread (and one more) every thread has returned or
    raised, whatever the collaborators answer. *)
Theorem concurrent_threads_end s ops rounds :
  registry_wf (entries s) → Forall (fair_round (length ops)) rounds →
  (13 * length ops < length rounds)%nat → all_halted (run (start env s ops) (concat rounds)).
Proof.
  intros Hwf Hf Hl. pose proof (budget_bound ops) as Hb. eapply halts_in; [by apply start_config_inv|exact Hb| |].
  - done.
  - simpl. by rewrite length_fmap.
Qed.

(** When all threads have ended, under any interleaving, the registry
    satisfies the invariant of the sequential registry again: no point is left
    releasing, released points are exactly those whose states are released, and
    ready points still own their states. *)
Theorem concurrent_registry_wf s ops schedule :
  registry_wf (entries s) →
  let c := run (start env s ops) schedule in
  all_halted c → registry_wf (entries (reg c)).
Proof.
  intros Hwf c Hh. destruct (run_config_inv _ _ schedule (start_config_inv s ops Hwf)) as (gs & Hinv & _). fold c in Hinv.
  split; [apply (ci_keys _ _ Hinv)|]. intros id b Hb. pose proof (ci_points _ _ Hinv id) as Hp.
  rewrite Hb in Hp. destruct Hp as [Hs _ Hp _]. split; [apply (so_id _ _ Hs)|].
  apply (shared_settled id); [done|]. intros (t & m & (th & n & Hth & Hg & _) & Hm)%Hp.
  pose proof (ci_threads _ _ Hinv _ _ _ _ Hth Hg) as Hf.
  assert (halted th = true) as Hht by exact (Forall_lookup_1 _ _ _ _ Hh Hth).
  unfold halted in Hht. destruct (th_prog th); [|done..].
  inversion Hf; subst. by destruct Hm as [-> | ->].
Qed.

(** One turn of a thread changes nothing in what it computes alone. *)
Lemma step_solo c th :
  threads c = [th] → waits c 0 ∨
  ∃ th', threads (step c 0) = [th'] ∧ th_point th' = th_point th ∧
    solo (th_prog th') (reg (step c 0)) = solo (th_prog th) (reg c).
Proof.
  intros Hth. unfold step, waits. rewrite Hth. simpl. unfold halted.
  destruct (th_prog th) as [r|f|q|q] eqn:Ep; [by left; left|right| |].
  - destruct (f (reg c)) as [p s] eqn:Ef. unfold advance. rewrite Hth. simpl.
    eexists. split; [done|]. simpl. by rewrite Ef.
  - destruct (holders c !! th_point th) eqn:Hh; [left; right; eauto|right].
    unfold advance. rewrite Hth. simpl. by eexists.
  - right. unfold advance. rewrite Hth. simpl. by eexists.
Qed.

Lemma run_solo c gs b th k :
  config_inv c gs → threads c = [th] → (budget gs ≤ b)%nat → (b ≤ k)%nat →
  threads (run c (replicate k 0%nat)) =
    [{| th_point := th_point th; th_prog := Halt (solo (th_prog th) (reg c)).1 |}] ∧
  reg (run c (replicate k 0%nat)) = (solo (th_prog th) (reg c)).2.
Proof.
  assert (∀ c gs th, config_inv c gs → threads c = [th] → waits c 0 →
    ∃ r, th = {| th_point := th_point th; th_prog := Halt r |}) as Hend.
  { clear. intros c gs [id p] Hinv Hth Hw. pose proof Hw as Hw0. unfold waits in Hw. rewrite Hth in Hw.
    destruct Hw as [Hh|(q & _ & [u Hu])]; [unfold halted in Hh; simpl in *; destruct p; eauto; done|].
    exfalso. apply (holder_moves c gs _ u Hinv Hu).
    apply (ci_holders _ _ Hinv) in Hu as (m & (uh & n & Huh & _) & _). rewrite Hth in Huh.
    by destruct u. }
  assert (∀ c gs th k, config_inv c gs → threads c = [th] → waits c 0 →
    threads (run c (replicate k 0%nat)) =
      [{| th_point := th_point th; th_prog := Halt (solo (th_prog th) (reg c)).1 |}] ∧
    reg (run c (replicate k 0%nat)) = (solo (th_prog th) (reg c)).2) as Hdone.
  { clear -Hend. intros c gs th k Hinv Hth Hw. destruct (Hend c gs th Hinv Hth Hw) as [r Hr].
    rewrite halted_run by (unfold all_halted; rewrite Hth, Hr; by repeat constructor).
    rewrite Hth. rewrite Hr. done. }
  revert c gs th k. induction b as [|b IH]; intros c gs th k Hinv Hth Hb Hk.
  all: destruct (step_solo c th Hth) as [Hw|(th' & Hth' & Hpt & Hs)]; [by eapply Hdone|].
  all: destruct (step_config_inv c gs 0 Hinv) as [[_ Hw]|(gs' & Hi & Hlt & _)]; [by eapply Hdone|].
  - lia.
  - destruct k as [|k]; [lia|]. rewrite <- Hs, <- Hpt. simpl.
    eapply IH; [exact Hi|done|lia|lia].
Qed.

Definition sequential (o : operation O) (s : rstate) : res (answer (O := O)) * rstate :=
  match o with
  | RunFrom id t m ex => wrap inl (run_from env id t m ex s)
  | Release id => wrap inr (release env id s)
  end.

End config.

(** * An example *)

(** One thread replays the point of [state1] and two release it. *)
Module ThreadsExample.
Definition suffix (_ : history) (_ : ReplayRestoreResult) : res Z := Ok 42%Z.
Definition ops : list (operation Z) := [RunFrom id1 "branch" EXACT suffix; Release id1; Release id1].

Lemma state1_wf : registry_wf (entries state1).
Proof. apply (reachable_wf env0), reach_captured. Qed.

(** The replay holds the lock when the releases mark the point. *)
Definition schedule : list nat :=
  ([0; 0; 0; 0] ++ concat (replicate 40 [1; 2; 0]))%nat%list.

Definition final : config Z := run (start env0 state1 ops) schedule.

Definition shape (o : obs) : string :=
  match o with
  | ObsRestoreAdapter _ _ _ _ => "restore" | ObsValidate _ _ _ _ => "validate"
  | ObsRestoreAgent _ _ _ => "restore agent" | ObsExecute _ _ => "execute"
  | ObsFinalize _ _ _ _ _ => "finalize" | ObsReleaseAdapter _ _ _ => "release adapter"
  | ObsReleaseAgent _ _ _ => "release agent" | _ => "other"
  end.

Lemma concurrent_release_safe_witness :
  (∃ b, dict_get id1 (entries (reg final)) = Some b ∧
    (times adapter_released_ok (log_of id1 final) ≤ 1)%nat ∧
    ∀ T1 o T2, log_of id1 final = (T1 ++ o :: T2)%list → is_use o = true →
      Forall (λ o', released_ok o' = false) T1) ∧
  shape <$> log_of id1 final =
    ["restore"; "validate"; "restore agent"; "execute"; "finalize"; "release adapter"; "release agent"].
Proof.
  split; [|vm_compute; reflexivity]. eexists. split; [vm_compute; reflexivity|].
  destruct (concurrent_release_safe env0 state1 ops schedule id1 _ state1_wf
    ltac:(vm_compute; reflexivity)) as (H1 & _ & H3).
  split; [exact H1|exact H3].
Defined.

Definition rounds : list (list nat) := replicate 40 [1; 2; 0]%nat.

Lemma thread_rounds_fair : Forall (fair_round (length ops)) rounds.
Proof.
  apply Forall_replicate. intros t Ht. simpl in Ht.
  assert (t = 0%nat ∨ t = 1%nat ∨ t = 2%nat) as [->|[->| ->]] by lia; set_solver.
Qed.

Lemma concurrent_threads_end_witness : all_halted (run (start env0 state1 ops) (concat rounds)).
Proof.
  apply (concurrent_threads_end env0 state1 ops rounds state1_wf thread_rounds_fair).
  vm_compute. lia.
Defined.

Lemma concurrent_registry_wf_witness :
  registry_wf (entries (reg final)) ∧
  lifecycle ∘ point <$> dict_get id1 (entries (reg final)) = Some RELEASED.
Proof.
  split; [|vm_compute; reflexivity].
  apply (concurrent_registry_wf env0 state1 ops schedule state1_wf).
  apply halted_forallb. vm_compute. reflexivity.
Defined.

End ThreadsExample.
