(* ===== verification/ChildTheorems.v ===== *)
(** The theorems about child groups: every forked state is released once, a
    group quarantines its point exactly when it must, suffixes run only behind
    their gates, results answer the tasks, and when a group runs in parallel. *)

From stdpp Require Import base strings list sets gmap.
From Stdlib Require Import ZArith Lia.
From S2P Require Import Prelude PyFloat PyValue TraceRuntime ReplayMetrics ReplayTypes.
From S2P Require Import ReplayRegistry RegistryFacts RegistrySpec ChildReplay ChildSpec.
From S2P Require Import ChildGroupSpec GroupSpec ExampleEnv.

(** ** Views of a history *)

Definition child_release_of (o : obs) : list key :=
  match o with ObsReleaseChild _ k _ => [k] | _ => [] end.
Definition agent_child_release_of (o : obs) : list key :=
  match o with ObsReleaseAgent _ k _ => [k] | _ => [] end.

(** The keys that release calls named, whatever the calls' outcome. *)
Definition child_releases (h : history) : list key := h ≫= child_release_of.
Definition agent_child_releases (h : history) : list key := h ≫= agent_child_release_of.

Definition failed_child_release (o : obs) : bool :=
  match o with
  | ObsReleaseChild _ _ (Err _) | ObsReleaseAgent _ _ (Err _) => true
  | _ => false
  end.

(** What makes a group unclean: a release that raised, or an outcome that the
    risk policy denied after the suffix had run. *)
Definition taints (o : obs) : bool := failed_child_release o || is_denied_outcome o.

(** ** Views of the parts of a group *)

Lemma prep_views prep :
  Forall (λ o, is_prep o = true) prep →
  child_releases prep = [] ∧ agent_child_releases prep = [] ∧ existsb taints prep = false.
Proof.
  induction 1 as [|o prep Ho _ (IH1 & IH2 & IH3)]; [done|].
  unfold child_releases, agent_child_releases in *. simpl.
  destruct o; try discriminate; simpl; by rewrite ?IH1, ?IH2, ?IH3.
Qed.

Lemma bind_perm {A B} (f : A → list B) (l l' : list A) : l ≡ₚ l' → l ≫= f ≡ₚ l' ≫= f.
Proof. intros H. by apply bind_Permutation. Qed.

Lemma existsb_perm {A} (f : A → bool) (l l' : list A) : l ≡ₚ l' → existsb f l = existsb f l'.
Proof.
  induction 1 as [|a l l' _ IH|a b l|l1 l2 l3 _ IH1 _ IH2]; simpl; [done|by rewrite IH| |congruence].
  by destruct (f a), (f b).
Qed.

Lemma existsb_concat {A} (f : A → bool) (ls : list (list A)) :
  existsb f (concat ls) = existsb (existsb f) ls.
Proof. induction ls as [|l ls IH]; simpl; [done|]. by rewrite existsb_app, IH. Qed.

Lemma existsb_or {A} (f g : A → bool) (l : list A) :
  existsb (λ a, f a || g a) l = existsb f l || existsb g l.
Proof. induction l as [|a l IH]; simpl; [done|]. rewrite IH. by destruct (f a), (g a), (existsb f l). Qed.

Section views.
Context {O : Type} (entry : RuntimeReplayBinding) (risk : bool).
Implicit Types (x : session O) (h : history).

Lemma body_views x ctx e h :
  body_hist entry risk x ctx e h →
  child_releases h = [] ∧ agent_child_releases h = [] ∧ existsb failed_child_release h = false ∧
  forked_children h = [] ∧ forked_agents h = [].
Proof.
  destruct 1; repeat match goal with
    | H : intent_part _ _ _ _ _ |- _ => destruct H
    | H : outcome_part _ _ _ _ _ |- _ => destruct H
    end; done.
Qed.

Lemma release_views_of x err h :
  release_part entry x err h →
  child_releases h = [key_of x] ∧ agent_child_releases h = option_list (s_agent_key x) ∧
  existsb failed_child_release h = is_some err ∧ existsb is_denied_outcome h = false ∧
  forked_children h = [] ∧ forked_agents h = [].
Proof.
  destruct 1 as [[u|e] Ha|k [u|e] [u'|e'] Ha]; rewrite Ha; done.
Qed.

(** A closed session released its states once; it is tainted when a release
    raised or its outcome was denied. *)
Lemma closed_views V x h :
  session_closed entry risk V x h →
  child_releases h = [key_of x] ∧ agent_child_releases h = option_list (s_agent_key x) ∧
  existsb failed_child_release h = is_some (s_cleanup_error x) ∧
  forked_children h = [] ∧ forked_agents h = [].
Proof.
  intros (err & b & hr & [_ ->] & -> & Hr & Hb).
  apply release_views_of in Hr as (R1 & R2 & R3 & _ & R4 & R5).
  assert (child_releases b = [] ∧ agent_child_releases b = [] ∧
    existsb failed_child_release b = false ∧ forked_children b = [] ∧ forked_agents b = [])
    as (B1 & B2 & B3 & B4 & B5).
  { destruct Hb as [->|(_ & ctx & e & _ & Hb)]; [done|by eapply body_views]. }
  unfold child_releases, agent_child_releases, forked_children, forked_agents in *.
  rewrite !bind_app, existsb_app, B1, B2, B3, B4, B5, R1, R2, R3, R4, R5. done.
Qed.

Lemma closed_all V (xs : list (session O)) hs :
  Forall2 (session_closed entry risk V) xs hs →
  child_releases (concat hs) = (key_of <$> xs) ∧
  agent_child_releases (concat hs) = omap s_agent_key xs ∧
  existsb taints (concat hs) = unclean xs hs ∧
  forked_children (concat hs) = [] ∧ forked_agents (concat hs) = [].
Proof.
  intros H. unfold unclean, taints. rewrite existsb_or, !existsb_concat.
  induction H as [|x h xs hs Hx _ (I1 & I2 & I3 & I4 & I5)]; [done|].
  apply closed_views in Hx as (V1 & V2 & V3 & V4 & V5).
  unfold child_releases, agent_child_releases, forked_children, forked_agents in *. simpl.
  rewrite !bind_app, V1, V2, V3, V4, V5, I1, I2, I4, I5. split_and!; try done.
  - by destruct (s_agent_key x).
  - revert I3. rewrite <- !orb_assoc. intros I3. f_equal.
    rewrite orb_comm, <- orb_assoc, (orb_comm _ (existsb (existsb failed_child_release) hs)), I3.
    destruct (existsb is_denied_outcome h), (existsb (λ x0, is_some (s_cleanup_error x0)) xs); done.
Qed.
End views.

(** ** Views of a group *)

(** Calls of a replay outside child groups. *)
Definition is_group_call (o : obs) : bool :=
  match o with
  | ObsForkChild _ _ _ _ | ObsForkAgent _ _ _ _ | ObsReleaseChild _ _ _ | ObsReleaseAgent _ _ _
  | ObsExecuteChild _ _ | ObsAssessOutcome _ _ _ _ => true
  | _ => false
  end.

Definition ungrouped (h : history) : Prop := Forall (λ o, is_group_call o = false) h.

Lemma reached_ungrouped id t mn entry binding rr l e :
  reached_suffix id t mn entry binding rr l e → ungrouped e.
Proof.
  intros H. apply reached_facts in H as (receipt & rq & -> & _). by repeat constructor.
Qed.

Lemma run_from_ungrouped {O} fz id t mn es (r : res (ReplayRestoreResult * O)) es' l e :
  run_from_outcome fz id t mn es r es' l e → ungrouped e.
Proof.
  unfold ungrouped. destruct 1;
    repeat match goal with
    | H : restore_outcome _ _ _ _ _ _ |- _ => destruct H
    | H : equivalence_outcome _ _ _ _ _ _ _ |- _ => destruct H
    | H : reached_suffix _ _ _ _ _ _ _ _ |- _ => apply reached_ungrouped in H
    end; repeat first [done | apply Forall_app; split | apply Forall_cons; split | apply Forall_nil];
    try (destruct fin as [[]|]; by repeat constructor).
Qed.

Lemma ungrouped_views h :
  ungrouped h →
  child_releases h = [] ∧ agent_child_releases h = [] ∧ forked_children h = [] ∧
  forked_agents h = [].
Proof.
  induction 1 as [|o h Ho _ (I1 & I2 & I3 & I4)]; [done|].
  unfold child_releases, agent_child_releases, forked_children, forked_agents in *.
  rewrite !bind_cons, I1, I2, I3, I4. by destruct o.
Qed.

Section group_views.
Context {O : Type} (env : Env O).

Lemma fallback_ungrouped id tasks es r es' l e :
  fallback_run env id tasks es r es' l e → ungrouped e.
Proof.
  induction 1; unfold ungrouped in *; [constructor|by eapply run_from_ungrouped|].
  apply Forall_app. split; [by eapply run_from_ungrouped|done].
Qed.

(** A history releases exactly the states it forked, each once. *)
Record releases_forks (h : history) : Prop := {
  rf_children_once : NoDup (child_releases h);
  rf_children : ∀ k, k ∈ child_releases h ↔ k ∈ forked_children h;
  rf_agents_once : NoDup (agent_child_releases h);
  rf_agents : ∀ k, k ∈ agent_child_releases h ↔ k ∈ forked_agents h
}.

Lemma ungrouped_releases h : ungrouped h → releases_forks h.
Proof. intros (A & B & C & D)%ungrouped_views. split; rewrite ?A, ?B, ?C, ?D; try done; constructor. Qed.

Lemma closed_group_releases entry risk V prep rest (xs : list (session O)) hs :
  owns_forks prep xs → shuffled hs rest → Forall2 (session_closed entry risk V) xs hs →
  releases_forks (prep ++ rest)%list ∧ existsb taints (prep ++ rest)%list = unclean xs hs.
Proof.
  intros [A B C D E] Hs%shuffled_perm Hc. apply closed_all in Hc as (C1 & C2 & C3 & C4 & C5).
  apply prep_views in E as (P1 & P2 & P3).
  unfold child_releases, agent_child_releases, forked_children, forked_agents in *.
  pose proof (bind_perm child_release_of _ _ Hs) as R1. rewrite C1 in R1.
  pose proof (bind_perm agent_child_release_of _ _ Hs) as R2. rewrite C2 in R2.
  pose proof (bind_perm forked_child _ _ Hs) as R3. rewrite C4 in R3.
  pose proof (bind_perm forked_agent _ _ Hs) as R4. rewrite C5 in R4.
  apply Permutation_nil_r in R3, R4. split.
  - split; unfold child_releases, agent_child_releases, forked_children, forked_agents;
      rewrite ?bind_app, ?P1, ?P2, ?R3, ?R4, ?app_nil_r; simpl.
    + by rewrite R1.
    + intros k. rewrite R1. symmetry. apply A.
    + by rewrite R2.
    + intros k. rewrite R2, C, list_elem_of_omap, list_elem_of_fmap. naive_solver.
  - by rewrite existsb_app, P3, (existsb_perm _ _ _ Hs), C3.
Qed.

Lemma isolated_views id entry risk settle tasks parallel es r es' l e :
  @isolated_outcome O id entry risk settle tasks parallel es r es' l e →
  releases_forks e ∧ es' = (if existsb taints e then set_failed id entry es else es) ∧
  (is_ok r = true → existsb taints e = false).
Proof.
  destruct 1 as [prep rest xs hs results l Ho Hs Hc _ _ Hu|prep rest xs hs x l Ho Hs Hc].
  - destruct (closed_group_releases _ _ _ _ _ _ _ Ho Hs Hc) as [H1 ->]. by rewrite Hu.
  - by destruct (closed_group_releases _ _ _ _ _ _ _ Ho Hs Hc) as [H1 ->].
Qed.

Lemma group_releases id tasks parallel settle es r es' l e :
  group_outcome env id tasks parallel settle es r es' l e → releases_forks e.
Proof.
  destruct 1; try (apply ungrouped_releases; first [by constructor|by eapply fallback_ungrouped]);
    by eapply isolated_views.
Qed.
End group_views.

(** ** Suffixes run behind their gates *)

(** The session of task [t] in a history: its restored state was validated
    against the point, the risk policy allowed its intent when it has one, its
    agent state was restored, and then its suffix ran and its states were
    released. *)
Definition gated (b : RuntimeReplayBinding) (risk : bool) (intent : pyval)
    (ctx : ReplayChildExecutionContext) (o : res unit) (minimum : ReplayFidelity)
    (h : history) : Prop :=
  ∃ k ak receipt gate rr ra,
    adapter_child_key ctx = Some k ∧
    contract_ok (point b) receipt (report (ctx_restore ctx)) ∧
    rc_achieved_fidelity receipt ≠ NON_REPLAYABLE ∧
    fidelity_meets (fidelity (point b)) (rc_achieved_fidelity receipt) = true ∧
    promotion_eligible (ctx_restore ctx) =
      equivalent (report (ctx_restore ctx))
      && fidelity_meets (rr_achieved_fidelity (ctx_restore ctx)) SEMANTIC_EQUIVALENT
      && fidelity_meets (rr_achieved_fidelity (ctx_restore ctx)) minimum ∧
    (if risk
     then ∃ a, disposition a = ALLOW ∧ gate = [ObsAssessIntent (adapter b) k intent (Ok (Some a))]
     else gate = []) ∧
    (ObsValidateChild (adapter b) k receipt (Ok (Some (report (ctx_restore ctx)))) :: gate ++
     [ObsRestoreAgent (agent_state_store b) ak (Ok tt); ObsExecuteChild ctx o;
      ObsReleaseChild (adapter b) k rr; ObsReleaseAgent (agent_state_store b) ak ra])%list
      `sublist_of` h.

Section gates.
Context {O : Type} (env : Env O) (entry : RuntimeReplayBinding) (risk : bool).
Implicit Types (x : session O) (h : history).

Lemma body_execute x ctx0 e h ctx o :
  body_hist entry risk x ctx0 e h → ObsExecuteChild ctx o ∈ h →
  ctx = ctx0 ∧ ∃ a gate, intent_part entry risk x a gate ∧
    (gate ++ [ObsRestoreAgent (agent_state_store entry) (agent_of x) (Ok tt);
              ObsExecuteChild ctx o])%list `sublist_of` h.
Proof.
  assert (∀ a gate, intent_part entry risk x a gate → ObsExecuteChild ctx o ∉ gate) as Hg.
  { intros a gate Hp Hin. destruct Hp; [by apply not_elem_of_nil in Hin|].
    by apply list_elem_of_singleton in Hin. }
  assert (∀ a gate, outcome_part entry risk x a gate → ObsExecuteChild ctx o ∉ gate) as Ho.
  { intros a gate Hp Hin. destruct Hp; [by apply not_elem_of_nil in Hin|].
    by apply list_elem_of_singleton in Hin. }
  intros H Hin. destruct H; repeat (apply elem_of_app in Hin as [Hin|Hin]);
    rewrite ?elem_of_cons, ?elem_of_nil in Hin; try (by edestruct Hg); try (by edestruct Ho).
  all: repeat match goal with
    | H : _ ∨ _ |- _ => destruct H as [Hin|Hin]
    | H : ObsExecuteChild _ _ = _ |- _ => try discriminate H; injection H as -> ->
    end; try done.
  all: split; [done|]; exists a, h; split; [done|]; apply sublist_app; [done|].
  all: do 2 apply sublist_skip; apply sublist_nil_l.
Qed.

Lemma release_both x k err h :
  release_part entry x err h → s_agent_key x = Some k →
  ∃ rr ra, h = [ObsReleaseChild (adapter entry) (key_of x) rr;
                ObsReleaseAgent (agent_state_store entry) k ra].
Proof. destruct 1; intros Hk; [congruence|]. simplify_eq. eauto. Qed.

Lemma execute_not_released x err h ctx o :
  release_part entry x err h → ObsExecuteChild ctx o ∉ h.
Proof. destruct 1; rewrite ?elem_of_cons, ?elem_of_nil; naive_solver. Qed.

Lemma intent_gate x a gate :
  intent_part entry risk x a gate →
  if risk then ∃ a, disposition a = ALLOW ∧
    gate = [ObsAssessIntent (adapter entry) (key_of x) (task_intent (s_task x)) (Ok (Some a))]
  else gate = [].
Proof. destruct 1 as [->|b -> Hb]; [done|]. eauto. Qed.

(** The session that ran a suffix, within the calls of its group. *)
Lemma session_gated id prep rest t x h V ctx o :
  session_closed entry risk V x h → (V → session_valid entry id prep t x) →
  h `sublist_of` rest → ObsExecuteChild ctx o ∈ h →
  ctx_child_id ctx = task_child_id t ∧ ctx_isolated ctx = true ∧
  gated entry risk (task_intent t) ctx o (task_minimum_fidelity t) (prep ++ rest)%list.
Proof.
  intros (err & b & hr & _ & -> & Hr & Hb) HV Hsub Hin.
  apply elem_of_app in Hin as [Hin|Hin]; [|by apply execute_not_released with (1 := Hr) in Hin].
  destruct Hb as [->|(v & ctx0 & e & Hctx & Hb)]; [by apply not_elem_of_nil in Hin|].
  destruct (body_execute _ _ _ _ _ _ Hb Hin) as (-> & a & gate & Hgate & Hs).
  destruct (HV v) as [Ht Ha Hrc Hbd (rep & el & rm & em & Hval & Hc & Hctx')].
  rewrite Hctx in Hctx'. injection Hctx' as ->. simpl. split_and!; [done|done|].
  destruct (s_agent_key x) as [ak|] eqn:Hak; [|done].
  destruct (release_both _ _ _ _ Hr Hak) as (rr & ra & ->).
  apply validate_equivalence_contract_spec in Hc as [Hk ->].
  exists (key_of x), ak, (child_receipt (s_lease x)), gate, rr, ra. simpl.
  split_and!; try done.
  - rewrite <- Ht. by eapply intent_gate.
  - apply (sublist_app [_] prep); [by apply singleton_sublist_l|].
    etrans; [|exact Hsub]. unfold agent_of in Hs. rewrite Hak in Hs.
    change [?a; ?b; ?c; ?d] with ([a; b] ++ [c; d])%list.
    rewrite app_assoc. by apply sublist_app.
Qed.

Lemma isolated_gated id settle tasks parallel es r es' l e ctx o :
  @isolated_outcome O id entry risk settle tasks parallel es r es' l e →
  ObsExecuteChild ctx o ∈ e →
  ∃ t, t ∈ tasks ∧ ctx_child_id ctx = task_child_id t ∧ ctx_isolated ctx = true ∧
    gated entry risk (task_intent t) ctx o (task_minimum_fidelity t) e.
Proof.
  assert (∀ V prep rest (xs : list (session O)) hs,
    (V → Forall2 (session_valid entry id prep) tasks xs) → owns_forks prep xs →
    shuffled hs rest → Forall2 (session_closed entry risk V) xs hs →
    ObsExecuteChild ctx o ∈ (prep ++ rest)%list → ∃ t, t ∈ tasks ∧
      ctx_child_id ctx = task_child_id t ∧ ctx_isolated ctx = true ∧
      gated entry risk (task_intent t) ctx o (task_minimum_fidelity t) (prep ++ rest)%list) as Hmain.
  { intros V prep rest xs hs HV Ho Hs Hc Hin. apply elem_of_app in Hin as [Hin|Hin].
    { by pose proof (proj1 (Forall_forall _ _) (of_prep _ _ Ho) _ Hin). }
    rewrite (shuffled_perm _ _ Hs) in Hin. apply list_elem_of_In, in_concat in Hin as (h & Hh & Hin).
    apply list_elem_of_In in Hin. apply list_elem_of_In, list_elem_of_lookup in Hh as [i Hi].
    destruct (Forall2_lookup_r _ _ _ _ _ Hc Hi) as (x & Hx & Hcl).
    pose proof (shuffled_sublist _ _ _ _ Hs Hi) as Hsub.
    assert (V) as v.
    { destruct Hcl as (err & b & hr & _ & -> & Hr & [->|[v _]]); [|done].
      by apply execute_not_released with (1 := Hr) in Hin. }
    destruct (Forall2_lookup_r _ _ _ _ _ (HV v) Hx) as (t & Ht & Hval).
    exists t. split; [by eapply list_elem_of_lookup_2|]. by eapply session_gated. }
  destruct 1 as [prep rest xs hs results l Ho Hs Hc Hv|prep rest xs hs x l Ho Hs Hc]; intros Hin.
  - by eapply (Hmain True).
  - by eapply (Hmain (Forall2 _ _ _)).
Qed.
End gates.

(** ** Results *)

Definition result_child_id {O} (r : child_result O) : string :=
  match r with inl a => res_child_id a | inr f => fail_child_id f end.
Definition result_restore {O} (r : child_result O) : ReplayRestoreResult :=
  match r with inl a => res_restore a | inr f => fail_restore f end.

(** A restore of point [b] for a branch that the equivalence contract accepts. *)
Definition validated_restore (b : RuntimeReplayBinding) (id target : string)
    (minimum : ReplayFidelity) (rr : ReplayRestoreResult) : Prop :=
  rr_replay_point_id rr = id ∧ rr_target_branch_id rr = target ∧
  (∃ receipt, contract_ok (point b) receipt (report rr)) ∧
  rr_achieved_fidelity rr = rp_achieved_fidelity (report rr) ∧
  promotion_eligible rr =
    equivalent (report rr) && fidelity_meets (rr_achieved_fidelity rr) SEMANTIC_EQUIVALENT
    && fidelity_meets (rr_achieved_fidelity rr) minimum.

Definition allowed (a : option ReplayRiskAssessment) : Prop :=
  ∃ v, a = Some v ∧ disposition v = ALLOW.

(** The result [r] answers task [t]. *)
Record answers {O} (b : RuntimeReplayBinding) (id : string) (risk settle isolated : bool)
    (t : ReplayChildTask O) (r : child_result O) : Prop := {
  an_id : result_child_id r = task_child_id t;
  an_restore : validated_restore b id (task_target_branch_id t) (task_minimum_fidelity t)
                 (result_restore r);
  an_kind : match r with
            | inl a => res_isolated a = isolated ∧
                (isolated && risk = true →
                 allowed (intent_assessment a) ∧ allowed (outcome_assessment a))
            | inr f => settle = true ∧ isolated = true ∧ fail_isolated f = true
            end
}.

(** A task that was constructed. *)
Definition frozen_task {O} (t : ReplayChildTask O) : Prop := ∃ t0, mk_ReplayChildTask t0 = Ok t.

Lemma frozen_task_ids {O} (t : ReplayChildTask O) :
  frozen_task t → require_nonempty_text (task_child_id t) "child_id" = Ok (task_child_id t) ∧
  require_nonempty_text (task_target_branch_id t) "target_branch_id"
    = Ok (task_target_branch_id t).
Proof.
  intros [t0 H]. unfold mk_ReplayChildTask in H. inv_res. simpl.
  split; eapply normalized_require, require_nonempty_text_normalized; eassumption.
Qed.

Section results.
Context {O : Type} (env : Env O).

Lemma session_answers entry risk settle par id prep (t : ReplayChildTask O) x h r :
  frozen_task t → session_valid entry id prep t x →
  session_result entry risk settle par x h r →
  answers entry id risk settle true t r.
Proof.
  intros [Hid _]%frozen_task_ids [Ht _ _ _ (rep & el & rm & em & _ & Hc & Hctx')]
    (ctx & m & e & b & hr & u & Hctx & _ & Hb & _ & _ & Hres).
  rewrite Hctx in Hctx'. injection Hctx' as ->.
  apply validate_equivalence_contract_spec in Hc as [Hk ->].
  assert (∀ sm wall, validated_restore entry id (task_target_branch_id t) (task_minimum_fidelity t)
    (with_suffix (restore_result id (task_target_branch_id t) (child_receipt (s_lease x)) rep
      (equivalent rep && fidelity_meets (rp_achieved_fidelity rep) SEMANTIC_EQUIVALENT
       && fidelity_meets (rp_achieved_fidelity rep) (task_minimum_fidelity t)) rm em) sm wall))
    as Hv. { intros. split_and!; simpl; eauto. }
  unfold settle_session, settled_restore in Hres. rewrite Ht in Hres.
  destruct e as [[[o ia] oa]|err].
  - simplify_eq/=. split; [done|apply Hv|]. split; [done|]. intros Hrisk.
    inversion Hb as [| | | |a' h1 o' b' h2 Hi Ho]; subst. unfold allowed.
    simpl in Hrisk. destruct Hi as [|? _]; [congruence|]. destruct Ho as [|? _]; [congruence|]. simpl. eauto 6.
  - destruct (settle && negb u) eqn:Hset; [|done]. unfold mk_ReplayChildExecutionFailure in Hres.
    simpl in Hres. rewrite Hid in Hres. inv_res. destruct settle; [|done].
    split; [done|apply Hv|done].
Qed.

Lemma run_from_validated fz id t mn es rr (o : O) es' l e :
  run_from_outcome fz id t mn es (Ok (rr, o)) es' l e →
  es' = es ∧ (∃ rr0, ObsExecute rr0 (Ok tt) ∈ e) ∧
  ∃ tg b, require_nonempty_text t "target_branch_id" = Ok tg ∧ dict_get id es = Some b ∧
    validated_restore b id tg mn rr.
Proof.
  intros Ho.
  inversion Ho as [| | | | | | |tg b k rr0 o' sm wall fin l0 e0 Ht' Hadm Hreach _ _]; subst.
  split; [done|]. split; [exists rr0; set_solver|]. exists tg, b. split; [done|]. split.
  - unfold admission in Hadm. destruct (dict_get id es'); [|done]. inv_res. by case_match; simplify_eq.
  - destruct (reached_facts _ _ _ _ _ _ _ _ Hreach) as (receipt & rq & _ & Hk & Ha & _ & _ & Hp).
    split_and!; simpl; eauto; by destruct Hreach.
Qed.

Lemma fallback_answers id risk tasks es r es' l e b :
  fallback_run env id tasks es r es' l e → dict_get id es = Some b →
  Forall frozen_task tasks → ∀ rs, r = Ok rs →
  es' = es ∧ Forall2 (answers b id risk false false) tasks rs.
Proof.
  induction 1 as [es|tk tks es x es' l e Hr|tk tks es [rr o] es1 l1 e1 r es' l2 e2 Hr _ IH];
    intros Hb Hf rs Hrs; [by simplify_eq|done|].
  apply Forall_cons in Hf as [Htk Hf]. destruct r as [rs'|]; [|done]. simplify_eq/=.
  apply frozen_task_ids in Htk as [_ Htk].
  destruct (run_from_validated _ _ _ _ _ _ _ _ _ _ Hr) as (-> & _ & tg & b' & Htg & Hb' & Hv).
  replace b' with b in * by congruence. replace tg with (task_target_branch_id tk) in * by congruence.
  destruct (IH Hb Hf rs' eq_refl) as [-> Hrest]. split; [done|]. constructor; [|done].
  split; [done|exact Hv|]. by split.
Qed.

Lemma isolated_answers entry id risk settle tasks parallel es rs es' l e :
  isolated_outcome id entry risk settle tasks parallel es (Ok rs) es' l e →
  Forall frozen_task tasks → Forall2 (answers (O := O) entry id risk settle true) tasks rs.
Proof.
  inversion 1 as [prep rest xs hs results l' Ho Hs Hc Hv Hr Hu Hl|]; subst. intros Hf.
  assert (length xs = length hs) as Hlen by by eapply Forall2_length.
  clear Ho Hs Hc Hu H Hl. generalize dependent (actual_parallel parallel xs). intros par Hr.
  revert tasks hs rs Hf Hv Hr Hlen. induction xs as [|x xs IH];
    intros tasks [|h hs] rs Hf Hv Hr Hlen; try discriminate.
  - apply Forall2_nil_inv_r in Hv as ->. apply Forall2_nil_inv_l in Hr as ->. constructor.
  - apply Forall2_cons_inv_r in Hv as (t & ts & Ht & Hv & ->). simpl in Hr.
    apply Forall2_cons_inv_l in Hr as (r & rs' & Hxr & Hr & ->).
    apply Forall_cons in Hf as [Hft Hf]. simpl in Hlen.
    constructor; [by eapply session_answers|]. eapply IH; try done. lia.
Qed.

(** The results of a group answer its tasks, one by one. *)
Lemma group_answers id tasks parallel settle es rs es' l e :
  group_outcome env id tasks parallel settle es (Ok rs) es' l e → Forall frozen_task tasks →
  es' = es ∧ ∃ b risk isolated, dict_get id es = Some b ∧
    (isolated = true → ∃ m, replay_child_risk_mode (adapter_attr env (adapter b)) = Ok m ∧
       risk = bool_decide (m ≠ None)) ∧
    Forall2 (answers b id risk settle isolated) tasks rs.
Proof.
  inversion 1 as [| |entry rs' es1 l1 eff Hd _ -> Hfb| |entry bd rk rs' es1 l1 eff _ Hd _ _ Hrk Hiso|];
    subst; intros Hf.
  - destruct (fallback_answers _ false _ _ _ _ _ _ _ Hfb Hd Hf _ eq_refl) as [-> Ha].
    split; [done|]. by exists entry, false, false.
  - pose proof (isolated_answers _ _ _ _ _ _ _ _ _ _ _ Hiso Hf) as Ha.
    split; [by inversion Hiso|]. exists entry, (bool_decide (rk ≠ None)), true.
    split_and!; [done| |done]. eauto.
Qed.
End results.

(** ** Serial or parallel *)

Section mode.
Context {O : Type}.
Implicit Types (xs : list (session O)).

Lemma all_distinct_NoDup l : all_distinct l = true ↔ NoDup l.
Proof.
  induction l as [|a l IH]; simpl; [split; [constructor|done]|].
  rewrite andb_true_iff, IH, NoDup_cons, forallb_forall. apply and_iff_compat_r. split.
  - intros H Hin%list_elem_of_In. apply H, negb_true_iff, bool_decide_eq_false in Hin. done.
  - intros Hn b Hb%list_elem_of_In. apply negb_true_iff, bool_decide_eq_false. by intros ->.
Qed.

Lemma actual_parallel_iff parallel xs :
  actual_parallel parallel xs = true ↔
  (parallel = true ∧ (1 < length xs)%nat) ∧
  Forall (λ x, concurrency (s_lease x) ≠ SERIAL_ONLY) xs ∧ NoDup (process_worker_identities xs).
Proof.
  unfold actual_parallel. rewrite !andb_true_iff, all_distinct_NoDup, Z.ltb_lt.
  rewrite forallb_forall, Forall_forall.
  assert ((1 < Z.of_nat (length xs))%Z ↔ (1 < length xs)%nat) as -> by lia.
  assert ((∀ x, In x xs → match concurrency (s_lease x) with
             THREAD_SAFE | PROCESS_ISOLATED => true | SERIAL_ONLY => false end = true) ↔
          (∀ x, x ∈ xs → concurrency (s_lease x) ≠ SERIAL_ONLY)) as ->; [|naive_solver].
  split; intros H x Hx%list_elem_of_In; specialize (H x Hx); by destruct (concurrency (s_lease x)).
Qed.

Definition downgraded (parallel : bool) xs : bool :=
  (parallel && (1 <? Z.of_nat (length xs))%Z) && negb (actual_parallel parallel xs).

Lemma choose_mode_counts parallel xs ts cf un pr s :
  wp (choose_mode parallel) {| prepared := xs; threads := ts; cleanup_failed := cf;
      unsafe_outcome := un; preparation_complete := pr; g_reg := s |}
    (λ r (g' : gstate O), ∃ s' l, r = Ok (actual_parallel parallel xs) ∧
       g' = {| prepared := xs; threads := ts; cleanup_failed := cf; unsafe_outcome := un;
               preparation_complete := pr; g_reg := s' |} ∧
       delta s s' (entries s) l [] ∧
       total "child_parallel_group_count" l = Z.b2z (actual_parallel parallel xs) ∧
       total "child_parallel_downgrade_group_count" l = Z.b2z (downgraded parallel xs)).
Proof.
  pose proof (delta_refl s) as D. unfold choose_mode, downgraded. gsym.
  all: do 2 eexists; split; [done|]; split; [done|]; split; [exact D|].
  all: repeat match goal with H : ?x = true |- _ => rewrite H | H : ?x = false |- _ => rewrite H end.
  all: rewrite ?andb_false_r; done.
Qed.
End mode.

Section claims.
Context {O : Type} (env : Env O).

(** C5: whatever happens in a child group and however the pool interleaves its
    threads, the group asks for the release of exactly the child states and
    agent states that were forked for it, once each. *)
Theorem child_sessions_released_once id tasks parallel mw settle sched s r s' :
  run_child_group_from env id tasks parallel mw settle sched s = (r, s') →
  let h := calls s s' in
  NoDup (child_releases h) ∧ (∀ k, k ∈ child_releases h ↔ k ∈ forked_children h) ∧
  NoDup (agent_child_releases h) ∧ (∀ k, k ∈ agent_child_releases h ↔ k ∈ forked_agents h).
Proof.
  intros H. pose proof (wp_elim _ _ _ _ _
    (run_child_group_from_spec env id tasks parallel mw settle sched s) H) as (es & l & e & D & Ho).
  rewrite (delta_calls _ _ _ _ _ D). by destruct (group_releases _ _ _ _ _ _ _ _ _ _ Ho).
Qed.

(** C31: a group with isolated children changes no registered point, except
    that it marks its own point failed exactly when a release of a forked state
    raised or an outcome was denied; it returns results only if neither
    happened. *)
Theorem child_group_quarantine id tasks parallel mw settle sched s r s' b m :
  dict_get id (entries s) = Some b →
  isolated_replay_child_mode (adapter_attr env (adapter b)) (store_attr env (agent_state_store b))
    = Ok (Some m) →
  run_child_group_from env id tasks parallel mw settle sched s = (r, s') →
  let tainted := existsb taints (calls s s') in
  entries s' = (if tainted then set_failed id b (entries s) else entries s) ∧
  (is_ok r = true → tainted = false).
Proof.
  intros Hb Hm H. pose proof (wp_elim _ _ _ _ _
    (run_child_group_from_spec env id tasks parallel mw settle sched s) H) as (es & l & e & D & Ho).
  rewrite (delta_calls _ _ _ _ _ D), (d_entries _ _ _ _ _ D).
  destruct Ho; try done; try congruence.
  - replace b with entry by congruence.
    by destruct (isolated_views _ _ _ _ _ _ _ _ _ _ _ H5) as (_ & ? & ?).
  - replace b with entry by congruence.
    by destruct (isolated_views _ _ _ _ _ _ _ _ _ _ _ H4) as (_ & ? & ?).
Qed.
(** C30: a suffix of an isolated child runs only for a ready point and one of
    the group's tasks, after the adapter's report on the restored state passed
    the equivalence contract, after the risk policy (when the adapter has one)
    allowed the task's intent, and after the child's agent state was restored;
    its states are released afterwards. *)
Theorem child_suffix_gated id tasks parallel mw settle sched s r s' ctx o :
  run_child_group_from env id tasks parallel mw settle sched s = (r, s') →
  ObsExecuteChild ctx o ∈ calls s s' →
  ∃ b t m, dict_get id (entries s) = Some b ∧ lifecycle (point b) = READY ∧ t ∈ tasks ∧
    ctx_child_id ctx = task_child_id t ∧ ctx_isolated ctx = true ∧
    replay_child_risk_mode (adapter_attr env (adapter b)) = Ok m ∧
    gated b (bool_decide (m ≠ None)) (task_intent t) ctx o (task_minimum_fidelity t) (calls s s').
Proof.
  intros H. pose proof (wp_elim _ _ _ _ _
    (run_child_group_from_spec env id tasks parallel mw settle sched s) H) as (es & l & e & D & Ho).
  rewrite (delta_calls _ _ _ _ _ D). intros Hin.
  assert (∀ h, ungrouped h → ObsExecuteChild ctx o ∉ h) as Hun.
  { intros h Hh Hx. by pose proof (proj1 (Forall_forall _ _) Hh _ Hx). }
  destruct Ho as [| |b rs es' l e Hb _ _ Hfb|b x es' l e Hb _ _ Hfb
                 |b k m rs es' l e _ Hb Hrd _ Hm Hiso|b k m x es' l e Hb Hrd _ Hm Hiso].
  1,2: by apply not_elem_of_nil in Hin.
  1,2: by edestruct Hun; [eapply fallback_ungrouped|].
  all: destruct (isolated_gated _ _ _ _ _ _ _ _ _ _ _ _ _ Hiso Hin) as (t & Ht & Hid & Hi & Hg);
    exists b, t, m; done.
Qed.

(** The results of a group answer its tasks in order: each has its task's
    child id, branch and point, carries a restore that passed the equivalence
    contract, and is promotable exactly when the report is equivalent at
    semantic or better fidelity and at the task's minimum; results of a guarded
    adapter carry two assessments that allowed them; failures appear only in
    settled groups; and no registered point changed. *)
Theorem child_results_answer_tasks id tasks parallel mw settle sched s rs s' :
  Forall frozen_task tasks →
  run_child_group_from env id tasks parallel mw settle sched s = (Ok rs, s') →
  entries s' = entries s ∧ ∃ b risk isolated, dict_get id (entries s) = Some b ∧
    (isolated = true → ∃ m, replay_child_risk_mode (adapter_attr env (adapter b)) = Ok m ∧
       risk = bool_decide (m ≠ None)) ∧
    Forall2 (answers b id risk settle isolated) tasks rs.
Proof.
  intros Hf H. pose proof (wp_elim _ _ _ _ _
    (run_child_group_from_spec env id tasks parallel mw settle sched s) H) as (es & l & e & D & Ho).
  rewrite (d_entries _ _ _ _ _ D). by eapply group_answers.
Qed.

(** A prepared group runs in parallel exactly when that was requested, it
    has several sessions, none is serial-only and no two process-isolated
    sessions share a worker; the parallel and downgrade counters record it. *)
Theorem parallel_decision parallel (g : gstate O) r g' :
  choose_mode parallel g = (r, g') →
  let xs := prepared g in
  let asked := parallel = true ∧ (1 < length xs)%nat in
  let safe := Forall (λ x, concurrency (s_lease x) ≠ SERIAL_ONLY) xs ∧
              NoDup (process_worker_identities xs) in
  prepared g' = xs ∧ ∃ b d, r = Ok b ∧ (b = true ↔ asked ∧ safe) ∧ (d = true ↔ asked ∧ ¬ safe) ∧
    cnt (g_reg g') "child_parallel_group_count" =
      (cnt (g_reg g) "child_parallel_group_count" + Z.b2z b)%Z ∧
    cnt (g_reg g') "child_parallel_downgrade_group_count" =
      (cnt (g_reg g) "child_parallel_downgrade_group_count" + Z.b2z d)%Z.
Proof.
  destruct g as [xs ts cf un pr s]. simpl. intros H.
  pose proof (actual_parallel_iff parallel xs) as Ha.
  pose proof (wp_elim _ _ _ _ _ (choose_mode_counts parallel xs ts cf un pr s) H)
    as (s1 & l & -> & -> & D & H1 & H2). split; [done|].
  exists (actual_parallel parallel xs), (downgraded parallel xs). simpl.
  rewrite !(d_counts _ _ _ _ _ D), H1, H2. split_and!; try done.
  unfold downgraded. rewrite andb_true_iff, negb_true_iff, <- not_true_iff_false, Ha.
  rewrite andb_true_iff, Z.ltb_lt. split; [intros [[? ?] Hn]|intros [[? ?] Hn]].
  - split; [split; [done|lia]|]. intros Hs. apply Hn. split; [split; [done|lia]|done].
  - split; [split; [done|lia]|]. by intros [_ Hs].
Qed.
End claims.

(** ** The hypotheses hold on concrete runs *)

Definition tasks2 : list (ReplayChildTask Z) := [task "c1"; task "c2"].

(** Two sessions, interleaved. *)
Definition sched2 : list nat := [0; 1; 1; 0; 0; 1]%nat.
Definition group2 (env : Env Z) : res (list (child_result Z)) * rstate :=
  run_child_group_from env id1 tasks2 true None false sched2 state1.

Definition results2 : list (child_result Z) :=
  match (group2 env0).1 with Ok rs => rs | Err _ => [] end.

Lemma child_sessions_released_once_witness :
  length (child_releases (calls state1 (group2 env0).2)) = 2%nat ∧
  NoDup (child_releases (calls state1 (group2 env0).2)).
Proof.
  split; [vm_compute; reflexivity|].
  refine (proj1 (child_sessions_released_once env0 id1 tasks2 true None false sched2 state1
    (group2 env0).1 (group2 env0).2 _)). vm_compute. reflexivity.
Defined.

Lemma child_group_quarantine_witness :
  existsb taints (calls state1 (group2 denying_env).2) = true ∧
  entries (group2 denying_env).2 = set_failed id1 entry1 (entries state1).
Proof.
  split; [vm_compute; reflexivity|].
  refine (proj1 (child_group_quarantine denying_env id1 tasks2 true None false sched2 state1
    (group2 denying_env).1 (group2 denying_env).2 entry1 _ _ _ _));
    vm_compute; reflexivity.
Defined.

Definition context1 : ReplayChildExecutionContext :=
  {| ctx_child_id := "c1"; ctx_restore := restore_result id1 "b2" good_receipt good_report true f0 f0;
     ctx_isolated := true; adapter_child_key := Some 7%Z |}.

Lemma child_suffix_gated_witness :
  ∃ b m, replay_child_risk_mode (adapter_attr env0 (adapter b)) = Ok m ∧
    gated b (bool_decide (m ≠ None)) (PMap true []) context1 (Ok tt) EXACT
      (calls state1 (group2 env0).2).
Proof.
  destruct (child_suffix_gated env0 id1 tasks2 true None false sched2 state1
    (group2 env0).1 (group2 env0).2 context1 (Ok tt)) as (b & t & m & H).
  - vm_compute. reflexivity.
  - vm_compute. do 10 right. left.
  - destruct H as (_ & _ & Ht & _ & _ & Hm & Hg). exists b, m. split; [exact Hm|].
    apply elem_of_cons in Ht as [->|Ht]; [exact Hg|].
    apply list_elem_of_singleton in Ht as ->. exact Hg.
Defined.

Lemma child_results_answer_tasks_witness :
  length results2 = 2%nat ∧ entries (group2 env0).2 = entries state1.
Proof.
  split; [vm_compute; reflexivity|].
  refine (proj1 (child_results_answer_tasks env0 id1 tasks2 true None false sched2 state1
    results2 (group2 env0).2 _ _)).
  - constructor; [exists (task "c1"); reflexivity|].
    constructor; [exists (task "c2"); reflexivity|constructor].
  - vm_compute. reflexivity.
Defined.

Lemma parallel_decision_witness :
  ∃ b, (choose_mode (O := Z) true (start_group state1)).1 = Ok b ∧ b = false.
Proof.
  destruct (parallel_decision (O := Z) true (start_group state1)
    (choose_mode (O := Z) true (start_group state1)).1
    (choose_mode (O := Z) true (start_group state1)).2)
    as (_ & b & d & Hb & Hiff & _); [vm_compute; reflexivity|].
  exists b. split; [exact Hb|]. destruct b; [|reflexivity].
  destruct (proj1 Hiff eq_refl) as [[_ Hlen] _]. vm_compute in Hlen. lia.
Defined.
