(* ===== verification/Counterfactual.v ===== *)
(** Counterfactual suffix replay:
    [loopx/capabilities/explore/counterfactual_runtime.py], and
    [summarize_counterfactual_results] of [replay_metrics.py].

    A hypothesis names the first affected event of a trace, the validations
    that a change must fix and those it must not break.  A candidate change is
    executed on a replayed suffix, and the promotion contract decides what its
    validation outcomes amount to. *)

From stdpp Require Import base strings list sets gmap.
From Stdlib Require Import ZArith Lia.
From S2P Require Import Prelude PyFloat PyValue TraceRuntime ReplayMetrics ReplayTypes.
From S2P Require Import ReplayRegistry ChildReplay.

(** * Data *)

Inductive CounterfactualDecision := PROMOTED | REJECTED | OBSERVED_ONLY.

Definition CounterfactualDecision_value (d : CounterfactualDecision) : string :=
  match d with
  | PROMOTED => "promoted" | REJECTED => "rejected" | OBSERVED_ONLY => "observed_only"
  end.

#[export] Instance CounterfactualDecision_eq_dec : EqDecision CounterfactualDecision.
Proof. solve_decision. Defined.

Record ValidationTarget := {
  tg_validation_id : string;
  baseline_passed : bool
}.

Definition mk_ValidationTarget (t : ValidationTarget) : res ValidationTarget :=
  v ← require_nonempty_text (tg_validation_id t) "validation_id";
  Ok {| tg_validation_id := v; baseline_passed := baseline_passed t |}.

Record ValidationOutcome := {
  validation_id : string;
  passed : bool;
  public_summary : option string
}.

Definition mk_ValidationOutcome (o : ValidationOutcome) : res ValidationOutcome :=
  v ← require_nonempty_text (validation_id o) "validation_id";
  s ← match public_summary o with
      | None => Ok None
      | Some s => t ← freeze_public_text "public_summary" s "validation_outcome"; Ok (Some t)
      end;
  Ok {| validation_id := v; passed := passed o; public_summary := s |}.

Record CounterfactualHypothesis := {
  hypothesis_id : string;
  first_affected_event_id : string;
  first_affected_sequence : Z;
  fix_set : list ValidationTarget;
  guard_set : list ValidationTarget;
  hyp_minimum_fidelity : ReplayFidelity
}.

(** The targets are [ValidationTarget] objects, built before the hypothesis. *)
Definition mk_CounterfactualHypothesis (h : CounterfactualHypothesis)
  : res CounterfactualHypothesis :=
  fix_set ← res_map mk_ValidationTarget (fix_set h);
  guard_set ← res_map mk_ValidationTarget (guard_set h);
  i ← require_nonempty_text (hypothesis_id h) "hypothesis_id";
  e ← require_nonempty_text (first_affected_event_id h) "first_affected_event_id";
  _ ← require (0 <=? first_affected_sequence h)%Z
        (ValueError "first_affected_sequence must be non-negative");
  _ ← require (negb (bool_decide (length fix_set = 0%nat)))
        (ValueError "fix_set must contain at least one failed baseline target");
  _ ← require (negb (bool_decide (length guard_set = 0%nat)))
        (ValueError "guard_set must contain at least one passing baseline target");
  _ ← require (negb (existsb baseline_passed fix_set))
        (ValueError "fix_set targets must fail in the baseline");
  _ ← require (negb (existsb (λ t, negb (baseline_passed t)) guard_set))
        (ValueError "guard_set targets must pass in the baseline");
  _ ← require (bool_decide (NoDup (tg_validation_id <$> (fix_set ++ guard_set)%list)))
        (ValueError "fix_set and guard_set validation ids must be unique");
  _ ← require (negb (bool_decide (hyp_minimum_fidelity h = NON_REPLAYABLE)))
        (ValueError "counterfactual replay requires a replayable fidelity");
  Ok {| hypothesis_id := i; first_affected_event_id := e;
        first_affected_sequence := first_affected_sequence h; fix_set := fix_set;
        guard_set := guard_set; hyp_minimum_fidelity := hyp_minimum_fidelity h |}.

Record CounterfactualCandidate := {
  candidate_id : string;
  public_change_set : pyval
}.

Definition mk_CounterfactualCandidate (c : CounterfactualCandidate)
  : res CounterfactualCandidate :=
  i ← require_nonempty_text (candidate_id c) "candidate_id";
  p ← freeze_public_mapping (public_change_set c) "public_change_set";
  Ok {| candidate_id := i; public_change_set := p |}.

Record CounterfactualReplayRequest := {
  rq_hypothesis_id : string;
  rq_candidate_id : string;
  rq_replay_point : ReplayPoint;
  rq_first_affected_event_id : string;
  rq_first_affected_sequence : Z;
  rq_public_change_set : pyval
}.

(** A value of the mapping that a suffix returns: a [bool], a
    [ValidationOutcome], or an object of another type. *)
Inductive raw_outcome := RawBool (b : bool) | RawOutcome (o : ValidationOutcome) | RawOther.

(** What a suffix returns: a mapping in iteration order, or ([None]) an object
    of another type. *)
Definition raw_outcomes : Type := option (list (string * raw_outcome)).

(** The [ValidationOutcome] values of a returned mapping were constructed. *)
Definition built_outcomes (r : res raw_outcomes) : res raw_outcomes :=
  raw ← r;
  match raw with
  | None => Ok None
  | Some items =>
      items ← res_map (λ kv, match kv.2 with
                | RawOutcome o => o ← mk_ValidationOutcome o; Ok (kv.1, RawOutcome o)
                | v => Ok (kv.1, v)
                end) items;
      Ok (Some items)
  end.

Record CounterfactualChildCandidate := {
  candidate : CounterfactualCandidate;
  target_branch_id : string;
  execute_suffix : history → ReplayChildExecutionContext → CounterfactualReplayRequest →
                   res raw_outcomes;
  intent : pyval
}.

Definition mk_CounterfactualChildCandidate (c : CounterfactualChildCandidate)
  : res CounterfactualChildCandidate :=
  b ← require_nonempty_text (target_branch_id c) "target_branch_id";
  i ← freeze_public_mapping (intent c) "counterfactual_child_intent";
  Ok {| candidate := candidate c; target_branch_id := b; execute_suffix := execute_suffix c;
        intent := i |}.

Record CounterfactualReplayResult := {
  cr_hypothesis_id : string;
  cr_candidate_id : string;
  cr_replay_point_id : string;
  cr_restore : ReplayRestoreResult;
  decision : CounterfactualDecision;
  outcomes : list ValidationOutcome;
  missing_validations : list string;
  failed_fixes : list string;
  regressed_guards : list string;
  addressed_prefix_event_count : Z;
  avoided_prefix_event_count : Z;
  verified_reused_prefix_event_count : Z;
  replay_distance_events : Z;
  reason : string
}.

Definition promoted (r : CounterfactualReplayResult) : bool :=
  bool_decide (decision r = PROMOTED).

Definition str_list (l : list string) : pyval := PSeq false (PStr <$> l).

Definition CounterfactualReplayResult_to_record (r : CounterfactualReplayResult) : pyval :=
  PMap false (as_items
    [("hypothesis_id", PStr (cr_hypothesis_id r));
     ("candidate_id", PStr (cr_candidate_id r));
     ("replay_point_id", PStr (cr_replay_point_id r));
     ("restore", ReplayRestoreResult_to_record (cr_restore r));
     ("decision", PStr (CounterfactualDecision_value (decision r)));
     ("outcomes", PSeq false ((λ o, PMap false (as_items
        [("validation_id", PStr (validation_id o)); ("passed", PBool (passed o));
         ("public_summary", opt_str (public_summary o))])) <$> outcomes r));
     ("missing_validations", str_list (missing_validations r));
     ("failed_fixes", str_list (failed_fixes r));
     ("regressed_guards", str_list (regressed_guards r));
     ("addressed_prefix_event_count", PInt (addressed_prefix_event_count r));
     ("avoided_prefix_event_count", PInt (avoided_prefix_event_count r));
     ("verified_reused_prefix_event_count", PInt (verified_reused_prefix_event_count r));
     ("replay_distance_events", PInt (replay_distance_events r));
     ("reason", PStr (reason r))]).

Record CounterfactualChildCandidateResult := {
  ccr_candidate_id : string;
  replay_result : option CounterfactualReplayResult;
  execution_result : option (ReplayChildExecutionResult raw_outcomes);
  execution_failure : option ReplayChildExecutionFailure
}.

Definition mk_CounterfactualChildCandidateResult (c : CounterfactualChildCandidateResult)
  : res CounterfactualChildCandidateResult :=
  i ← require_nonempty_text (ccr_candidate_id c) "candidate_id";
  _ ← require (negb (Bool.eqb (is_some (replay_result c)) (is_some (execution_failure c))))
        (ValueError "exactly one replay_result or execution_failure is required");
  _ ← require (Bool.eqb (is_some (replay_result c)) (is_some (execution_result c)))
        (ValueError "replay_result and execution_result must be present together");
  Ok {| ccr_candidate_id := i; replay_result := replay_result c;
        execution_result := execution_result c; execution_failure := execution_failure c |}.

Definition evaluated (c : CounterfactualChildCandidateResult) : bool :=
  is_some (replay_result c).

Definition opt_val {A} (f : A → pyval) (o : option A) : pyval :=
  match o with Some a => f a | None => PNone end.

Definition CounterfactualChildCandidateResult_to_record (c : CounterfactualChildCandidateResult)
  : pyval :=
  PMap false (as_items
    [("candidate_id", PStr (ccr_candidate_id c));
     ("status", PStr (if evaluated c then "evaluated" else "execution_failed"));
     ("replay_result", opt_val CounterfactualReplayResult_to_record (replay_result c));
     ("execution_result", opt_val (λ r, PMap false (as_items
        (ReplayChildExecutionResult_to_record r))) (execution_result c));
     ("execution_failure", opt_val (λ f, PMap false (as_items
        (ReplayChildExecutionFailure_to_record f))) (execution_failure c))]).

Record CounterfactualChildGroupResult := {
  gr_hypothesis_id : string;
  gr_replay_point_id : string;
  gr_candidates : list CounterfactualChildCandidateResult;
  parallel_requested : bool
}.

Definition count_if {A} (f : A → bool) (l : list A) : Z :=
  Z.of_nat (length (filter (λ a, f a = true) l)).

Definition CounterfactualChildGroupResult_to_record (g : CounterfactualChildGroupResult)
  : list (string * pyval) :=
  [("hypothesis_id", PStr (gr_hypothesis_id g));
   ("replay_point_id", PStr (gr_replay_point_id g));
   ("parallel_requested", PBool (parallel_requested g));
   ("candidate_count", PInt (Z.of_nat (length (gr_candidates g))));
   ("evaluated_count", PInt (count_if evaluated (gr_candidates g)));
   ("execution_failure_count", PInt (count_if (λ c, negb (evaluated c)) (gr_candidates g)));
   ("candidates",
    PSeq false (CounterfactualChildCandidateResult_to_record <$> gr_candidates g))].

(** * The promotion contract *)

Definition normalize_outcome (kv : string * raw_outcome) : res ValidationOutcome :=
  v ← require_nonempty_text kv.1 "validation_id";
  match kv.2 with
  | RawOutcome o =>
      _ ← require (bool_decide (validation_id o = v))
            (ValueError "validation outcome key must match its validation_id");
      Ok o
  | RawBool b => mk_ValidationOutcome {| validation_id := v; passed := b; public_summary := None |}
  | RawOther =>
      Err (TypeError "validation outcomes must be bool or ValidationOutcome values")
  end.

Definition normalize_validation_outcomes (raw : raw_outcomes) : res (list ValidationOutcome) :=
  match raw with
  | None => Err (TypeError "counterfactual suffix execution must return a validation mapping")
  | Some items => res_map normalize_outcome items
  end.

(** [{outcome.validation_id: outcome for outcome in outcomes}]. *)
Definition outcomes_by_id (outcomes : list ValidationOutcome)
  : list (string * ValidationOutcome) :=
  dict_by validation_id outcomes.

(** The targets with an outcome that did not pass. *)
Definition failing (by_id : list (string * ValidationOutcome)) (targets : list ValidationTarget)
  : list string :=
  tg_validation_id <$>
  filter (λ t, passed <$> dict_get (tg_validation_id t) by_id = Some false) targets.

Definition missing (by_id : list (string * ValidationOutcome)) (required : list string)
  : list string :=
  filter (λ v, dict_has v by_id = false) required.

Definition decide_promotion (eligible : bool) (missing failed_fixes regressed_guards : list string)
  : CounterfactualDecision * string :=
  if negb eligible then
    (OBSERVED_ONLY, "restore fidelity or equivalence is insufficient for promotion")
  else if negb (bool_decide (missing = [])) then
    (REJECTED, "required validation outcomes are missing")
  else if negb (bool_decide (failed_fixes = [])) then
    (REJECTED, "one or more fix targets remain failing")
  else if negb (bool_decide (regressed_guards = [])) then
    (REJECTED, "one or more guard targets regressed")
  else (PROMOTED, "all fix targets passed and no guard target regressed").

Definition check_affected (trace : TraceLog) (hypothesis : CounterfactualHypothesis) : res unit :=
  affected_event ← find_event trace (first_affected_event_id hypothesis);
  require (sequence affected_event =? first_affected_sequence hypothesis)%Z
    (ValueError "first affected event sequence does not match the addressable trace").

Definition required_ids (hypothesis : CounterfactualHypothesis) : list string :=
  tg_validation_id <$> (fix_set hypothesis ++ guard_set hypothesis)%list.

Definition evaluate_counterfactual_candidate (trace : TraceLog)
    (hypothesis : CounterfactualHypothesis) (candidate : CounterfactualCandidate)
    (replay_point : ReplayPoint) (restore : ReplayRestoreResult) (raw : raw_outcomes)
  : res CounterfactualReplayResult :=
  _ ← check_affected trace hypothesis;
  _ ← require (bool_decide (cur_trace_id (cursor replay_point) = trace_id trace))
        (ValueError "ReplayPoint trace does not match the hypothesis trace");
  _ ← require (bool_decide (cur_branch_id (cursor replay_point) = branch_id trace))
        (ValueError "ReplayPoint branch does not match the hypothesis trace");
  _ ← require (next_sequence (cursor replay_point) <=? first_affected_sequence hypothesis)%Z
        (ValueError "ReplayPoint must precede the first affected event");
  _ ← require (bool_decide (rr_replay_point_id restore = replay_point_id replay_point))
        (ValueError "restore result does not belong to the ReplayPoint");
  outcomes ← normalize_validation_outcomes raw;
  let by_id := outcomes_by_id outcomes in
  let missing := missing by_id (required_ids hypothesis) in
  let failed_fixes := failing by_id (fix_set hypothesis) in
  let regressed_guards := failing by_id (guard_set hypothesis) in
  let '(decision, reason) := decide_promotion (promotion_eligible restore) missing failed_fixes
                               regressed_guards in
  let addressed := next_sequence (cursor replay_point) in
  Ok {| cr_hypothesis_id := hypothesis_id hypothesis; cr_candidate_id := candidate_id candidate;
        cr_replay_point_id := replay_point_id replay_point; cr_restore := restore;
        decision := decision; outcomes := outcomes; missing_validations := missing;
        failed_fixes := failed_fixes; regressed_guards := regressed_guards;
        addressed_prefix_event_count := addressed; avoided_prefix_event_count := addressed;
        verified_reused_prefix_event_count :=
          (if prefix_reused restore is Some true then addressed else 0%Z);
        replay_distance_events :=
          Z.max 0 (first_affected_sequence hypothesis - next_sequence (cursor replay_point));
        reason := reason |}.

(** * Runs *)

Section runs.
Context (env : Env raw_outcomes).

(** The registry's two child-group methods. *)
Definition run_child_group_plain_from (id : string) (tasks : list (ReplayChildTask raw_outcomes))
    (parallel : bool) (max_workers : option Z) (sched : list nat)
  : M rstate (list (child_result raw_outcomes)) :=
  run_child_group_from env id tasks parallel max_workers false sched.

Definition run_child_group_settled_from (id : string) (tasks : list (ReplayChildTask raw_outcomes))
    (parallel : bool) (max_workers : option Z) (sched : list nat)
  : M rstate (list (child_result raw_outcomes)) :=
  run_child_group_from env id tasks parallel max_workers true sched.

Definition request_for (hypothesis : CounterfactualHypothesis) (point : ReplayPoint)
    (c : CounterfactualCandidate) : CounterfactualReplayRequest :=
  {| rq_hypothesis_id := hypothesis_id hypothesis; rq_candidate_id := candidate_id c;
     rq_replay_point := point;
     rq_first_affected_event_id := first_affected_event_id hypothesis;
     rq_first_affected_sequence := first_affected_sequence hypothesis;
     rq_public_change_set := public_change_set c |}.

Definition task_for (hypothesis : CounterfactualHypothesis) (point : ReplayPoint)
    (spec : CounterfactualChildCandidate) : res (ReplayChildTask raw_outcomes) :=
  let request := request_for hypothesis point (candidate spec) in
  mk_ReplayChildTask
    {| task_child_id := candidate_id (candidate spec);
       task_target_branch_id := target_branch_id spec;
       task_minimum_fidelity := hyp_minimum_fidelity hypothesis;
       task_execute := λ h ctx, built_outcomes (execute_suffix spec h ctx request);
       task_intent := intent spec |}.

Definition specs_by_id (candidates : list CounterfactualChildCandidate)
  : list (string * CounterfactualChildCandidate) :=
  dict_by (λ c, candidate_id (candidate c)) candidates.

(** The body of the loop over the settled results. *)
Definition evaluate_child (trace : TraceLog) (hypothesis : CounterfactualHypothesis)
    (point : ReplayPoint) (specs : list (string * CounterfactualChildCandidate))
    (r : child_result raw_outcomes) : res CounterfactualChildCandidateResult :=
  let id := match r with inl a => res_child_id a | inr f => fail_child_id f end in
  spec ← match dict_get id specs with Some spec => Ok spec | None => Err (KeyError id) end;
  match r with
  | inr failure =>
      mk_CounterfactualChildCandidateResult
        {| ccr_candidate_id := id; replay_result := None; execution_result := None;
           execution_failure := Some failure |}
  | inl result =>
      replay ← evaluate_counterfactual_candidate trace hypothesis (candidate spec) point
                 (res_restore result) (res_outcome result);
      mk_CounterfactualChildCandidateResult
        {| ccr_candidate_id := id; replay_result := Some replay;
           execution_result := Some result; execution_failure := None |}
  end.

Definition run_counterfactual_child_group (trace : TraceLog)
    (hypothesis : CounterfactualHypothesis) (candidates : list CounterfactualChildCandidate)
    (parallel : bool) (max_workers : option Z) (sched : list nat)
  : M rstate CounterfactualChildGroupResult :=
  _ ← ensure (negb (bool_decide (length candidates = 0%nat)))
        (ValueError "counterfactual child group requires at least one candidate");
  _ ← lift (check_affected trace hypothesis);
  point ← select_before (trace_id trace) (branch_id trace) (first_affected_sequence hypothesis)
            (hyp_minimum_fidelity hypothesis);
  tasks ← lift (res_map (task_for hypothesis point) candidates);
  settled ← run_child_group_settled_from (replay_point_id point) tasks parallel max_workers sched;
  results ← lift (res_map (evaluate_child trace hypothesis point (specs_by_id candidates)) settled);
  mret {| gr_hypothesis_id := hypothesis_id hypothesis;
          gr_replay_point_id := replay_point_id point; gr_candidates := results;
          parallel_requested := parallel |}.

Definition run_counterfactual_suffix_replay (trace : TraceLog)
    (hypothesis : CounterfactualHypothesis) (candidate : CounterfactualCandidate)
    (execute_suffix : history → CounterfactualReplayRequest → res raw_outcomes)
  : M rstate CounterfactualReplayResult :=
  _ ← lift (check_affected trace hypothesis);
  point ← select_before (trace_id trace) (branch_id trace) (first_affected_sequence hypothesis)
            (hyp_minimum_fidelity hypothesis);
  let request := request_for hypothesis point candidate in
  ro ← run_from env (replay_point_id point) ("counterfactual-" ++ candidate_id candidate)
         (hyp_minimum_fidelity hypothesis)
         (λ h _, built_outcomes (execute_suffix h request));
  lift (evaluate_counterfactual_candidate trace hypothesis candidate point ro.1 ro.2).
End runs.

(** * The summary of a batch of results *)

(** [collections.Counter]. *)
Notation counter := (gmap string Z).
Definition counter_get (k : string) (c : counter) : Z := default 0%Z (c !! k).
Definition counter_add (k : string) (c : counter) : counter := <[k := (counter_get k c + 1)%Z]> c.
Definition counter_items (c : counter) : pyval :=
  PMap false ((λ kv, (Some kv.1, PInt kv.2)) <$> sorted_items c).

(** The local variables of the loop. *)
Record summary := {
  sm_decisions : counter;
  sm_fidelities : counter;
  sm_prefix_reuse : counter;
  sm_failed_fixes : Z;
  sm_regressions : Z;
  sm_missing : Z;
  sm_avoided_events : Z;
  sm_addressed_events : Z;
  sm_reused_events : Z;
  sm_distance : Z;
  sm_restore : float;
  sm_equivalence : float;
  sm_suffix : float;
  sm_wall : float;
  sm_fresh : float;
  sm_avoided : float;
  sm_promoted_avoided : float;
  sm_samples : Z
}.

Definition empty_summary : summary :=
  {| sm_decisions := ∅; sm_fidelities := ∅; sm_prefix_reuse := ∅; sm_failed_fixes := 0;
     sm_regressions := 0; sm_missing := 0; sm_avoided_events := 0; sm_addressed_events := 0;
     sm_reused_events := 0; sm_distance := 0; sm_restore := f0; sm_equivalence := f0;
     sm_suffix := f0; sm_wall := f0; sm_fresh := f0; sm_avoided := f0; sm_promoted_avoided := f0;
     sm_samples := 0 |}.

Definition len {A} (l : list A) : Z := Z.of_nat (length l).

Definition reuse_label (o : option bool) : string :=
  match o with Some true => "verified_reuse" | Some false => "reconstructed" | None => "unknown" end.

(** One iteration. *)
Definition summarize_result (baselines : list (string * float)) (a : summary)
    (r : CounterfactualReplayResult) : summary :=
  let wall := replay_wall_minutes (cr_restore r) in
  let baseline := dict_get (cr_candidate_id r) baselines in
  let fresh := match baseline with Some b => fmax f0 b | None => f0 end in
  let avoided := fmax f0 (fsub fresh wall) in
  let sampled := is_some baseline in
  {| sm_decisions := counter_add (CounterfactualDecision_value (decision r)) (sm_decisions a);
     sm_fidelities := counter_add (ReplayFidelity_value (rr_achieved_fidelity (cr_restore r)))
                        (sm_fidelities a);
     sm_prefix_reuse := counter_add (reuse_label (prefix_reused (cr_restore r)))
                          (sm_prefix_reuse a);
     sm_failed_fixes := sm_failed_fixes a + len (failed_fixes r);
     sm_regressions := sm_regressions a + len (regressed_guards r);
     sm_missing := sm_missing a + len (missing_validations r);
     sm_avoided_events := sm_avoided_events a + avoided_prefix_event_count r;
     sm_addressed_events := sm_addressed_events a + addressed_prefix_event_count r;
     sm_reused_events := sm_reused_events a + verified_reused_prefix_event_count r;
     sm_distance := sm_distance a + replay_distance_events r;
     sm_restore := fadd (sm_restore a) (restore_minutes (cr_restore r));
     sm_equivalence := fadd (sm_equivalence a) (equivalence_minutes (cr_restore r));
     sm_suffix := fadd (sm_suffix a) (suffix_minutes (cr_restore r));
     sm_wall := fadd (sm_wall a) wall;
     sm_fresh := if sampled then fadd (sm_fresh a) fresh else sm_fresh a;
     sm_avoided := if sampled then fadd (sm_avoided a) avoided else sm_avoided a;
     sm_promoted_avoided := if sampled && promoted r then fadd (sm_promoted_avoided a) avoided
                            else sm_promoted_avoided a;
     sm_samples := if sampled then sm_samples a + 1 else sm_samples a |}%Z.

(** [baselines]: [fresh_compute_minutes_by_candidate], [{}] when it is [None]. *)
Definition summarize_counterfactual_results (results : list CounterfactualReplayResult)
    (baselines : list (string * float)) : list (string * pyval) :=
  let a := fold_left (summarize_result baselines) results empty_summary in
  [("counterfactual_attempt_count", PInt (len results));
   ("promotion_count", PInt (counter_get "promoted" (sm_decisions a)));
   ("rejection_count", PInt (counter_get "rejected" (sm_decisions a)));
   ("observed_only_count", PInt (counter_get "observed_only" (sm_decisions a)));
   ("failed_fix_count", PInt (sm_failed_fixes a));
   ("guard_regression_count", PInt (sm_regressions a));
   ("missing_validation_count", PInt (sm_missing a));
   ("addressed_prefix_event_count", PInt (sm_addressed_events a));
   ("avoided_prefix_event_count", PInt (sm_avoided_events a));
   ("verified_reused_prefix_event_count", PInt (sm_reused_events a));
   ("replay_distance_event_count", PInt (sm_distance a));
   ("restore_minutes", PFloat (py_round 6 (sm_restore a)));
   ("equivalence_minutes", PFloat (py_round 6 (sm_equivalence a)));
   ("suffix_minutes", PFloat (py_round 6 (sm_suffix a)));
   ("replay_wall_minutes", PFloat (py_round 6 (sm_wall a)));
   ("fresh_compute_sample_count", PInt (sm_samples a));
   ("estimated_fresh_compute_minutes", PFloat (py_round 6 (sm_fresh a)));
   ("estimated_avoided_compute_minutes", PFloat (py_round 6 (sm_avoided a)));
   ("promoted_avoided_compute_minutes", PFloat (py_round 6 (sm_promoted_avoided a)));
   ("decision_counts", counter_items (sm_decisions a));
   ("restored_fidelity_counts", counter_items (sm_fidelities a));
   ("prefix_reuse_counts", counter_items (sm_prefix_reuse a))].
