(* ===== verification/CounterfactualTheorems.v ===== *)
(** The theorems about counterfactual replay: what each decision of the
    promotion contract means, when an evaluation succeeds, that promotions are
    backed by a validated replay of a suitable point, and what the summary
    counts. *)

From stdpp Require Import base strings list sets gmap.
From Stdlib Require Import ZArith Lia.
From S2P Require Import Prelude PyFloat PyValue TraceRuntime ReplayMetrics ReplayTypes.
From S2P Require Import ReplayRegistry RegistryFacts RegistrySpec SelectionSpec ChildReplay.
From S2P Require Import ChildSpec ChildGroupSpec GroupSpec ExampleEnv RegistryInvariant.
From S2P Require Import ChildTheorems Counterfactual.

(** ** The contract *)

(** The outcome that counts for a validation: the last one with its id. *)
Definition final_outcome (outs : list ValidationOutcome) (v : string) : option ValidationOutcome :=
  last (filter (λ o, validation_id o = v) outs).

Lemma outcomes_by_id_final outs v : dict_get v (outcomes_by_id outs) = final_outcome outs v.
Proof. apply dict_by_get. Qed.

(** A target passes, fails, or has no outcome. *)
Definition passes (outs : list ValidationOutcome) (t : ValidationTarget) : Prop :=
  passed <$> final_outcome outs (tg_validation_id t) = Some true.

Lemma failing_spec outs ts v :
  v ∈ failing (outcomes_by_id outs) ts ↔
  (∃ t, t ∈ ts ∧ tg_validation_id t = v) ∧ passed <$> final_outcome outs v = Some false.
Proof.
  unfold failing. rewrite list_elem_of_fmap. setoid_rewrite list_elem_of_filter. split.
  - intros (t & -> & Hf & Ht). rewrite outcomes_by_id_final in Hf. eauto.
  - intros [(t & Ht & <-) Hf]. exists t. by rewrite outcomes_by_id_final.
Qed.

Lemma missing_spec outs req v :
  v ∈ missing (outcomes_by_id outs) req ↔ v ∈ req ∧ final_outcome outs v = None.
Proof.
  unfold missing, dict_has. rewrite list_elem_of_filter, outcomes_by_id_final.
  destruct (final_outcome outs v); naive_solver.
Qed.

Lemma elem_of_nil_iff {A} (l : list A) : l = [] ↔ ∀ x, x ∉ l.
Proof.
  split; [intros -> x; apply not_elem_of_nil|]. destruct l as [|x l]; [done|].
  intros H. destruct (H x). left.
Qed.

(** All targets pass: none is missing and none fails. *)
Lemma all_pass_iff outs h :
  (∀ t, t ∈ (fix_set h ++ guard_set h)%list → passes outs t) ↔
  missing (outcomes_by_id outs) (required_ids h) = [] ∧
  failing (outcomes_by_id outs) (fix_set h) = [] ∧
  failing (outcomes_by_id outs) (guard_set h) = [].
Proof.
  rewrite !elem_of_nil_iff. setoid_rewrite missing_spec. setoid_rewrite failing_spec.
  unfold passes, required_ids. setoid_rewrite list_elem_of_fmap. split.
  - intros H. split_and!.
    + intros v [(t & -> & Ht) Hn]. specialize (H t Ht). by rewrite Hn in H.
    + intros v [(t & Ht & <-) Hf]. rewrite H in Hf; [done|set_solver].
    + intros v [(t & Ht & <-) Hf]. rewrite H in Hf; [done|set_solver].
  - intros (Hm & Hf & Hg) t Ht.
    destruct (final_outcome outs (tg_validation_id t)) as [o|] eqn:Ho; simpl.
    + destruct (passed o) eqn:Hp; [done|]. apply elem_of_app in Ht as [Ht|Ht].
      * destruct (Hf (tg_validation_id t)). split; [eauto|]. by rewrite Ho; simpl; rewrite Hp.
      * destruct (Hg (tg_validation_id t)). split; [eauto|]. by rewrite Ho; simpl; rewrite Hp.
    + destruct (Hm (tg_validation_id t)). split; [eauto|done].
Qed.

(** When the guards of an evaluation pass. *)
Record evaluable (trace : TraceLog) (h : CounterfactualHypothesis) (p : ReplayPoint)
    (restore : ReplayRestoreResult) : Prop := {
  ev_affected : ∃ e, find_event trace (first_affected_event_id h) = Ok e ∧
                  sequence e = first_affected_sequence h;
  ev_trace : cur_trace_id (cursor p) = trace_id trace;
  ev_branch : cur_branch_id (cursor p) = branch_id trace;
  ev_before : (next_sequence (cursor p) ≤ first_affected_sequence h)%Z;
  ev_point : rr_replay_point_id restore = replay_point_id p
}.

Lemma check_affected_Ok trace h u :
  check_affected trace h = Ok u ↔
  ∃ e, find_event trace (first_affected_event_id h) = Ok e ∧ sequence e = first_affected_sequence h.
Proof.
  unfold check_affected. destruct (find_event trace _) as [e|x]; simpl; [|naive_solver].
  unfold require. destruct u. case_match eqn:E.
  - apply Z.eqb_eq in E. naive_solver.
  - apply Z.eqb_neq in E. naive_solver.
Qed.

(** The result of an evaluation, field by field. *)
Definition evaluation (h : CounterfactualHypothesis) (c : CounterfactualCandidate)
    (p : ReplayPoint) (restore : ReplayRestoreResult) (outs : list ValidationOutcome)
  : CounterfactualReplayResult :=
  let by_id := outcomes_by_id outs in
  let d := decide_promotion (promotion_eligible restore) (missing by_id (required_ids h))
             (failing by_id (fix_set h)) (failing by_id (guard_set h)) in
  {| cr_hypothesis_id := hypothesis_id h; cr_candidate_id := candidate_id c;
     cr_replay_point_id := replay_point_id p; cr_restore := restore; decision := d.1;
     outcomes := outs; missing_validations := missing by_id (required_ids h);
     failed_fixes := failing by_id (fix_set h); regressed_guards := failing by_id (guard_set h);
     addressed_prefix_event_count := point_sequence p;
     avoided_prefix_event_count := point_sequence p;
     verified_reused_prefix_event_count :=
       (if prefix_reused restore is Some true then point_sequence p else 0%Z);
     replay_distance_events := Z.max 0 (first_affected_sequence h - point_sequence p);
     reason := d.2 |}.

Lemma evaluate_Ok trace h c p restore raw r :
  evaluate_counterfactual_candidate trace h c p restore raw = Ok r ↔
  evaluable trace h p restore ∧
  ∃ outs, normalize_validation_outcomes raw = Ok outs ∧ r = evaluation h c p restore outs.
Proof.
  unfold evaluate_counterfactual_candidate, evaluation, point_sequence. split.
  - intros H. inv_res. apply check_affected_Ok in H0.
    rewrite bool_decide_eq_true in H1, H2, H4. apply Z.leb_le in H3.
    split; [done|]. eexists. split; [done|]. by destruct (decide_promotion _ _ _ _); simplify_eq.
  - intros [[Ha Ht Hb Hs Hp] (outs & Ho & ->)].
    apply (check_affected_Ok _ _ tt) in Ha. rewrite Ha, Ho. simpl.
    apply Z.leb_le in Hs. rewrite !bool_decide_true, Hs by done. simpl.
    by destruct (decide_promotion _ _ _ _).
Qed.

(** ** Backed results *)

(** The suitable points of a hypothesis. *)
Definition suitable (trace : TraceLog) (h : CounterfactualHypothesis) (b : RuntimeReplayBinding)
  : Prop :=
  is_candidate (py_strip (trace_id trace)) (py_strip (branch_id trace))
    (first_affected_sequence h) (point b) = true.

(** A result obtained from point [b]; a promotion needs an equivalent report at
    a trusted fidelity and all its targets passing. *)
Definition backed (trace : TraceLog) (h : CounterfactualHypothesis) (b : RuntimeReplayBinding)
    (target : string) (r : CounterfactualReplayResult) : Prop :=
  suitable trace h b ∧ cr_replay_point_id r = replay_point_id (point b) ∧
  validated_restore b (replay_point_id (point b)) target (hyp_minimum_fidelity h)
    (cr_restore r) ∧
  (decision r = PROMOTED →
     equivalent (report (cr_restore r)) = true ∧
     fidelity_meets (rr_achieved_fidelity (cr_restore r)) SEMANTIC_EQUIVALENT = true ∧
     fidelity_meets (rr_achieved_fidelity (cr_restore r)) (hyp_minimum_fidelity h) = true ∧
     ∀ t, t ∈ (fix_set h ++ guard_set h)%list → passes (outcomes r) t).

Lemma decide_promotion_promoted el m f g :
  (decide_promotion el m f g).1 = PROMOTED ↔ el = true ∧ m = [] ∧ f = [] ∧ g = [].
Proof.
  unfold decide_promotion. destruct el; [|naive_solver]. simpl.
  repeat case_bool_decide; simpl; naive_solver.
Qed.

Lemma decide_promotion_observed el m f g :
  (decide_promotion el m f g).1 = OBSERVED_ONLY ↔ el = false.
Proof.
  unfold decide_promotion. destruct el; [|naive_solver]. simpl.
  repeat case_bool_decide; simpl; naive_solver.
Qed.

Lemma evaluation_promoted h c p restore outs :
  decision (evaluation h c p restore outs) = PROMOTED ↔
  promotion_eligible restore = true ∧
  ∀ t, t ∈ (fix_set h ++ guard_set h)%list → passes outs t.
Proof.
  unfold evaluation. cbn [decision]. rewrite decide_promotion_promoted, all_pass_iff. done.
Qed.

Lemma evaluation_backed trace h c b target raw restore r :
  suitable trace h b →
  validated_restore b (replay_point_id (point b)) target (hyp_minimum_fidelity h) restore →
  evaluate_counterfactual_candidate trace h c (point b) restore raw = Ok r →
  backed trace h b target r ∧ cr_candidate_id r = candidate_id c.
Proof.
  intros Hs Hv [_ (outs & _ & ->)]%evaluate_Ok. split; [|done].
  split_and!; [done|done|done|]. intros [Hel Hp]%evaluation_promoted.
  destruct Hv as (_ & _ & _ & _ & Hf). simpl. rewrite Hf in Hel.
  rewrite !andb_true_iff in Hel. naive_solver.
Qed.

(** In a reachable registry the selected point is the one its id names. *)
Lemma selected_entry {O} (env : Env O) tid bid affected s p :
  reachable env s → candidate_of tid bid affected s p →
  ∃ b, point b = p ∧ dict_get (replay_point_id p) (entries s) = Some b.
Proof.
  intros Hr [(id & b & Hin & <-) _]. exists b. split; [done|].
  destruct (reachable_wf env s Hr) as [Hn He].
  pose proof (dict_in_get _ _ _ Hn Hin) as Hg. by destruct (He _ _ Hg) as [-> _].
Qed.

Section runs.
Context (env : Env raw_outcomes).

(** A suffix replay that returns: the point it used, and what backs the result. *)
Lemma suffix_replay_spec trace h c exec s :
  reachable env s →
  wp (run_counterfactual_suffix_replay env trace h c exec) s (λ r s', ∀ v, r = Ok v →
    entries s' = entries s ∧ cr_candidate_id v = candidate_id c ∧
    (∃ rr, ObsExecute rr (Ok tt) ∈ calls s s') ∧
    ∃ b, dict_get (cr_replay_point_id v) (entries s) = Some b ∧
      backed trace h b (py_strip ("counterfactual-" ++ candidate_id c)) v).
Proof.
  intros Hr. unfold run_counterfactual_suffix_replay.
  apply wp_bind, wp_lift. destruct (check_affected trace h) as [u|]; [|done].
  apply wp_bind. eapply wp_mono; [apply select_before_selects|].
  intros r s1 [(l1 & D1) Hsel]. destruct r as [p|]; [|done]. destruct Hsel as [Hcand _].
  destruct (selected_entry env _ _ _ _ _ Hr Hcand) as (b & <- & Hb).
  apply wp_bind. eapply wp_mono; [apply run_from_spec|].
  intros r s2 (es & l2 & e2 & D2 & Ho). destruct r as [[rr raw]|]; [|done].
  destruct (run_from_validated _ _ _ _ _ _ _ _ _ _ Ho) as (-> & Hex & tg & b' & Htg & Hb' & Hv).
  rewrite (d_entries _ _ _ _ _ D1) in *. replace b' with b in * by congruence.
  apply require_nonempty_text_spec in Htg as [-> _].
  apply wp_lift. intros v Hev.
  destruct (evaluation_backed _ _ _ _ _ _ _ _ (proj2 Hcand) Hv Hev) as [Hbk Hid].
  pose proof (delta_trans _ _ _ _ _ _ _ _ _ D1 D2) as D.
  split; [by rewrite (d_entries _ _ _ _ _ D2)|]. split; [done|].
  rewrite (delta_calls _ _ _ _ _ D). split; [done|].
  exists b. split; [|done]. destruct Hbk as (_ & -> & _). done.
Qed.

(** What a group reports for one candidate: an evaluation backed by the group's
    point, with an isolated run behind it, or an execution failure. *)
Definition reported (trace : TraceLog) (h : CounterfactualHypothesis) (b : RuntimeReplayBinding)
    (guarded : bool) (c : CounterfactualChildCandidate) (cr : CounterfactualChildCandidateResult)
  : Prop :=
  ccr_candidate_id cr = candidate_id (candidate c) ∧
  ((∃ r a, replay_result cr = Some r ∧ execution_result cr = Some a ∧
      execution_failure cr = None ∧ cr_candidate_id r = candidate_id (candidate c) ∧
      backed trace h b (py_strip (target_branch_id c)) r ∧ cr_restore r = res_restore a ∧
      res_isolated a = true ∧
      (guarded = true → allowed (intent_assessment a) ∧ allowed (outcome_assessment a))) ∨
   (∃ f, replay_result cr = None ∧ execution_result cr = None ∧ execution_failure cr = Some f ∧
      fail_isolated f = true)).

Definition named (c : CounterfactualChildCandidate) : Prop :=
  normalized (candidate_id (candidate c)).

Lemma task_for_ids h p c t :
  task_for h p c = Ok t → named c →
  frozen_task t ∧ task_child_id t = candidate_id (candidate c) ∧
  task_target_branch_id t = py_strip (target_branch_id c) ∧
  task_minimum_fidelity t = hyp_minimum_fidelity h.
Proof.
  intros H Hn. split; [by eexists|]. unfold task_for, mk_ReplayChildTask in H. inv_res. simpl in *.
  rewrite (normalized_require _ _ Hn) in H0. apply require_nonempty_text_spec in H1 as [-> _].
  by simplify_eq.
Qed.

Lemma mk_candidate_result_Ok c v :
  mk_CounterfactualChildCandidateResult c = Ok v →
  replay_result v = replay_result c ∧ execution_result v = execution_result c ∧
  execution_failure v = execution_failure c ∧
  ccr_candidate_id v = py_strip (ccr_candidate_id c).
Proof.
  unfold mk_CounterfactualChildCandidateResult. intros H. inv_res.
  by apply require_nonempty_text_spec in H0 as [-> _].
Qed.

Lemma evaluate_child_reported trace h b guarded specs c t r cr :
  suitable trace h b → named c → dict_get (candidate_id (candidate c)) specs = Some c →
  task_child_id t = candidate_id (candidate c) →
  task_target_branch_id t = py_strip (target_branch_id c) →
  task_minimum_fidelity t = hyp_minimum_fidelity h →
  answers b (replay_point_id (point b)) guarded true true t r →
  evaluate_child trace h (point b) specs r = Ok cr → reported trace h b guarded c cr.
Proof.
  intros Hs Hn Hspec Ht1 Ht2 Ht3 [Hid Hv Hk] H. unfold evaluate_child in H.
  fold (result_child_id r) in H. rewrite Hid, Ht1, Hspec in H. rewrite Ht2, Ht3 in Hv.
  destruct Hn as [Hstrip _]. unfold reported. destruct r as [a|f]; simpl in *.
  - destruct (evaluate_counterfactual_candidate _ _ _ _ _ _) as [rr|] eqn:Ev; [|done].
    apply mk_candidate_result_Ok in H as (-> & -> & -> & ->). simpl. split; [done|]. left.
    destruct (evaluation_backed _ _ _ _ _ _ _ _ Hs Hv Ev) as [Hb Hc].
    exists rr, a. apply evaluate_Ok in Ev as [_ (outs & _ & ->)]. naive_solver.
  - apply mk_candidate_result_Ok in H as (-> & -> & -> & ->). simpl. split; [done|]. right.
    exists f. naive_solver.
Qed.

(** The loop over the settled results of the group. *)
Lemma reported_all trace h b guarded specs cands tasks rs crs :
  suitable trace h b → Forall named cands →
  Forall (λ c, dict_get (candidate_id (candidate c)) specs = Some c) cands →
  Forall2 (λ c t, task_for h (point b) c = Ok t) cands tasks →
  Forall2 (answers b (replay_point_id (point b)) guarded true true) tasks rs →
  Forall2 (λ r cr, evaluate_child trace h (point b) specs r = Ok cr) rs crs →
  Forall2 (reported trace h b guarded) cands crs.
Proof.
  intros Hs Hn Hspec Ht. revert rs crs. induction Ht as [|c t cands tasks Hct _ IH];
    intros rs crs Ha He.
  - apply Forall2_nil_inv_l in Ha as ->. apply Forall2_nil_inv_l in He as ->. constructor.
  - apply Forall2_cons_inv_l in Ha as (r & rs' & Har & Ha & ->).
    apply Forall2_cons_inv_l in He as (cr & crs' & Her & He & ->).
    apply Forall_cons in Hn as [Hnc Hn]. apply Forall_cons in Hspec as [Hc Hspec].
    destruct (task_for_ids _ _ _ _ Hct Hnc) as (_ & H1 & H2 & H3).
    constructor; [|by eapply IH]. by eapply evaluate_child_reported.
Qed.

Lemma child_group_replay_spec trace h cands parallel mw sched s :
  reachable env s → Forall named cands →
  wp (run_counterfactual_child_group env trace h cands parallel mw sched) s (λ r s', ∀ v, r = Ok v →
    entries s' = entries s ∧ ∃ b m, dict_get (gr_replay_point_id v) (entries s) = Some b ∧
      suitable trace h b ∧ replay_child_risk_mode (adapter_attr env (adapter b)) = Ok m ∧
      Forall2 (reported trace h b (bool_decide (m ≠ None))) cands (gr_candidates v)).
Proof.
  intros Hr Hn. unfold run_counterfactual_child_group.
  apply wp_bind, wp_ensure; intros Hne; [|done].
  apply wp_bind, wp_lift. destruct (check_affected trace h) as [u|]; [|done].
  apply wp_bind. eapply wp_mono; [apply select_before_selects|].
  intros r s1 [(l1 & D1) Hsel]. destruct r as [p|]; [|done]. destruct Hsel as [Hcand _].
  destruct (selected_entry env _ _ _ _ _ Hr Hcand) as (b & <- & Hb).
  apply wp_bind, wp_lift. destruct (res_map (task_for h (point b)) cands) as [tasks|] eqn:Et; [|done].
  apply res_map_Forall2 in Et. apply wp_bind. unfold run_child_group_settled_from.
  eapply wp_mono; [apply run_child_group_from_spec|].
  intros r s2 (es & l2 & e2 & D2 & Ho). destruct r as [rs|]; [|done].
  apply wp_bind, wp_lift.
  destruct (res_map (evaluate_child trace h (point b) (specs_by_id cands)) rs) as [crs|] eqn:Ec; [|done].
  apply res_map_Forall2 in Ec. apply wp_ret. intros v [= <-]. simpl.
  rewrite (d_entries _ _ _ _ _ D1) in *.
  assert (Forall frozen_task tasks ∧ task_child_id <$> tasks = (λ c, candidate_id (candidate c)) <$> cands)
    as [Hf Hids].
  { clear -Et Hn. induction Et as [|c t cands tasks Hct _ IH]; [done|].
    apply Forall_cons in Hn as [Hnc Hn]. destruct (task_for_ids _ _ _ _ Hct Hnc) as (H1 & H2 & _).
    destruct (IH Hn) as [IH1 IH2]. rewrite !fmap_cons, H2, IH2. split; [by constructor|done]. }
  inversion Ho as [| |? ? ? ? ? ? ? Hst| |entry bd rk rs' es1 l' eff Hnd Hd _ _ Hrk Hiso|]; subst;
    [done|].
  replace entry with b in * by congruence.
  pose proof (isolated_answers _ _ _ _ _ _ _ _ _ _ _ Hiso Hf) as Ha.
  split; [rewrite (d_entries _ _ _ _ _ D2); by inversion Hiso|].
  exists b, rk. split_and!; [done|apply Hcand|done|].
  eapply reported_all; try done; [apply Hcand|].
  apply Forall_forall. intros c Hc. apply (dict_by_unique (λ c, candidate_id (candidate c))); [|done].
  by rewrite <- Hids.
Qed.
End runs.

(** ** The summary *)

Definition decision_field (d : CounterfactualDecision) : string :=
  match d with
  | PROMOTED => "promotion_count" | REJECTED => "rejection_count"
  | OBSERVED_ONLY => "observed_only_count"
  end.

Definition has_decision (d : CounterfactualDecision) (r : CounterfactualReplayResult) : bool :=
  bool_decide (decision r = d).

Lemma counter_get_add k k' c :
  counter_get k (counter_add k' c) = (counter_get k c + if decide (k = k') then 1 else 0)%Z.
Proof.
  unfold counter_add, counter_get. case_decide as H.
  - subst. by rewrite lookup_insert_eq.
  - rewrite lookup_insert_ne by done. lia.
Qed.

Lemma count_if_app {A} (f : A → bool) l1 l2 :
  count_if f (l1 ++ l2)%list = (count_if f l1 + count_if f l2)%Z.
Proof. unfold count_if. rewrite filter_app, length_app. lia. Qed.

Lemma count_if_one {A} (f : A → bool) a : count_if f [a] = Z.b2z (f a).
Proof. unfold count_if. rewrite filter_cons. destruct (f a) eqn:E; by rewrite filter_nil. Qed.

Lemma decision_value_inj d d' :
  CounterfactualDecision_value d = CounterfactualDecision_value d' → d = d'.
Proof. by destruct d, d'. Qed.

Lemma summary_decisions baselines results d :
  counter_get (CounterfactualDecision_value d)
    (sm_decisions (fold_left (summarize_result baselines) results empty_summary))
  = count_if (has_decision d) results.
Proof.
  induction results as [|r results IH] using rev_ind; [done|].
  rewrite fold_left_app, count_if_app, count_if_one. simpl. rewrite counter_get_add, IH.
  unfold has_decision. f_equal. case_bool_decide as E; subst; [by rewrite decide_True|].
  rewrite decide_False; [done|]. by intros ?%decision_value_inj.
Qed.

Lemma summary_samples baselines results :
  sm_samples (fold_left (summarize_result baselines) results empty_summary)
  = count_if (λ r, dict_has (cr_candidate_id r) baselines) results.
Proof.
  induction results as [|r results IH] using rev_ind; [done|].
  rewrite fold_left_app, count_if_app, count_if_one. simpl. rewrite IH. unfold dict_has.
  destruct (dict_get (cr_candidate_id r) baselines); simpl; lia.
Qed.

Lemma res_map_snoc {A B} (f : A → res B) l a bs :
  res_map f (l ++ [a])%list = Ok bs → ∃ bs' b, bs = (bs' ++ [b])%list ∧ f a = Ok b.
Proof.
  revert bs. induction l as [|c l IH]; intros bs H; simpl in H.
  - destruct (f a) as [b|]; [|done]. simplify_eq/=. by exists [], b.
  - destruct (f c) as [b|]; [|done]. simpl in H.
    destruct (res_map f (l ++ [a])%list) as [k|] eqn:E; [|done]. simplify_eq/=.
    destruct (IH k eq_refl) as (bs' & b' & -> & Hb). by exists (b :: bs'), b'.
Qed.

Lemma require_padded v f : normalized v → require_nonempty_text (" " ++ v) f = Ok v.
Proof. intros Hv. rewrite <- (normalized_require v f Hv). reflexivity. Qed.

(** ** Claims *)

(** C8: an evaluation promotes a candidate exactly when its restore is eligible
    and, for every fix and guard target, the last outcome reported under its id
    passed; it only observes exactly when the restore is not eligible; the
    lists of missing, failing and regressed targets say why. *)
Theorem promotion_contract trace h c p restore raw r :
  evaluate_counterfactual_candidate trace h c p restore raw = Ok r →
  (decision r = OBSERVED_ONLY ↔ promotion_eligible restore = false) ∧
  (decision r = PROMOTED ↔ promotion_eligible restore = true ∧
     ∀ t, t ∈ (fix_set h ++ guard_set h)%list → passes (outcomes r) t) ∧
  (∀ v, v ∈ missing_validations r ↔ v ∈ required_ids h ∧ final_outcome (outcomes r) v = None) ∧
  (∀ v, v ∈ failed_fixes r ↔ (∃ t, t ∈ fix_set h ∧ tg_validation_id t = v) ∧
     passed <$> final_outcome (outcomes r) v = Some false) ∧
  (∀ v, v ∈ regressed_guards r ↔ (∃ t, t ∈ guard_set h ∧ tg_validation_id t = v) ∧
     passed <$> final_outcome (outcomes r) v = Some false).
Proof.
  intros [_ (outs & _ & ->)]%evaluate_Ok. split_and!.
  - apply decide_promotion_observed.
  - apply evaluation_promoted.
  - intros v. apply missing_spec.
  - intros v. apply failing_spec.
  - intros v. apply failing_spec.
Qed.

(** An evaluation succeeds exactly when the affected event is on the trace
    at the hypothesis's sequence, the point belongs to the trace's branch at or
    before that event, the restore came from the point, and the returned
    outcomes are well-formed; the replayed distance and the addressed prefix
    then add up to the affected position. *)
Theorem evaluation_total trace h c p restore raw :
  (is_ok (evaluate_counterfactual_candidate trace h c p restore raw) = true ↔
   evaluable trace h p restore ∧ is_ok (normalize_validation_outcomes raw) = true) ∧
  ∀ r, evaluate_counterfactual_candidate trace h c p restore raw = Ok r →
    (addressed_prefix_event_count r + replay_distance_events r = first_affected_sequence h)%Z ∧
    (0 ≤ replay_distance_events r)%Z ∧
    verified_reused_prefix_event_count r =
      (if prefix_reused restore is Some true then addressed_prefix_event_count r else 0%Z).
Proof.
  split.
  - split.
    + destruct (evaluate_counterfactual_candidate _ _ _ _ _ _) as [r|] eqn:E; [|done].
      apply evaluate_Ok in E as [He (outs & -> & _)]. done.
    + intros [He Hn]. destruct (normalize_validation_outcomes raw) as [outs|] eqn:En; [|done].
      rewrite (proj2 (evaluate_Ok trace h c p restore raw (evaluation h c p restore outs))); [done|]. eauto.
  - intros r [He (outs & _ & ->)]%evaluate_Ok. pose proof (ev_before _ _ _ _ He).
    unfold evaluation, point_sequence. cbn [addressed_prefix_event_count replay_distance_events
      verified_reused_prefix_event_count]. split_and!; [lia|lia|done].
Qed.

(** C35: a counterfactual suffix replay that returns used a ready, replayable
    point of the trace's branch at or before the affected event, ran the suffix,
    and changed no registered point; its restore passed the equivalence
    contract, and a promotion had an equivalent report at semantic or better
    fidelity and at the hypothesis's minimum, with every target passing. *)
Theorem suffix_promotions_backed env trace h c exec s r s' :
  reachable env s →
  run_counterfactual_suffix_replay env trace h c exec s = (Ok r, s') →
  entries s' = entries s ∧ cr_candidate_id r = candidate_id c ∧
  (∃ rr, ObsExecute rr (Ok tt) ∈ calls s s') ∧
  ∃ b, dict_get (cr_replay_point_id r) (entries s) = Some b ∧
    backed trace h b (py_strip ("counterfactual-" ++ candidate_id c)) r.
Proof.
  intros Hr H. by apply (wp_elim _ _ _ _ _ (suffix_replay_spec env trace h c exec s Hr) H).
Qed.

(** C34: a counterfactual child group that returns reports every candidate in
    order, each either with an evaluation backed by the group's point and an
    isolated run that a guarded adapter allowed twice, or with an execution
    failure; however its sessions interleave, no registered point changes. *)
Theorem group_promotions_backed env trace h cands parallel mw sched s g s' :
  reachable env s → Forall (λ c, normalized (candidate_id (candidate c))) cands →
  run_counterfactual_child_group env trace h cands parallel mw sched s = (Ok g, s') →
  entries s' = entries s ∧ ∃ b m, dict_get (gr_replay_point_id g) (entries s) = Some b ∧
    suitable trace h b ∧ replay_child_risk_mode (adapter_attr env (adapter b)) = Ok m ∧
    Forall2 (reported trace h b (bool_decide (m ≠ None))) cands (gr_candidates g).
Proof.
  intros Hr Hn H.
  by apply (wp_elim _ _ _ _ _ (child_group_replay_spec env trace h cands parallel mw sched s Hr Hn) H).
Qed.

(** The summary reports every result under its decision: the promotion,
    rejection and observation counts count the results with that decision and
    add up to the attempts, and the sample count counts the results with a
    baseline. *)
Theorem summary_counts results baselines :
  let s := summarize_counterfactual_results results baselines in
  dict_get "counterfactual_attempt_count" s = Some (PInt (len results)) ∧
  (∀ d, dict_get (decision_field d) s = Some (PInt (count_if (has_decision d) results))) ∧
  dict_get "fresh_compute_sample_count" s
    = Some (PInt (count_if (λ r, dict_has (cr_candidate_id r) baselines) results)) ∧
  (count_if (has_decision PROMOTED) results + count_if (has_decision REJECTED) results
     + count_if (has_decision OBSERVED_ONLY) results)%Z = len results.
Proof.
  split_and!.
  - done.
  - intros d. rewrite <- (summary_decisions baselines). by destruct d.
  - by rewrite <- summary_samples.
  - unfold len. induction results as [|r results IH]; [done|].
    change (r :: results) with ([r] ++ results)%list. rewrite !count_if_app, !count_if_one.
    simpl. unfold has_decision at 1 3 5. destruct (decision r); simpl; lia.
Qed.

(** Two keys of the returned mapping that differ only by surrounding white
    space name the same validation, and the last one wins without notice: a
    passing outcome under a padded key hides any outcome reported before it
    under the target's own id. *)
Theorem padded_key_overrides trace h c p restore items v r :
  normalized v →
  evaluate_counterfactual_candidate trace h c p restore
    (Some (items ++ [((" " ++ v)%string, RawBool true)])%list) = Ok r →
  passed <$> final_outcome (outcomes r) v = Some true ∧
  v ∉ missing_validations r ∧ v ∉ failed_fixes r ∧ v ∉ regressed_guards r.
Proof.
  intros Hv [_ (outs & Hn & ->)]%evaluate_Ok.
  assert (passed <$> final_outcome outs v = Some true) as Hf.
  { simpl in Hn. apply res_map_snoc in Hn as (outs' & o & -> & Ho).
    unfold normalize_outcome in Ho. simpl in Ho. rewrite require_padded in Ho by done.
    simpl in Ho. unfold mk_ValidationOutcome in Ho. simpl in Ho.
    rewrite (normalized_require v) in Ho by done. injection Ho as <-.
    unfold final_outcome. rewrite filter_app, filter_cons_True, filter_nil, last_snoc by done. done. }
  split; [done|]. cbn [evaluation missing_validations failed_fixes regressed_guards].
  rewrite missing_spec, !failing_spec. rewrite Hf.
  split_and!; [|naive_solver|naive_solver]. intros [_ Hm]. by rewrite Hm in Hf.
Qed.

(** ** The hypotheses hold on concrete runs *)

Definition cf_env : Env raw_outcomes := env_of good.
Definition cf_state : rstate := (captured cf_env).2.
Definition cf_trace : TraceLog := (captured cf_env).1.2.

Definition target_of (v : string) (b : bool) : ValidationTarget :=
  {| tg_validation_id := v; baseline_passed := b |}.

Definition hypothesis0 : CounterfactualHypothesis :=
  {| hypothesis_id := "h"; first_affected_event_id := "ev-2"; first_affected_sequence := 0;
     fix_set := [target_of "fix" false]; guard_set := [target_of "guard" true];
     hyp_minimum_fidelity := SEMANTIC_EQUIVALENT |}.

Definition candidate0 : CounterfactualCandidate :=
  {| candidate_id := "c"; public_change_set := PMap true [] |}.

Definition raw_pass : raw_outcomes := Some [("fix", RawBool true); ("guard", RawBool true)].
(** The fix fails under its own id and passes under a padded one. *)
Definition raw_padded : raw_outcomes :=
  Some [("fix", RawBool false); ("guard", RawBool true); (" fix", RawBool true)].

Definition cf_restore : ReplayRestoreResult :=
  restore_result id1 "b2" good_receipt good_report true f0 f0.

Definition no_result : CounterfactualReplayResult :=
  evaluation hypothesis0 candidate0 no_point cf_restore [].

Definition evaluated0 (raw : raw_outcomes) : CounterfactualReplayResult :=
  get_ok no_result
    (evaluate_counterfactual_candidate cf_trace hypothesis0 candidate0 point1 cf_restore raw).

Lemma promotion_contract_witness :
  decision (evaluated0 raw_pass) = PROMOTED ∧
  passes (outcomes (evaluated0 raw_pass)) (target_of "fix" false).
Proof.
  destruct (promotion_contract cf_trace hypothesis0 candidate0 point1 cf_restore raw_pass
    (evaluated0 raw_pass)) as (_ & H & _); [vm_compute; reflexivity|].
  assert (decision (evaluated0 raw_pass) = PROMOTED) as E by (vm_compute; reflexivity).
  split; [exact E|]. apply H in E as [_ E]. apply E. left.
Defined.

Lemma padded_key_overrides_witness :
  decision (evaluated0 raw_padded) = PROMOTED ∧
  {| validation_id := "fix"; passed := false; public_summary := None |}
    ∈ outcomes (evaluated0 raw_padded) ∧
  "fix" ∉ failed_fixes (evaluated0 raw_padded).
Proof.
  split; [vm_compute; reflexivity|]. split; [vm_compute; left|].
  refine (proj1 (proj2 (proj2 (padded_key_overrides cf_trace hypothesis0 candidate0 point1
    cf_restore [("fix", RawBool false); ("guard", RawBool true)] "fix" _ _ _)))).
  - split; [reflexivity|discriminate].
  - vm_compute. reflexivity.
Defined.

Definition suffix_run : res CounterfactualReplayResult * rstate :=
  run_counterfactual_suffix_replay cf_env cf_trace hypothesis0 candidate0 (λ _ _, Ok raw_pass)
    cf_state.

Lemma suffix_promotions_backed_witness :
  decision (get_ok no_result suffix_run.1) = PROMOTED ∧ ∃ b,
    backed cf_trace hypothesis0 b "counterfactual-c" (get_ok no_result suffix_run.1).
Proof.
  split; [vm_compute; reflexivity|].
  destruct (suffix_promotions_backed cf_env cf_trace hypothesis0 candidate0 (λ _ _, Ok raw_pass)
    cf_state (get_ok no_result suffix_run.1) suffix_run.2) as (_ & _ & _ & b & _ & Hb).
  - apply reach_captured.
  - vm_compute. reflexivity.
  - exists b. exact Hb.
Defined.

Definition child_candidate (n : string) (raw : raw_outcomes) : CounterfactualChildCandidate :=
  {| candidate := {| candidate_id := n; public_change_set := PMap true [] |};
     target_branch_id := n; execute_suffix := λ _ _ _, Ok raw; intent := PMap true [] |}.

Definition cf_candidates : list CounterfactualChildCandidate :=
  [child_candidate "c1" raw_pass; child_candidate "c2" (Some [])].

Definition group_run : res CounterfactualChildGroupResult * rstate :=
  run_counterfactual_child_group cf_env cf_trace hypothesis0 cf_candidates true None sched2 cf_state.

Definition group_value : CounterfactualChildGroupResult :=
  get_ok {| gr_hypothesis_id := ""; gr_replay_point_id := ""; gr_candidates := [];
            parallel_requested := false |} group_run.1.

Lemma group_promotions_backed_witness :
  (λ c, decision <$> replay_result c) <$> gr_candidates group_value
    = [Some PROMOTED; Some REJECTED] ∧
  entries group_run.2 = entries cf_state.
Proof.
  split; [vm_compute; reflexivity|].
  refine (proj1 (group_promotions_backed cf_env cf_trace hypothesis0 cf_candidates true None sched2
    cf_state group_value group_run.2 _ _ _)).
  - apply reach_captured.
  - repeat constructor; discriminate.
  - vm_compute. reflexivity.
Defined.

Lemma evaluation_total_witness :
  (addressed_prefix_event_count (evaluated0 raw_pass)
   + replay_distance_events (evaluated0 raw_pass) = 0)%Z.
Proof.
  refine (proj1 (proj2 (evaluation_total cf_trace hypothesis0 candidate0 point1 cf_restore raw_pass)
    (evaluated0 raw_pass) _)). vm_compute. reflexivity.
Defined.
