(* ===== verification/AdaptivePlanner.v ===== *)
(** Adaptive placement of replay points:
    [loopx/capabilities/explore/adaptive_replay_planner.py].

    The planner ranks addressable boundaries of a trace by the replay minutes
    that observed failures would have saved there. *)

From stdpp Require Import base strings list sets gmap.
From Stdlib Require Import ZArith Lia.
From S2P Require Import Prelude PyFloat PyValue TraceRuntime ReplayTypes PySort.

(** * Data *)

Definition finite (value : float) (field_name requirement : string) : res float :=
  _ ← require (isfinite value) (ValueError (field_name ++ " must be a " ++ requirement));
  Ok value.

Definition nonnegative (value : float) (field_name : string) : res float :=
  v ← finite value field_name "finite non-negative number";
  _ ← require (negb (fltb v f0))
        (ValueError (field_name ++ " must be a finite non-negative number"));
  Ok v.

Record ReplayPositionCost := {
  pos_after_event_id : option string;
  pos_next_sequence : Z;
  achievable_fidelity : ReplayFidelity;
  capture_minutes : float;
  pos_restore_minutes : float
}.

Definition mk_ReplayPositionCost (c : ReplayPositionCost) : res ReplayPositionCost :=
  a ← require_optional_text (pos_after_event_id c) "after_event_id";
  _ ← require (0 <=? pos_next_sequence c)%Z (ValueError "next_sequence must be non-negative");
  _ ← require (negb (bool_decide (achievable_fidelity c = NON_REPLAYABLE)))
        (ValueError "ReplayPositionCost must be replayable");
  cm ← nonnegative (capture_minutes c) "capture_minutes";
  rm ← nonnegative (pos_restore_minutes c) "restore_minutes";
  Ok {| pos_after_event_id := a; pos_next_sequence := pos_next_sequence c;
        achievable_fidelity := achievable_fidelity c; capture_minutes := cm;
        pos_restore_minutes := rm |}.

Record FailureReplayObservation := {
  first_effect_sequence : Z;
  terminal_sequence : Z;
  full_replay_minutes : float;
  obs_minimum_fidelity : ReplayFidelity;
  weight : float
}.

Definition mk_FailureReplayObservation (o : FailureReplayObservation)
  : res FailureReplayObservation :=
  _ ← require (0 <=? first_effect_sequence o)%Z
        (ValueError "first_effect_sequence must be non-negative");
  _ ← require (first_effect_sequence o <? terminal_sequence o)%Z
        (ValueError "terminal_sequence must be after first_effect_sequence");
  m ← nonnegative (full_replay_minutes o) "full_replay_minutes";
  _ ← require (negb (bool_decide (obs_minimum_fidelity o = NON_REPLAYABLE)))
        (ValueError "failure observations require replayable fidelity");
  w ← finite (weight o) "weight" "finite positive number";
  _ ← require (negb (fleb w f0)) (ValueError "weight must be a finite positive number");
  Ok {| first_effect_sequence := first_effect_sequence o;
        terminal_sequence := terminal_sequence o; full_replay_minutes := m;
        obs_minimum_fidelity := obs_minimum_fidelity o; weight := w |}.

Record AdaptiveReplayPointProposal := {
  pp_after_event_id : option string;
  pp_next_sequence : Z;
  pp_achievable_fidelity : ReplayFidelity;
  score_minutes : float;
  expected_saved_minutes : float;
  expected_suffix_events : float;
  eligible_observation_weight : float;
  pp_capture_minutes : float;
  pp_restore_minutes : float
}.

Definition AdaptiveReplayPointProposal_to_record (p : AdaptiveReplayPointProposal)
  : list (string * pyval) :=
  [("after_event_id", opt_str (pp_after_event_id p));
   ("next_sequence", PInt (pp_next_sequence p));
   ("achievable_fidelity", PStr (ReplayFidelity_value (pp_achievable_fidelity p)));
   ("score_minutes", PFloat (score_minutes p));
   ("expected_saved_minutes", PFloat (expected_saved_minutes p));
   ("expected_suffix_events", PFloat (expected_suffix_events p));
   ("eligible_observation_weight", PFloat (eligible_observation_weight p));
   ("capture_minutes", PFloat (pp_capture_minutes p));
   ("restore_minutes", PFloat (pp_restore_minutes p))].

(** * Planning *)

Definition trace_length (trace : TraceLog) : Z := Z.of_nat (length (events trace)).

Definition validate_position (trace : TraceLog) (c : ReplayPositionCost) : res unit :=
  _ ← require (pos_next_sequence c <=? trace_length trace)%Z
        (ValueError "candidate next_sequence exceeds the trace head");
  if (pos_next_sequence c =? 0)%Z then
    match pos_after_event_id c with
    | Some _ => Err (ValueError "origin candidate must not name after_event_id")
    | None => Ok tt
    end
  else
    match pos_after_event_id c with
    | None => Err (ValueError "non-origin candidate requires after_event_id")
    | Some id =>
        event ← find_event trace id;
        require (sequence event + 1 =? pos_next_sequence c)%Z
          (ValueError "candidate after_event_id does not match next_sequence boundary")
    end.

(** An observation that a point at the candidate's position could have served. *)
Definition eligible (c : ReplayPositionCost) (o : FailureReplayObservation) : bool :=
  (pos_next_sequence c <=? first_effect_sequence o)%Z
  && fidelity_meets (achievable_fidelity c) (obs_minimum_fidelity o).

(** The accumulators of the inner loop. *)
Record estimate := {
  eligible_weight : float;
  expected_saved : float;
  weighted_suffix_events : float
}.

Definition observe (c : ReplayPositionCost) (a : estimate) (o : FailureReplayObservation)
  : estimate :=
  if eligible c o then
    let reused_fraction := int_div (pos_next_sequence c) (terminal_sequence o) in
    let saved_minutes := fmax f0 (fsub (fmul (full_replay_minutes o) reused_fraction)
                                       (pos_restore_minutes c)) in
    {| eligible_weight := fadd (eligible_weight a) (weight o);
       expected_saved := fadd (expected_saved a) (fmul (weight o) saved_minutes);
       weighted_suffix_events :=
         fadd (weighted_suffix_events a)
           (fmul (weight o) (float_of_Z (terminal_sequence o - pos_next_sequence c))) |}
  else a.

Definition estimate_of (c : ReplayPositionCost) (obs : list FailureReplayObservation) : estimate :=
  fold_left (observe c) obs
    {| eligible_weight := f0; expected_saved := f0; weighted_suffix_events := f0 |}.

(** The body of the outer loop: no proposal, or one. *)
Definition propose (obs : list FailureReplayObservation) (threshold : float)
    (c : ReplayPositionCost) : res (option AdaptiveReplayPointProposal) :=
  let a := estimate_of c obs in
  if feqb (eligible_weight a) f0 then Ok None
  else
    _ ← finite (eligible_weight a) "eligible_observation_weight" "finite number";
    _ ← finite (expected_saved a) "expected_saved_minutes" "finite number";
    _ ← finite (weighted_suffix_events a) "weighted_suffix_events" "finite number";
    let score := fsub (expected_saved a) (capture_minutes c) in
    if fltb score threshold then Ok None
    else Ok (Some
      {| pp_after_event_id := pos_after_event_id c; pp_next_sequence := pos_next_sequence c;
         pp_achievable_fidelity := achievable_fidelity c; score_minutes := score;
         expected_saved_minutes := expected_saved a;
         expected_suffix_events := fdiv (weighted_suffix_events a) (eligible_weight a);
         eligible_observation_weight := eligible_weight a;
         pp_capture_minutes := capture_minutes c; pp_restore_minutes := pos_restore_minutes c |}).

(** [<] of two sort keys [(-score, -weight, -next_sequence, after_event_id or
    "")]: the first components that differ decide. *)
Definition key_lt (p q : AdaptiveReplayPointProposal) : bool :=
  let '(s, s') := (fopp (score_minutes p), fopp (score_minutes q)) in
  let '(w, w') := (fopp (eligible_observation_weight p), fopp (eligible_observation_weight q)) in
  let '(n, n') := (- pp_next_sequence p, - pp_next_sequence q)%Z in
  let '(a, a') := (default "" (pp_after_event_id p), default "" (pp_after_event_id q)) in
  if negb (feqb s s') then fltb s s'
  else if negb (feqb w w') then fltb w w'
  else if negb (n =? n')%Z then (n <? n')%Z
  else String.ltb a a'.

Definition keep_some {A} (l : list (option A)) : list A := omap (λ o, o) l.

Definition plan_adaptive_replay_points (trace : TraceLog) (candidates : list ReplayPositionCost)
    (observations : list FailureReplayObservation) (max_proposals : Z)
    (minimum_score_minutes : float) : res (list AdaptiveReplayPointProposal) :=
  match candidates, observations with
  | [], _ | _, [] => Ok []
  | _, _ =>
      _ ← require (0 <? max_proposals)%Z (ValueError "max_proposals must be positive");
      threshold ← finite minimum_score_minutes "minimum_score_minutes" "finite number";
      _ ← res_map (validate_position trace) candidates;
      _ ← res_map (λ o, require (terminal_sequence o <=? trace_length trace)%Z
                     (ValueError "observation terminal_sequence exceeds the trace head"))
            observations;
      proposals ← res_map (propose observations threshold) candidates;
      Ok (take (Z.to_nat max_proposals) (py_sort key_lt (keep_some proposals)))
  end.
