(* ===== verification/PlannerTheorems.v ===== *)
(** The theorems about adaptive placement: proposals stand for valid
    boundaries with enough evidence, they are ranked, and none that outranks a
    returned one is left out. *)

From stdpp Require Import base strings list sets gmap.
From Stdlib Require Import ZArith Lia Sorting.Sorted.
From S2P Require Import Prelude PyFloat PyValue TraceRuntime ReplayTypes AdaptivePlanner PySort.

(** ** The sort key *)

Notation proposal := AdaptiveReplayPointProposal.

Definition ordered (p : proposal) : Prop :=
  isnan (score_minutes p) = false ∧ isnan (eligible_observation_weight p) = false.

Definition sort_key (p : proposal) : (Z * Z * Z) * ((Z * Z * Z) * (Z * string)) :=
  (frank (fopp (score_minutes p)),
   (frank (fopp (eligible_observation_weight p)),
    ((- pp_next_sequence p)%Z, default "" (pp_after_event_id p)))).

Notation sort_lt := (lex lex_lt (lex lex_lt (lex Z.lt string_lt))).

Lemma key_lt_key p q :
  ordered p → ordered q → key_lt p q = true ↔ sort_lt (sort_key p) (sort_key q).
Proof.
  intros [Hp1 Hp2] [Hq1 Hq2]. unfold key_lt, lex, sort_key. simpl.
  pose proof (fltb_lex (fopp (score_minutes p)) (fopp (score_minutes q))) as L1.
  pose proof (feqb_lex (fopp (score_minutes p)) (fopp (score_minutes q))) as E1.
  pose proof (fltb_lex (fopp (eligible_observation_weight p)) (fopp (eligible_observation_weight q))) as L2.
  pose proof (feqb_lex (fopp (eligible_observation_weight p)) (fopp (eligible_observation_weight q))) as E2.
  rewrite !isnan_fopp in *. specialize (L1 Hp1 Hq1). specialize (E1 Hp1 Hq1).
  specialize (L2 Hp2 Hq2). specialize (E2 Hp2 Hq2).
  destruct (feqb (fopp (score_minutes p)) _); simpl.
  2: { assert (frank (fopp (score_minutes p)) ≠ frank (fopp (score_minutes q))) by naive_solver.
       rewrite L1. naive_solver. }
  rewrite (proj1 E1 eq_refl) in *.
  pose proof (st_irrefl lex_lt (frank (fopp (score_minutes q)))).
  destruct (feqb (fopp (eligible_observation_weight p)) _); simpl.
  2: { assert (frank (fopp (eligible_observation_weight p))
               ≠ frank (fopp (eligible_observation_weight q))) by naive_solver.
       rewrite L2. naive_solver. }
  rewrite (proj1 E2 eq_refl) in *.
  pose proof (st_irrefl lex_lt (frank (fopp (eligible_observation_weight q)))).
  destruct (- pp_next_sequence p =? - pp_next_sequence q)%Z eqn:E3; simpl.
  - apply Z.eqb_eq in E3. rewrite E3. pose proof (Z.lt_irrefl (- pp_next_sequence q)).
    unfold string_lt. naive_solver.
  - apply Z.eqb_neq in E3. rewrite Z.ltb_lt. naive_solver.
Qed.

(** ** Proposals *)

(** A position the planner accepts: the origin, or the boundary right after an
    event of the trace. *)
Definition at_boundary (trace : TraceLog) (c : ReplayPositionCost) : Prop :=
  (pos_next_sequence c ≤ trace_length trace)%Z ∧
  ((pos_next_sequence c = 0%Z ∧ pos_after_event_id c = None) ∨
   (pos_next_sequence c ≠ 0%Z ∧ ∃ id e, pos_after_event_id c = Some id ∧
      find_event trace id = Ok e ∧ (sequence e + 1)%Z = pos_next_sequence c)).

Lemma validate_position_Ok trace c u :
  validate_position trace c = Ok u ↔ at_boundary trace c.
Proof.
  unfold validate_position, at_boundary. destruct u.
  destruct (pos_next_sequence c <=? trace_length trace)%Z eqn:E1; simpl.
  2: { apply Z.leb_gt in E1. split; [done|lia]. }
  apply Z.leb_le in E1. destruct (pos_next_sequence c =? 0)%Z eqn:E2.
  - apply Z.eqb_eq in E2. destruct (pos_after_event_id c).
    + split; [done|]. intros [_ [[_ ?]|[? _]]]; done.
    + split; [|done]. intros _. split; [done|by left].
  - apply Z.eqb_neq in E2. destruct (pos_after_event_id c) as [id|].
    2: { split; [done|]. by intros [_ [[? _]|(_ & ? & ? & ? & _)]]. }
    destruct (find_event trace id) as [e|] eqn:Ef; simpl.
    2: { split; [done|]. intros [_ [[? _]|(_ & ? & ? & [= <-] & ? & _)]]; congruence. }
    unfold require. destruct (sequence e + 1 =? pos_next_sequence c)%Z eqn:E3.
    + apply Z.eqb_eq in E3. split; [|done]. intros _. split; [done|]. right. eauto 6.
    + apply Z.eqb_neq in E3. split; [done|].
      intros [_ [[? _]|(_ & ? & ? & [= <-] & ? & ?)]]; congruence.
Qed.

Definition priced (c : ReplayPositionCost) : Prop := ∃ c0, mk_ReplayPositionCost c0 = Ok c.

Lemma priced_finite c : priced c → isfinite (capture_minutes c) = true.
Proof.
  intros [c0 H]. unfold mk_ReplayPositionCost, nonnegative, finite in H. inv_res. done.
Qed.

(** Without an eligible observation nothing accumulates. *)
Lemma estimate_ineligible c obs :
  Forall (λ o, eligible c o = false) obs →
  estimate_of c obs = {| eligible_weight := f0; expected_saved := f0; weighted_suffix_events := f0 |}.
Proof.
  unfold estimate_of. induction 1 as [|o obs Ho _ IH]; [done|]. simpl.
  unfold observe at 2. by rewrite Ho.
Qed.

(** What a proposal of candidate [c] says. *)
Record proposed (obs : list FailureReplayObservation) (threshold : float)
    (c : ReplayPositionCost) (p : proposal) : Prop := {
  pr_after : pp_after_event_id p = pos_after_event_id c;
  pr_next : pp_next_sequence p = pos_next_sequence c;
  pr_fidelity : pp_achievable_fidelity p = achievable_fidelity c;
  pr_saved : expected_saved_minutes p = expected_saved (estimate_of c obs);
  pr_score : score_minutes p = fsub (expected_saved_minutes p) (capture_minutes c);
  pr_threshold : fltb (score_minutes p) threshold = false;
  pr_evidence : ∃ o, o ∈ obs ∧ eligible c o = true
}.

Lemma propose_Some obs threshold c p :
  propose obs threshold c = Ok (Some p) →
  proposed obs threshold c p ∧ (priced c → ordered p).
Proof.
  unfold propose, finite. destruct (feqb (eligible_weight (estimate_of c obs)) f0) eqn:Ew; [done|].
  intros H. inv_res. destruct (fltb _ threshold) eqn:Et; [done|]. simplify_eq/=. split.
  - split; simpl; try done. destruct (existsb (eligible c) obs) eqn:Ex.
    + apply existsb_exists in Ex as (o & Ho%list_elem_of_In & Hel). eauto.
    + assert (Forall (λ o, eligible c o = false) obs) as Hall.
      { apply Forall_forall. intros o Ho. apply not_true_iff_false. intros Hel.
        apply not_true_iff_false in Ex. apply Ex, existsb_exists.
        exists o. by rewrite <- list_elem_of_In. }
      by rewrite (estimate_ineligible _ _ Hall) in Ew.
  - intros Hc%priced_finite. split; simpl; [by apply fsub_not_nan|].
    by destruct (eligible_weight _).
Qed.

(** ** Plans *)

Lemma keep_some_elem {A} (l : list (option A)) a : a ∈ keep_some l ↔ Some a ∈ l.
Proof. unfold keep_some. rewrite list_elem_of_omap. naive_solver. Qed.

(** What a plan with something to rank computed. *)
Definition planned (trace : TraceLog) (candidates : list ReplayPositionCost)
    (obs : list FailureReplayObservation) (limit : Z) (threshold : float)
    (options : list (option proposal)) : Prop :=
  (0 < limit)%Z ∧ isfinite threshold = true ∧ Forall (at_boundary trace) candidates ∧
  Forall (λ o, (terminal_sequence o ≤ trace_length trace)%Z) obs ∧
  Forall2 (λ c o, propose obs threshold c = Ok o) candidates options.

Lemma Forall2_units {A} (f : A → res unit) l us :
  Forall2 (λ a u, f a = Ok u) l us → Forall (λ a, f a = Ok tt) l.
Proof. induction 1 as [|a [] l us Ha _ IH]; by constructor. Qed.

Lemma Forall_units {A} (f : A → res unit) l :
  Forall (λ a, f a = Ok tt) l → Forall2 (λ a u, f a = Ok u) l (replicate (length l) tt).
Proof. induction 1; simpl; by constructor. Qed.

Lemma plan_Ok trace candidates obs limit threshold ps :
  candidates ≠ [] → obs ≠ [] →
  plan_adaptive_replay_points trace candidates obs limit threshold = Ok ps ↔
  ∃ options, planned trace candidates obs limit threshold options ∧
    ps = take (Z.to_nat limit) (py_sort key_lt (keep_some options)).
Proof.
  intros Hc Ho. unfold plan_adaptive_replay_points, planned.
  destruct candidates as [|c cs]; [done|]. destruct obs as [|o os]; [done|].
  generalize (c :: cs) (o :: os). clear. intros cs os.
  assert (∀ o, require (terminal_sequence o <=? trace_length trace)%Z
     (ValueError "observation terminal_sequence exceeds the trace head") = Ok tt ↔
     (terminal_sequence o ≤ trace_length trace)%Z) as Hreq.
  { intros o. rewrite require_Ok. apply Z.leb_le. }
  split.
  - intros H. unfold finite in H. inv_res. apply Z.ltb_lt in H0.
    apply res_map_Forall2 in H2, H3, H4. apply Forall2_units in H2, H3.
    eexists. split_and!; try done.
    + eapply Forall_impl; [exact H2|]. intros c Hc. by apply (validate_position_Ok trace c tt).
    + eapply Forall_impl; [exact H3|]. intros o Hx. by apply Hreq.
  - intros (options & (H1 & H2 & H3 & H4 & H5) & ->). apply Z.ltb_lt in H1. unfold finite.
    rewrite H1, H2. simpl.
    rewrite (proj2 (res_map_Forall2 (validate_position trace) cs (replicate (length cs) tt))).
    2: { apply Forall_units. eapply Forall_impl; [exact H3|]. intros c Hc.
         by apply validate_position_Ok. }
    simpl. rewrite (proj2 (res_map_Forall2 _ os (replicate (length os) tt))).
    2: { apply Forall_units. eapply Forall_impl; [exact H4|]. intros o Hx. by apply Hreq. }
    simpl. by rewrite (proj2 (res_map_Forall2 _ _ _) H5).
Qed.

Lemma plan_empty trace candidates obs limit threshold :
  candidates = [] ∨ obs = [] →
  plan_adaptive_replay_points trace candidates obs limit threshold = Ok [].
Proof. intros [->| ->]; [done|]. by destruct candidates. Qed.

Lemma planned_ordered trace candidates obs limit threshold options :
  planned trace candidates obs limit threshold options → Forall priced candidates →
  Forall ordered (keep_some options).
Proof.
  intros (_ & _ & _ & _ & H) Hp. apply Forall_forall. intros p Hin%keep_some_elem.
  apply list_elem_of_lookup in Hin as [i Hi].
  destruct (Forall2_lookup_r _ _ _ _ _ H Hi) as (c & Hc & Hpr).
  apply propose_Some in Hpr as [_ Hor]. apply Hor.
  rewrite Forall_forall in Hp. apply Hp. by eapply list_elem_of_lookup_2.
Qed.

(** In a sorted list every element of a prefix ranks before the rest. *)
Lemma sorted_take_drop {A} (R : A → A → Prop) l n x y :
  StronglySorted R l → x ∈ take n l → y ∈ drop n l → R x y.
Proof.
  intros Hs. revert n. induction Hs as [|a l Hs IH Hall]; intros n Hx Hy.
  - rewrite take_nil in Hx. by apply not_elem_of_nil in Hx.
  - destruct n as [|n]; simpl in *; [by apply not_elem_of_nil in Hx|].
    apply elem_of_cons in Hx as [->|Hx]; [|by eapply IH].
    rewrite Forall_forall in Hall. apply Hall. rewrite <- (take_drop n l). apply elem_of_app. by right.
Qed.

(** The events of a reachable trace sit at their sequence numbers. *)
Lemma boundary_event trace c :
  trace_reachable trace → at_boundary trace c →
  pos_next_sequence c = 0%Z ∧ pos_after_event_id c = None ∨
  ∃ i e, events trace !! i = Some e ∧ pos_next_sequence c = Z.of_nat (S i) ∧
    py_strip <$> pos_after_event_id c = Some (event_id e).
Proof.
  intros Hr [_ [?|(_ & id & e & Hid & Hf & Hs)]]; [by left|right].
  unfold find_event in Hf. destruct (require_nonempty_text id "event_id") as [i0|] eqn:Er; [|done].
  apply require_nonempty_text_spec in Er as [-> _]. simpl in Hf.
  destruct (list_find _ (events trace)) as [[i e']|] eqn:El; [|done]. simplify_eq/=.
  apply list_find_Some in El as (He & Hid' & _).
  destruct (tw_event _ (trace_reachable_wf _ Hr) _ _ He) as (_ & _ & _ & Hseq & _).
  exists i, e. split; [done|]. split; [lia|]. rewrite Hid. simpl. by rewrite Hid'.
Qed.

Section claims.
Variables (trace : TraceLog) (candidates : list ReplayPositionCost)
  (obs : list FailureReplayObservation) (limit : Z) (threshold : float).

Notation plan := (plan_adaptive_replay_points trace candidates obs limit threshold).

(** Every proposal of a plan stands for one of the candidates, at the
    origin or right after an event of the trace; at least one observed failure
    could have been served from there, its score is the expected saving less
    the capture cost and reaches the threshold, and no more proposals are
    returned than asked for. *)
Theorem plan_sound ps p :
  trace_reachable trace → plan = Ok ps → p ∈ ps →
  (length ps ≤ Z.to_nat limit)%nat ∧
  ∃ c, c ∈ candidates ∧ proposed obs threshold c p ∧
    (pp_next_sequence p = 0%Z ∧ pp_after_event_id p = None ∨
     ∃ i e, events trace !! i = Some e ∧ pp_next_sequence p = Z.of_nat (S i) ∧
       py_strip <$> pp_after_event_id p = Some (event_id e)).
Proof.
  intros Hr Hplan Hp.
  destruct (decide (candidates = [])) as [E|Hc];
    [rewrite plan_empty in Hplan by auto; simplify_eq; by apply not_elem_of_nil in Hp|].
  destruct (decide (obs = [])) as [E|Ho];
    [rewrite plan_empty in Hplan by auto; simplify_eq; by apply not_elem_of_nil in Hp|].
  apply plan_Ok in Hplan as (options & Hpl & ->); [|done|done].
  split; [rewrite length_take; lia|].
  apply elem_of_take in Hp as (j & Hp%list_elem_of_lookup_2 & _).
  rewrite py_sort_perm in Hp. apply keep_some_elem, list_elem_of_lookup in Hp as [i Hi].
  destruct Hpl as (_ & _ & Hb & _ & H).
  destruct (Forall2_lookup_r _ _ _ _ _ H Hi) as (c & Hci & Hpr).
  apply list_elem_of_lookup_2 in Hci. apply propose_Some in Hpr as [Hpr _].
  exists c. split; [done|]. split; [done|]. rewrite (pr_after _ _ _ _ Hpr), (pr_next _ _ _ _ Hpr).
  apply boundary_event; [done|]. rewrite Forall_forall in Hb. by apply Hb.
Qed.

(** The proposals come in rank order (score, then evidence weight, then
    later position, then event id), and a candidate's proposal is left out only
    when the plan is full and everything in it ranks at least as high. *)
Theorem plan_ranked ps :
  Forall priced candidates → plan = Ok ps →
  StronglySorted (ranked key_lt) ps ∧
  ∀ c q, c ∈ candidates → obs ≠ [] → propose obs threshold c = Ok (Some q) →
    q ∈ ps ∨ length ps = Z.to_nat limit ∧ ∀ p, p ∈ ps → ranked key_lt p q.
Proof.
  intros Hpr Hplan.
  destruct (decide (candidates = [] ∨ obs = [])) as [E'|Hne].
  { rewrite plan_empty in Hplan by done. simplify_eq. split; [constructor|].
    intros c q Hc Ho _. destruct E' as [->|?]; [by apply not_elem_of_nil in Hc|done]. }
  assert (candidates ≠ [] ∧ obs ≠ []) as [Hc Ho] by (split; intros ->; apply Hne; auto).
  apply plan_Ok in Hplan as (options & Hpl & ->); [|done|done].
  pose proof (planned_ordered _ _ _ _ _ _ Hpl Hpr) as Hord.
  pose proof (py_sort_sorted key_lt sort_key sort_lt ordered key_lt_key _ Hord) as Hs.
  set (l := py_sort key_lt (keep_some options)) in *. split.
  - rewrite <- (take_drop (Z.to_nat limit) l) in Hs. clear -Hs.
    induction (take (Z.to_nat limit) l) as [|a k IH]; [constructor|].
    apply StronglySorted_inv in Hs as [Hs Ha]. apply Forall_app in Ha as [Ha _].
    constructor; [by apply IH|done].
  - intros c q Hin _ Hq. assert (q ∈ l) as Hql.
    { unfold l. rewrite py_sort_perm. apply keep_some_elem. destruct Hpl as (_ & _ & _ & _ & H).
      apply list_elem_of_lookup in Hin as [i Hi].
      destruct (Forall2_lookup_l _ _ _ _ _ H Hi) as (o & Hoi & Hpo).
      rewrite Hq in Hpo. simplify_eq. by eapply list_elem_of_lookup_2. }
    rewrite <- (take_drop (Z.to_nat limit) l) in Hql.
    apply elem_of_app in Hql as [?|Hd]; [by left|right]. split.
    + rewrite length_take. assert (length (drop (Z.to_nat limit) l) ≠ 0%nat) as Hlen.
      { intros E%nil_length_inv. rewrite E in Hd. by apply not_elem_of_nil in Hd. }
      rewrite length_drop in Hlen. lia.
    + intros p Hp. by eapply sorted_take_drop.
Qed.

(** With something to rank, a plan succeeds exactly when the limit is
    positive, the threshold is finite, every candidate is at a boundary of the
    trace, no observation ends past the trace head, and no accumulated weight,
    saving or suffix length overflows; otherwise it raises, and with nothing to
    rank it returns no proposal. *)
Theorem plan_total :
  is_ok plan = true ↔
  candidates = [] ∨ obs = [] ∨
  (0 < limit)%Z ∧ isfinite threshold = true ∧ Forall (at_boundary trace) candidates ∧
  Forall (λ o, (terminal_sequence o ≤ trace_length trace)%Z) obs ∧
  Forall (λ c, is_ok (propose obs threshold c) = true) candidates.
Proof.
  destruct (decide (candidates = [] ∨ obs = [])) as [E'|Hne].
  { rewrite plan_empty by done. split; [|done]. naive_solver. }
  assert (candidates ≠ [] ∧ obs ≠ []) as [Hc Ho] by (split; intros ->; apply Hne; auto).
  split.
  - destruct plan as [ps|] eqn:E; [|done]. intros _.
    apply plan_Ok in E as (options & (H1 & H2 & H3 & H4 & H5) & _); [|done|done].
    right. right. split_and!; try done. clear -H5.
    induction H5 as [|c o cs os Hco _ IH]; constructor; [by rewrite Hco|done].
  - intros [?|[?|(H1 & H2 & H3 & H4 & H5)]]; [done|done|].
    assert (∃ options, Forall2 (λ c o, propose obs threshold c = Ok o) candidates options)
      as [options Hopt].
    { clear -H5. induction H5 as [|c cs Hco _ [os IH]]; [by exists []|].
      destruct (propose obs threshold c) as [o|] eqn:E; [|done]. exists (o :: os). by constructor. }
    rewrite (proj2 (plan_Ok trace candidates obs limit threshold
      (take (Z.to_nat limit) (py_sort key_lt (keep_some options))) Hc Ho)); [done|].
    exists options. done.
Qed.
End claims.

(** ** The hypotheses hold on a concrete plan *)

Definition position0 (after : option string) (next : Z) : ReplayPositionCost :=
  {| pos_after_event_id := after; pos_next_sequence := next; achievable_fidelity := EXACT;
     capture_minutes := f1; pos_restore_minutes := f1 |}.

Definition positions0 : list ReplayPositionCost := [position0 None 0; position0 (Some "e0") 1].

Definition failure0 : FailureReplayObservation :=
  {| first_effect_sequence := 1; terminal_sequence := 2; full_replay_minutes := float_of_Z 10;
     obs_minimum_fidelity := SEMANTIC_EQUIVALENT; weight := f1 |}.

Definition plan0 : list proposal :=
  match plan_adaptive_replay_points example_trace positions0 [failure0] 1 f0 with
  | Ok ps => ps | Err _ => []
  end.

(** Replaying the second half saves 10 / 2 - 1 - 1 = 3 minutes. *)
Definition proposal0 : proposal :=
  {| pp_after_event_id := Some "e0"; pp_next_sequence := 1; pp_achievable_fidelity := EXACT;
     score_minutes := float_of_Z 3; expected_saved_minutes := float_of_Z 4;
     expected_suffix_events := f1; eligible_observation_weight := f1; pp_capture_minutes := f1;
     pp_restore_minutes := f1 |}.

Lemma plan_sound_witness :
  plan0 = [proposal0] ∧ ∃ c, c ∈ positions0 ∧ proposed [failure0] f0 c proposal0.
Proof.
  split; [vm_compute; reflexivity|].
  destruct (plan_sound example_trace positions0 [failure0] 1 f0 plan0 proposal0)
    as (_ & c & Hc & Hp & _).
  - exact example_trace_reachable.
  - vm_compute. reflexivity.
  - vm_compute. left.
  - exists c. split; [exact Hc|exact Hp].
Defined.

Lemma plan_ranked_witness : StronglySorted (ranked key_lt) plan0.
Proof.
  refine (proj1 (plan_ranked example_trace positions0 [failure0] 1 f0 plan0 _ _)).
  - constructor; [exists (position0 None 0); vm_compute; reflexivity|].
    constructor; [exists (position0 (Some "e0") 1); vm_compute; reflexivity|constructor].
  - vm_compute. reflexivity.
Defined.
