(* ===== verification/EpisodeRuntime.v ===== *)
(** Shared-prefix episodes: [loopx/capabilities/explore/episode_runtime.py].

    A seed and its variants become one execution unit ([build_episode_execution_units]),
    which prepares a shared prefix, executes the sibling suffixes on its handle
    and always releases the handle ([execute_episode_group]).  Queue items and
    observation records are mappings ([items]).  The adapter and the factory of
    error records are the parameter [EpisodeEnv]; every call is appended to a
    history.  The text and the [repr] of values that are not [str] are
    parameters; the adapter does not change the mappings it is given. *)

From stdpp Require Import base strings list sets gmap.
From Stdlib Require Import ZArith Lia.
From S2P Require Import Prelude PyFloat PyValue TraceRuntime ReplayTypes.

Definition RECOVERABLE_EPISODE_MODE : string := "recoverable-v0".
Definition RECORD_KIND_SHARED_PREFIX : string := "shared_prefix".
Definition RECORD_KIND_EPISODE_SUFFIX : string := "episode_suffix".
Definition RECORD_KIND_STANDALONE : string := "standalone".

Definition EPISODE_PROTOCOL_METHODS : list string :=
  ["prepare_episode_group"; "execute_episode"; "release_episode_group"].

Definition recoverable_episode_mode (adapter : string → attr) : res (option string) :=
  if partial_protocol adapter EPISODE_PROTOCOL_METHODS
  then Err (ValueError
         ("recoverable episode adapters must implement all protocol methods; "
          ++ "missing callable(s): " ++ join ", " (missing_methods adapter EPISODE_PROTOCOL_METHODS)))
  else Ok (if forallb (λ n, callable (adapter n)) EPISODE_PROTOCOL_METHODS
           then Some RECOVERABLE_EPISODE_MODE else None).

(** * Execution units *)

(** The unit of a malformed item, and the group of a seed with its variants;
    [unit_record] is the mapping the code keeps of each. *)
Record episode_group := {
  execution_group_id : string;
  group_seed_item_id : string;
  group_seed : items;
  group_items : list items;
  concurrency_keys : list string
}.

(** The mapping of a unit, as the queue and the executor see it. *)
Definition group_record (g : episode_group) : items :=
  let seed := group_seed g in
  as_items
    [("item_id", PStr (execution_group_id g)); ("family", pget "family" seed);
     ("concurrency_key", por (pget "concurrency_key" seed) (pget "family" seed));
     ("concurrency_keys", PSeq false (PStr <$> concurrency_keys g));
     ("execution_group_id", PStr (execution_group_id g));
     ("seed_item_id", PStr (group_seed_item_id g)); ("_loopx_episode_seed", PMap false seed);
     ("_loopx_episode_items", PSeq false (PMap false <$> group_items g))].

Inductive execution_unit :=
| InvalidUnit (item : items) (reason : string)
| GroupUnit (g : episode_group).

Definition unit_record (u : execution_unit) : items :=
  match u with
  | InvalidUnit item reason => pset "_loopx_episode_invalid" (PStr reason) item
  | GroupUnit g => group_record g
  end.

Section units.
Variables (str_of repr_of : pyval → string).

Definition repr_val (v : pyval) : string := match v with PStr s => py_repr s | _ => repr_of v end.

Definition key_texts (l : list pyval) : list string :=
  omap (λ v, if is_none v then None else text_or_none (py_strip (py_str str_of v))) l.

Definition item_concurrency_keys (item : items) : list string :=
  let keys := match pget "concurrency_keys" item with PSeq _ l => key_texts l | _ => [] end in
  uniq (match keys with
        | [] => option_list (text_or_none (py_strip (str_or_empty str_of
                  (por (pget "concurrency_key" item) (pget "family" item)))))
        | _ => keys
        end).

Definition item_id_of (item : items) : string :=
  py_strip (str_or_empty str_of (pget "item_id" item)).
Definition seed_ref_of (item : items) : string :=
  py_strip (str_or_empty str_of (pget "seed_item_id" item)).
Definition is_variant (item : items) : bool := truthy (pget "is_variant" item).

(** The locals of the loop over the seeds. *)
Record seed_scan := {
  seeds : list (string * items);
  seed_indices : list (string * nat);
  ambiguous_seed_ids : gset string;
  seed_invalid : gmap nat string
}.

Definition setdefault (i : nat) (reason : string) (m : gmap nat string) : gmap nat string :=
  match m !! i with Some _ => m | None => <[i := reason]> m end.

Definition scan_seed (a : seed_scan) (ix : nat * items) : seed_scan :=
  let '(index, item) := ix in
  if is_variant item then a
  else
    let item_id := item_id_of item in
    if is_empty item_id then
      {| seeds := seeds a; seed_indices := seed_indices a;
         ambiguous_seed_ids := ambiguous_seed_ids a;
         seed_invalid := <[index := "recoverable episode seed items require a non-empty item_id"]>
                           (seed_invalid a) |}
    else if dict_has item_id (seeds a) then
      let reason := "recoverable episode seed item_id is duplicated: " ++ py_repr item_id in
      {| seeds := seeds a; seed_indices := seed_indices a;
         ambiguous_seed_ids := {[ item_id ]} ∪ ambiguous_seed_ids a;
         seed_invalid := <[index := reason]>
           (setdefault (default 0%nat (dict_get item_id (seed_indices a))) reason (seed_invalid a)) |}
    else
      {| seeds := dict_set item_id item (seeds a);
         seed_indices := dict_set item_id index (seed_indices a);
         ambiguous_seed_ids := ambiguous_seed_ids a; seed_invalid := seed_invalid a |}.

Definition scan_seeds (copied : list (nat * items)) : seed_scan :=
  fold_left scan_seed copied
    {| seeds := []; seed_indices := []; ambiguous_seed_ids := ∅; seed_invalid := ∅ |}.

(** The locals of the loop over the variants. *)
Record variant_scan := {
  variants : list (string * list items);
  variant_item_ids : gset string;
  invalid_reasons : gmap nat string
}.

Definition reject (index : nat) (reason : string) (ids : gset string) (a : variant_scan)
  : variant_scan :=
  {| variants := variants a; variant_item_ids := ids;
     invalid_reasons := <[index := reason]> (invalid_reasons a) |}.

Definition scan_variant (ss : seed_scan) (a : variant_scan) (ix : nat * items) : variant_scan :=
  let '(index, item) := ix in
  if negb (is_variant item) then a
  else
    let item_id := item_id_of item in
    let known := variant_item_ids a in
    if is_empty item_id then
      reject index "recoverable episode variant items require a non-empty item_id" known a
    else if dict_has item_id (seeds ss) then
      reject index ("recoverable episode variant item_id collides with a seed item_id: "
                    ++ py_repr item_id) ({[ item_id ]} ∪ known) a
    else if bool_decide (item_id ∈ known) then
      reject index ("recoverable episode variant item_id is duplicated: " ++ py_repr item_id) known a
    else
      let known := {[ item_id ]} ∪ known in
      let seed_item_id := seed_ref_of item in
      if bool_decide (seed_item_id ∈ ambiguous_seed_ids ss) then
        reject index ("recoverable episode variant seed_item_id is ambiguous because the "
                      ++ "seed item_id is duplicated: " ++ py_repr seed_item_id) known a
      else if is_empty seed_item_id || negb (dict_has seed_item_id (seeds ss)) then
        reject index ("recoverable episode variant requires seed_item_id matching an epoch seed: "
                      ++ repr_val (pget "item_id" item)) known a
      else
        {| variants := dict_set seed_item_id
                         (default [] (dict_get seed_item_id (variants a)) ++ [item])%list (variants a);
           variant_item_ids := known; invalid_reasons := invalid_reasons a |}.

Definition scan_variants (ss : seed_scan) (copied : list (nat * items)) : variant_scan :=
  fold_left (scan_variant ss) copied
    {| variants := []; variant_item_ids := ∅; invalid_reasons := seed_invalid ss |}.

Definition group_keys (l : list items) : list string := uniq (l ≫= item_concurrency_keys).

Definition make_group (arm : string) (epoch group_index : Z) (vs : variant_scan) (item : items)
  : episode_group :=
  let seed_item_id := item_id_of item in
  let members := item :: default [] (dict_get seed_item_id (variants vs)) in
  {| execution_group_id := arm ++ ":epoch-" ++ py_int epoch ++ ":group-" ++ zero_pad 4 group_index;
     group_seed_item_id := seed_item_id; group_seed := item; group_items := members;
     concurrency_keys := group_keys members |}.

Fixpoint make_units (arm : string) (epoch group_index : Z) (vs : variant_scan)
    (copied : list (nat * items)) : list execution_unit :=
  match copied with
  | [] => []
  | (index, item) :: rest =>
      match invalid_reasons vs !! index with
      | Some reason => InvalidUnit item reason :: make_units arm epoch group_index vs rest
      | None =>
          if is_variant item then make_units arm epoch group_index vs rest
          else GroupUnit (make_group arm epoch (group_index + 1) vs item)
               :: make_units arm epoch (group_index + 1) vs rest
      end
  end.

(** [invalid_reasons[min(invalid_reasons)]]: the reason of the first bad item. *)
Definition first_reason (m : gmap nat string) (n : nat) : option string :=
  head (omap (λ i, m !! i) (seq 0 n)).

Definition build_episode_execution_units (copied : list items) (arm : string) (epoch : Z)
    (fatal_preflight : bool) : res (list execution_unit) :=
  let indexed := imap pair copied in
  let ss := scan_seeds indexed in
  let vs := scan_variants ss indexed in
  _ ← (match first_reason (invalid_reasons vs) (length copied) with
       | Some reason => require (negb fatal_preflight) (ValueError reason)
       | None => Ok tt
       end);
  Ok (make_units arm epoch 0 vs indexed).
End units.

(** * Records *)

Definition normalize_item_record (record : pyval) (item : items) : res items :=
  match record with
  | PMap _ d =>
      let normalized := pset "is_variant" (PBool (is_variant item))
        (pset "family" (pget "family" item) (pset "item_id" (pget "item_id" item) d)) in
      Ok (if is_variant item then
            match pget "variant_spec" item with
            | PMap _ spec => pset "variant_spec_id" (pget "spec_id" spec) normalized
            | _ => normalized
            end
          else ppop "variant_spec_id" normalized)
  | _ => Err (TypeError "adapter execution must return a dict observation record")
  end.

Definition annotate_group_record (group_id seed_item_id record_kind : string) (prefix_reused : bool)
    (checkpoint_ref : option string) (record : items) : items :=
  let annotated := pset "prefix_reused" (PBool prefix_reused)
    (pset "seed_item_id" (PStr seed_item_id)
      (pset "record_kind" (PStr record_kind) (pset "execution_group_id" (PStr group_id) record))) in
  match checkpoint_ref with
  | Some c => pset "checkpoint_ref" (PStr c) annotated
  | None => ppop "checkpoint_ref" annotated
  end.

Definition standalone_record (record : items) : items :=
  pset "prefix_reused" (PBool false)
    (pset "record_kind" (PStr RECORD_KIND_STANDALONE) (ppop "execution_group_id" record)).

Definition attach_release_error (record release_error : items) : items :=
  let record := pset "episode_release_error"
    (PMap false (as_items
       [("duration_minutes", pget "duration_minutes" release_error);
        ("retryable_infra_error", PBool (truthy (pget "retryable_infra_error" release_error)));
        ("adapter_error", pget "adapter_error" release_error)])) record in
  pset "retryable_infra_error"
    (PBool (truthy (pget "retryable_infra_error" record)
            || truthy (pget "retryable_infra_error" release_error))) record.

(** * Execution of a unit *)

Record episode_context := {
  run_root : string;
  arm : string;
  epoch : Z;
  branch_id : string;
  context_group_id : option string
}.

(** What [prepare_episode_group] returned: [None], an object that is not a
    mapping, or a mapping with the handle under ["handle"], if any, and its
    other fields. *)
Inductive prepared :=
| PreparedNone
| PreparedOther
| PreparedMap (handle : option key) (fields : items).

Inductive ep_obs :=
| EpClock (t : float)
| EpPrepare (seed : items) (l : list items) (c : episode_context) (r : res prepared)
| EpLegacy (item : items) (c : episode_context) (r : res pyval)
| EpExecute (h : key) (item : items) (c : episode_context) (r : res pyval)
| EpRelease (h : key) (c : episode_context) (r : res unit)
| EpErrorRecord (item : items) (e : exn) (r : res items).

Definition ep_history := list ep_obs.

(** The adapter, the clock and the factory of error records. *)
Record EpisodeEnv := {
  ep_clock : ep_history → float;
  prepare_episode_group : ep_history → items → list items → episode_context → res prepared;
  legacy_execute : ep_history → items → episode_context → res pyval;
  execute_episode : ep_history → key → items → episode_context → res pyval;
  release_episode_group : ep_history → key → episode_context → res unit;
  error_record_factory : ep_history → items → exn → float → res items
}.

Section execution.
Variables (env : EpisodeEnv) (fatal : bool) (ctx : episode_context).

Definition ep_call {A} (f : ep_history → A) (o : A → ep_obs) : M ep_history A :=
  λ h, (Ok (f h), h ++ [o (f h)])%list.

Definition ep_now : M ep_history float := ep_call (ep_clock env) EpClock.

Definition ep_elapsed_minutes (started_at : float) : M ep_history float :=
  t ← ep_now; mret (fdiv (fsub t started_at) f60).

(** [error_record_factory(item, error, duration_minutes=...)]. *)
Definition error_record (item : items) (e : exn) (minutes : float) : M ep_history items :=
  r ← ep_call (λ h, error_record_factory env h item e minutes) (EpErrorRecord item e);
  lift r.

Definition failure_record (item : items) (e : exn) (started_at : float) : M ep_history items :=
  minutes ← ep_elapsed_minutes started_at; error_record item e minutes.

Definition execute_invalid (item : items) (reason : string) : M ep_history (list items) :=
  let error := ValueError reason in
  if fatal then raise error
  else
    record ← error_record (unit_record (InvalidUnit item reason)) error f0;
    mret [standalone_record (pset "episode_stage" (PStr "group_validation") record)].

(** One item of a group whose preparation opted out. *)
Definition legacy_item (legacy : episode_context) (item : items) : M ep_history items :=
  started ← ep_now;
  r ← ep_call (λ h, legacy_execute env h item legacy) (EpLegacy item legacy);
  record ← match r ≫= λ v, normalize_item_record v item with
    | Ok d => mret d
    | Err e =>
        if fatal then raise e
        else d ← failure_record item e started; mret (pset "episode_stage" (PStr "legacy_execute") d)
    end;
  mret (pset "episode_fallback" (PStr "prepare_returned_none") (standalone_record record)).

Section group.
Variable (g : episode_group).

Definition group_ctx : episode_context :=
  {| run_root := run_root ctx; arm := arm ctx; epoch := epoch ctx; branch_id := branch_id ctx;
     context_group_id := Some (execution_group_id g) |}.

Definition legacy_ctx : episode_context :=
  {| run_root := run_root ctx; arm := arm ctx; epoch := epoch ctx; branch_id := branch_id ctx;
     context_group_id := None |}.

Definition shares_prefix : bool := (1 <? length (group_items g))%nat.

Definition annotate (record_kind : string) (prefix_reused : bool) (checkpoint : option string)
  : items → items :=
  annotate_group_record (execution_group_id g) (group_seed_item_id g) record_kind prefix_reused
    checkpoint.

(** The checks on what [prepare_episode_group] returned: the handle, the
    prefix record and the checkpoint. *)
Definition check_prepared (p : prepared) : res (key * items * option string) :=
  match p with
  | PreparedNone | PreparedOther =>
      Err (TypeError "prepare_episode_group must return a dict or None")
  | PreparedMap None _ => Err (TypeError "prepare_episode_group result must contain handle")
  | PreparedMap (Some handle) fields =>
      prefix ← match pget "prefix_record" fields with
        | PMap _ d => Ok d
        | _ => Err (TypeError "prepare_episode_group result must contain prefix_record dict")
        end;
      checkpoint ← match pget "checkpoint_ref" fields with
        | PNone => Ok None
        | PStr s => Ok (Some s)
        | _ => Err (TypeError "checkpoint_ref must be a string or None")
        end;
      let prefix := psetdefault "item_id" (PStr (group_seed_item_id g ++ ":shared-prefix")) prefix in
      let prefix := pset "is_variant" (PBool false)
                      (pset "family" (pget "family" (group_seed g)) prefix) in
      let prefix := psetdefault "accepted" (PBool true) (ppop "variant_spec_id" prefix) in
      Ok (handle, annotate RECORD_KIND_SHARED_PREFIX shares_prefix checkpoint prefix, checkpoint)
  end.

Definition prepared_handle (p : prepared) : option key :=
  match p with PreparedMap h _ => h | _ => None end.

Definition release_handle (handle : key) : M ep_history (res unit) :=
  ep_call (λ h, release_episode_group env h handle group_ctx) (EpRelease handle group_ctx).

(** The single record of a group whose preparation failed. *)
Definition prepare_failed (prepare_started : float) (error : exn) (release_error : option items)
  : M ep_history (list items) :=
  failed ← failure_record (group_seed g) error prepare_started;
  let failed := pset "episode_stage" (PStr "prepare") failed in
  let failed := match release_error with
                | Some r => attach_release_error failed r | None => failed end in
  mret [annotate RECORD_KIND_SHARED_PREFIX false None failed].

(** The [except] block after the checks on the prepared object. *)
Definition reject_prepared (prepare_started : float) (p : prepared) (error : exn)
  : M ep_history (list items) :=
  cleanup ← match prepared_handle p with
    | None => mret None
    | Some handle =>
        release_started ← ep_now;
        r ← release_handle handle;
        match r with
        | Ok _ => mret None
        | Err c => d ← failure_record (group_seed g) c release_started; mret (Some (c, d))
        end
    end;
  if fatal then raise (match cleanup with Some (c, _) => raise_from error c | None => error end)
  else prepare_failed prepare_started error (snd <$> cleanup).

(** The loop over the suffixes: the records and the fatal error, if any. *)
Fixpoint run_suffixes (handle : key) (checkpoint : option string) (l : list items)
  : M ep_history (list items * option exn) :=
  match l with
  | [] => mret ([], None)
  | item :: l' =>
      started ← ep_now;
      r ← ep_call (λ h, execute_episode env h handle item group_ctx) (EpExecute handle item group_ctx);
      match r ≫= λ v, normalize_item_record v item with
      | Err e =>
          if fatal then mret ([], Some e)
          else
            d ← failure_record item e started;
            let record := pset "episode_stage" (PStr "execute") d in
            rest ← run_suffixes handle checkpoint l';
            mret (annotate RECORD_KIND_EPISODE_SUFFIX shares_prefix checkpoint record :: rest.1, rest.2)
      | Ok record =>
          rest ← run_suffixes handle checkpoint l';
          mret (annotate RECORD_KIND_EPISODE_SUFFIX shares_prefix checkpoint record :: rest.1, rest.2)
      end
  end.

(** The [finally] block: the record of a failed release, unless it raises. *)
Definition finish_group (handle : key) (fatal_error : option exn) : M ep_history (option items) :=
  release_started ← ep_now;
  r ← release_handle handle;
  match r with
  | Ok _ => mret None
  | Err error =>
      match fatal_error with
      | Some f => raise (raise_from f error)
      | None =>
          if fatal then raise error
          else d ← failure_record (group_seed g) error release_started; mret (Some d)
      end
  end.

Definition execute_prepared (handle : key) (prefix : items) (checkpoint : option string)
  : M ep_history (list items) :=
  r ← attempt (run_suffixes handle checkpoint (group_items g));
  let fatal_error := match r with Ok (_, f) => f | Err _ => None end in
  release_error ← finish_group handle fatal_error;
  let prefix := match release_error with
                | Some e => pset "episode_stage" (PStr "release") (attach_release_error prefix e)
                | None => prefix
                end in
  match r with
  | Err e => raise e
  | Ok (_, Some f) => raise f
  | Ok (records, None) => mret (prefix :: records)
  end.

Definition execute_group : M ep_history (list items) :=
  prepare_started ← ep_now;
  r ← ep_call (λ h, prepare_episode_group env h (group_seed g) (group_items g) group_ctx)
              (EpPrepare (group_seed g) (group_items g) group_ctx);
  match r with
  | Err e => if fatal then raise e else prepare_failed prepare_started e None
  | Ok PreparedNone => mmap (legacy_item legacy_ctx) (group_items g)
  | Ok p =>
      match check_prepared p with
      | Err e => reject_prepared prepare_started p e
      | Ok (handle, prefix, checkpoint) => execute_prepared handle prefix checkpoint
      end
  end.
End group.

Definition execute_episode_group (u : execution_unit) : M ep_history (list items) :=
  match u with
  | InvalidUnit item reason => execute_invalid item reason
  | GroupUnit g => execute_group g
  end.
End execution.
