(* ===== verification/EpisodeUnits.v ===== *)
(** The theorems about the units of shared-prefix episodes: every item is
    scheduled exactly once and groups are well formed. *)

From stdpp Require Import base strings list sets gmap.
From Stdlib Require Import ZArith Lia.
From S2P Require Import Prelude PyFloat PyValue TraceRuntime ReplayTypes EpisodeRuntime ListLib.

(** * Execution units *)

(** The items a unit stands for. *)
Definition unit_members (u : execution_unit) : list items :=
  match u with InvalidUnit item _ => [item] | GroupUnit g => group_items g end.

Definition unit_reason (u : execution_unit) : option string :=
  match u with InvalidUnit _ reason => Some reason | GroupUnit _ => None end.

Definition groups_of (units : list execution_unit) : list episode_group :=
  omap (λ u, match u with GroupUnit g => Some g | InvalidUnit _ _ => None end) units.

Section units.
Variables (str_of repr_of : pyval → string).
Notation id_of := (item_id_of str_of).
Notation ref_of := (seed_ref_of str_of).

(** [ix] is a seed with the non-empty identifier [k]. *)
Definition seed_named (k : string) (ix : nat * items) : Prop :=
  is_variant ix.2 = false ∧ id_of ix.2 = k ∧ k ≠ "".

Definition twice (L : list (nat * items)) (k : string) : Prop :=
  ∃ ix iy, ix ∈ L ∧ iy ∈ L ∧ ix.1 ≠ iy.1 ∧ seed_named k ix ∧ seed_named k iy.

Record seeds_ok (L : list (nat * items)) (ss : seed_scan) : Prop := {
  so_seeds : ∀ k, dict_has k (seeds ss) = true ↔ ∃ ix, ix ∈ L ∧ seed_named k ix;
  so_first : ∀ k, dict_has k (seeds ss) = true →
    ∃ i x, dict_get k (seed_indices ss) = Some i ∧ (i, x) ∈ L ∧ seed_named k (i, x);
  so_ambiguous : ∀ k, k ∈ ambiguous_seed_ids ss ↔ twice L k;
  so_invalid : ∀ i, is_Some (seed_invalid ss !! i) ↔
    ∃ x, (i, x) ∈ L ∧ is_variant x = false ∧ (id_of x = "" ∨ twice L (id_of x))
}.

Lemma dict_has_set {V} k k' (v : V) d :
  dict_has k (dict_set k' v d) = true ↔ k = k' ∨ dict_has k d = true.
Proof.
  unfold dict_has. destruct (decide (k = k')) as [->|Hk].
  - rewrite dict_get_set_eq. naive_solver.
  - rewrite dict_get_set_ne by done. naive_solver.
Qed.

Lemma twice_snoc L k n x :
  n ∉ L.*1 →
  twice (L ++ [(n, x)])%list k ↔
  twice L k ∨ (seed_named k (n, x) ∧ ∃ ix, ix ∈ L ∧ seed_named k ix).
Proof.
  intros Hn. unfold twice. split.
  - intros (ix & iy & Hx & Hy & Hne & Hsx & Hsy).
    apply elem_of_app in Hx as [Hx|Hx], Hy as [Hy|Hy]; try apply list_elem_of_singleton in Hx as ->;
      try apply list_elem_of_singleton in Hy as ->; [left|right|right|done]; eauto 10.
  - assert (∀ iy, iy ∈ L → iy.1 ≠ n) as Hd.
    { intros iy Hy <-. apply Hn, list_elem_of_fmap. eauto. }
    intros [(ix & iy & Hx & Hy & ?)|(Hs & ix & Hx & Hsx)].
    + exists ix, iy. split_and!; [set_solver|set_solver|tauto..].
    + exists ix, (n, x). split_and!; [set_solver|set_solver|by apply Hd|done|done].
Qed.

Lemma setdefault_Some i j r m :
  is_Some (setdefault i r m !! j) ↔ i = j ∨ is_Some (m !! j).
Proof.
  unfold setdefault. destruct (m !! i) as [v|] eqn:E.
  - split; [by right|]. intros [->|H]; [by rewrite E|done].
  - rewrite lookup_insert_is_Some. destruct (decide (i = j)); naive_solver.
Qed.

Lemma seeds_ok_nil : seeds_ok [] (scan_seeds str_of []).
Proof.
  split; simpl.
  - intros k. split; [done|]. intros (? & H & _). by apply elem_of_nil in H.
  - done.
  - intros k. split; [set_solver|]. intros (? & ? & H & _). by apply elem_of_nil in H.
  - intros i. rewrite lookup_empty. split; [by intros [? ?]|].
    intros (? & H & _). by apply elem_of_nil in H.
Qed.

Lemma exists_at_snoc (L : list (nat * items)) n x i (Q : items → Prop) :
  (∃ y, (i, y) ∈ (L ++ [(n, x)])%list ∧ Q y) ↔ (∃ y, (i, y) ∈ L ∧ Q y) ∨ (i = n ∧ Q x).
Proof.
  setoid_rewrite elem_of_app. setoid_rewrite list_elem_of_singleton.
  split; [intros (y & [?|?] & ?); simplify_eq; eauto|intros [(y & ? & ?)|[-> ?]]; eauto].
Qed.

Lemma index_fresh (L : list (nat * items)) n i y : n ∉ L.*1 → (i, y) ∈ L → n ≠ i.
Proof. intros Hn Hy ->. apply Hn, list_elem_of_fmap. by exists (i, y). Qed.

Lemma seeds_ok_unnamed L ss n x inv' :
  n ∉ L.*1 → seeds_ok L ss → (is_variant x = true ∨ id_of x = "") →
  (∀ i, is_Some (inv' !! i) ↔ is_Some (seed_invalid ss !! i) ∨ (i = n ∧ is_variant x = false)) →
  seeds_ok (L ++ [(n, x)])%list
    {| seeds := seeds ss; seed_indices := seed_indices ss;
       ambiguous_seed_ids := ambiguous_seed_ids ss; seed_invalid := inv' |}.
Proof.
  intros Hn [Hs Hf Ha Hi] Hx Hinv. pose proof (λ k, twice_snoc L k n x Hn) as Ht.
  assert (∀ k, seed_named k (n, x) ↔ False) as Hns.
  { intros k. split; [|done]. intros (? & ? & ?). simpl in *. destruct Hx; congruence. }
  setoid_rewrite Hns in Ht. split; simpl.
  - intros k. rewrite Hs, exists_snoc, Hns. tauto.
  - intros k Hk. destruct (Hf k Hk) as (i & y & ? & ? & ?). exists i, y.
    split_and!; [done|apply elem_of_app; by left|done].
  - intros k. rewrite Ha, Ht. tauto.
  - intros i. rewrite Hinv, Hi, exists_at_snoc. setoid_rewrite Ht.
    split; intros [(y & ? & ? & ?)|H]; [left; exists y; tauto| |left; exists y; tauto|].
    + right. destruct H as [-> H], Hx; [congruence|]. split_and!; [done..|by left].
    + right. by destruct H as (-> & ? & _).
Qed.

Lemma seeds_ok_new L ss n x k :
  n ∉ L.*1 → seeds_ok L ss → seed_named k (n, x) → dict_has k (seeds ss) = false →
  seeds_ok (L ++ [(n, x)])%list
    {| seeds := dict_set k x (seeds ss); seed_indices := dict_set k n (seed_indices ss);
       ambiguous_seed_ids := ambiguous_seed_ids ss; seed_invalid := seed_invalid ss |}.
Proof.
  intros Hn [Hs Hf Ha Hi] Hk Hnew.
  assert (∀ k', seed_named k' (n, x) ↔ k' = k) as Hns.
  { intros k'. split; [|by intros ->]. intros (_ & <- & _). by destruct Hk as (_ & ? & _). }
  assert (∀ k', twice (L ++ [(n, x)])%list k' ↔ twice L k') as Ht.
  { intros k'. rewrite twice_snoc, Hns by done. split; [|tauto].
    intros [?|[-> Hk']]; [done|]. apply Hs in Hk'. congruence. }
  assert (¬ twice L k) as Hnt.
  { intros (ix & _ & ? & _ & _ & ? & _). assert (dict_has k (seeds ss) = true) by (apply Hs; eauto).
    congruence. }
  split; simpl.
  - intros k'. rewrite dict_has_set, Hs, exists_snoc, Hns. tauto.
  - intros k' Hk'. destruct (decide (k' = k)) as [->|Hne].
    + exists n, x. rewrite dict_get_set_eq. split_and!; [done| |done]. set_solver.
    + apply dict_has_set in Hk' as [?|Hk']; [done|]. destruct (Hf k' Hk') as (i & y & ? & ? & ?).
      exists i, y. rewrite dict_get_set_ne by done.
      split_and!; [done|apply elem_of_app; by left|done].
  - intros k'. by rewrite Ha, Ht.
  - intros i. rewrite Hi, exists_at_snoc. setoid_rewrite Ht. split; [by left|].
    intros [?|(_ & _ & Ho)]; [done|]. destruct Hk as (_ & Hk & Hk'). simpl in Hk. destruct Ho; congruence.
Qed.

Lemma seeds_ok_again L ss n x k r :
  n ∉ L.*1 → seeds_ok L ss → seed_named k (n, x) → dict_has k (seeds ss) = true →
  seeds_ok (L ++ [(n, x)])%list
    {| seeds := seeds ss; seed_indices := seed_indices ss;
       ambiguous_seed_ids := {[ k ]} ∪ ambiguous_seed_ids ss;
       seed_invalid := <[n := r]> (setdefault (default 0%nat (dict_get k (seed_indices ss))) r
                                     (seed_invalid ss)) |}.
Proof.
  intros Hn [Hs Hf Ha Hi] Hk Hold. destruct (Hf k Hold) as (j & y & Hj & Hyl & Hy).
  assert (∀ k', seed_named k' (n, x) ↔ k' = k) as Hns.
  { intros k'. split; [|by intros ->]. intros (_ & <- & _). by destruct Hk as (_ & ? & _). }
  assert (∀ k', twice (L ++ [(n, x)])%list k' ↔ k' = k ∨ twice L k') as Ht.
  { intros k'. rewrite twice_snoc, Hns by done. split; [tauto|].
    intros [->|?]; [right; split; [done|eauto]|tauto]. }
  split; simpl.
  - intros k'. rewrite Hs, exists_snoc, Hns. split; [tauto|]. intros [? | ->]; [done|eauto].
  - intros k' Hk'. destruct (Hf k' Hk') as (i & z & ? & ? & ?). exists i, z.
    split_and!; [done|apply elem_of_app; by left|done].
  - intros k'. rewrite Ht, <- Ha. set_solver.
  - intros i. rewrite Hj. simpl. rewrite lookup_insert_is_Some', setdefault_Some, Hi, exists_at_snoc.
    setoid_rewrite Ht. destruct Hk as (Hv & Hidx & Hk), Hy as (Hvy & Hidy & _). simpl in *. split.
    + intros [<-|[<-|(z & ? & ? & ?)]].
      * right. split_and!; [done..|]. by right; left.
      * left. exists y. split_and!; [done..|]. by right; left.
      * left. exists z. tauto.
    + intros [(z & Hz & Hvz & Ho)|(-> & _)]; [|by left]. right.
      destruct Ho as [He|[Hez|Ho]]; [right; exists z; tauto| |right; exists z; tauto].
      destruct (decide (j = i)) as [->|Hji]; [by left|]. right. exists z. split_and!; [done..|].
      right. exists (i, z), (j, y). unfold seed_named. simpl. rewrite Hez. eauto 10.
Qed.

Lemma scan_seeds_ok L : NoDup L.*1 → seeds_ok L (scan_seeds str_of L).
Proof.
  induction L as [|[n x] L IH] using rev_ind; intros Hnd; [apply seeds_ok_nil|].
  rewrite fmap_app in Hnd. apply NoDup_app in Hnd as (Hnd & Hd & _).
  assert (n ∉ L.*1) as Hn by set_solver. specialize (IH Hnd).
  unfold scan_seeds in *. rewrite fold_left_app. simpl. unfold scan_seed at 1.
  set (ss := fold_left _ L _) in *. clearbody ss.
  destruct (is_variant x) eqn:Ev.
  { replace ss with {| seeds := seeds ss; seed_indices := seed_indices ss;
      ambiguous_seed_ids := ambiguous_seed_ids ss; seed_invalid := seed_invalid ss |}
      by by destruct ss.
    apply seeds_ok_unnamed; [done..|by left|].
    intros i. split; [by left|]. intros [?|[_ ?]]; [done|congruence]. }
  destruct (is_empty (id_of x)) eqn:Ee.
  { apply is_empty_spec in Ee. apply seeds_ok_unnamed; [done..|by right|].
    intros i. rewrite lookup_insert_is_Some'. split; [intros [->|?]; auto|intros [?|[-> _]]; auto]. }
  assert (seed_named (id_of x) (n, x)).
  { split_and!; [done..|]. intros He. by rewrite He in Ee. }
  destruct (dict_has (id_of x) (seeds ss)) eqn:Eh; [by apply seeds_ok_again|by apply seeds_ok_new].
Qed.

(** ** Variants *)

(** After the loop over the variants: the recorded ones are those without a
    reason, under the seed they name, in order; that seed is unambiguous. *)
Record variants_ok (ss : seed_scan) (L : list (nat * items)) (vs : variant_scan) : Prop := {
  vo_variants : ∀ k, default [] (dict_get k (variants vs)) =
    snd <$> filter (λ ix, is_variant ix.2 = true ∧ invalid_reasons vs !! ix.1 = None ∧
                          ref_of ix.2 = k) L;
  vo_seeds : ∀ ix, ix ∈ L → is_variant ix.2 = false →
    invalid_reasons vs !! ix.1 = seed_invalid ss !! ix.1;
  vo_refs : ∀ ix, ix ∈ L → is_variant ix.2 = true → invalid_reasons vs !! ix.1 = None →
    dict_has (ref_of ix.2) (seeds ss) = true ∧ ref_of ix.2 ∉ ambiguous_seed_ids ss;
  vo_ids : ∀ ix, ix ∈ L → is_variant ix.2 = true → invalid_reasons vs !! ix.1 = None →
    id_of ix.2 ≠ "" ∧ dict_has (id_of ix.2) (seeds ss) = false ∧ id_of ix.2 ∈ variant_item_ids vs;
  vo_nodup : NoDup (id_of ∘ snd <$> filter (λ ix, is_variant ix.2 = true ∧
                                                  invalid_reasons vs !! ix.1 = None) L);
  vo_other : ∀ i, i ∉ L.*1 → invalid_reasons vs !! i = seed_invalid ss !! i
}.

Lemma variants_ok_seed ss L vs n x :
  n ∉ L.*1 → variants_ok ss L vs → is_variant x = false → variants_ok ss (L ++ [(n, x)])%list vs.
Proof.
  intros Hn [Hv Hs Hr Hi Hnd Ho] Hx.
  assert (∀ ix, ix ∈ (L ++ [(n, x)])%list → ix ∈ L ∨ ix = (n, x)) as Hin by set_solver.
  split.
  - intros k. rewrite filter_snoc, decide_False by (simpl; intros (? & _); congruence). by rewrite app_nil_r.
  - intros ix [? | ->]%Hin ?; [by apply Hs|by apply Ho].
  - intros ix [? | ->]%Hin ? ?; [by apply Hr|simpl in *; congruence].
  - intros ix [? | ->]%Hin ? ?; [by apply Hi|simpl in *; congruence].
  - rewrite filter_snoc, decide_False by (simpl; intros (? & _); congruence). by rewrite app_nil_r.
  - intros i Hni. apply Ho. set_solver.
Qed.

Lemma variants_ok_reject ss L vs n x reason ids :
  n ∉ L.*1 → variants_ok ss L vs → is_variant x = true → variant_item_ids vs ⊆ ids →
  variants_ok ss (L ++ [(n, x)])%list (reject n reason ids vs).
Proof.
  intros Hn [Hv Hs Hr Hi Hnd Ho] Hx Hids. unfold reject.
  assert (∀ ix, ix ∈ (L ++ [(n, x)])%list → ix ∈ L ∨ ix = (n, x)) as Hin by set_solver.
  assert (∀ ix, ix ∈ L → <[n:=reason]> (invalid_reasons vs) !! ix.1 = invalid_reasons vs !! ix.1)
    as Hl by (intros [i y] ?; apply lookup_insert_ne; by eapply index_fresh).
  split; simpl.
  - intros k. rewrite filter_snoc, decide_False by (simpl; rewrite lookup_insert_eq; by intros (_ & ? & _)).
    rewrite app_nil_r, Hv. f_equal. apply filter_ext_in. intros ix ?. by rewrite Hl.
  - intros ix [? | ->]%Hin ?; [by rewrite Hl; [apply Hs|]|simpl in *; congruence].
  - intros ix [? | ->]%Hin; [rewrite Hl by done; by apply Hr|]. simpl. by rewrite lookup_insert_eq.
  - intros ix [? | ->]%Hin; [rewrite Hl by done|simpl; by rewrite lookup_insert_eq].
    intros. destruct (Hi ix) as (? & ? & ?); set_solver.
  - rewrite filter_snoc, decide_False by (simpl; rewrite lookup_insert_eq; by intros (_ & ?)).
    rewrite app_nil_r. erewrite filter_ext_in; [done|]. intros ix ?. by rewrite Hl.
  - intros i Hni. rewrite fmap_app in Hni. apply not_elem_of_app in Hni as [? Hni].
    rewrite lookup_insert_ne; [by apply Ho|]. intros ->. apply Hni. by left.
Qed.

Lemma variants_ok_accept ss L vs n x :
  n ∉ L.*1 → variants_ok ss L vs → is_variant x = true → invalid_reasons vs !! n = None →
  id_of x ≠ "" → dict_has (id_of x) (seeds ss) = false → id_of x ∉ variant_item_ids vs →
  dict_has (ref_of x) (seeds ss) = true → ref_of x ∉ ambiguous_seed_ids ss →
  variants_ok ss (L ++ [(n, x)])%list
    {| variants := dict_set (ref_of x) (default [] (dict_get (ref_of x) (variants vs)) ++ [x])%list
                     (variants vs);
       variant_item_ids := {[ id_of x ]} ∪ variant_item_ids vs;
       invalid_reasons := invalid_reasons vs |}.
Proof.
  intros Hn [Hv Hs Hr Hi Hnd Ho] Hx Hok He Hc Hnew Hk Ha.
  assert (∀ ix, ix ∈ (L ++ [(n, x)])%list → ix ∈ L ∨ ix = (n, x)) as Hin by set_solver.
  split; simpl.
  - intros k. rewrite filter_snoc. simpl. destruct (decide (k = ref_of x)) as [->|Hk'].
    + rewrite dict_get_set_eq, decide_True by done. simpl. by rewrite fmap_app, <- Hv.
    + rewrite dict_get_set_ne by done. rewrite decide_False by (intros (_ & _ & ?); congruence). by rewrite app_nil_r, Hv.
  - intros ix [? | ->]%Hin ?; [by apply Hs|by apply Ho].
  - intros ix [? | ->]%Hin ? ?; [by apply Hr|done].
  - intros ix [? | ->]%Hin ? ?; [destruct (Hi ix) as (? & ? & ?); set_solver|simpl; set_solver].
  - rewrite filter_snoc, decide_True by done. rewrite fmap_app. apply NoDup_app.
    split_and!; [done| |apply NoDup_singleton].
    intros k (ix & -> & Hix)%list_elem_of_fmap Hk'. apply list_elem_of_filter in Hix as [[? ?] ?].
    destruct (Hi ix) as (_ & _ & Hid); [done..|]. apply list_elem_of_singleton in Hk'.
    simpl in Hk'. by rewrite Hk' in Hid.
  - intros i Hni. apply Ho. set_solver.
Qed.

Lemma scan_variants_ok ss L :
  NoDup L.*1 → (∀ i x, (i, x) ∈ L → is_variant x = true → seed_invalid ss !! i = None) →
  variants_ok ss L (scan_variants str_of repr_of ss L).
Proof.
  induction L as [|[n x] L IH] using rev_ind; intros Hnd Hss.
  { split; simpl; [done|by intros ix Hix; apply elem_of_nil in Hix..|apply NoDup_nil_2|done]. }
  rewrite fmap_app in Hnd. apply NoDup_app in Hnd as (Hnd & Hd & _).
  assert (n ∉ L.*1) as Hn by set_solver.
  assert (variants_ok ss L (scan_variants str_of repr_of ss L)) as Hvs.
  { apply IH; [done|]. intros i y ?. apply Hss. set_solver. }
  unfold scan_variants in *. rewrite fold_left_app. simpl. unfold scan_variant at 1.
  set (vs := fold_left _ L _) in *. clearbody vs.
  destruct (is_variant x) eqn:Ev; simpl; [|by apply variants_ok_seed].
  assert (invalid_reasons vs !! n = None) as Hok.
  { rewrite (vo_other _ _ _ Hvs) by done. apply (Hss n x); set_solver. }
  destruct (is_empty (id_of x)) eqn:Ee; [by apply variants_ok_reject|].
  destruct (dict_has (id_of x) (seeds ss)) eqn:Ec; [by apply variants_ok_reject; [..|set_solver]|].
  case_bool_decide as Hnew; [by apply variants_ok_reject|].
  case_bool_decide as Ha; [by apply variants_ok_reject; [..|set_solver]|].
  destruct (is_empty (ref_of x) || _) eqn:Er; [by apply variants_ok_reject; [..|set_solver]|].
  apply orb_false_iff in Er as [_ Er]. apply negb_false_iff in Er.
  apply variants_ok_accept; try done. intros E. by rewrite E in Ee.
Qed.

(** ** Units *)

Lemma partition_perm (P : nat → bool) (L : list (nat * items)) :
  L.*2 ≡ₚ
  ((snd <$> filter (λ ix, P ix.1 = true) L)
   ++ (snd <$> filter (λ ix, P ix.1 = false ∧ is_variant ix.2 = false) L)
   ++ (snd <$> filter (λ ix, P ix.1 = false ∧ is_variant ix.2 = true) L))%list.
Proof.
  induction L as [|[i x] L IH]; [done|]. rewrite !filter_cons. simpl.
  destruct (P i), (is_variant x); simpl.
  all: repeat (rewrite decide_True by tauto || rewrite decide_False by (intros; naive_solver)); simpl.
  all: rewrite IH; solve_Permutation.
Qed.

Definition bad (vs : variant_scan) (i : nat) : bool := is_some (invalid_reasons vs !! i).

Definition good_seeds (vs : variant_scan) (L : list (nat * items)) : list items :=
  snd <$> filter (λ ix, bad vs ix.1 = false ∧ is_variant ix.2 = false) L.

Lemma make_units_members arm epoch n vs L :
  (make_units str_of arm epoch n vs L ≫= unit_members) ≡ₚ
  ((snd <$> filter (λ ix, bad vs ix.1 = true) L) ++ good_seeds vs L
   ++ (good_seeds vs L ≫= λ s, default [] (dict_get (id_of s) (variants vs))))%list.
Proof.
  revert n. induction L as [|[i x] L IH]; intros n; [done|]. simpl. unfold good_seeds in *.
  rewrite !filter_cons. simpl.
  destruct (invalid_reasons vs !! i) as [r|] eqn:E;
    [assert (bad vs i = true) as -> by (unfold bad; by rewrite E)
    |assert (bad vs i = false) as -> by (unfold bad; by rewrite E)]; simpl; [by rewrite IH|].
  destruct (is_variant x); simpl; [by rewrite IH|]. rewrite IH. solve_Permutation.
Qed.

(** What the two loops establish for the units. *)
Record scanned (L : list (nat * items)) (vs : variant_scan) : Prop := {
  sc_variants : ∀ k, default [] (dict_get k (variants vs)) =
    filter (λ v, ref_of v = k) (snd <$> filter (λ ix, bad vs ix.1 = false ∧ is_variant ix.2 = true) L);
  sc_refs : ∀ v, v ∈ (snd <$> filter (λ ix, bad vs ix.1 = false ∧ is_variant ix.2 = true) L) →
    ref_of v ∈ id_of <$> good_seeds vs L;
  sc_ids : NoDup (id_of <$> (good_seeds vs L ++
    (snd <$> filter (λ ix, bad vs ix.1 = false ∧ is_variant ix.2 = true) L)))%list
}.

Lemma bad_None vs i : bad vs i = false ↔ invalid_reasons vs !! i = None.
Proof. unfold bad. by destruct (_ !! i). Qed.

Lemma snd_filter_filter (P : nat * items → Prop) (Q : items → Prop)
    `{∀ ix, Decision (P ix), ∀ x, Decision (Q x)} (L : list (nat * items)) :
  filter Q (snd <$> filter P L) = snd <$> filter (λ ix, P ix ∧ Q ix.2) L.
Proof.
  induction L as [|ix L IH]; [done|]. rewrite !filter_cons.
  destruct (decide (P ix)), (decide (P ix ∧ Q ix.2)); try tauto; rewrite ?fmap_cons, ?filter_cons.
  - rewrite decide_True by tauto. by rewrite IH.
  - rewrite decide_False by tauto. by rewrite IH.
Qed.

Lemma same_index (L : list (nat * items)) ix iy :
  NoDup L.*1 → ix ∈ L → iy ∈ L → ix.1 = iy.1 → ix = iy.
Proof.
  destruct ix as [i x], iy as [j y]. simpl. intros Hnd Hx Hy <-.
  apply list_elem_of_lookup in Hx as [m Hm], Hy as [n Hn].
  assert (m = n) as ->; [|congruence].
  eapply (NoDup_lookup _ _ _ i Hnd); rewrite list_lookup_fmap; [by rewrite Hm|by rewrite Hn].
Qed.

(** A seed without a reason has an identifier of its own. *)
Lemma good_seed_named L vs ix :
  NoDup L.*1 → seeds_ok L (scan_seeds str_of L) → variants_ok (scan_seeds str_of L) L vs →
  ix ∈ L → is_variant ix.2 = false → bad vs ix.1 = false →
  id_of ix.2 ≠ "" ∧ ∀ iy, iy ∈ L → is_variant iy.2 = false → id_of ix.2 = id_of iy.2 → ix = iy.
Proof.
  intros Hnd [_ _ _ Hi] [_ Hsd _ _ _ _] Hx Hvx Hb. apply bad_None in Hb. rewrite Hsd in Hb by done.
  destruct ix as [i x]. simpl in *. apply eq_None_not_Some in Hb. rewrite Hi in Hb.
  assert (id_of x ≠ "") as Hne by (intros ?; apply Hb; exists x; tauto).
  split; [done|]. intros iy Hy Hvy Heq. apply (same_index L); [done..|]. simpl.
  destruct (decide (i = iy.1)) as [|Hd]; [done|]. destruct Hb. exists x. split_and!; [done..|]. right.
  exists (i, x), iy. unfold seed_named. by rewrite <- Heq.
Qed.

(** A variant without a reason names a seed without one. *)
Lemma good_variant_ref L vs ix :
  NoDup L.*1 → seeds_ok L (scan_seeds str_of L) → variants_ok (scan_seeds str_of L) L vs →
  ix ∈ L → is_variant ix.2 = true → bad vs ix.1 = false → ref_of ix.2 ∈ id_of <$> good_seeds vs L.
Proof.
  intros Hnd [Hs _ Ha Hi] [_ Hsd Hr _ _ _] Hx Hvx Hb%bad_None.
  destruct (Hr ix Hx Hvx Hb) as [Hk Hna].
  destruct (proj1 (Hs _) Hk) as (iy & Hy & Hvy & Hidy & Hne). rewrite Ha in Hna.
  apply list_elem_of_fmap. exists iy.2. split; [done|]. apply list_elem_of_fmap. exists iy.
  split; [done|]. apply list_elem_of_filter. split; [split|]; [|done|done].
  apply bad_None. rewrite Hsd by done. apply eq_None_not_Some. destruct iy as [j y]. rewrite Hi.
  intros (y' & Hy' & _ & Ho). simpl in *.
  pose proof (same_index L (j, y) (j, y') Hnd Hy Hy' eq_refl). simplify_eq.
  rewrite Hidy in Ho. destruct Ho; congruence.
Qed.

Lemma scanned_ok L :
  NoDup L.*1 → scanned L (scan_variants str_of repr_of (scan_seeds str_of L) L).
Proof.
  intros Hnd. pose proof (scan_seeds_ok L Hnd) as Hss.
  set (ss := scan_seeds str_of L) in *.
  assert (∀ i x, (i, x) ∈ L → is_variant x = true → seed_invalid ss !! i = None) as Hv0.
  { intros i x Hx Hv. apply eq_None_not_Some. rewrite (so_invalid _ _ Hss). intros (y & Hy & Hvy & _).
    pose proof (same_index L (i, x) (i, y) Hnd Hx Hy eq_refl). simplify_eq. congruence. }
  pose proof (scan_variants_ok ss L Hnd Hv0) as Hvs.
  set (vs := scan_variants str_of repr_of ss L) in *.
  pose proof (good_seed_named L vs) as Hgood. split.
  - intros k. rewrite (vo_variants _ _ _ Hvs), snd_filter_filter. f_equal. apply filter_ext_in.
    intros ix _. rewrite bad_None. tauto.
  - intros v (ix & -> & [[Hb Hvx] Hx]%list_elem_of_filter)%list_elem_of_fmap. by apply good_variant_ref.
  - rewrite fmap_app. apply NoDup_app. split_and!.
    + unfold good_seeds. rewrite <- list_fmap_compose. apply NoDup_fmap_2_strong.
      * intros ix iy [[Hbx Hvx] Hx]%list_elem_of_filter [[Hby Hvy] Hy]%list_elem_of_filter Heq.
        destruct (Hgood ix) as [_ Hu]; [done..|]. by apply Hu.
      * apply NoDup_filter. by eapply NoDup_fmap_1.
    + intros k (s & -> & (ix & -> & [[Hbx Hvx] Hx]%list_elem_of_filter)%list_elem_of_fmap)%list_elem_of_fmap.
      intros (v & Heq & (iy & -> & [[Hby Hvy] Hy]%list_elem_of_filter)%list_elem_of_fmap)%list_elem_of_fmap.
      apply bad_None in Hby. destruct (vo_ids _ _ _ Hvs iy Hy Hvy Hby) as (_ & Hns & _).
      assert (dict_has (id_of iy.2) (seeds ss) = true); [|congruence]. apply (so_seeds _ _ Hss).
      exists ix. destruct (Hgood ix) as [? _]; [done..|]. rewrite <- Heq. done.
    + rewrite <- list_fmap_compose. erewrite filter_ext_in; [apply (vo_nodup _ _ _ Hvs)|].
      intros ix _. simpl. rewrite bad_None. tauto.
Qed.

Lemma grouped_variants vs L :
  scanned L vs →
  (good_seeds vs L ≫= λ s, default [] (dict_get (id_of s) (variants vs))) ≡ₚ
  snd <$> filter (λ ix, bad vs ix.1 = false ∧ is_variant ix.2 = true) L.
Proof.
  intros [Hv Hr Hid]. rewrite fmap_app in Hid. apply NoDup_app in Hid as (Hid & _ & _).
  etrans; [|apply (group_perm ref_of (id_of <$> good_seeds vs L)); done].
  apply reflexive_eq. rewrite list_fmap_bind. apply bind_ext_in. intros s _. apply Hv.
Qed.

Lemma units_members_perm arm epoch n vs L :
  scanned L vs → (make_units str_of arm epoch n vs L ≫= unit_members) ≡ₚ L.*2.
Proof.
  intros Hs. rewrite make_units_members, (partition_perm (bad vs) L).
  by apply Permutation_app_head, Permutation_app_head, grouped_variants.
Qed.

Lemma groups_cons_invalid item r units : groups_of (InvalidUnit item r :: units) = groups_of units.
Proof. done. Qed.

Lemma groups_cons_group g units : groups_of (GroupUnit g :: units) = g :: groups_of units.
Proof. done. Qed.

(** The groups, by number. *)
Lemma make_units_groups arm epoch n vs L g :
  g ∈ groups_of (make_units str_of arm epoch n vs L) →
  ∃ m x, (n < m)%Z ∧ x ∈ good_seeds vs L ∧ g = make_group str_of arm epoch m vs x.
Proof.
  revert n. induction L as [|[i x] L IH]; intros n; [set_solver|]. simpl.
  unfold good_seeds in *. setoid_rewrite filter_cons. simpl.
  destruct (invalid_reasons vs !! i) as [r|] eqn:E.
  - rewrite groups_cons_invalid. intros (m & y & ? & ? & ->)%IH. exists m, y.
    rewrite decide_False; [done|]. unfold bad. rewrite E. by intros [? _].
  - destruct (is_variant x) eqn:Ev.
    + intros (m & y & ? & ? & ->)%IH. exists m, y. rewrite decide_False; [done|]. by intros [_ ?].
    + rewrite decide_True by (unfold bad; by rewrite E).
      rewrite groups_cons_group. intros [->|(m & y & ? & ? & ->)%IH]%elem_of_cons.
      * exists (n + 1)%Z, x. split_and!; [lia| |done]. set_solver.
      * exists m, y. split_and!; [lia| |done]. set_solver.
Qed.

Lemma make_units_ids arm epoch n vs L :
  (0 ≤ n)%Z → NoDup (execution_group_id <$> groups_of (make_units str_of arm epoch n vs L)).
Proof.
  revert n. induction L as [|[i x] L IH]; intros n Hn; simpl; [apply NoDup_nil_2|].
  destruct (invalid_reasons vs !! i); [rewrite groups_cons_invalid; by apply IH|].
  destruct (is_variant x); [by apply IH|]. rewrite groups_cons_group, fmap_cons.
  apply NoDup_cons. split; [|apply IH; lia].
  intros (g & Hg & (m & y & Hm & _ & ->)%make_units_groups)%list_elem_of_fmap. simpl in Hg.
  repeat apply (inj (String.append _)) in Hg. apply zero_pad_inj in Hg; lia.
Qed.

Lemma make_units_group_items arm epoch n vs L :
  (groups_of (make_units str_of arm epoch n vs L) ≫= group_items) ≡ₚ
  (good_seeds vs L ++ (good_seeds vs L ≫= λ s, default [] (dict_get (id_of s) (variants vs))))%list.
Proof.
  revert n. induction L as [|[i x] L IH]; intros n; [done|]. simpl. unfold good_seeds in *.
  rewrite filter_cons. simpl. destruct (invalid_reasons vs !! i) as [r|] eqn:E;
    [assert (bad vs i = true) as -> by (unfold bad; by rewrite E)
    |assert (bad vs i = false) as -> by (unfold bad; by rewrite E)]; simpl; [by rewrite <- IH|].
  destruct (is_variant x); simpl; [by rewrite <- IH|]. rewrite IH. solve_Permutation.
Qed.

Lemma unit_reasons arm epoch n vs L :
  omap (λ i, invalid_reasons vs !! i) L.*1 = omap unit_reason (make_units str_of arm epoch n vs L).
Proof.
  revert n. induction L as [|[i x] L IH]; intros n; [done|]. csimpl.
  destruct (invalid_reasons vs !! i); csimpl; [by rewrite <- IH|].
  destruct (is_variant x); csimpl; apply IH.
Qed.

Notation build := (build_episode_execution_units str_of repr_of).

Lemma build_spec copied arm epoch :
  ∃ vs, let L := imap pair copied in
  let units := make_units str_of arm epoch 0 vs L in
  scanned L vs ∧ build copied arm epoch false = Ok units ∧
  build copied arm epoch true =
    match head (omap unit_reason units) with None => Ok units | Some r => Err (ValueError r) end.
Proof.
  pose proof (imap_pair_fst copied 0) as HL. unfold build_episode_execution_units, first_reason.
  change (imap (λ i x, ((0 + i)%nat, x)) copied) with (imap pair copied) in HL.
  rewrite <- HL. remember (imap pair copied) as L eqn:EL.
  exists (scan_variants str_of repr_of (scan_seeds str_of L) L). simpl.
  set (vs := scan_variants _ _ _ L) in *. rewrite (unit_reasons arm epoch 0 vs L).
  split; [apply scanned_ok; rewrite HL; apply NoDup_seq|]. by destruct (head _).
Qed.

(** [build_episode_execution_units] schedules every item exactly once: it
    always returns units under the recording policy, and their members are the
    input items up to order (an invalid item is a unit of its own).  Under the
    fatal policy it returns the same units when no item is invalid, and
    otherwise raises the reason of the first invalid item. *)
Theorem episode_units_partition copied arm epoch :
  ∃ units, build copied arm epoch false = Ok units ∧ (units ≫= unit_members) ≡ₚ copied ∧
    build copied arm epoch true =
      match head (omap unit_reason units) with None => Ok units | Some r => Err (ValueError r) end.
Proof.
  destruct (build_spec copied arm epoch) as (vs & Hs & Hf & Ht). eexists. split_and!; [done| |done].
  rewrite units_members_perm by done. by rewrite imap_pair_snd.
Qed.

Lemma group_members_spec arm epoch vs L m seed :
  scanned L vs → seed ∈ good_seeds vs L →
  let g := make_group str_of arm epoch m vs seed in
  ∃ vars, group_items g = seed :: vars ∧
    Forall (λ v, is_variant v = true ∧ ref_of v = group_seed_item_id g) vars.
Proof.
  intros [Hv _ _] _. eexists. split; [done|]. simpl. rewrite Hv. apply Forall_forall.
  intros v [<- (ix & -> & [[_ ?] _]%list_elem_of_filter)%list_elem_of_fmap]%list_elem_of_filter. done.
Qed.

(** The groups of a build are well formed: their identifiers are distinct,
    as are the identifiers of all their members; a group is its seed, which is
    no variant and gives the group its seed identifier, followed by variants
    that name that seed; and the concurrency keys of the group are, without
    repetition, those of its members. *)
Theorem episode_groups_wf copied arm epoch fatal units :
  build copied arm epoch fatal = Ok units →
  NoDup (execution_group_id <$> groups_of units) ∧
  NoDup (id_of <$> (groups_of units ≫= group_items)) ∧
  ∀ g, g ∈ groups_of units →
    is_variant (group_seed g) = false ∧ group_seed_item_id g = id_of (group_seed g) ∧
    (∃ vars, group_items g = group_seed g :: vars ∧
       Forall (λ v, is_variant v = true ∧ ref_of v = group_seed_item_id g) vars) ∧
    NoDup (concurrency_keys g) ∧
    ∀ k, k ∈ concurrency_keys g ↔
      ∃ x, x ∈ group_items g ∧ k ∈ item_concurrency_keys str_of x.
Proof.
  intros Hb. destruct (build_spec copied arm epoch) as (vs & Hs & Hf & Ht).
  assert (units = make_units str_of arm epoch 0 vs (imap pair copied)) as ->.
  { destruct fatal; [rewrite Ht in Hb; by destruct (head _); simplify_eq|congruence]. }
  split_and!.
  - by apply make_units_ids.
  - rewrite make_units_group_items, grouped_variants by done. by destruct Hs.
  - intros g (m & seed & Hm & Hin & ->)%make_units_groups.
    split_and!; [|done|by eapply group_members_spec|apply uniq_NoDup|].
    + apply list_elem_of_fmap in Hin as (ix & -> & [[_ ?] _]%list_elem_of_filter). done.
    + intros k. simpl. unfold group_keys. rewrite elem_of_uniq, list_elem_of_bind. naive_solver.
Qed.
End units.


(** * An example *)

Module EpisodeExample.
Definition record (id : string) : items := as_items [("item_id", PStr id); ("family", PStr "f")].

Definition seed : items := record "s".
Definition variant : items :=
  as_items [("item_id", PStr "v"); ("family", PStr "h"); ("is_variant", PBool true);
            ("seed_item_id", PStr " s ")].

Definition text (_ : pyval) : string := "?".

Definition units : res (list execution_unit) :=
  build_episode_execution_units text text [variant; seed; record ""; record "s2"] "arm" 3 false.

Definition shape (u : execution_unit) : string * list string * list string :=
  match u with
  | InvalidUnit item reason => (reason, [item_id_of text item], [])
  | GroupUnit g => (execution_group_id g, item_id_of text <$> group_items g, concurrency_keys g)
  end.

Lemma episode_groups_wf_witness :
  ∃ l, units = Ok l ∧ NoDup (execution_group_id <$> groups_of l) ∧
    shape <$> l = [("arm:epoch-3:group-0001", ["s"; "v"], ["f"; "h"]);
                   ("recoverable episode seed items require a non-empty item_id", [""], []);
                   ("arm:epoch-3:group-0002", ["s2"], ["f"])].
Proof.
  eexists. split; [vm_compute; reflexivity|].
  split; [|vm_compute; reflexivity].
  eapply (episode_groups_wf text text [variant; seed; record ""; record "s2"] "arm" 3 false).
  vm_compute. reflexivity.
Defined.
End EpisodeExample.
