(* ===== verification/EpisodeTheorems.v ===== *)
(** The theorems about the execution of an episode group: the handle is released
    exactly once, after its last suffix, and what each failure policy returns. *)

From stdpp Require Import base strings list sets gmap.
From Stdlib Require Import ZArith Lia.
From S2P Require Import Prelude PyFloat PyValue TraceRuntime ReplayTypes EpisodeRuntime.
From S2P Require Import EpisodeUnits ListLib.

(** [emits m Φ]: [m] appends calls [l] to any history and returns [r], with
    [Φ r l]. *)
Definition emits {A} (m : M ep_history A) (Φ : res A → ep_history → Prop) : Prop :=
  ∀ h, ∃ r l, m h = (r, h ++ l)%list ∧ Φ r l.

Section emits.
Context {A B : Type}.

Lemma emits_ret (a : A) (Φ : res A → ep_history → Prop) : Φ (Ok a) [] → emits (mret a) Φ.
Proof. intros H h. exists (Ok a), []. by rewrite app_nil_r. Qed.

Lemma emits_raise e (Φ : res A → ep_history → Prop) : Φ (Err e) [] → emits (raise e) Φ.
Proof. intros H h. exists (Err e), []. by rewrite app_nil_r. Qed.

Lemma emits_mono (m : M ep_history A) (Φ Ψ : res A → ep_history → Prop) :
  emits m Φ → (∀ r l, Φ r l → Ψ r l) → emits m Ψ.
Proof. intros Hm HΦ h. destruct (Hm h) as (r & l & ? & ?). exists r, l. auto. Qed.

Lemma emits_bind (m : M ep_history A) (f : A → M ep_history B) Φ (Ψ : res B → ep_history → Prop) :
  emits m Φ → (∀ a l, Φ (Ok a) l → emits (f a) (λ r l', Ψ r (l ++ l')%list)) →
  (∀ e l, Φ (Err e) l → Ψ (Err e) l) → emits (m ≫= f) Ψ.
Proof.
  intros Hm Hf He h. destruct (Hm h) as (r & l & Er & HΦ). unfold mbind, M_bind. rewrite Er.
  destruct r as [a|e]; [|by exists (Err e), l; auto].
  destruct (Hf a l HΦ (h ++ l)%list) as (r' & l' & -> & HΨ). exists r', (l ++ l')%list.
  by rewrite (assoc_L (++)%list).
Qed.

Lemma emits_attempt (m : M ep_history A) (Φ : res A → ep_history → Prop) :
  emits m Φ → emits (attempt m) (λ r l, ∃ r', r = Ok r' ∧ Φ r' l).
Proof. intros Hm h. destruct (Hm h) as (r & l & E & ?). exists (Ok r), l. unfold attempt. rewrite E. eauto. Qed.

Lemma emits_lift (r : res A) (Φ : res A → ep_history → Prop) : Φ r [] → emits (lift r) Φ.
Proof. intros H h. exists r, []. by rewrite app_nil_r. Qed.

Lemma emits_call (f : ep_history → A) (o : A → ep_obs) (Φ : res A → ep_history → Prop) :
  (∀ h, Φ (Ok (f h)) [o (f h)]) → emits (ep_call f o) Φ.
Proof. intros H h. exists (Ok (f h)), [o (f h)]. auto. Qed.

Lemma emits_call_bind (f : ep_history → A) (o : A → ep_obs) (k : A → M ep_history B)
    (Ψ : res B → ep_history → Prop) :
  (∀ h, emits (k (f h)) (λ r l, Ψ r (o (f h) :: l))) → emits (ep_call f o ≫= k) Ψ.
Proof.
  intros H. eapply (emits_bind _ _ (λ r l, ∃ h, r = Ok (f h) ∧ l = [o (f h)])).
  - apply emits_call. eauto.
  - intros a l (h & ? & ->). simplify_eq. apply H.
  - by intros e l (h & ? & _).
Qed.
End emits.

(** ** Views of the calls *)

Definition handle_of (o : ep_obs) : list key :=
  match o with EpPrepare _ _ _ (Ok (PreparedMap (Some k) _)) => [k] | _ => [] end.
Definition released_handle (o : ep_obs) : list key :=
  match o with EpRelease k _ _ => [k] | _ => [] end.
Definition executed_handle (o : ep_obs) : list key :=
  match o with EpExecute k _ _ _ => [k] | _ => [] end.
Definition failed_call (o : ep_obs) : option exn :=
  match o with
  | EpPrepare _ _ _ (Err e) | EpLegacy _ _ (Err e) | EpExecute _ _ _ (Err e)
  | EpRelease _ _ (Err e) | EpErrorRecord _ _ (Err e) => Some e
  | _ => None
  end.

(** Calls of the clock and of the error-record factory only. *)
Definition silent (o : ep_obs) : Prop :=
  match o with EpClock _ | EpErrorRecord _ _ _ => True | _ => False end.

Section execution.
Variables (env : EpisodeEnv) (fatal : bool) (ctx : episode_context) (g : episode_group).

(** The exception that a call amounts to, if any: what it raised, or the
    rejection of what it returned. *)
Definition failure (o : ep_obs) : option exn :=
  match o with
  | EpPrepare _ _ _ (Ok p) =>
      if p is PreparedNone then None
      else if check_prepared g p is Err e then Some e else None
  | EpExecute _ item _ (Ok v) | EpLegacy item _ (Ok v) =>
      if normalize_item_record v item is Err e then Some e else None
  | _ => failed_call o
  end.

Definition executes (o : ep_obs) : bool :=
  match o with EpExecute _ _ _ _ | EpLegacy _ _ _ => true | _ => false end.

(** Nothing is executed after a failure. *)
Definition halts (l : ep_history) : Prop :=
  ∀ l1 o l2, l = (l1 ++ o :: l2)%list → is_Some (failure o) → Forall (λ o, executes o = false) l2.

(** The factory of error records returns. *)
Definition factory_total : Prop :=
  ∀ h item e d, is_ok (error_record_factory env h item e d) = true.

(** The record of a group carries its lineage. *)
Definition in_group (kind : string) (reused : bool) (record : items) : Prop :=
  pget "record_kind" record = PStr kind ∧
  pget "execution_group_id" record = PStr (execution_group_id g) ∧
  pget "seed_item_id" record = PStr (group_seed_item_id g) ∧
  pget "prefix_reused" record = PBool reused.

(** A record that an execution of [item] returned keeps the item's identity. *)
Definition names_item (item record : items) : Prop :=
  pget "item_id" record = pget "item_id" item ∧ pget "family" record = pget "family" item ∧
  pget "is_variant" record = PBool (is_variant item).

Lemma annotate_in_group kind reused c record :
  in_group kind reused (annotate g kind reused c record).
Proof.
  unfold in_group, annotate, annotate_group_record.
  destruct c; split_and!; rewrite ?pget_ppop, ?pget_pset; done.
Qed.

Lemma annotate_names kind reused c item record :
  names_item item record → names_item item (annotate g kind reused c record).
Proof.
  unfold names_item, annotate, annotate_group_record. intros (? & ? & ?).
  destruct c; split_and!; rewrite ?pget_ppop, ?pget_pset; done.
Qed.

Lemma normalize_names v item d : normalize_item_record v item = Ok d → names_item item d.
Proof.
  unfold normalize_item_record, names_item. intros H. destruct v as [| | | | | |fz r| |]; try done.
  injection H as <-. destruct (is_variant item); [case_match|];
    split_and!; rewrite ?pget_ppop, ?pget_pset; done.
Qed.

(** The answer to an item: an annotated record of its execution, which names
    the item unless the execution failed. *)
Definition suffix_answer (k : key) (l : ep_history) (item record : items) : Prop :=
  in_group RECORD_KIND_EPISODE_SUFFIX (shares_prefix g) record ∧
  ∃ o r, o = EpExecute k item (group_ctx ctx g) r ∧ o ∈ l ∧
    (failure o = None → names_item item record).

Definition legacy_answer (l : ep_history) (item record : items) : Prop :=
  pget "record_kind" record = PStr RECORD_KIND_STANDALONE ∧
  pget "episode_fallback" record = PStr "prepare_returned_none" ∧
  ∃ o r, o = EpLegacy item (legacy_ctx ctx) r ∧ o ∈ l ∧ (failure o = None → names_item item record).

Lemma failure_record_spec item e t :
  emits (failure_record env item e t)
    (λ r l, Forall silent l ∧ (factory_total → ∃ d, r = Ok d)).
Proof.
  unfold failure_record, ep_elapsed_minutes, ep_now, error_record.
  eapply (emits_bind _ _ (λ r l, (∃ x, r = Ok x) ∧ Forall silent l)).
  - apply emits_call_bind. intros h. apply emits_ret. split; [eauto|by repeat constructor].
  - intros d l [_ Hl]. apply emits_call_bind. intros h. apply emits_lift.
    split; [apply Forall_app; split; [done|by repeat constructor]|].
    intros Hf. specialize (Hf h item e d). destruct (error_record_factory env h item e d); [eauto|done].
  - by intros e' l [[? ?] _].
Qed.

Lemma silent_quiet o :
  silent o → handle_of o = [] ∧ released_handle o = [] ∧ executed_handle o = [] ∧ executes o = false.
Proof. by destruct o. Qed.

Definition suffix_call (k : key) (o : ep_obs) : Prop :=
  silent o ∨ ∃ item x, o = EpExecute k item (group_ctx ctx g) x.

(** What the loop over the suffixes does with handle [k]. *)
Record suffixes_post (k : key) (todo : list items) (r : res (list items * option exn))
    (l : ep_history) : Prop := {
  sp_calls : Forall (suffix_call k) l;
  sp_record : fatal = false → factory_total →
    ∃ rs, r = Ok (rs, None) ∧ Forall2 (suffix_answer k l) todo rs;
  sp_fatal : fatal = true →
    ∃ rs f, r = Ok (rs, f) ∧ head (omap failure l) = f ∧ halts l ∧
      (f = None → Forall2 (suffix_answer k l) todo rs)
}.

Lemma suffix_answer_mono k l l' todo rs :
  l ⊆ l' → Forall2 (suffix_answer k l) todo rs → Forall2 (suffix_answer k l') todo rs.
Proof.
  intros Hl H. eapply Forall2_impl; [done|]. intros item rec (? & o & r & ? & ? & ?). split; [done|].
  exists o, r. split_and!; [done|by apply Hl|done].
Qed.

Lemma halts_cons o l : failure o = None → halts l → halts (o :: l).
Proof.
  intros Ho Hl l1 o' l2 E [e He]. destruct l1 as [|o1 l1]; simplify_eq/=. eapply Hl; eauto.
Qed.

Lemma suffix_calls_step k t item x lf l :
  Forall silent lf → Forall (suffix_call k) l →
  Forall (suffix_call k) (EpClock t :: EpExecute k item (group_ctx ctx g) x :: lf ++ l)%list.
Proof.
  intros Hlf Hl. apply Forall_cons. split; [by left|]. apply Forall_cons.
  split; [right; by eexists _, _|]. apply Forall_app. split; [|done].
  eapply Forall_impl; [done|]. by left.
Qed.

Lemma suffix_answered k l t item x c d lf :
  (failure (EpExecute k item (group_ctx ctx g) x) = None → names_item item d) →
  suffix_answer k (EpClock t :: EpExecute k item (group_ctx ctx g) x :: lf ++ l)%list item
    (annotate g RECORD_KIND_EPISODE_SUFFIX (shares_prefix g) c d).
Proof.
  intros Hd. split; [apply annotate_in_group|]. eexists _, x. split_and!; [done|set_solver|].
  intros H. by apply annotate_names, Hd.
Qed.

Lemma suffixes_step k todo l t item x c d lf rest :
  let o := EpExecute k item (group_ctx ctx g) x in
  (failure o = None → names_item item d) → Forall silent lf →
  suffixes_post k todo (Ok rest) l → (fatal = true → failure o = None ∧ lf = []) →
  suffixes_post k (item :: todo)
    (Ok (annotate g RECORD_KIND_EPISODE_SUFFIX (shares_prefix g) c d :: rest.1, rest.2))
    (EpClock t :: o :: lf ++ l)%list.
Proof.
  intros o Hd Hlf [Hc Hr Hf] Hfatal. destruct rest as [rs f]. simpl.
  pose proof (suffix_answered k l t item x c d lf Hd) as Ha. fold o in Ha.
  assert (l ⊆ (EpClock t :: o :: (lf ++ l))%list) as Hl by set_solver. split.
  - by apply suffix_calls_step.
  - intros H1 H2. destruct (Hr H1 H2) as (rs' & ? & ?). simplify_eq. eexists. split; [done|].
    constructor; [done|]. by eapply suffix_answer_mono.
  - intros H1. destruct (Hf H1) as (rs' & f' & ? & Hhead & Hh & Hrs), (Hfatal H1) as [Hno ->].
    simplify_eq. eexists _, _. split; [done|]. split_and!.
    + cbn [app omap list_omap]. by rewrite Hno.
    + apply halts_cons; [done|]. by apply halts_cons.
    + intros H. constructor; [done|]. eapply suffix_answer_mono; [done|]. by apply Hrs.
Qed.

Lemma suffixes_raise k todo l t item x lf e :
  Forall silent lf → suffixes_post k todo (Err e) l →
  suffixes_post k (item :: todo) (Err e)
    (EpClock t :: EpExecute k item (group_ctx ctx g) x :: lf ++ l)%list.
Proof.
  intros Hlf [Hc Hr Hf]. split.
  - by apply suffix_calls_step.
  - intros H1 H2. by destruct (Hr H1 H2) as (? & ? & _).
  - intros H1. by destruct (Hf H1) as (? & ? & ? & _).
Qed.

Lemma execute_failure k item x :
  failure (EpExecute k item (group_ctx ctx g) x) =
  match x ≫= λ v, normalize_item_record v item with Err e => Some e | Ok _ => None end.
Proof. simpl. destruct x as [v|e]; [|done]. simpl. by destruct (normalize_item_record v item). Qed.

Lemma halts_end o : halts [o].
Proof. intros l1 o' l2 E _. destruct l1 as [|? [|??]]; by simplify_eq/=. Qed.

Lemma run_suffixes_spec k c todo :
  emits (run_suffixes env fatal ctx g k c todo) (suffixes_post k todo).
Proof.
  induction todo as [|item todo IH]; simpl.
  { apply emits_ret. split; [done|eauto|]. intros _. exists [], None. split_and!; try done.
    intros l1 o l2 H. by destruct l1. }
  unfold ep_now. apply emits_call_bind. intros h. apply emits_call_bind. intros h'.
  set (x := execute_episode env h' k item _). pose proof (execute_failure k item x) as Ho.
  destruct (x ≫= λ v, normalize_item_record v item) as [d|e] eqn:Ex.
  - eapply emits_bind; [apply IH| |].
    + intros rest l Hl. apply emits_ret. rewrite app_nil_r.
      apply (suffixes_step k todo l _ item x c d []); try done. intros _.
      destruct x; [|done]. simpl in Ex. by eapply normalize_names.
    + intros e l Hl. by apply (suffixes_raise k todo l _ item x []).
  - destruct fatal eqn:Ef.
    + apply emits_ret. split; [by apply (suffix_calls_step _ _ _ _ [] [])|congruence|].
      intros _. eexists _, _. split; [done|]. split_and!; [| |done].
      * cbv [omap list_omap]. by rewrite Ho.
      * apply halts_cons; [done|]. apply halts_end.
    + rewrite <- Ef in *. eapply emits_bind; [apply failure_record_spec| |].
      * intros d lf [Hlf Ht]. eapply emits_bind; [apply IH| |].
        -- intros rest l Hl. apply emits_ret. rewrite app_nil_r.
           apply suffixes_step; rewrite ?Ho; try done; congruence.
        -- intros e' l Hl. by apply suffixes_raise.
      * intros e' lf [Hlf Ht]. split; [|intros _ H; by destruct (Ht H)|congruence].
        rewrite <- (app_nil_r lf). by apply suffix_calls_step.
Qed.

Lemma halts_app l l' : halts l → Forall (λ o, executes o = false) l' → halts (l ++ l')%list.
Proof.
  intros Hl Hl' l1 o l2 E Ho. apply app_eq_inv in E as [(k & E1 & E2)|(k & E1 & E2)].
  - destruct k as [|o' k]; simplify_eq/=.
    + by apply Forall_cons in Hl' as [_ ?].
    + apply Forall_app. split; [by eapply Hl|done].
  - subst. apply Forall_app in Hl' as [_ Hl']. by apply Forall_cons in Hl' as [_ ?].
Qed.

Lemma silent_idle l : Forall silent l → Forall (λ o, executes o = false) l.
Proof. intros H. eapply Forall_impl; [done|]. by intros [] ?. Qed.

(** The outcome of a release that answered [x] after the fatal error [fe]. *)
Definition finished (x : res unit) (fe : option exn) (r : res (option items)) (lf : ep_history)
  : Prop :=
  match x, fe with
  | Ok _, _ => r = Ok None ∧ lf = []
  | Err e, Some f => r = Err (raise_from f e) ∧ lf = []
  | Err e, None => if fatal then r = Err e ∧ lf = [] else factory_total → ∃ d, r = Ok (Some d)
  end.

Lemma finish_group_spec k fe :
  emits (finish_group env fatal ctx g k fe) (λ r l, ∃ t x lf,
    l = EpClock t :: EpRelease k (group_ctx ctx g) x :: lf ∧ Forall silent lf ∧ finished x fe r lf).
Proof.
  unfold finished, finish_group, ep_now, release_handle. apply emits_call_bind. intros h.
  apply emits_call_bind. intros h'. destruct (release_episode_group env h' k _) as [u|e] eqn:Ex.
  { apply emits_ret. eexists _, (Ok u), []. done. }
  destruct fe as [f|]; [apply emits_raise; eexists _, (Err e), []; done|].
  destruct fatal; [apply emits_raise; eexists _, (Err e), []; done|].
  eapply emits_bind; [apply failure_record_spec| |].
  - intros d lf [Hlf Ht]. apply emits_ret. rewrite app_nil_r.
    eexists _, (Err e), lf. split_and!; eauto.
  - intros e' lf [Hlf Ht]. eexists _, (Err e), lf. split_and!; [done..|]. intros H. by destruct (Ht H).
Qed.

(** The reports of a group. *)
Inductive group_report (l : ep_history) : list items → Prop :=
| report_failed record :
    is_Some (head (omap failure l)) → in_group RECORD_KIND_SHARED_PREFIX false record →
    group_report l [record]
| report_legacy records seed its c :
    EpPrepare seed its c (Ok PreparedNone) ∈ l →
    Forall2 (legacy_answer l) (group_items g) records → group_report l records
| report_run k prefix records :
    k ∈ (l ≫= handle_of) → in_group RECORD_KIND_SHARED_PREFIX (shares_prefix g) prefix →
    Forall2 (suffix_answer k l) (group_items g) records → group_report l (prefix :: records).

Definition same_error (e' e : exn) : Prop := e' = e ∨ ∃ c, e' = raise_from e c.

(** What the calls on the handle of a group establish. *)
Record handle_post (l : ep_history) : Prop := {
  hp_released : l ≫= released_handle = l ≫= handle_of;
  hp_executed : ∀ k, k ∈ (l ≫= executed_handle) → k ∈ (l ≫= handle_of);
  hp_last : ∀ l1 k c x l2, l = (l1 ++ EpRelease k c x :: l2)%list →
    Forall (λ o, executes o = false) l2
}.

Record group_post (r : res (list items)) (l : ep_history) : Prop := {
  gp_handle : handle_post l;
  gp_record : fatal = false → factory_total → ∃ rs, r = Ok rs ∧ group_report l rs;
  gp_fatal : fatal = true → factory_total → halts l ∧
    match head (omap failure l) with
    | None => ∃ rs, r = Ok rs ∧ group_report l rs
    | Some e => ∃ e', r = Err e' ∧ same_error e' e
    end
}.

Lemma attach_in_group kind reused rec e stage :
  in_group kind reused rec →
  in_group kind reused (pset "episode_stage" stage (attach_release_error rec e)).
Proof.
  unfold in_group, attach_release_error. intros (? & ? & ? & ?).
  split_and!; rewrite !pget_pset_ne by done; done.
Qed.

(** Views of calls that neither open nor release a handle. *)
Lemma silent_views l :
  Forall silent l → l ≫= handle_of = [] ∧ l ≫= released_handle = [] ∧ l ≫= executed_handle = [].
Proof.
  intros H. split_and!; apply bind_nil; eapply Forall_impl; try done;
    intros o Ho; by destruct (silent_quiet o Ho) as (? & ? & ? & ?).
Qed.

Lemma suffix_views k l :
  Forall (suffix_call k) l →
  l ≫= handle_of = [] ∧ l ≫= released_handle = [] ∧ ∀ k', k' ∈ (l ≫= executed_handle) → k' = k.
Proof.
  intros H. split_and!; [apply bind_nil; eapply Forall_impl; try done..|].
  - by intros o [(? & ? & ? & ?)%silent_quiet|(? & ? & ->)].
  - by intros o [(? & ? & ? & ?)%silent_quiet|(? & ? & ->)].
  - intros k' (o & Ho & Hin)%list_elem_of_bind. rewrite Forall_forall in H.
    destruct (H o Hin) as [(_ & _ & E & _)%silent_quiet|(? & ? & ->)];
      [|by apply list_elem_of_singleton in Ho]. rewrite E in Ho. by apply elem_of_nil in Ho.
Qed.

Lemma handle_post_none l :
  Forall (λ o, handle_of o = [] ∧ released_handle o = [] ∧ executed_handle o = []) l →
  handle_post l.
Proof.
  intros H. split.
  - by rewrite !bind_nil by (eapply Forall_impl; [done|]; by intros ? (? & ? & ?)).
  - intros k. rewrite (bind_nil executed_handle) by (eapply Forall_impl; [done|]; by intros ? (? & ? & ?)).
    by intros ?%elem_of_nil.
  - intros l1 k c x l2 ->. apply Forall_app in H as [_ H].
    apply Forall_cons in H as [(_ & ? & _) _]. done.
Qed.

Lemma handle_post_some k t seed its c f l t' c' x lf :
  Forall (suffix_call k) l → Forall silent lf →
  handle_post (EpClock t :: EpPrepare seed its c (Ok (PreparedMap (Some k) f)) ::
               (l ++ EpClock t' :: EpRelease k c' x :: lf))%list.
Proof.
  intros Hl Hlf. destruct (suffix_views k l Hl) as (H1 & H2 & H3), (silent_views lf Hlf) as (H4 & H5 & H6).
  split.
  - rewrite !bind_cons, !bind_app, !bind_cons, H1, H2, H4, H5. done.
  - intros k'. rewrite !bind_cons, !bind_app, !bind_cons, H1, H4, H6. simpl. rewrite app_nil_r.
    intros ->%H3. by left.
  - intros l1 k1 c1 x1 l2 E.
    assert (∀ o, o ∈ (EpClock t :: EpPrepare seed its c (Ok (PreparedMap (Some k) f)) :: l)%list →
      released_handle o = []) as Hno.
    { intros o [->|[->|Ho]%elem_of_cons]%elem_of_cons; [done..|]. rewrite Forall_forall in Hl.
      destruct (Hl o Ho) as [?%silent_quiet|(? & ? & ->)]; [tauto|done]. }
    rewrite !app_comm_cons in E. apply app_eq_inv in E as [(q & E1 & E2)|(q & E1 & E2)].
    + destruct q as [|o q]; [by simplify_eq/=|]. simplify_eq. exfalso.
      assert (released_handle (EpRelease k1 c1 x1) = []) by (apply Hno; rewrite E1; set_solver). done.
    + destruct q as [|o q]; [by simplify_eq/=|]. destruct q as [|o' q]; simplify_eq/=.
      * by apply silent_idle.
      * apply Forall_app in Hlf as [_ Hlf]. by apply Forall_cons in Hlf as [[] _].
Qed.

(** ** Groups that never execute on a handle *)

Definition failed_report (r : res (list items)) : Prop :=
  ∃ rec, r = Ok [rec] ∧ in_group RECORD_KIND_SHARED_PREFIX false rec.

Lemma prepare_failed_spec t e rel :
  emits (prepare_failed env g t e rel)
    (λ r l, Forall silent l ∧ (factory_total → failed_report r)).
Proof.
  unfold prepare_failed. eapply emits_bind; [apply failure_record_spec| |].
  - intros d l [Hl _]. apply emits_ret. rewrite app_nil_r. split; [done|].
    intros _. eexists. split; [done|apply annotate_in_group].
  - intros e' l [Hl Ht]. split; [done|]. intros H. by destruct (Ht H).
Qed.

Definition released_once (p : prepared) (l : ep_history) : Prop :=
  match prepared_handle p with
  | None => Forall silent l
  | Some k => ∃ t x lf, l = EpClock t :: EpRelease k (group_ctx ctx g) x :: lf ∧ Forall silent lf
  end.

Lemma released_once_app p l l' :
  released_once p l → Forall silent l' → released_once p (l ++ l')%list.
Proof.
  unfold released_once. destruct (prepared_handle p); [|by intros; apply Forall_app].
  intros (t & x & lf & -> & ?) ?. eexists t, x, _. split; [done|]. by apply Forall_app.
Qed.

Lemma reject_prepared_spec t p e :
  emits (reject_prepared env fatal ctx g t p e)
    (λ r l, released_once p l ∧
      (factory_total → if fatal then ∃ e', r = Err e' ∧ same_error e' e else failed_report r)).
Proof.
  unfold reject_prepared.
  eapply (emits_bind _ _ (λ r l, released_once p l ∧ (factory_total → ∃ c, r = Ok c))).
  - unfold released_once. destruct (prepared_handle p) as [k|]; [|apply emits_ret; eauto].
    unfold ep_now, release_handle. apply emits_call_bind. intros h. apply emits_call_bind. intros h'.
    destruct (release_episode_group env h' k _) as [u|c] eqn:Ex; [apply emits_ret; eauto 10|].
    eapply emits_bind; [apply failure_record_spec| |].
    + intros d l [Hl _]. apply emits_ret. rewrite app_nil_r. eauto 10.
    + intros e' l [Hl Ht]. split; [eauto 10|]. intros H. by destruct (Ht H).
  - intros c l [Hl _]. destruct fatal.
    + apply emits_raise. rewrite app_nil_r. split; [done|]. intros _.
      eexists. split; [done|]. destruct c as [[c d]|]; [right; eauto|by left].
    + eapply emits_mono; [apply prepare_failed_spec|]. intros r l' [Hl' ?].
      split; [by apply released_once_app|done].
  - intros e' l [Hl Ht]. split; [done|]. intros H. by destruct (Ht H).
Qed.

(** Calls that involve no handle. *)
Definition no_handle (o : ep_obs) : Prop :=
  handle_of o = [] ∧ released_handle o = [] ∧ executed_handle o = [].

Lemma silent_no_handle l : Forall silent l → Forall no_handle l.
Proof. intros H. eapply Forall_impl; [done|]. by intros o (? & ? & ? & ?)%silent_quiet. Qed.

Record legacy_post (todo : list items) (r : res (list items)) (l : ep_history) : Prop := {
  lp_calls : Forall no_handle l;
  lp_record : fatal = false → factory_total → ∃ rs, r = Ok rs ∧ Forall2 (legacy_answer l) todo rs;
  lp_fatal : fatal = true → halts l ∧
    match head (omap failure l) with
    | None => ∃ rs, r = Ok rs ∧ Forall2 (legacy_answer l) todo rs
    | Some e => r = Err e
    end
}.

Lemma legacy_answer_mono l l' todo rs :
  l ⊆ l' → Forall2 (legacy_answer l) todo rs → Forall2 (legacy_answer l') todo rs.
Proof.
  intros Hl H. eapply Forall2_impl; [done|]. intros item rec (? & ? & o & r & ? & ? & ?).
  split_and!; [done..|]. exists o, r. split_and!; [done|by apply Hl|done].
Qed.

Lemma legacy_step item d t x lf l :
  let o := EpLegacy item (legacy_ctx ctx) x in
  (failure o = None → names_item item d) →
  legacy_answer (EpClock t :: o :: lf ++ l)%list item
    (pset "episode_fallback" (PStr "prepare_returned_none") (standalone_record d)).
Proof.
  intros o Hd. unfold standalone_record. split_and!; [rewrite !pget_pset; done..|].
  exists o, x. split_and!; [done|set_solver|]. intros (? & ? & ?)%Hd.
  unfold names_item. rewrite !pget_pset, !pget_ppop. done.
Qed.

(** One legacy item. *)
Lemma legacy_item_spec item :
  emits (legacy_item env fatal (legacy_ctx ctx) item)
    (λ r l, ∃ t x lf, let o := EpLegacy item (legacy_ctx ctx) x in
      l = (EpClock t :: o :: lf)%list ∧ Forall silent lf ∧
      (fatal = true ∨ factory_total →
       match r with
       | Ok rec => (∀ l', legacy_answer (EpClock t :: o :: lf ++ l')%list item rec) ∧
                   (fatal = true → failure o = None ∧ lf = [])
       | Err e => fatal = true ∧ failure o = Some e ∧ lf = []
       end)).
Proof.
  unfold legacy_item, ep_now. apply emits_call_bind. intros h. apply emits_call_bind. intros h'.
  set (x := legacy_execute env h' item _).
  assert (failure (EpLegacy item (legacy_ctx ctx) x) =
    match x ≫= λ v, normalize_item_record v item with Err e => Some e | Ok _ => None end) as Ho.
  { simpl. destruct x as [v|e]; [|done]. simpl. by destruct (normalize_item_record v item). }
  destruct (x ≫= λ v, normalize_item_record v item) as [d|e] eqn:Ex.
  - apply emits_ret. eexists _, x, []. split_and!; [done..|]. intros _. split; [|done].
    intros l'. apply legacy_step. intros _. destruct x as [v|]; [|done]. by eapply normalize_names.
  - destruct fatal.
    + apply emits_raise. eexists _, x, []. split_and!; done.
    + eapply (emits_bind _ _ (λ r l, Forall silent l ∧ (factory_total → ∃ d, r = Ok d))).
      * eapply emits_bind; [apply failure_record_spec| |].
        -- intros d l [Hl _]. apply emits_ret. rewrite app_nil_r. eauto.
        -- intros e' l [Hl Ht]. split; [done|]. intros H. by destruct (Ht H).
      * intros d lf [Hlf _]. apply emits_ret. rewrite app_nil_r. eexists _, x, lf.
        split_and!; [done..|]. intros _. split; [|done]. intros l'. apply legacy_step. congruence.
      * intros e' lf [Hlf Ht]. eexists _, x, lf. split_and!; [done..|]. intros [?|H]; [done|].
        by destruct (Ht H).
Qed.

Lemma legacy_calls item x t lf l :
  Forall silent lf → Forall no_handle l →
  Forall no_handle (EpClock t :: EpLegacy item (legacy_ctx ctx) x :: lf ++ l)%list.
Proof.
  intros. apply Forall_cons. split; [done|]. apply Forall_cons. split; [done|].
  apply Forall_app. split; [by apply silent_no_handle|done].
Qed.

Lemma legacy_post_cons item todo t x lf rec r l :
  let o := EpLegacy item (legacy_ctx ctx) x in
  Forall silent lf →
  (fatal = true ∨ factory_total →
   (∀ l', legacy_answer (EpClock t :: o :: lf ++ l')%list item rec) ∧
   (fatal = true → failure o = None ∧ lf = [])) →
  legacy_post todo r l →
  legacy_post (item :: todo) (rs ← r; Ok (rec :: rs)) (EpClock t :: o :: lf ++ l)%list.
Proof.
  intros o Hlf Ho [Hc Hr Hf].
  assert (l ⊆ (EpClock t :: o :: lf ++ l)%list) as Hl by set_solver. split.
  - by apply legacy_calls.
  - intros H1 H2. destruct (Ho (or_intror H2)) as [Ha _], (Hr H1 H2) as (rs & -> & Hrs).
    eexists. split; [done|]. constructor; [done|]. by eapply legacy_answer_mono.
  - intros H1. destruct (Ho (or_introl H1)) as [Ha Hn], (Hf H1) as [Hh Hm], (Hn H1) as [Hno ->].
    split; [by repeat apply halts_cons|]. cbn [app omap list_omap]. rewrite Hno.
    change (failure (EpClock t)) with (@None exn). cbv iota.
    change (list_omap ?f ?l) with (omap f l).
    destruct (head _) as [e|]; [by rewrite Hm|]. destruct Hm as (rs & -> & Hrs).
    eexists. split; [done|]. constructor; [apply (Ha l)|]. by eapply legacy_answer_mono.
Qed.

Lemma legacy_items_spec todo :
  emits (mmap (legacy_item env fatal (legacy_ctx ctx)) todo) (legacy_post todo).
Proof.
  induction todo as [|item todo IH]; simpl.
  { apply emits_ret. split; [done|eauto|]. intros _. split; [|by eexists].
    intros l1 o l2 H. by destruct l1. }
  eapply emits_bind; [apply legacy_item_spec| |].
  - intros rec l1 (t & x & lf & -> & Hlf & Hr). eapply emits_bind; [apply IH| |].
    + intros rs l2 Hp. apply emits_ret. rewrite app_nil_r. by apply (legacy_post_cons _ _ _ _ _ _ (Ok rs)).
    + intros e l2 Hp. by apply (legacy_post_cons _ _ _ _ _ rec (Err e)).
  - intros e l (t & x & lf & -> & Hlf & Hr). split.
    + rewrite <- (app_nil_r lf). by apply legacy_calls.
    + intros H1 H2. destruct Hr as [H _]; [by right|congruence].
    + intros H1. destruct Hr as (_ & Hno & ->); [by left|].
      split; [apply halts_cons; [done|apply halts_end]|]. cbn [omap list_omap]. by rewrite Hno.
Qed.

(** ** A group *)

Lemma head_failure l1 l2 :
  head (omap failure (l1 ++ l2)%list) =
  match head (omap failure l1) with Some e => Some e | None => head (omap failure l2) end.
Proof. rewrite omap_app. by destruct (omap failure l1). Qed.

Lemma halts_release l1 t k c x lf :
  halts l1 → Forall silent lf → halts (l1 ++ EpClock t :: EpRelease k c x :: lf)%list.
Proof.
  intros. apply halts_app; [done|]. apply Forall_cons. split; [done|]. apply Forall_cons.
  split; [done|]. by apply silent_idle.
Qed.

Definition run_post (k : key) (r : res (list items)) (l1 l : ep_history) : Prop :=
  (fatal = false → factory_total → ∃ p rs, r = Ok (p :: rs) ∧
    in_group RECORD_KIND_SHARED_PREFIX (shares_prefix g) p ∧
    Forall2 (suffix_answer k l1) (group_items g) rs) ∧
  (fatal = true → halts l ∧
    match head (omap failure l) with
    | None => ∃ p rs, r = Ok (p :: rs) ∧ in_group RECORD_KIND_SHARED_PREFIX (shares_prefix g) p ∧
                      Forall2 (suffix_answer k l1) (group_items g) rs
    | Some e => ∃ e', r = Err e' ∧ same_error e' e
    end).

Lemma release_error_in_group prefix (rel : option items) :
  in_group RECORD_KIND_SHARED_PREFIX (shares_prefix g) prefix →
  in_group RECORD_KIND_SHARED_PREFIX (shares_prefix g)
    (match rel with
     | Some e => pset "episode_stage" (PStr "release") (attach_release_error prefix e)
     | None => prefix
     end).
Proof. intros H. destruct rel; [by apply attach_in_group|done]. Qed.

Definition fatal_error (r : res (list items * option exn)) : option exn :=
  match r with Ok (_, f) => f | Err _ => None end.

(** What a group answers, from the outcome of its suffixes and of its release. *)
Definition run_result (prefix : items) (r : res (list items * option exn)) (rf : res (option items))
  : res (list items) :=
  rel ← rf;
  match r with
  | Err e => Err e
  | Ok (_, Some f) => Err f
  | Ok (rs, None) =>
      Ok ((match rel with
           | Some e => pset "episode_stage" (PStr "release") (attach_release_error prefix e)
           | None => prefix
           end) :: rs)
  end.

Lemma run_settles k prefix r rf l1 t c x lf :
  in_group RECORD_KIND_SHARED_PREFIX (shares_prefix g) prefix →
  suffixes_post k (group_items g) r l1 → Forall silent lf → finished x (fatal_error r) rf lf →
  run_post k (run_result prefix r rf) l1 (l1 ++ EpClock t :: EpRelease k c x :: lf)%list.
Proof.
  intros Hp [_ Hrec Hf] Hlf Hx. unfold finished in Hx.
  pose proof (release_error_in_group prefix) as Hg. split.
  - intros H1 H2. destruct (Hrec H1 H2) as (rs & -> & Hrs). simpl in *. rewrite H1 in Hx.
    destruct x as [u|e]; [destruct Hx as [-> _]|destruct (Hx H2) as [d ->]].
    + simpl. eauto 10.
    + simpl. eexists _, _. split_and!; [done|by apply (Hg (Some d))|done].
  - intros H1. destruct (Hf H1) as (rs & f & -> & Hhead & Hh & Hrs).
    split; [by apply halts_release|]. rewrite head_failure, Hhead. simpl in Hx. rewrite H1 in Hx.
    destruct f as [f|].
    + destruct x as [u|e]; destruct Hx as [-> _]; simpl; eexists; (split; [done|]);
        [by left|right; eauto].
    + destruct x as [u|e]; destruct Hx as [-> ->]; simpl.
      * eauto 10.
      * eexists. split; [done|]. by left.
Qed.

Lemma execute_prepared_spec k prefix c :
  in_group RECORD_KIND_SHARED_PREFIX (shares_prefix g) prefix →
  emits (execute_prepared env fatal ctx g k prefix c)
    (λ r l, ∃ l1 t x lf, l = (l1 ++ EpClock t :: EpRelease k (group_ctx ctx g) x :: lf)%list ∧
      Forall (suffix_call k) l1 ∧ Forall silent lf ∧ run_post k r l1 l).
Proof.
  intros Hp. unfold execute_prepared.
  eapply emits_bind; [apply emits_attempt, run_suffixes_spec| |by intros ? ? (? & ? & _)].
  intros r0 l1 (r' & ? & Hsp). simplify_eq. pose proof (sp_calls _ _ _ _ Hsp) as Hc.
  change (match r' with Ok (_, f) => f | Err _ => None end) with (fatal_error r').
  eapply emits_bind; [apply finish_group_spec| |].
  - intros rel l2 (t & x & lf & -> & Hlf & Hx).
    pose proof (run_settles _ _ _ _ _ t (group_ctx ctx g) _ _ Hp Hsp Hlf Hx) as Hpost.
    destruct r' as [[rs [f|]]|e]; [apply emits_raise|apply emits_ret|apply emits_raise];
      rewrite app_nil_r; eauto 10.
  - intros e l2 (t & x & lf & -> & Hlf & Hx).
    pose proof (run_settles _ _ _ _ _ t (group_ctx ctx g) _ _ Hp Hsp Hlf Hx). eauto 10.
Qed.

Lemma check_prepared_spec p k prefix c :
  check_prepared g p = Ok (k, prefix, c) →
  (∃ f, p = PreparedMap (Some k) f) ∧ in_group RECORD_KIND_SHARED_PREFIX (shares_prefix g) prefix.
Proof.
  unfold check_prepared. destruct p as [| |[k'|] f]; try done.
  destruct (pget "prefix_record" f); try done. destruct (pget "checkpoint_ref" f); try done;
    intros H; simpl in H; injection H as <- <- <-; (split; [eauto|]);
    first [apply (annotate_in_group _ (shares_prefix g) None)
          |apply (annotate_in_group _ (shares_prefix g) (Some _))].
Qed.

Notation prepare_call r := (EpPrepare (group_seed g) (group_items g) (group_ctx ctx g) r).

(** A group whose preparation is rejected. *)
Lemma group_post_failed t x e r l :
  failure (prepare_call x) = Some e →
  handle_post (EpClock t :: prepare_call x :: l)%list → Forall (λ o, executes o = false) l →
  (factory_total → if fatal then ∃ e', r = Err e' ∧ same_error e' e else failed_report r) →
  group_post r (EpClock t :: prepare_call x :: l)%list.
Proof.
  intros Hx Hh Hl Hr.
  assert (head (omap failure (EpClock t :: prepare_call x :: l)%list) = Some e) as Hhead.
  { cbn [omap list_omap]. by rewrite Hx. }
  split; [done|intros Hf Ht|intros Hf Ht]; specialize (Hr Ht); rewrite Hf in Hr.
  - destruct Hr as (rec & -> & ?). eexists. split; [done|]. by apply report_failed; [rewrite Hhead|].
  - split; [|by rewrite Hhead]. apply halts_cons; [done|].
    apply (halts_app [_] l); [apply halts_end|done].
Qed.

Lemma group_post_legacy t r l :
  legacy_post (group_items g) r l →
  group_post r (EpClock t :: prepare_call (Ok PreparedNone) :: l)%list.
Proof.
  intros [Hc Hr Hf].
  assert (l ⊆ (EpClock t :: prepare_call (Ok PreparedNone) :: l)%list) as Hl by set_solver.
  assert (∀ rs, Forall2 (legacy_answer l) (group_items g) rs →
    group_report (EpClock t :: prepare_call (Ok PreparedNone) :: l)%list rs) as Hrep.
  { intros rs Hrs. eapply report_legacy; [right; left|]. by eapply legacy_answer_mono. }
  split.
  - apply handle_post_none. by repeat (apply Forall_cons; split).
  - intros H1 H2. destruct (Hr H1 H2) as (rs & -> & ?). eauto.
  - intros H1 _. destruct (Hf H1) as [Hh Hm]. split; [by repeat apply halts_cons|].
    change (omap failure (EpClock t :: prepare_call (Ok PreparedNone) :: l)%list) with (omap failure l).
    destruct (head _); [exists e; split; [done|by left]|]. destruct Hm as (rs & -> & ?). eauto.
Qed.

Lemma group_post_run k f p prefix c t r l1 t' x lf :
  p = PreparedMap (Some k) f → check_prepared g p = Ok (k, prefix, c) →
  Forall (suffix_call k) l1 → Forall silent lf →
  let l := (l1 ++ EpClock t' :: EpRelease k (group_ctx ctx g) x :: lf)%list in
  run_post k r l1 l → group_post r (EpClock t :: prepare_call (Ok p) :: l)%list.
Proof.
  intros -> Hck Hl1 Hlf l [Hrec Hf].
  set (P := prepare_call (Ok (PreparedMap (Some k) f))).
  assert (failure P = None) as HP by (unfold P, failure; by rewrite Hck).
  assert (∀ q rs, in_group RECORD_KIND_SHARED_PREFIX (shares_prefix g) q →
    Forall2 (suffix_answer k l1) (group_items g) rs →
    group_report (EpClock t :: P :: l)%list (q :: rs)) as Hrep.
  { intros q rs Hq Hrs. eapply report_run; [by left|done|].
    eapply suffix_answer_mono; [|done]. unfold l. set_solver. }
  split.
  - by apply handle_post_some.
  - intros H1 H2. destruct (Hrec H1 H2) as (q & rs & -> & ? & ?). eauto.
  - intros H1 _. destruct (Hf H1) as [Hh Hm]. split; [by repeat apply halts_cons|].
    assert (omap failure (EpClock t :: P :: l)%list = omap failure l) as ->
      by (cbn [omap list_omap]; by rewrite HP).
    destruct (head _); [done|]. destruct Hm as (q & rs & -> & ? & ?). eauto.
Qed.

Lemma released_once_post p t l :
  released_once p l →
  handle_post (EpClock t :: prepare_call (Ok p) :: l)%list ∧ Forall (λ o, executes o = false) l.
Proof.
  unfold released_once. destruct (prepared_handle p) as [k|] eqn:Ep.
  - destruct p as [| |h f]; simplify_eq/=. intros (t' & x & lf & -> & ?). split.
    + by apply (handle_post_some k t _ _ _ f []).
    + by repeat (apply Forall_cons; split; [done|]); apply silent_idle.
  - intros Hl. split; [|by apply silent_idle]. apply handle_post_none.
    apply Forall_cons. split; [done|]. apply Forall_cons. split; [|by apply silent_no_handle].
    by destruct p as [| |[]].
Qed.

Lemma execute_group_spec : emits (execute_group env fatal ctx g) group_post.
Proof.
  unfold execute_group, ep_now. apply emits_call_bind. intros h. apply emits_call_bind. intros h'.
  destruct (prepare_episode_group env h' _ _ _) as [p|e] eqn:Ep.
  2: { assert (∀ l, Forall silent l → handle_post (EpClock (ep_clock env h) :: prepare_call (Err e) :: l)%list).
       { intros l Hl. apply handle_post_none. repeat (apply Forall_cons; split; [done|]).
         by apply silent_no_handle. }
       assert (fatal = true ∨ fatal = false) as [Ef|Ef] by (destruct fatal; auto); rewrite Ef.
       - apply emits_raise. eapply group_post_failed; [done|by auto|done|].
         intros _. rewrite Ef. eexists. split; [done|by left].
       - eapply emits_mono; [apply prepare_failed_spec|]. intros r l [Hl Hr].
         eapply group_post_failed; [done|auto|by apply silent_idle|]. by rewrite Ef. }
  assert (p = PreparedNone ∨ p ≠ PreparedNone) as [->|Hp] by (destruct p; auto).
  { eapply emits_mono; [apply legacy_items_spec|]. intros r l. apply group_post_legacy. }
  destruct (check_prepared g p) as [[[k prefix] c]|e] eqn:Ec.
  - destruct (check_prepared_spec _ _ _ _ Ec) as [[f ->] Hpre].
    eapply emits_mono; [by apply execute_prepared_spec|].
    intros r l (l1 & t & x & lf & -> & ? & ? & ?). by eapply group_post_run.
  - replace (match p with PreparedNone => _ | _ => _ end)
      with (reject_prepared env fatal ctx g (ep_clock env h) p e) by (by destruct p).
    eapply emits_mono; [apply reject_prepared_spec|]. intros r l [Hl Hr].
    destruct (released_once_post p (ep_clock env h) l Hl).
    eapply group_post_failed; [unfold failure; rewrite Ec; by destruct p|done..].
Qed.

(** C14: The handle of an episode group is released exactly once, whatever the
    adapter does: in the calls of one execution of a group, the released
    handles are exactly the handles that [prepare_episode_group] returned, the
    suffixes run on that handle only, and nothing is executed after the release. *)
Theorem episode_handle_released h :
  ∃ r l, execute_group env fatal ctx g h = (r, h ++ l)%list ∧
    l ≫= released_handle = l ≫= handle_of ∧
    (∀ k, k ∈ (l ≫= executed_handle) → k ∈ (l ≫= handle_of)) ∧
    ∀ l1 k c x l2, l = (l1 ++ EpRelease k c x :: l2)%list → Forall (λ o, executes o = false) l2.
Proof.
  destruct (execute_group_spec h) as (r & l & E & [[H1 H2 H3] _ _]). exists r, l. auto.
Qed.
End execution.

(** Under the recording policy the execution of a group always returns,
    when the factory of error records does: a single record of a failed
    preparation, the records of the fallback, one per item in order, or the
    record of the prefix followed by one record per item in order, each
    carrying the lineage of the group and, unless its execution failed, the
    identity of its item. *)
Theorem episode_record_policy_total env ctx g h :
  factory_total env →
  ∃ rs l, execute_group env false ctx g h = (Ok rs, h ++ l)%list ∧ group_report ctx g l rs.
Proof.
  intros Hf. destruct (execute_group_spec env false ctx g h) as (r & l & E & [_ Hr _]).
  destruct (Hr eq_refl Hf) as (rs & -> & ?). eauto.
Qed.

(** Under the fatal policy the execution of a group raises exactly when
    some call failed or answered something unacceptable, and it raises the
    first such failure (with a failed release as its cause at most); nothing is
    executed after a failure. *)
Theorem episode_fatal_first_error env ctx g h :
  factory_total env →
  ∃ r l, execute_group env true ctx g h = (r, h ++ l)%list ∧ halts g l ∧
    match head (omap (failure g) l) with
    | None => ∃ rs, r = Ok rs ∧ group_report ctx g l rs
    | Some e => ∃ e', r = Err e' ∧ same_error e' e
    end.
Proof.
  intros Hf. destruct (execute_group_spec env true ctx g h) as (r & l & E & [_ _ Hr]).
  destruct (Hr eq_refl Hf) as [? ?]. eauto.
Qed.

(** * An example *)

(** A seed and a variant; the variant fails, and so does the release. *)
Module GroupExample.
Import EpisodeExample.

Definition ctx : episode_context :=
  {| run_root := "runs"; arm := "arm"; epoch := 3; branch_id := "main"; context_group_id := None |}.

Definition env : EpisodeEnv :=
  {| ep_clock _ := f0;
     prepare_episode_group _ _ _ _ :=
       Ok (PreparedMap (Some 7%Z)
             (as_items [("prefix_record", PMap false []); ("checkpoint_ref", PStr "ckpt")]));
     legacy_execute _ item _ := Ok (PMap false item);
     execute_episode _ _ item _ :=
       if is_variant item then Err (ValueError "boom") else Ok (PMap false item);
     release_episode_group _ _ _ := Err (TypeError "release");
     error_record_factory _ item e _ := Ok (pset "adapter_error" (PStr (exn_msg e)) item) |}.

Definition group : episode_group :=
  match units with
  | Ok (GroupUnit g :: _) => g
  | _ => make_group text "arm" 3 0 {| variants := []; variant_item_ids := ∅; invalid_reasons := ∅ |} []
  end.

Lemma env_total : factory_total env.
Proof. by intros h item e d. Qed.

Definition observed (x : res (list items) * ep_history)
  : res (list (pyval * pyval * pyval)) * list (list key) :=
  (match x.1 with
   | Ok rs => Ok ((λ r, (pget "item_id" r, pget "record_kind" r, pget "episode_stage" r)) <$> rs)
   | Err e => Err e
   end, (λ o, released_handle o ++ executed_handle o)%list <$> x.2).

Lemma episode_record_policy_total_witness :
  (∃ rs l, execute_group env false ctx group [] = (Ok rs, [] ++ l)%list ∧ group_report ctx group l rs) ∧
  observed (execute_group env false ctx group []) =
    (Ok [(PStr "s:shared-prefix", PStr "shared_prefix", PStr "release");
         (PStr "s", PStr "episode_suffix", PNone); (PStr "v", PStr "episode_suffix", PStr "execute")],
     [[]; []; []; [7%Z]; []; [7%Z]; []; []; []; [7%Z]; []; []]).
Proof.
  split; [apply episode_record_policy_total, env_total|vm_compute; reflexivity].
Defined.

Lemma episode_fatal_first_error_witness :
  (∃ r l, execute_group env true ctx group [] = (r, [] ++ l)%list ∧ halts group l ∧
    match head (omap (failure group) l) with
    | None => ∃ rs, r = Ok rs ∧ group_report ctx group l rs
    | Some e => ∃ e', r = Err e' ∧ same_error e' e
    end) ∧
  observed (execute_group env true ctx group []) =
    (Err (raise_from (ValueError "boom") (TypeError "release")),
     [[]; []; []; [7%Z]; []; [7%Z]; []; [7%Z]]).
Proof.
  split; [apply episode_fatal_first_error, env_total|vm_compute; reflexivity].
Defined.
End GroupExample.
