(* ===== verification/HarnessQueue.v ===== *)
(** The pull queue of the Explore harness: [run_queue_epoch] of
    [loopx/capabilities/explore/harness_runtime.py].

    The worker threads share the pending items and the concurrency keys in
    flight, both guarded by one lock.  A [queue] is that shared state with the
    phase of every worker; [step] is one lock-protected section or one call of
    [execute] of one worker, and a schedule is a list of such turns, so that
    schedules range over all interleavings and over all answers of [execute].
    [executed] is the log of the calls of [execute].  The text and the type name
    of a value and the attribute [retryable_infra_error] of an exception are
    parameters; an answer of a bytes-like type is treated as [bytes]. *)

From stdpp Require Import base strings list sets gmap.
From Stdlib Require Import ZArith Lia.
From S2P Require Import Prelude PyFloat PyValue PyConv PySort TraceRuntime ReplayTypes.
From S2P Require Import EpisodeRuntime.

Definition ITEM_FAILURE_POLICY_RECORD : string := "record".
Definition ITEM_FAILURE_POLICY_FATAL : string := "fatal".

(** [sorted(ITEM_FAILURE_POLICIES)]. *)
Definition ITEM_FAILURE_POLICIES : list string :=
  [ITEM_FAILURE_POLICY_FATAL; ITEM_FAILURE_POLICY_RECORD].

(** [0.05], the nearest float. *)
Definition MIN_DURATION_MINUTES : float := fdiv f1 (float_of_Z 20).

Section harness.
Variables (str_of type_name : pyval → string) (retryable_infra_error : exn → bool).

Definition normalize_item_failure_policy (value : pyval) : res string :=
  let policy := replace_char (Ascii.ascii_of_N 95) (Ascii.ascii_of_N 45)
    (py_lower (py_strip (py_str str_of (por value (PStr ITEM_FAILURE_POLICY_RECORD))))) in
  _ ← require (bool_decide (policy ∈ ITEM_FAILURE_POLICIES))
        (ValueError ("item_failure_policy must be one of: " ++ join ", " ITEM_FAILURE_POLICIES));
  Ok policy.

Definition adapter_error_record (item : items) (error : exn) (duration_minutes : float) : items :=
  let message := join " " (py_split (exn_msg error)) in
  let spec := pget "variant_spec" item in
  as_items
    [("item_id", pget "item_id" item); ("family", pget "family" item);
     ("is_variant", PBool (is_variant item));
     ("variant_spec_id",
       match is_variant item, spec with true, PMap _ d => pget "spec_id" d | _, _ => PNone end);
     ("execution_status", PStr "adapter_error");
     ("item_failure_policy", PStr ITEM_FAILURE_POLICY_RECORD);
     ("accepted", PBool false); ("observation_keys", PSeq false []);
     ("weighted_flags", PMap false []);
     ("duration_minutes", PFloat (fmax MIN_DURATION_MINUTES duration_minutes));
     ("retryable_infra_error", PBool (retryable_infra_error error));
     ("adapter_error", PMap false (as_items
       [("schema_version", PStr "loopx_explore_adapter_error_v0");
        ("type", PStr (exn_class error)); ("message", PStr (String.substring 0 240 message))]))].

(** * The records of one item *)

Definition as_mapping (v : pyval) : res items :=
  match v with
  | PMap _ d => Ok d
  | _ => Err (TypeError "queue execute sequences must contain dict observation records")
  end.

(** [(item.get("variant_spec") or {}).get("spec_id")]. *)
Definition variant_spec_id (item : items) : res pyval :=
  match por (pget "variant_spec" item) (PMap false []) with
  | PMap _ d => Ok (pget "spec_id" d)
  | v => Err (AttributeError ("'" ++ type_name v ++ "' object has no attribute 'get'"))
  end.

Definition complete_record (item record : items) : res items :=
  let record := psetdefault "is_variant" (PBool (is_variant item))
    (psetdefault "family" (pget "family" item)
      (psetdefault "item_id" (pget "item_id" item) record)) in
  if is_variant item
  then spec_id ← variant_spec_id item; Ok (psetdefault "variant_spec_id" spec_id record)
  else Ok record.

(** The body of the [try]: what the worker makes of the answer of [execute]. *)
Definition queue_batch (item : items) (outcome : res pyval) : res (list items) :=
  v ← outcome;
  batch ← match v with
    | PMap _ d => Ok [d]
    | PSeq _ l => rmap as_mapping l
    | _ => Err (TypeError "queue execute must return a dict or sequence of dict observations")
    end;
  _ ← require (negb (bool_decide (batch = [])))
        (TypeError "queue execute must return at least one observation");
  rmap (complete_record item) batch.

(** The [try] and its [except]. *)
Definition settle_item (fatal : bool) (item : items) (outcome : res pyval) (minutes : float)
  : res (list items) :=
  match queue_batch item outcome with
  | Ok batch => Ok batch
  | Err e => if fatal then Err e else Ok [adapter_error_record item e minutes]
  end.

(** * Workers *)

(** Where a worker is: before [pull_next], after it returned [None], in
    [execute], before the [finally] block, returned, or ended by an exception. *)
Inductive phase :=
| Pulling
| Checking
| Running (item : items)
| Settling (item : items) (batch : res (list items))
| Returned
| Raised (e : exn).

Record worker := { w_phase : phase; w_results : list items }.

Record call := { c_worker : nat; c_item : items; c_outcome : res pyval; c_minutes : float }.

Record queue := {
  pending : list items;
  in_flight : gset string;
  workers : list worker;
  executed : list call
}.

Definition keys_of (item : items) : gset string := list_to_set (item_concurrency_keys str_of item).

(** The loop of [pull_next]: the first item without a key in flight, and the
    other pending items. *)
Fixpoint pull_next (busy : gset string) (l : list items) : option (items * list items) :=
  match l with
  | [] => None
  | item :: l' =>
      if existsb (λ key, bool_decide (key ∈ busy)) (item_concurrency_keys str_of item)
      then match pull_next busy l' with
           | Some (found, rest) => Some (found, item :: rest)
           | None => None
           end
      else Some (item, l')
  end.

(** One turn of a worker; the outcome and the duration are those of its call of
    [execute], if that is what it does next. *)
Record turn := { t_worker : nat; t_outcome : res pyval; t_minutes : float }.

Definition update (s : queue) (w : nat) (wk : worker) (pend : list items) (busy : gset string)
    (log : list call) : queue :=
  {| pending := pend; in_flight := busy; workers := <[w := wk]> (workers s); executed := log |}.

Definition move (p : phase) (wk : worker) : worker := {| w_phase := p; w_results := w_results wk |}.

Definition step (fatal : bool) (s : queue) (t : turn) : queue :=
  let w := t_worker t in
  match workers s !! w with
  | None => s
  | Some wk =>
      match w_phase wk with
      | Pulling =>
          match pull_next (in_flight s) (pending s) with
          | Some (item, rest) =>
              update s w (move (Running item) wk) rest (in_flight s ∪ keys_of item) (executed s)
          | None => update s w (move Checking wk) (pending s) (in_flight s) (executed s)
          end
      | Checking =>
          update s w (move (match pending s with [] => Returned | _ => Pulling end) wk)
            (pending s) (in_flight s) (executed s)
      | Running item =>
          update s w (move (Settling item (settle_item fatal item (t_outcome t) (t_minutes t))) wk)
            (pending s) (in_flight s)
            (executed s ++ [{| c_worker := w; c_item := item; c_outcome := t_outcome t;
                               c_minutes := t_minutes t |}])%list
      | Settling item batch =>
          update s w
            (match batch with
             | Ok records => {| w_phase := Pulling; w_results := (w_results wk ++ records)%list |}
             | Err e => move (Raised e) wk
             end) (pending s) (in_flight s ∖ keys_of item) (executed s)
      | Returned | Raised _ => s
      end
  end.

Definition thread_count (worker_count : Z) (l : list items) : nat :=
  Z.to_nat (Z.max 1 (Z.min worker_count (Z.max 1 (Z.of_nat (length l))))).

Definition start (l : list items) (worker_count : Z) : queue :=
  {| pending := l; in_flight := ∅;
     workers := replicate (thread_count worker_count l) {| w_phase := Pulling; w_results := [] |};
     executed := [] |}.

Definition run (fatal : bool) (s : queue) (schedule : list turn) : queue :=
  fold_left (step fatal) schedule s.

(** * Lanes *)

Record lane := {
  lane_branch_id : string;
  launch_index : nat;
  wall_minutes : float;
  lane_item_ids : list pyval;
  lane_families : list pyval;
  lane_results : list items
}.

Definition queue_branch_id (w : nat) : string := "queue_worker_" ++ zero_pad 2 (Z.of_nat w + 1).

Definition lane_of (wall : nat → float) (w : nat) (results : list items) : lane :=
  {| lane_branch_id := queue_branch_id w; launch_index := w; wall_minutes := py_round 3 (wall w);
     lane_item_ids := pget "item_id" <$> results; lane_families := pget "family" <$> results;
     lane_results := results |}.

(** [future.result()]; [None] while the worker runs. *)
Definition result_of (wall : nat → float) (s : queue) (w : nat) : option (res lane) :=
  wk ← workers s !! w;
  match w_phase wk with
  | Returned => Some (Ok (lane_of wall w (w_results wk)))
  | Raised e => Some (Err e)
  | _ => None
  end.

(** The results in the order [order] in which the workers completed. *)
Fixpoint collect (wall : nat → float) (s : queue) (order : list nat) : option (res (list lane)) :=
  match order with
  | [] => Some (Ok [])
  | w :: order' =>
      r ← result_of wall s w;
      match r with
      | Err e => Some (Err e)
      | Ok a => rest ← collect wall s order'; Some (ls ← rest; Ok (a :: ls))
      end
  end.

Definition lane_lt (a b : lane) : bool := String.ltb (lane_branch_id a) (lane_branch_id b).

(** The whole epoch, for a schedule of the workers and the order in which they
    complete; [None] if a worker is still running at the end of the schedule. *)
Definition run_queue_epoch (wall : nat → float) (l : list items) (worker_count : Z)
    (item_failure_policy : pyval) (schedule : list turn) (order : list nat)
  : option (res (list lane)) :=
  match normalize_item_failure_policy item_failure_policy with
  | Err e => Some (Err e)
  | Ok policy =>
      let fatal := bool_decide (policy = ITEM_FAILURE_POLICY_FATAL) in
      lanes ← collect wall (run fatal (start l worker_count) schedule) order;
      Some (ls ← lanes; Ok (py_sort lane_lt ls))
  end.
End harness.
