(* ===== verification/QueueTheorems.v ===== *)
(** The theorems about the pull queue: items in flight never share a key, every
    item is executed exactly once, fair schedules drain the queue, and what the
    epoch returns. *)

From stdpp Require Import base strings list sets gmap.
From Stdlib Require Import ZArith Lia Sorting.Sorted.
From S2P Require Import Prelude PyFloat PyValue PyConv PySort TraceRuntime ReplayTypes.
From S2P Require Import EpisodeRuntime.
From S2P Require Import EpisodeUnits HarnessQueue ListLib.

Section queue.
Context (str_of type_name : pyval → string) (retryable : exn → bool).
Notation keys_of := (keys_of str_of).
Notation step := (step str_of type_name retryable).
Notation run := (run str_of type_name retryable).
Notation settle := (settle_item type_name retryable).
Notation pull_next := (pull_next str_of).

(** * The pull *)

Definition blocked (busy : gset string) (item : items) : Prop := ∃ k, k ∈ keys_of item ∧ k ∈ busy.

Lemma existsb_blocked busy item :
  existsb (λ key, bool_decide (key ∈ busy)) (item_concurrency_keys str_of item) = true ↔ blocked busy item.
Proof.
  unfold blocked, HarnessQueue.keys_of. rewrite existsb_exists. setoid_rewrite elem_of_list_to_set.
  setoid_rewrite bool_decide_eq_true. setoid_rewrite list_elem_of_In. done.
Qed.

(** [pull_next] takes the first pending item without a key in flight. *)
Lemma pull_next_spec busy l :
  match pull_next busy l with
  | Some (item, rest) => ∃ l1 l2, l = (l1 ++ item :: l2)%list ∧ rest = (l1 ++ l2)%list ∧
      Forall (blocked busy) l1 ∧ keys_of item ## busy
  | None => Forall (blocked busy) l
  end.
Proof.
  induction l as [|item l IH]; simpl; [done|].
  destruct (existsb _ _) eqn:E.
  - apply existsb_blocked in E. destruct (pull_next busy l) as [[found rest]|].
    + destruct IH as (l1 & l2 & -> & -> & ? & ?). exists (item :: l1), l2. auto.
    + by constructor.
  - exists [], l. split_and!; [done..|]. intros k Hk Hb.
    assert (existsb (λ key, bool_decide (key ∈ busy)) (item_concurrency_keys str_of item) = true);
      [|congruence]. apply existsb_blocked. by exists k.
Qed.

(** * The invariant *)

Definition holds (p : phase) : option items :=
  match p with Running item | Settling item _ => Some item | _ => None end.

Definition held (s : queue) (w : nat) : option items := wk ← workers s !! w; holds (w_phase wk).

Definition runs (wk : worker) : option items :=
  match w_phase wk with Running item => Some item | _ => None end.

Definition batch_of (fatal : bool) (c : call) : res (list items) :=
  settle fatal (c_item c) (c_outcome c) (c_minutes c).

Definition records_of (fatal : bool) (c : call) : list items :=
  match batch_of fatal c with Ok rs => rs | Err _ => [] end.

Definition calls_of (w : nat) (s : queue) : list call := filter (λ c, c_worker c = w) (executed s).

(** The results of a worker are the records of its settled calls. *)
Definition accounted (fatal : bool) (calls : list call) (wk : worker) : Prop :=
  match w_phase wk with
  | Settling item b => ∃ cs c, calls = (cs ++ [c])%list ∧ c_item c = item ∧ batch_of fatal c = b ∧
      w_results wk = cs ≫= records_of fatal ∧ Forall (λ c, is_ok (batch_of fatal c) = true) cs
  | Raised e => ∃ cs c, calls = (cs ++ [c])%list ∧ batch_of fatal c = Err e
  | _ => w_results wk = calls ≫= records_of fatal ∧
         Forall (λ c, is_ok (batch_of fatal c) = true) calls
  end.

Record queue_inv (fatal : bool) (l : list items) (s : queue) : Prop := {
  qi_keys : ∀ k, k ∈ in_flight s ↔ ∃ w item, held s w = Some item ∧ k ∈ keys_of item;
  qi_disjoint : ∀ v w a b, v ≠ w → held s v = Some a → held s w = Some b → keys_of a ## keys_of b;
  qi_items : (pending s ++ omap runs (workers s) ++ (c_item <$> executed s) ≡ₚ l)%list;
  qi_accounted : ∀ w wk, workers s !! w = Some wk → accounted fatal (calls_of w s) wk;
  qi_calls : Forall (λ c, (c_worker c < length (workers s))%nat) (executed s);
  qi_returned : ∀ w wk, workers s !! w = Some wk → w_phase wk = Returned → pending s = []
}.

Lemma held_update s w wk p busy log v :
  is_Some (workers s !! w) →
  held (update s w wk p busy log) v = if decide (v = w) then holds (w_phase wk) else held s v.
Proof.
  intros Hw. unfold held, update. simpl. case_decide as Hv.
  - subst. by rewrite list_lookup_insert_eq by (by apply lookup_lt_is_Some).
  - by rewrite list_lookup_insert_ne.
Qed.

Lemma start_inv fatal l n : queue_inv fatal l (start l n).
Proof.
  assert (∀ w wk, workers (start l n) !! w = Some wk → wk = {| w_phase := Pulling; w_results := [] |}) as Hw.
  { intros w wk. simpl. by intros [-> _]%lookup_replicate. }
  assert (∀ w, held (start l n) w = None) as Hh.
  { intros w. unfold held. destruct (workers _ !! w) eqn:E; [|done]. by apply Hw in E as ->. }
  split.
  - intros k. split; [set_solver|]. intros (w & item & H & _). by rewrite Hh in H.
  - intros v w a b _ H. by rewrite Hh in H.
  - simpl. rewrite app_nil_r. replace (omap runs (replicate _ _)) with (@nil items); [by rewrite app_nil_r|].
    induction (thread_count n l) as [|m IH]; [done|]. simpl. done.
  - intros w wk ->%Hw. done.
  - done.
  - by intros w wk ->%Hw.
Qed.

Lemma update_inv fatal l s w wk wk' p busy new :
  queue_inv fatal l s → workers s !! w = Some wk →
  (∀ k, k ∈ busy ↔ (∃ v a, v ≠ w ∧ held s v = Some a ∧ k ∈ keys_of a) ∨
                   (∃ a, holds (w_phase wk') = Some a ∧ k ∈ keys_of a)) →
  (∀ a, holds (w_phase wk') = Some a → held s w = Some a ∨ keys_of a ## in_flight s) →
  (option_list (runs wk') ++ p ++ (c_item <$> new) ≡ₚ option_list (runs wk) ++ pending s)%list →
  Forall (λ c, c_worker c = w) new → accounted fatal (calls_of w s ++ new)%list wk' →
  (w_phase wk' = Returned → p = []) → (pending s = [] → p = []) →
  queue_inv fatal l (update s w wk' p busy (executed s ++ new)%list).
Proof.
  intros [Hk Hd Hi Ha Hc Hr] Hw HK HD HI Hnew HA HR HP.
  assert (is_Some (workers s !! w)) as Hws by eauto.
  assert (∀ v a b, v ≠ w → held s v = Some a → holds (w_phase wk') = Some b → keys_of a ## keys_of b) as Hd'.
  { intros v a b Hv Hva Hb. destruct (HD b Hb) as [Hwb|Hdis]; [by eapply (Hd v w)|].
    intros k Hka Hkb. apply (Hdis k Hkb), Hk. eauto. }
  assert (∀ v, calls_of v (update s w wk' p busy (executed s ++ new)%list) =
            (calls_of v s ++ if decide (v = w) then new else [])%list) as Hcalls.
  { intros v. unfold calls_of. simpl. rewrite filter_app. f_equal. case_decide as Hv.
    - subst. by apply filter_all.
    - apply filter_none. eapply Forall_impl; [done|]. simpl. by intros c ->. }
  split.
  - intros k. rewrite HK. setoid_rewrite held_update; [|done]. split.
    + intros [(v & a & Hv & ? & ?)|(a & ? & ?)]; [exists v, a; by rewrite decide_False|].
      exists w, a. by rewrite decide_True.
    + intros (v & a & Hv & ?). case_decide; [right; eauto|left; eauto 10].
  - intros u v a b Huv. rewrite !held_update by done. repeat case_decide; subst; [done| | |].
    + intros Hb Hva. symmetry. by eapply Hd'.
    + intros Hva Hb. by eapply Hd'.
    + by eapply Hd.
  - simpl. pose proof (omap_insert_perm runs _ _ _ wk' Hw) as Hp.
    rewrite fmap_app. apply (Permutation_app_inv_l (option_list (runs wk))). rewrite <- Hi.
    transitivity ((option_list (runs wk) ++ omap runs (<[w := wk']> (workers s))) ++
      p ++ (c_item <$> new) ++ (c_item <$> executed s))%list; [solve_Permutation|]. rewrite Hp.
    transitivity ((option_list (runs wk') ++ p ++ (c_item <$> new)) ++
      omap runs (workers s) ++ (c_item <$> executed s))%list; [solve_Permutation|].
    rewrite HI. solve_Permutation.
  - intros v vk. rewrite Hcalls. simpl. case_decide as Hv.
    + subst. rewrite list_lookup_insert_eq by (by apply lookup_lt_is_Some). by intros [= <-].
    + rewrite list_lookup_insert_ne, app_nil_r by done. apply Ha.
  - simpl. rewrite length_insert. apply Forall_app. split; [done|].
    eapply Forall_impl; [done|]. simpl. intros c ->. by apply lookup_lt_is_Some.
  - intros v vk. simpl. destruct (decide (v = w)) as [->|Hv].
    + rewrite list_lookup_insert_eq by (by apply lookup_lt_is_Some). intros [= <-]. done.
    + rewrite list_lookup_insert_ne by done. intros. eapply HP, Hr; done.
Qed.

(** The keys in flight, split at worker [w]. *)
Lemma keys_split fatal l s w k :
  queue_inv fatal l s →
  k ∈ in_flight s ↔ (∃ v a, v ≠ w ∧ held s v = Some a ∧ k ∈ keys_of a) ∨
                    (∃ a, held s w = Some a ∧ k ∈ keys_of a).
Proof.
  intros Hs. rewrite (qi_keys _ _ _ Hs). split.
  - intros (v & a & ? & ?). destruct (decide (v = w)) as [->|]; [right|left]; eauto 10.
  - intros [(v & a & _ & ? & ?)|(a & ? & ?)]; eauto.
Qed.

(** A worker that holds no item moves to a phase that holds none. *)
Lemma idle_inv fatal l s w wk ph :
  queue_inv fatal l s → workers s !! w = Some wk →
  holds (w_phase wk) = None → holds ph = None → accounted fatal (calls_of w s) (move ph wk) →
  (ph = Returned → pending s = []) →
  queue_inv fatal l (update s w (move ph wk) (pending s) (in_flight s) (executed s)).
Proof.
  intros Hs Hw Hp Hph Ha Hr. rewrite <- (app_nil_r (executed s)).
  assert (held s w = None) as Hh by (unfold held; by rewrite Hw).
  apply (update_inv fatal l s w wk); [done|done| | | | | |done|done]; simpl.
  - intros k. rewrite (keys_split fatal l s w) by done. rewrite Hh, Hph. naive_solver.
  - intros a. by rewrite Hph.
  - rewrite app_nil_r. unfold runs. simpl. by destruct (w_phase wk), ph.
  - done.
  - by rewrite app_nil_r.
Qed.

Lemma accounted_idle fatal calls wk ph :
  accounted fatal calls wk → w_phase wk = Pulling ∨ w_phase wk = Checking →
  ph = Pulling ∨ ph = Checking ∨ ph = Returned ∨ (∃ item, ph = Running item) →
  accounted fatal calls (move ph wk).
Proof.
  unfold accounted. intros Ha Hw Hph. simpl.
  assert (w_results wk = calls ≫= records_of fatal ∧
    Forall (λ c, is_ok (batch_of fatal c) = true) calls) by (by destruct Hw as [Hw|Hw]; rewrite Hw in Ha).
  by destruct Hph as [->|[->|[->|[? ->]]]].
Qed.

Lemma pull_inv fatal l s w wk item rest :
  queue_inv fatal l s → workers s !! w = Some wk → w_phase wk = Pulling →
  pull_next (in_flight s) (pending s) = Some (item, rest) →
  queue_inv fatal l
    (update s w (move (Running item) wk) rest (in_flight s ∪ keys_of item) (executed s)).
Proof.
  intros Hs Hw Hph Hpull. pose proof (pull_next_spec (in_flight s) (pending s)) as Hp.
  rewrite Hpull in Hp. destruct Hp as (l1 & l2 & Hpend & -> & _ & Hdis).
  assert (held s w = None) as Hh by (unfold held; rewrite Hw; simpl; by rewrite Hph).
  rewrite <- (app_nil_r (executed s)).
  apply (update_inv fatal l s w wk); [done|done| | | | | |done|]; simpl.
  - intros k. rewrite elem_of_union, (keys_split fatal l s w) by done. rewrite Hh. naive_solver.
  - intros a [= <-]. by right.
  - unfold runs. rewrite Hph, Hpend. simpl. rewrite app_nil_r. by rewrite Permutation_middle.
  - done.
  - rewrite app_nil_r. apply accounted_idle; [by apply (qi_accounted _ _ _ Hs)|by left|naive_solver].
  - rewrite Hpend. by destruct l1.
Qed.

Lemma finish_inv fatal l s w wk item t :
  queue_inv fatal l s → workers s !! w = Some wk → w_phase wk = Running item → t_worker t = w →
  queue_inv fatal l
    (update s w (move (Settling item (settle fatal item (t_outcome t) (t_minutes t))) wk)
       (pending s) (in_flight s)
       (executed s ++ [{| c_worker := w; c_item := item; c_outcome := t_outcome t;
                          c_minutes := t_minutes t |}])%list).
Proof.
  intros Hs Hw Hph Ht.
  assert (held s w = Some item) as Hh by (unfold held; rewrite Hw; simpl; by rewrite Hph).
  apply (update_inv fatal l s w wk); [done|done| | | | | |done|done]; simpl.
  - intros k. rewrite (keys_split fatal l s w) by done. by rewrite Hh.
  - intros a [= <-]. by left.
  - unfold runs. rewrite Hph. simpl. by rewrite Permutation_app_comm.
  - by repeat constructor.
  - pose proof (qi_accounted _ _ _ Hs w wk Hw) as Ha. unfold accounted in *. rewrite Hph in Ha.
    destruct Ha. simpl. eexists _, _. split_and!; done.
Qed.

Lemma settle_inv fatal l s w wk item batch :
  queue_inv fatal l s → workers s !! w = Some wk → w_phase wk = Settling item batch →
  queue_inv fatal l
    (update s w
      (match batch with
       | Ok records => {| w_phase := Pulling; w_results := (w_results wk ++ records)%list |}
       | Err e => move (Raised e) wk
       end) (pending s) (in_flight s ∖ keys_of item) (executed s)).
Proof.
  intros Hs Hw Hph. set (wk' := match batch with Ok _ => _ | Err _ => _ end).
  assert (held s w = Some item) as Hh by (unfold held; rewrite Hw; simpl; by rewrite Hph).
  assert (holds (w_phase wk') = None ∧ runs wk' = None ∧ w_phase wk' ≠ Returned) as (Hn & Hn' & Hr)
    by (unfold wk'; by destruct batch).
  rewrite <- (app_nil_r (executed s)).
  apply (update_inv fatal l s w wk); [done|done| | | | | |done|done].
  - intros k. rewrite elem_of_difference, (keys_split fatal l s w) by done. rewrite Hh, Hn. split.
    + intros [[?|(a & ? & ?)] ?]; [by left|simplify_eq].
    + intros [(v & a & Hv & Hva & Hk)|(? & ? & _)]; [|done]. split; [left; eauto 10|].
      intros Hk'. by apply (qi_disjoint _ _ _ Hs v w a item Hv Hva Hh k).
  - intros a. by rewrite Hn.
  - rewrite Hn'. unfold runs. rewrite Hph. simpl. by rewrite app_nil_r.
  - done.
  - rewrite app_nil_r. pose proof (qi_accounted _ _ _ Hs w wk Hw) as Ha. unfold accounted, wk' in *.
    rewrite Hph in Ha. destruct Ha as (cs & c & -> & _ & Hb & Hres & Hok).
    destruct batch as [records|e]; simpl; [|eauto].
    rewrite bind_app, Hres. simpl. unfold records_of at 3. rewrite Hb, app_nil_r. split; [done|].
    apply Forall_app. split; [done|]. constructor; [by rewrite Hb|done].
Qed.

Lemma step_inv fatal l s t : queue_inv fatal l s → queue_inv fatal l (step fatal s t).
Proof.
  intros Hs. unfold HarnessQueue.step. destruct (workers s !! t_worker t) as [wk|] eqn:Hw; [|done].
  pose proof (qi_accounted _ _ _ Hs _ _ Hw) as Ha.
  destruct (w_phase wk) as [| |item|item batch| |e] eqn:Hph; [| | | |done|done].
  - destruct (pull_next _ _) as [[item rest]|] eqn:Hp; [by apply pull_inv|].
    apply idle_inv; rewrite ?Hph; [done|done|done|done| |done]. apply accounted_idle; naive_solver.
  - destruct (pending s) eqn:Hp; rewrite <- Hp;
      (apply idle_inv; rewrite ?Hph; [done|done|done|done|apply accounted_idle; naive_solver|done]).
  - by apply finish_inv.
  - by apply settle_inv.
Qed.

Lemma run_inv fatal l s ts : queue_inv fatal l s → queue_inv fatal l (run fatal s ts).
Proof. revert s. induction ts as [|t ts IH]; intros s Hs; [done|]. by apply IH, step_inv. Qed.

(** * Progress *)

Definition ended (p : phase) : bool :=
  match p with Returned | Raised _ => true | _ => false end.

Definition weight (wk : worker) : nat :=
  match w_phase wk with
  | Pulling | Checking => 1 | Running _ => 3 | Settling _ _ => 2 | Returned | Raised _ => 0
  end.

(** What is left to do: no turn increases it. *)
Definition remaining (s : queue) : nat :=
  3 * length (pending s) + sum_list_with weight (workers s).

Definition phase_at (s : queue) (w : nat) : option phase := w_phase <$> workers s !! w.

Lemma remaining_update s w wk wk' p busy log :
  workers s !! w = Some wk →
  remaining (update s w wk' p busy log) + weight wk + 3 * length (pending s) =
  remaining s + weight wk' + 3 * length p.
Proof.
  intros Hw. unfold remaining, update. simpl.
  pose proof (sum_insert weight (workers s) w wk wk' Hw). lia.
Qed.

(** A turn that makes no progress: it leaves the shared state alone and takes a
    worker between [Pulling] and [Checking] at most. *)
Definition spins (s s' : queue) (w : nat) : Prop :=
  pending s' = pending s ∧ in_flight s' = in_flight s ∧
  (∀ v, v ≠ w → phase_at s' v = phase_at s v) ∧
  ((phase_at s w = Some Pulling ∧ phase_at s' w = Some Checking ∧
    pull_next (in_flight s) (pending s) = None) ∨
   (phase_at s w = Some Checking ∧ phase_at s' w = Some Pulling ∧ pending s ≠ []) ∨
   (phase_at s' w = phase_at s w ∧ (from_option ended true (phase_at s w)) = true)).

Lemma phase_update s w wk wk' p busy log v :
  workers s !! w = Some wk →
  phase_at (update s w wk' p busy log) v = if decide (v = w) then Some (w_phase wk') else phase_at s v.
Proof.
  intros Hw. unfold phase_at, update. simpl. case_decide as Hv.
  - subst. rewrite list_lookup_insert_eq by (eapply lookup_lt_Some; eauto). done.
  - by rewrite list_lookup_insert_ne.
Qed.

Lemma spins_move s w wk ph :
  workers s !! w = Some wk →
  (w_phase wk = Pulling ∧ ph = Checking ∧ pull_next (in_flight s) (pending s) = None) ∨
  (w_phase wk = Checking ∧ ph = Pulling ∧ pending s ≠ []) →
  spins s (update s w (move ph wk) (pending s) (in_flight s) (executed s)) w.
Proof.
  intros Hw Hph. split_and!; [done..| |].
  - intros v Hv. rewrite (phase_update _ _ _ _ _ _ _ _ Hw). by rewrite decide_False.
  - rewrite (phase_update _ _ _ _ _ _ _ _ Hw), decide_True by done. unfold phase_at. rewrite Hw. simpl.
    destruct Hph as [(-> & -> & ?)|(-> & -> & ?)]; [left|right; left]; done.
Qed.

Lemma step_progress fatal s t :
  (remaining (step fatal s t) < remaining s)%nat ∨
  (remaining (step fatal s t) = remaining s ∧ spins s (step fatal s t) (t_worker t)).
Proof.
  unfold HarnessQueue.step. destruct (workers s !! t_worker t) as [wk|] eqn:Hw.
  2: { right. split; [done|]. unfold spins, phase_at. rewrite Hw. simpl. split_and!; auto. }
  pose proof (remaining_update s _ _ (move Checking wk) (pending s) (in_flight s) (executed s) Hw) as R.
  destruct (w_phase wk) as [| |item|item batch| |e] eqn:Hph.
  - destruct (pull_next _ _) as [[item rest]|] eqn:Hp.
    + left. pose proof (pull_next_spec (in_flight s) (pending s)) as Hs. rewrite Hp in Hs.
      destruct Hs as (l1 & l2 & Hl & -> & _).
      pose proof (remaining_update s _ _ (move (Running item) wk) (l1 ++ l2)%list
        (in_flight s ∪ keys_of item) (executed s) Hw) as R'.
      unfold weight in R'. rewrite Hph, Hl, !length_app in R'. simpl in *. lia.
    + right. split; [|apply spins_move; auto]. unfold weight in R. rewrite Hph in R. simpl in *. lia.
  - destruct (pending s) as [|p0 ps] eqn:Hp.
    + left. pose proof (remaining_update s _ _ (move Returned wk) [] (in_flight s) (executed s) Hw) as R'.
      unfold weight in R'. rewrite Hph, Hp in R'. simpl in *. lia.
    + right. rewrite <- Hp. split; [|apply spins_move; [done|right; rewrite Hp; done]].
      pose proof (remaining_update s _ _ (move Pulling wk) (pending s) (in_flight s) (executed s) Hw) as R'.
      unfold weight in R'. rewrite Hph in R'. simpl in *. lia.
  - left. match goal with |- remaining (update _ _ ?wk' ?p ?b ?lg) < _ =>
      pose proof (remaining_update s _ _ wk' p b lg Hw) as R' end.
    unfold weight in R'. rewrite Hph in R'. simpl in *. lia.
  - left. match goal with |- remaining (update _ _ ?wk' ?p ?b ?lg) < _ =>
      pose proof (remaining_update s _ _ wk' p b lg Hw) as R' end.
    unfold weight in R'. rewrite Hph in R'. destruct batch; simpl in *; lia.
  - right. split; [done|]. unfold spins, phase_at. rewrite Hw. simpl. rewrite Hph. split_and!; auto.
  - right. split; [done|]. unfold spins, phase_at. rewrite Hw. simpl. rewrite Hph. split_and!; auto.
Qed.

Lemma run_remaining fatal s ts : (remaining (run fatal s ts) ≤ remaining s)%nat.
Proof.
  revert s. induction ts as [|t ts IH]; intros s; [done|]. simpl. etrans; [apply IH|].
  destruct (step_progress fatal s t) as [?|[? _]]; lia.
Qed.

(** A run without progress is a run of spins. *)
Lemma stalled_cons fatal s t ts :
  (remaining s ≤ remaining (run fatal s (t :: ts)))%nat →
  spins s (step fatal s t) (t_worker t) ∧
  (remaining (step fatal s t) ≤ remaining (run fatal (step fatal s t) ts))%nat.
Proof.
  simpl. intros H. pose proof (run_remaining fatal (step fatal s t) ts).
  destruct (step_progress fatal s t) as [?|[? ?]]; [lia|]. split; [done|]. lia.
Qed.

Lemma run_cons fatal s t ts : run fatal s (t :: ts) = run fatal (step fatal s t) ts.
Proof. done. Qed.

Lemma stalled_shared fatal s ts :
  (remaining s ≤ remaining (run fatal s ts))%nat →
  pending (run fatal s ts) = pending s ∧ in_flight (run fatal s ts) = in_flight s ∧
  ∀ v, v ∉ t_worker <$> ts → phase_at (run fatal s ts) v = phase_at s v.
Proof.
  revert s. induction ts as [|t ts IH]; intros s Hst; [done|].
  apply stalled_cons in Hst as [(Hp & Hb & Hv & _) Hst]. rewrite run_cons.
  destruct (IH _ Hst) as (-> & -> & Hw). split_and!; [done..|].
  intros v Hn. rewrite fmap_cons, not_elem_of_cons in Hn. destruct Hn. by rewrite Hw, Hv.
Qed.

(** Without progress no worker that has a turn executes or settles an item. *)
Lemma stalled_idle fatal s ts w item :
  (remaining s ≤ remaining (run fatal s ts))%nat → w ∈ t_worker <$> ts → held s w ≠ Some item.
Proof.
  revert s. induction ts as [|t ts IH]; intros s Hst Hin Hh; [by apply elem_of_nil in Hin|].
  apply stalled_cons in Hst as [(_ & _ & Hv & Hw) Hst].
  assert (∃ ph, phase_at s w = Some ph ∧ holds ph = Some item) as (ph & Hph & Hit).
  { unfold held, phase_at in *. destruct (workers s !! w); [|done]. simpl in *. eauto. }
  destruct (decide (w = t_worker t)) as [->|Hne].
  - rewrite Hph in Hw. destruct Hw as [(? & _)|[(? & _)|[_ He]]]; simplify_eq; [done..|].
    simpl in He. by destruct ph.
  - rewrite fmap_cons, elem_of_cons in Hin. destruct Hin as [?|Hin]; [done|].
    apply (IH (step fatal s t) Hst Hin). specialize (Hv w Hne). unfold held, phase_at in *.
    destruct (workers s !! w), (workers (step fatal s t) !! w); simplify_eq/=; congruence.
Qed.

(** With nothing in flight, a worker that has a turn but makes no progress goes
    from one of [Pulling] and [Checking] to the other, the same for all. *)
Lemma stalled_turn fatal s ts w ph :
  (remaining s ≤ remaining (run fatal s ts))%nat → in_flight s = ∅ →
  w ∈ t_worker <$> ts → phase_at s w = Some ph → ended ph = false →
  match pending s with
  | [] => ph = Pulling ∧ phase_at (run fatal s ts) w = Some Checking
  | _ => ph = Checking ∧ phase_at (run fatal s ts) w = Some Pulling
  end.
Proof.
  revert s ph. induction ts as [|t ts IH]; intros s ph Hst Hb Hin Hph He; [by apply elem_of_nil in Hin|].
  apply stalled_cons in Hst as [(Hp & Hb' & Hv & Hw) Hst]. rewrite run_cons.
  assert (pending s ≠ [] → pull_next (in_flight s) (pending s) ≠ None) as Hpull.
  { intros Hne Hnone. pose proof (pull_next_spec (in_flight s) (pending s)) as Hs.
    rewrite Hnone in Hs. destruct (pending s) as [|x l]; [done|].
    apply Forall_cons in Hs as [(k & _ & Hk) _]. rewrite Hb in Hk. set_solver. }
  rewrite <- Hp in Hw |- *. rewrite <- Hp in Hpull.
  destruct (decide (w = t_worker t)) as [->|Hne].
  - rewrite Hph in Hw. destruct Hw as [(? & Hc & Hn)|[(? & Hc & Hn)|[_ He']]]; [| |simpl in He'; congruence].
    + simplify_eq. destruct (pending (step fatal s t)) as [|x l] eqn:Ep; [|by destruct Hpull].
      split; [done|]. destruct (decide (t_worker t ∈ t_worker <$> ts)) as [Hin'|Hin'].
      * pose proof (IH _ Checking Hst ltac:(congruence) Hin' Hc eq_refl) as HI. rewrite Ep in HI. by destruct HI.
      * destruct (stalled_shared _ _ _ Hst) as (_ & _ & Hsame). by rewrite Hsame.
    + simplify_eq. destruct (pending (step fatal s t)) as [|x l] eqn:Ep; [done|].
      split; [done|]. destruct (decide (t_worker t ∈ t_worker <$> ts)) as [Hin'|Hin'].
      * pose proof (IH _ Pulling Hst ltac:(congruence) Hin' Hc eq_refl) as HI. rewrite Ep in HI. by destruct HI.
      * destruct (stalled_shared _ _ _ Hst) as (_ & _ & Hsame). by rewrite Hsame.
  - rewrite fmap_cons, elem_of_cons in Hin. destruct Hin as [?|Hin]; [done|].
    apply (IH _ ph Hst); [congruence|done|by rewrite Hv|done].
Qed.

Definition all_ended (s : queue) : Prop := Forall (λ wk, ended (w_phase wk) = true) (workers s).

(** A round gives every worker a turn. *)
Definition fair_round (n : nat) (ts : list turn) : Prop :=
  ∀ w, (w < n)%nat → w ∈ t_worker <$> ts.

Lemma step_workers fatal s t : length (workers (step fatal s t)) = length (workers s).
Proof.
  unfold HarnessQueue.step. destruct (workers s !! t_worker t) as [wk|]; [|done].
  destruct (w_phase wk); try done; try case_match; try done; simpl; try (by rewrite length_insert).
  case_match. simpl. by rewrite length_insert.
Qed.

Lemma run_workers fatal s ts : length (workers (run fatal s ts)) = length (workers s).
Proof. revert s. induction ts as [|t ts IH]; intros s; [done|]. rewrite run_cons, IH. apply step_workers. Qed.

(** Two fair rounds make progress unless every worker has ended. *)
Lemma rounds_progress fatal l s r1 r2 :
  queue_inv fatal l s → fair_round (length (workers s)) r1 → fair_round (length (workers s)) r2 →
  ¬ all_ended s → (remaining (run fatal (run fatal s r1) r2) < remaining s)%nat.
Proof.
  intros Hs H1 H2 Hne.
  destruct (decide (remaining s ≤ remaining (run fatal (run fatal s r1) r2))%nat) as [Hst|]; [|lia].
  exfalso. pose proof (run_remaining fatal s r1). pose proof (run_remaining fatal (run fatal s r1) r2).
  assert (remaining s ≤ remaining (run fatal s r1))%nat as Hst1 by lia.
  assert (remaining (run fatal s r1) ≤ remaining (run fatal (run fatal s r1) r2))%nat as Hst2 by lia.
  destruct (stalled_shared _ _ _ Hst1) as (Hp & Hb & _).
  assert (in_flight s = ∅) as Hempty.
  { apply set_eq. intros k. rewrite (qi_keys _ _ _ Hs). split; [|set_solver].
    intros (w & item & Hh & _). exfalso. eapply stalled_idle; [exact Hst1| |exact Hh]. apply H1.
    unfold held in Hh. destruct (workers s !! w) eqn:E; [|done]. by eapply lookup_lt_Some. }
  apply not_Forall_Exists in Hne; [|apply _]. apply Exists_exists in Hne as (wk & Hwk & He).
  apply list_elem_of_lookup in Hwk as [w Hw]. apply not_true_is_false in He.
  assert (w < length (workers s))%nat as Hlt by (by eapply lookup_lt_Some).
  assert (phase_at s w = Some (w_phase wk)) as Hph by (unfold phase_at; by rewrite Hw).
  pose proof (stalled_turn fatal s r1 w _ Hst1 Hempty (H1 w Hlt) Hph He) as HA.
  destruct (pending s) eqn:Ep; destruct HA as [_ HA];
    pose proof (stalled_turn fatal _ r2 w _ Hst2 ltac:(congruence) (H2 w Hlt) HA eq_refl) as HB;
    rewrite Hp in HB; by destruct HB.
Qed.

Lemma ended_step fatal s t : all_ended s → step fatal s t = s.
Proof.
  intros He. unfold HarnessQueue.step. destruct (workers s !! t_worker t) as [wk|] eqn:Hw; [|done].
  apply (Forall_lookup_1 _ _ _ _ He) in Hw. by destruct (w_phase wk).
Qed.

Lemma ended_run fatal s ts : all_ended s → run fatal s ts = s.
Proof. intros He. induction ts as [|t ts IH]; [done|]. by rewrite run_cons, ended_step. Qed.

Lemma run_app fatal s ts ts' : run fatal s (ts ++ ts')%list = run fatal (run fatal s ts) ts'.
Proof. apply fold_left_app. Qed.

#[local] Instance all_ended_dec s : Decision (all_ended s).
Proof. unfold all_ended. apply _. Defined.

Lemma drains fatal l m s rounds :
  queue_inv fatal l s → (remaining s ≤ m)%nat → (2 * m ≤ length rounds)%nat →
  Forall (fair_round (length (workers s))) rounds → all_ended (run fatal s (concat rounds)).
Proof.
  revert s rounds. induction m as [|m IH]; intros s rounds Hs Hm Hl Hf.
  - assert (all_ended s) as He; [|by rewrite ended_run].
    apply Forall_lookup. intros w wk Hw. unfold remaining in Hm.
    assert (weight wk ≤ sum_list_with weight (workers s))%nat.
    { apply sum_list_with_in. by eapply list_elem_of_lookup_2. }
    assert (weight wk = 0%nat) as E by lia. unfold weight in E. by destruct (w_phase wk).
  - destruct rounds as [|r1 [|r2 rounds]]; simpl in Hl; [lia..|].
    apply Forall_cons in Hf as [H1 Hf]. apply Forall_cons in Hf as [H2 Hf].
    cbn [concat]. rewrite !run_app.
    destruct (decide (all_ended s)) as [He|He]; [by rewrite !(ended_run _ s)|].
    pose proof (rounds_progress fatal l s r1 r2 Hs H1 H2 He).
    apply IH; [by repeat apply run_inv|lia|lia|]. by rewrite !run_workers.
Qed.

Lemma start_remaining l n : remaining (start l n) = (3 * length l + thread_count n l)%nat.
Proof.
  unfold remaining. simpl. f_equal. induction (thread_count n l) as [|k IH]; [done|]. simpl. by rewrite IH.
Qed.

Lemma start_workers l n : length (workers (start l n)) = thread_count n l.
Proof. simpl. by rewrite length_replicate. Qed.

Lemma thread_count_pos n l : (0 < thread_count n l)%nat.
Proof. unfold thread_count. lia. Qed.

(** * What an epoch returns *)

Lemma ended_no_runs s : all_ended s → omap runs (workers s) = [].
Proof.
  unfold all_ended. induction 1 as [|wk l He _ IH]; [done|]. csimpl. unfold runs at 1.
  by destruct (w_phase wk).
Qed.

Lemma record_ok c : is_ok (batch_of false c) = true.
Proof. unfold batch_of, settle_item. by destruct (queue_batch _ _ _). Qed.

Lemma record_returned l s w wk :
  queue_inv false l s → workers s !! w = Some wk → ended (w_phase wk) = true →
  w_phase wk = Returned ∧ w_results wk = calls_of w s ≫= records_of false.
Proof.
  intros Hs Hw He. pose proof (qi_accounted _ _ _ Hs w wk Hw) as Ha. unfold accounted in Ha.
  destruct (w_phase wk) as [| | | | |e]; try done; [by destruct Ha|].
  destruct Ha as (cs & c & _ & Hc). pose proof (record_ok c) as Hok. by rewrite Hc in Hok.
Qed.

Section collect.
Context (wall : nat → float) (l : list items) (s : queue).

Lemma collect_record order :
  queue_inv false l s → all_ended s → Forall (λ w, (w < length (workers s))%nat) order →
  collect wall s order =
    Some (Ok ((λ w, lane_of wall w (calls_of w s ≫= records_of false)) <$> order)).
Proof.
  intros Hs He. induction 1 as [|w order Hw _ IH]; [done|]. simpl. unfold result_of.
  apply lookup_lt_is_Some in Hw as [wk Hw]. rewrite Hw. simpl.
  destruct (record_returned l s w wk Hs Hw) as [-> ->].
  { by apply (Forall_lookup_1 _ _ _ _ He) in Hw. }
  simpl. by rewrite IH.
Qed.

(** The exception of a call is the exception of its worker. *)
Lemma collect_fatal order :
  queue_inv true l s → all_ended s → Forall (λ w, (w < length (workers s))%nat) order →
  ∃ r, collect wall s order = Some r ∧
    match r with
    | Err e => ∃ c, c ∈ executed s ∧ batch_of true c = Err e
    | Ok lanes => lanes = ((λ w, lane_of wall w (calls_of w s ≫= records_of true)) <$> order) ∧
        ∀ w c, w ∈ order → c ∈ calls_of w s → is_ok (batch_of true c) = true
    end.
Proof.
  intros Hs He. induction 1 as [|w order Hw _ IH].
  { eexists. split; [done|]. split; [done|]. by intros ? ? ?%elem_of_nil. }
  apply lookup_lt_is_Some in Hw as [wk Hw].
  assert (ended (w_phase wk) = true) as Hwe by exact (Forall_lookup_1 _ _ _ _ He Hw).
  pose proof (qi_accounted _ _ _ Hs w wk Hw) as Ha.
  unfold accounted in Ha. destruct (w_phase wk) as [| | | | |e] eqn:Hph; try done.
  - destruct Ha as [Hres Hok], IH as (r & Hcol & Hr).
    assert (collect wall s (w :: order) =
      Some (ls ← r; Ok (lane_of wall w (w_results wk) :: ls))) as ->.
    { cbn [collect]. rewrite Hcol. unfold result_of. rewrite Hw. simpl. by rewrite Hph. }
    destruct r as [lanes|e]; eexists; (split; [done|]); [|done]. simpl.
    destruct Hr as [-> Hr]. rewrite <- Hres. split; [done|]. intros v c [->|Hv]%elem_of_cons Hc; [|by eapply Hr].
    rewrite Forall_forall in Hok. by apply Hok.
  - destruct Ha as (cs & c & Hcs & Hc). exists (Err e). split.
    { simpl. unfold result_of. rewrite Hw. simpl. by rewrite Hph. }
    exists c. split; [|done].
    assert (c ∈ calls_of w s) as Hin by (rewrite Hcs; set_solver).
    by apply list_elem_of_filter in Hin as [_ ?].
Qed.
End collect.

(** ** The lanes *)

Lemma queue_branch_id_inj v w : queue_branch_id v = queue_branch_id w → v = w.
Proof.
  unfold queue_branch_id. intros E. apply (inj (String.append "queue_worker_")) in E.
  apply zero_pad_inj in E; lia.
Qed.

Lemma lanes_sorted ls :
  StronglySorted (λ a b, ¬ string_lt (lane_branch_id b) (lane_branch_id a)) (py_sort lane_lt ls).
Proof.
  apply py_sort_text.
Qed.

(** The order in which workers complete does not matter. *)
Lemma lanes_unique wall (f : nat → list items) n order :
  order ≡ₚ seq 0 n →
  py_sort lane_lt ((λ w, lane_of wall w (f w)) <$> order) =
  py_sort lane_lt ((λ w, lane_of wall w (f w)) <$> seq 0 n).
Proof.
  intros Ho. apply (sorted_unique lane_branch_id string_lt); [| |apply lanes_sorted..].
  - rewrite !py_sort_perm. by rewrite Ho.
  - rewrite py_sort_perm, Ho, <- list_fmap_compose. apply NoDup_fmap_2; [|apply NoDup_seq].
    intros v w. apply queue_branch_id_inj.
Qed.

Lemma calls_partition fatal l s :
  queue_inv fatal l s → (seq 0 (length (workers s)) ≫= λ w, calls_of w s) ≡ₚ executed s.
Proof.
  intros Hs. apply group_perm; [apply NoDup_seq|]. intros c Hc. apply elem_of_seq.
  pose proof (qi_calls _ _ _ Hs) as H. rewrite Forall_forall in H. specialize (H c Hc). lia.
Qed.

Lemma lanes_records wall fatal l s ls :
  queue_inv fatal l s →
  ls ≡ₚ (λ w, lane_of wall w (calls_of w s ≫= records_of fatal)) <$> seq 0 (length (workers s)) →
  ls ≫= lane_results ≡ₚ executed s ≫= records_of fatal.
Proof.
  intros Hs ->. rewrite <- (calls_partition fatal l s Hs), list_fmap_bind, bind_bind.
  done.
Qed.

Lemma returned_executed fatal l s w wk :
  queue_inv fatal l s → all_ended s → workers s !! w = Some wk → w_phase wk = Returned →
  c_item <$> executed s ≡ₚ l.
Proof.
  intros Hs He Hw Hph. rewrite <- (qi_items _ _ _ Hs), (qi_returned _ _ _ Hs w wk Hw Hph).
  by rewrite ended_no_runs.
Qed.

(** * Theorems *)

(** C6: Items in flight never share a concurrency key: in every state that the
    workers can reach, two workers hold items with disjoint keys, the keys in
    flight are exactly those of the items held, and there are as many workers
    as [thread_count] says. *)
Theorem queue_exclusive fatal l n ts :
  let s := run fatal (start l n) ts in
  (∀ v w a b, v ≠ w → held s v = Some a → held s w = Some b → keys_of a ## keys_of b) ∧
  (∀ k, k ∈ in_flight s ↔ ∃ w a, held s w = Some a ∧ k ∈ keys_of a) ∧
  length (workers s) = thread_count n l.
Proof.
  intros s. assert (queue_inv fatal l s) as Hs by apply run_inv, start_inv.
  split_and!; [apply (qi_disjoint _ _ _ Hs)|apply (qi_keys _ _ _ Hs)|].
  unfold s. by rewrite run_workers, start_workers.
Qed.

(** No item is lost, duplicated or executed twice: in every state that the
    workers can reach, the pending items, the items being executed and the
    items whose call of [execute] has ended are together the items of the
    epoch; and a worker returns only when nothing is pending. *)
Theorem queue_exactly_once fatal l n ts :
  let s := run fatal (start l n) ts in
  (pending s ++ omap runs (workers s) ++ (c_item <$> executed s) ≡ₚ l)%list ∧
  ∀ w wk, workers s !! w = Some wk → w_phase wk = Returned → pending s = [].
Proof.
  intros s. assert (queue_inv fatal l s) as Hs by apply run_inv, start_inv.
  split; [apply (qi_items _ _ _ Hs)|apply (qi_returned _ _ _ Hs)].
Qed.

(** The queue drains: under any answers of [execute], as many fair rounds
    as twice the remaining work (three turns per item and one per worker) end
    every worker, in spite of the polling of workers that find no item. *)
Theorem queue_drains fatal l n rounds :
  Forall (fair_round (thread_count n l)) rounds →
  (2 * (3 * length l + thread_count n l) ≤ length rounds)%nat →
  all_ended (run fatal (start l n) (concat rounds)).
Proof.
  intros Hf Hl. rewrite <- start_remaining in Hl. rewrite <- start_workers in Hf.
  by eapply drains; [apply start_inv|done|done|].
Qed.

Lemma settle_nonempty fatal item o d rs : settle fatal item o d = Ok rs → rs ≠ [].
Proof.
  unfold settle_item, queue_batch. destruct o as [v|e]; simpl.
  2: { destruct fatal; [done|]. by intros [= <-]. }
  destruct (match v with PMap _ d => _ | _ => _ end) as [batch|e]; simpl.
  2: { destruct fatal; [done|]. by intros [= <-]. }
  destruct batch as [|b batch]; simpl.
  { destruct fatal; [done|]. by intros [= <-]. }
  destruct (complete_record type_name item b) as [b'|e]; simpl.
  2: { destruct fatal; [done|]. by intros [= <-]. }
  destruct (rmap _ batch) as [bs|e]; simpl; [by intros [= <-]|].
  destruct fatal; [done|]. by intros [= <-].
Qed.

Lemma epoch_start fatal l n rounds order :
  Forall (fair_round (thread_count n l)) rounds →
  (2 * (3 * length l + thread_count n l) ≤ length rounds)%nat → order ≡ₚ seq 0 (thread_count n l) →
  let s := run fatal (start l n) (concat rounds) in
  queue_inv fatal l s ∧ all_ended s ∧ length (workers s) = thread_count n l ∧
  Forall (λ w, (w < length (workers s))%nat) order.
Proof.
  intros Hf Hl Ho s. assert (length (workers s) = thread_count n l) as Hn
    by (unfold s; by rewrite run_workers, start_workers).
  split_and!; [apply run_inv, start_inv| |done|].
  - rewrite <- start_remaining in Hl. rewrite <- start_workers in Hf.
    by eapply drains; [apply start_inv|done|done|].
  - rewrite Hn, Ho. apply Forall_forall. intros w ?%elem_of_seq. lia.
Qed.

Lemma record_epoch_spec wall l n policy rounds :
  normalize_item_failure_policy str_of policy = Ok ITEM_FAILURE_POLICY_RECORD →
  Forall (fair_round (thread_count n l)) rounds →
  (2 * (3 * length l + thread_count n l) ≤ length rounds)%nat →
  ∃ calls lanes, c_item <$> calls ≡ₚ l ∧
    (∀ order, order ≡ₚ seq 0 (thread_count n l) →
       run_queue_epoch str_of type_name retryable wall l n policy (concat rounds) order =
         Some (Ok lanes)) ∧
    StronglySorted (λ a b, ¬ string_lt (lane_branch_id b) (lane_branch_id a)) lanes ∧
    lanes ≡ₚ (λ w, lane_of wall w (filter (λ c, c_worker c = w) calls ≫= records_of false))
             <$> seq 0 (thread_count n l) ∧
    lanes ≫= lane_results ≡ₚ calls ≫= records_of false ∧
    Forall (λ c, records_of false c ≠ []) calls.
Proof.
  intros Hp Hf Hl. set (s := run false (start l n) (concat rounds)).
  destruct (epoch_start false l n rounds (seq 0 (thread_count n l)) Hf Hl) as (Hs & He & Hn & _); [done|].
  fold s in Hs, He, Hn. set (f := λ w, calls_of w s ≫= records_of false).
  assert (is_Some (workers s !! 0%nat)) as [wk Hw].
  { apply lookup_lt_is_Some. rewrite Hn. apply thread_count_pos. }
  destruct (record_returned l s 0 wk Hs Hw) as [Hph _].
  { by apply (Forall_lookup_1 _ _ _ _ He) in Hw. }
  exists (executed s), (py_sort lane_lt ((λ w, lane_of wall w (f w)) <$> seq 0 (thread_count n l))).
  split_and!.
  - by eapply returned_executed.
  - intros order Ho. destruct (epoch_start false l n rounds order Hf Hl Ho) as (_ & _ & _ & Hlt).
    unfold run_queue_epoch. rewrite Hp, bool_decide_false by done. fold s in Hlt |- *.
    rewrite (collect_record wall l) by done. simpl. do 2 f_equal. by apply lanes_unique.
  - apply lanes_sorted.
  - by rewrite py_sort_perm.
  - eapply lanes_records; [done|]. by rewrite py_sort_perm, Hn.
  - apply Forall_forall. intros c _. unfold records_of. pose proof (record_ok c) as Hok.
    destruct (batch_of false c) eqn:E; [|done]. by eapply settle_nonempty.
Qed.


(** Under the fatal policy an epoch always ends too: it returns lanes
    exactly when no call failed, and then every item was executed exactly
    once; otherwise it raises the failure of one of the calls. *)
Theorem queue_fatal_epoch wall l n policy rounds order :
  normalize_item_failure_policy str_of policy = Ok ITEM_FAILURE_POLICY_FATAL →
  Forall (fair_round (thread_count n l)) rounds →
  (2 * (3 * length l + thread_count n l) ≤ length rounds)%nat →
  order ≡ₚ seq 0 (thread_count n l) →
  ∃ r, run_queue_epoch str_of type_name retryable wall l n policy (concat rounds) order = Some r ∧
    let calls := executed (run true (start l n) (concat rounds)) in
    match r with
    | Ok lanes => Forall (λ c, is_ok (batch_of true c) = true) calls ∧ c_item <$> calls ≡ₚ l ∧
                  lanes ≫= lane_results ≡ₚ calls ≫= records_of true
    | Err e => ∃ c, c ∈ calls ∧ batch_of true c = Err e
    end.
Proof.
  intros Hp Hf Hl Ho. set (s := run true (start l n) (concat rounds)).
  destruct (epoch_start true l n rounds order Hf Hl Ho) as (Hs & He & Hn & Hlt).
  fold s in Hs, He, Hn, Hlt. unfold run_queue_epoch. rewrite Hp, bool_decide_true by done. fold s.
  destruct (collect_fatal wall l s order Hs He Hlt) as (r & -> & Hr). simpl.
  destruct r as [lanes|e]; eexists; (split; [done|]); [|done]. simpl. destruct Hr as [-> Hok].
  assert (Forall (λ c, is_ok (batch_of true c) = true) (executed s)) as Hall.
  { apply Forall_forall. intros c Hc. apply (Hok (c_worker c)).
    - rewrite Ho. apply elem_of_seq. pose proof (qi_calls _ _ _ Hs) as Hcalls.
      rewrite Forall_forall in Hcalls. specialize (Hcalls c Hc). lia.
    - by apply list_elem_of_filter. }
  split_and!; [done| |].
  - assert (is_Some (workers s !! 0%nat)) as [wk Hw].
    { apply lookup_lt_is_Some. rewrite Hn. apply thread_count_pos. }
    assert (ended (w_phase wk) = true) as Hend by exact (Forall_lookup_1 _ _ _ _ He Hw).
    eapply (returned_executed true l s 0 wk); [done..|].
    pose proof (qi_accounted _ _ _ Hs 0%nat wk Hw) as Ha. unfold accounted in Ha.
    destruct (w_phase wk) as [| | | | |e]; try done. destruct Ha as (cs & c & Hcs & Hc).
    assert (c ∈ calls_of 0 s) as Hin by (rewrite Hcs; set_solver).
    apply list_elem_of_filter in Hin as [_ Hin]. rewrite Forall_forall in Hall.
    specialize (Hall c Hin). by rewrite Hc in Hall.
  - eapply lanes_records; [done|]. rewrite py_sort_perm, Hn. by rewrite Ho.
Qed.

(** * Episode groups in the queue *)

Lemma item_keys_stripped item k :
  k ∈ item_concurrency_keys str_of item → py_strip k = k ∧ k ≠ "".
Proof.
  assert (∀ s, text_or_none (py_strip s) = Some k → py_strip k = k ∧ k ≠ "") as Ht.
  { intros s. unfold text_or_none. destruct (py_strip s) as [|c t] eqn:E; [done|]. simpl.
    intros [= <-]. split; [|done]. rewrite <- E. apply py_strip_idem. }
  unfold item_concurrency_keys. rewrite elem_of_uniq.
  set (keys := match pget "concurrency_keys" item with PSeq _ l => _ | _ => _ end).
  assert (k ∈ keys → py_strip k = k ∧ k ≠ "") as Hk.
  { unfold keys. destruct (pget _ item); try by intros ?%elem_of_nil.
    intros (v & _ & Hv)%list_elem_of_omap. destruct (is_none v); [done|]. by eapply Ht. }
  destruct keys as [|k0 keys]; [|done]. destruct (text_or_none _) eqn:E; simpl; [|by intros ?%elem_of_nil].
  intros ->%list_elem_of_singleton. by eapply Ht.
Qed.

Lemma key_texts_id l :
  Forall (λ k, py_strip k = k ∧ k ≠ "") l → key_texts str_of (PStr <$> l) = l.
Proof.
  unfold key_texts. induction 1 as [|k l [Hk Hne] _ IH]; [done|]. csimpl. rewrite Hk.
  assert (text_or_none k = Some k) as -> by (by destruct k). by rewrite <- IH at 2.
Qed.

(** A unit holds the keys of all its members. *)
Lemma unit_keys arm epoch vs L u x :
  u ∈ make_units str_of arm epoch 0 vs L → x ∈ unit_members u → keys_of x ⊆ keys_of (unit_record u).
Proof.
  intros Hu Hx k. unfold HarnessQueue.keys_of. rewrite !elem_of_list_to_set. intros Hk.
  destruct u as [item reason|g].
  - apply list_elem_of_singleton in Hx as ->. unfold item_concurrency_keys, unit_record in *.
    by rewrite !pget_pset_ne by done.
  - assert (g ∈ groups_of (make_units str_of arm epoch 0 vs L)) as Hg.
    { apply list_elem_of_omap. by exists (GroupUnit g). }
    apply make_units_groups in Hg as (m & seed & _ & _ & ->).
    set (g := make_group str_of arm epoch m vs seed) in *. simpl in Hx.
    assert (k ∈ concurrency_keys g) as Hkg.
    { unfold g. simpl. apply elem_of_uniq, list_elem_of_bind. eauto. }
    assert (Forall (λ k, py_strip k = k ∧ k ≠ "") (concurrency_keys g)) as Hall.
    { apply Forall_forall. intros k' Hk'. apply elem_of_uniq, list_elem_of_bind in Hk' as (y & ? & _).
      by eapply item_keys_stripped. }
    unfold item_concurrency_keys. change (pget "concurrency_keys" (unit_record (GroupUnit g)))
      with (PSeq false (PStr <$> concurrency_keys g)).
    cbv beta iota zeta. rewrite key_texts_id by done. destruct (concurrency_keys g); [by apply elem_of_nil in Hkg|].
    by apply elem_of_uniq.
Qed.

Lemma held_item fatal l s w a : queue_inv fatal l s → held s w = Some a → a ∈ l.
Proof.
  intros Hs Hh. unfold held in Hh. destruct (workers s !! w) as [wk|] eqn:Hw; [|done]. simpl in Hh.
  rewrite <- (qi_items _ _ _ Hs), !elem_of_app. pose proof (qi_accounted _ _ _ Hs w wk Hw) as Ha.
  unfold accounted in Ha. destruct (w_phase wk) as [| |item|item b| |] eqn:Hph; simplify_eq/=.
  - right; left. apply list_elem_of_omap. exists wk. unfold runs. rewrite Hph. split; [|done].
    by eapply list_elem_of_lookup_2.
  - right; right. destruct Ha as (cs & c & Hcs & <- & _). apply list_elem_of_fmap_2.
    assert (c ∈ calls_of w s) as Hin by (rewrite Hcs; set_solver).
    by apply list_elem_of_filter in Hin as [_ ?].
Qed.

(** Episode groups that share a concurrency key never run at the same time:
    when the queue runs the units of a build, two workers always hold units
    such that no member of the one shares a key with a member of the other. *)
Theorem episode_units_exclusive repr_of copied arm epoch fatal units policy n ts :
  build_episode_execution_units str_of repr_of copied arm epoch fatal = Ok units →
  let s := run policy (start (unit_record <$> units) n) ts in
  ∀ v w a b, v ≠ w → held s v = Some a → held s w = Some b →
  ∃ ua ub, ua ∈ units ∧ ub ∈ units ∧ a = unit_record ua ∧ b = unit_record ub ∧
    ∀ x y, x ∈ unit_members ua → y ∈ unit_members ub → keys_of x ## keys_of y.
Proof.
  intros Hb s v w a b Hvw Ha Hbw.
  assert (queue_inv policy (unit_record <$> units) s) as Hs by apply run_inv, start_inv.
  pose proof (held_item _ _ _ _ _ Hs Ha) as (ua & -> & Hua)%list_elem_of_fmap.
  pose proof (held_item _ _ _ _ _ Hs Hbw) as (ub & -> & Hub)%list_elem_of_fmap.
  exists ua, ub. split_and!; [done..|]. intros x y Hx Hy.
  pose proof (qi_disjoint _ _ _ Hs v w _ _ Hvw Ha Hbw) as Hd.
  destruct (build_spec str_of repr_of copied arm epoch) as (vs & _ & Hf & Ht).
  assert (units = make_units str_of arm epoch 0 vs (imap pair copied)) as ->.
  { destruct fatal; [rewrite Ht in Hb; by destruct (head _); simplify_eq|congruence]. }
  pose proof (unit_keys _ _ _ _ _ _ Hua Hx). pose proof (unit_keys _ _ _ _ _ _ Hub Hy). set_solver.
Qed.
End queue.

(** * An example *)

(** Two workers, three items, of which the first two share a family. *)
Module QueueExample.
Definition text (_ : pyval) : string := "?".
Definition retry (e : exn) : bool := false.
Definition wall (_ : nat) : float := f1.

Definition item (id family : string) : items :=
  as_items [("item_id", PStr id); ("family", PStr family)].
Definition epoch_items : list items := [item "a" "f"; item "b" "f"; item "c" "g"].

Definition turn_of (w : nat) : turn :=
  {| t_worker := w; t_minutes := f0;
     t_outcome := if decide (w = 0%nat) then Ok (PMap false (as_items [("score", PInt 1)]))
                  else Err (ValueError "boom") |}.
Definition rounds : list (list turn) := replicate 22 [turn_of 1; turn_of 0].

Lemma rounds_fair : Forall (fair_round (thread_count 2 epoch_items)) rounds.
Proof.
  apply Forall_replicate. intros w Hw. assert (thread_count 2 epoch_items = 2%nat) as E by reflexivity.
  rewrite E in Hw. assert (w = 0%nat ∨ w = 1%nat) as [->| ->] by lia; set_solver.
Qed.

Definition observed (r : option (res (list lane))) : option (res (list (string * list pyval))) :=
  match r with
  | Some (Ok ls) => Some (Ok ((λ a, (lane_branch_id a, lane_item_ids a)) <$> ls))
  | Some (Err e) => Some (Err e)
  | None => None
  end.

Notation epoch policy := (run_queue_epoch text text retry wall epoch_items 2 (PStr policy) (concat rounds)).

Lemma queue_drains_witness :
  all_ended (run text text retry false (start epoch_items 2) (concat rounds)).
Proof. apply queue_drains; [apply rounds_fair|vm_compute; lia]. Defined.


Lemma queue_fatal_epoch_witness :
  (∃ r, epoch "fatal" [1%nat; 0%nat] = Some r) ∧
  observed (epoch "fatal" [1%nat; 0%nat]) = Some (Err (ValueError "boom")).
Proof.
  split; [|vm_compute; reflexivity].
  destruct (queue_fatal_epoch text text retry wall epoch_items 2 (PStr "fatal") rounds [1%nat; 0%nat])
    as (r & ? & _); [reflexivity|apply rounds_fair|vm_compute; lia| |eauto].
  apply Permutation_swap.
Defined.

Definition units : list execution_unit :=
  match build_episode_execution_units text text
          [EpisodeExample.variant; EpisodeExample.seed; item "x" "f"; item "y" "g"] "arm" 3 false with
  | Ok l => l | Err _ => [] end.

(** The second worker skips the group of "x", whose family is in flight. *)
Lemma episode_units_exclusive_witness :
  let s := run text text retry false (start (unit_record <$> units) 2) [turn_of 0; turn_of 1] in
  ∃ a b, held s 0 = Some a ∧ held s 1 = Some b ∧ pget "seed_item_id" b = PStr "y" ∧
    ∃ ua ub, a = unit_record ua ∧ b = unit_record ub ∧
      ∀ x y, x ∈ unit_members ua → y ∈ unit_members ub → keys_of text x ## keys_of text y.
Proof.
  intros s. eexists _, _. do 3 (split; [vm_compute; reflexivity|]).
  edestruct (episode_units_exclusive text text retry text
    [EpisodeExample.variant; EpisodeExample.seed; item "x" "f"; item "y" "g"] "arm" 3 false units false 2
    [turn_of 0; turn_of 1] ltac:(reflexivity) 0%nat 1%nat) as (ua & ub & _ & _ & Ha & Hb & H).
  - lia.
  - vm_compute. reflexivity.
  - vm_compute. reflexivity.
  - exists ua, ub. auto.
Defined.
End QueueExample.
