(* ===== verification/RouterState.v ===== *)
(** Novelty and routing state of the Explore harness:
    [loopx/capabilities/explore/router_state.py], and the class [NoveltyLedger]
    of [loopx/capabilities/explore/harness_runtime.py].

    Records, probes and states have the types the docstrings give them; the
    numbers of the configuration are [int] or [float].  Division raises
    [ZeroDivisionError], [int] of a float that is not finite raises.  What
    depends on the platform is a parameter: [py_sum], the builtin [sum] of
    floats (compensated from Python 3.12 on), [math_log], and [float] of a
    text. *)

From stdpp Require Import base strings list sets gmap.
From Stdlib Require Import ZArith Lia SpecFloat.
From S2P Require Import Prelude PyFloat PyValue.

(** * First-seen credit *)

(** The keys of [l] that are not yet seen, with their weights, in order. *)
Fixpoint first_seen (seen : gset string) (l : list (string * float))
  : gset string * list (string * float) :=
  match l with
  | [] => (seen, [])
  | (key, weight) :: l' =>
      if bool_decide (key ∈ seen) then first_seen seen l'
      else let '(seen', credited) := first_seen ({[ key ]} ∪ seen) l' in
           (seen', (key, weight) :: credited)
  end.

(** [value += weight] for each. *)
Definition add_weights (value : float) (l : list (string * float)) : float :=
  fold_left (λ v kw, fadd v kw.2) l value.

Definition flag_pseudo_key (family flag : string) : string := "flag:" ++ family ++ ":" ++ flag.

Definition text_or (default text : string) : string := if is_empty text then default else text.

Section platform.
Variables (py_sum : list float → float) (math_log : float → float) (parse_float : string → option float).

(** ** [NoveltyLedger] *)

Record observation := {
  o_family : string;
  observation_keys : list string;
  weighted_flags : list (string * float)
}.

Definition DEFAULT_OBSERVATION_WEIGHT : float := f1.

Definition ledger_raw_value (record : observation) : float :=
  fadd (fmul DEFAULT_OBSERVATION_WEIGHT (float_of_Z (Z.of_nat (length (observation_keys record)))))
    (py_sum (weighted_flags record).*2).

Definition weigh_keys (weight : float) (keys : list string) : list (string * float) :=
  (λ key, (key, weight)) <$> keys.

Definition weigh_flags (family : string) (flags : list (string * float)) : list (string * float) :=
  (λ fw, (flag_pseudo_key family fw.1, fw.2)) <$> flags.

(** [credit]: the ledger, the novel value and the number of novel keys. *)
Definition ledger_credit (seen : gset string) (record : observation) : gset string * float * Z :=
  let family := text_or "general" (o_family record) in
  let '(seen, keys) := first_seen seen (weigh_keys DEFAULT_OBSERVATION_WEIGHT (observation_keys record)) in
  let '(seen, flags) := first_seen seen (weigh_flags family (weighted_flags record)) in
  (seen, add_weights (add_weights f0 keys) flags, Z.of_nat (length keys)).

(** * Router state *)

Definition OBSERVATION_WEIGHT : float := f1.
Definition ROUTER_MIN_DURATION_MINUTES : float := lit 1 20.

Definition DEFAULT_ROUTER_CONFIG : list (string * num) :=
  [("value_rate_alpha", NFloat (lit 3 10)); ("duration_alpha", NFloat (lit 3 10));
   ("accept_rate_alpha", NFloat (lit 3 10)); ("infra_alpha", NFloat (lit 1 2));
   ("bias_gamma", NFloat (lit 1 10)); ("bias_decay", NFloat (lit 95 100));
   ("bias_clamp", NFloat (lit 1 2)); ("coverage_horizon_epochs", NInt 4);
   ("surplus_share_factor", NFloat (lit 2 1)); ("surplus_novelty_ceiling", NFloat (lit 1 10));
   ("ucb_coefficient", NFloat (lit 6 10)); ("ucb_cap", NFloat (lit 15 10));
   ("coverage_bonus_cap", NFloat (lit 1 2)); ("novelty_floor", NFloat (lit 5 100));
   ("novelty_debt_threshold", NFloat (lit 5 100)); ("infra_penalty_weight", NFloat (lit 1 2));
   ("cold_start_value_rate", NFloat f1); ("cold_start_duration_minutes", NFloat f1);
   ("cold_start_accept_rate", NFloat (lit 8 10)); ("routing_multiplier_floor", NFloat (lit 5 100))].

Record family_record := {
  value_rate_ema : option float;
  duration_ema : option float;
  accept_rate_ema : option float;
  novelty_rate : option float;
  infra_ema : float;
  runs : Z;
  last_run_epoch : option Z;
  bias : float
}.

Definition blank_family : family_record :=
  {| value_rate_ema := None; duration_ema := None; accept_rate_ema := None; novelty_rate := None;
     infra_ema := f0; runs := 0; last_run_epoch := None; bias := f0 |}.

(** [seen_observation_keys] is kept as a set; the code stores it sorted. *)
Record router_state := {
  rs_config : list (string * num);
  updated_epoch : Z;
  dispatches : Z;
  observed_epochs : Z;
  seen_observation_keys : gset string;
  families : list (string * family_record);
  last_epoch : Z;
  minutes_by_family : list (string * float);
  novel_value_by_family : list (string * float)
}.

Definition scope_family_key (family : string) : string :=
  let clean := strip_char (Ascii.ascii_of_N 47) (py_strip family) in
  if is_empty clean then "topic:general" else "scope:artifacts/" ++ clean.

(** Overrides of known keys. *)
Definition merge_config (overrides : list (string * num)) : list (string * num) :=
  fold_left (λ merged kv, if dict_has kv.1 merged then dict_set kv.1 kv.2 merged else merged)
    overrides DEFAULT_ROUTER_CONFIG.

Definition initial_router_state (config : list (string * num)) : router_state :=
  {| rs_config := merge_config config; updated_epoch := 0; dispatches := 0; observed_epochs := 0;
     seen_observation_keys := ∅; families := []; last_epoch := 0; minutes_by_family := [];
     novel_value_by_family := [] |}.

Definition cfg (s : router_state) (key : string) : num :=
  default (NInt 0) (dict_get key (merge_config (rs_config s))).
Definition cfg_float (s : router_state) (key : string) : float := num_float (cfg s key).

Definition ema (previous : option float) (sample alpha : float) : float :=
  match previous with
  | None => sample
  | Some p => fadd (fmul (fsub f1 alpha) p) (fmul alpha sample)
  end.

(** ** [observe_epoch] *)

(** [accepted_count] and [attempt_count] are arbitrary values or absent. *)
Record probe := {
  p_family : string;
  p_duration_minutes : float;
  p_observation_keys : list string;
  p_weighted_flags : list (string * float);
  p_accepted : bool;
  p_retryable_infra_error : bool;
  p_accepted_count : pyval;
  p_attempt_count : pyval
}.

Record samples := {
  sm_value_rate : list float;
  sm_duration : list float;
  sm_novelty : list float;
  sm_accept : list float;
  sm_accept_weight : list float;
  sm_infra : list float
}.

Definition no_samples : samples :=
  {| sm_value_rate := []; sm_duration := []; sm_novelty := []; sm_accept := [];
     sm_accept_weight := []; sm_infra := [] |}.

(** [float(value)], [None] when it raises one of the exceptions caught. *)
Definition count_float (v : pyval) : option float :=
  match v with
  | PInt n => let x := float_of_Z n in if isfinite x then Some x else None
  | PBool b => Some (if b then f1 else f0)
  | PFloat x => Some x
  | PStr s => parse_float s
  | _ => None
  end.

Definition is_bool (v : pyval) : bool := match v with PBool _ => true | _ => false end.

Definition counts_are_valid (accepted_count attempt_count : pyval) (accepted attempts : float) : bool :=
  negb (is_bool accepted_count) && negb (is_bool attempt_count) && isfinite accepted
  && isfinite attempts && is_integer accepted && is_integer attempts && fltb f0 attempts
  && (fleb f0 accepted && fleb accepted attempts).

(** The acceptance sample of a probe and its weight. *)
Definition accept_sample (p : probe) : res (float * float) :=
  let plain := (if p_accepted p then f1 else f0, f1) in
  if is_none (p_accepted_count p) && is_none (p_attempt_count p) then Ok plain
  else
    match count_float (p_accepted_count p), count_float (p_attempt_count p) with
    | Some accepted, Some attempts =>
        if counts_are_valid (p_accepted_count p) (p_attempt_count p) accepted attempts
        then rate ← py_div accepted attempts; Ok (rate, attempts)
        else Ok plain
    | _, _ => Ok plain
    end.

(** The locals of the loop over the probes. *)
Record probe_scan := {
  ps_seen : gset string;
  ps_minutes : list (string * float);
  ps_novel : list (string * float);
  ps_samples : list (string * samples)
}.

Definition tally (key : string) (x : float) (d : list (string * float)) : list (string * float) :=
  dict_set key (fadd (default f0 (dict_get key d)) x) d.

Definition probe_family (p : probe) : string := text_or "topic:general" (p_family p).

Definition scan_probe (a : probe_scan) (p : probe) : res probe_scan :=
  let family := probe_family p in
  let duration := fmax ROUTER_MIN_DURATION_MINUTES (or_zero (p_duration_minutes p)) in
  let raw_value := fadd (fmul (float_of_Z (Z.of_nat (length (p_observation_keys p)))) OBSERVATION_WEIGHT)
                     (py_sum (p_weighted_flags p).*2) in
  let '(seen, keys) := first_seen (ps_seen a) (weigh_keys OBSERVATION_WEIGHT (p_observation_keys p)) in
  let '(seen, flags) := first_seen seen (weigh_flags family (p_weighted_flags p)) in
  let novel_value := add_weights (add_weights f0 keys) flags in
  value_rate ← py_div raw_value duration;
  novelty ← (if fltb f0 raw_value then py_div novel_value raw_value else Ok f0);
  accept ← accept_sample p;
  let sm := default no_samples (dict_get family (ps_samples a)) in
  Ok {| ps_seen := seen; ps_minutes := tally family duration (ps_minutes a);
        ps_novel := tally family novel_value (ps_novel a);
        ps_samples := dict_set family
          {| sm_value_rate := sm_value_rate sm ++ [value_rate]; sm_duration := sm_duration sm ++ [duration];
             sm_novelty := sm_novelty sm ++ [novelty]; sm_accept := sm_accept sm ++ [accept.1];
             sm_accept_weight := sm_accept_weight sm ++ [accept.2];
             sm_infra := sm_infra sm ++ [if p_retryable_infra_error p then f1 else f0] |}%list
          (ps_samples a) |}.

Fixpoint scan_probes (a : probe_scan) (l : list probe) : res probe_scan :=
  match l with [] => Ok a | p :: l' => a' ← scan_probe a p; scan_probes a' l' end.

Definition mean (values : list float) : res float :=
  py_div_int (py_sum values) (Z.max 1 (Z.of_nat (length values))).

Definition round4 : float → float := py_round 4.

(** One family of the epoch. *)
Definition fold_family (s : router_state) (epoch : Z) (record : family_record) (sm : samples)
  : res family_record :=
  value_rate ← mean (sm_value_rate sm);
  duration ← mean (sm_duration sm);
  accept_mean ← py_div (py_sum (zip_with fmul (sm_accept sm) (sm_accept_weight sm)))
                       (fmax f1 (py_sum (sm_accept_weight sm)));
  infra ← mean (sm_infra sm);
  novelty ← mean (sm_novelty sm);
  Ok {| value_rate_ema := Some (round4 (ema (value_rate_ema record) value_rate (cfg_float s "value_rate_alpha")));
        duration_ema := Some (round4 (ema (duration_ema record) duration (cfg_float s "duration_alpha")));
        accept_rate_ema :=
          Some (round4 (ema (accept_rate_ema record) accept_mean (cfg_float s "accept_rate_alpha")));
        novelty_rate := Some (round4 novelty);
        infra_ema := round4 (ema (Some (or_zero (infra_ema record))) infra (cfg_float s "infra_alpha"));
        runs := (runs record + Z.of_nat (length (sm_value_rate sm)))%Z; last_run_epoch := Some epoch;
        bias := bias record |}.

Fixpoint fold_families (s : router_state) (epoch : Z) (l : list (string * samples))
    (fs : list (string * family_record)) : res (list (string * family_record)) :=
  match l with
  | [] => Ok fs
  | (family, sm) :: l' =>
      record ← fold_family s epoch (default blank_family (dict_get family fs)) sm;
      fold_families s epoch l' (dict_set family record fs)
  end.

Definition observe_epoch (s : router_state) (epoch : Z) (probes : list probe) : res router_state :=
  a ← scan_probes {| ps_seen := seen_observation_keys s; ps_minutes := []; ps_novel := [];
                     ps_samples := [] |} probes;
  fs ← fold_families s epoch (ps_samples a) (families s);
  Ok {| rs_config := rs_config s; updated_epoch := updated_epoch s;
        dispatches := (dispatches s + Z.of_nat (length probes))%Z;
        observed_epochs := (observed_epochs s + 1)%Z; seen_observation_keys := ps_seen a;
        families := fs; last_epoch := epoch;
        minutes_by_family := prod_map id round4 <$> ps_minutes a;
        novel_value_by_family := prod_map id round4 <$> ps_novel a |}.

(** ** [predicted_novelty] and [advance_epoch] *)

Definition predicted_novelty (s : router_state) (family : string) : float :=
  match dict_get family (families s) with
  | None => f1
  | Some record =>
      if (runs record =? 0)%Z then f1
      else match novelty_rate record with
           | None => f1
           | Some last => fmax (cfg_float s "novelty_floor") last
           end
  end.

Definition fabs (x : float) : float := SFabs x.

Definition ensure_family (fs : list (string * family_record)) (family : string)
  : list (string * family_record) :=
  if dict_has family fs then fs else dict_set family blank_family fs.

(** The [debt] of a family, and its [surplus]. *)
Definition in_debt (s : router_state) (epoch horizon : Z) (family : string) (record : family_record) : bool :=
  let epochs_since := match last_run_epoch record with
                      | Some last_run => (epoch - last_run)%Z
                      | None => (horizon + 1)%Z
                      end in
  (horizon <? epochs_since)%Z && fltb (cfg_float s "novelty_debt_threshold") (predicted_novelty s family).

Definition in_surplus (s : router_state) (fair_share : float) (family : string) (record : family_record)
  : bool :=
  let spent := default f0 (dict_get family (minutes_by_family s)) in
  fltb f0 fair_share && fltb (fmul (cfg_float s "surplus_share_factor") fair_share) spent
  && match novelty_rate record with
     | Some novelty => fltb novelty (cfg_float s "surplus_novelty_ceiling")
     | None => false
     end.

Definition bool_Z (b : bool) : Z := if b then 1 else 0.

Definition clamp_bias (clamp b : float) : float := fmax (fopp clamp) (fmin clamp b).

Definition set_bias (record : family_record) (b : float) : family_record :=
  {| value_rate_ema := value_rate_ema record; duration_ema := duration_ema record;
     accept_rate_ema := accept_rate_ema record; novelty_rate := novelty_rate record;
     infra_ema := infra_ema record; runs := runs record; last_run_epoch := last_run_epoch record;
     bias := b |}.

Definition with_families (s : router_state) (fs : list (string * family_record)) : router_state :=
  {| rs_config := rs_config s; updated_epoch := updated_epoch s; dispatches := dispatches s;
     observed_epochs := observed_epochs s; seen_observation_keys := seen_observation_keys s;
     families := fs; last_epoch := last_epoch s; minutes_by_family := minutes_by_family s;
     novel_value_by_family := novel_value_by_family s |}.

Definition advance_family (s : router_state) (epoch horizon : Z) (eligible : list string)
    (fair_share : float) (fr : string * family_record) : string * family_record :=
  let '(family, record) := fr in
  let member := bool_decide (family ∈ eligible) in
  let debt := bool_Z (member && in_debt s epoch horizon family record) in
  let surplus := bool_Z (member && in_surplus s fair_share family record) in
  let b := fadd (fmul (cfg_float s "bias_decay") (or_zero (bias record)))
                (fmul (cfg_float s "bias_gamma") (float_of_Z (debt - surplus))) in
  (family, set_bias record (round4 (clamp_bias (fabs (cfg_float s "bias_clamp")) b))).

Definition advance_epoch (s : router_state) (epoch : Z) (eligible : list string) : res router_state :=
  let s := with_families s (fold_left ensure_family eligible (families s)) in
  fair_share ← match eligible with
    | [] => Ok f0
    | _ => py_div_int (py_sum (minutes_by_family s).*2) (Z.max 1 (Z.of_nat (length eligible)))
    end;
  horizon0 ← num_int (cfg s "coverage_horizon_epochs");
  let horizon := Z.max 1 horizon0 in
  let fs := advance_family s epoch horizon eligible fair_share <$> families s in
  Ok {| rs_config := rs_config s; updated_epoch := epoch; dispatches := dispatches s;
        observed_epochs := observed_epochs s; seen_observation_keys := seen_observation_keys s;
        families := fs; last_epoch := last_epoch s; minutes_by_family := minutes_by_family s;
        novel_value_by_family := novel_value_by_family s |}.

(** ** [family_routing_terms] *)

Record routing_terms := {
  rt_family : string;
  rt_runs : Z;
  rt_value_rate : float;
  rt_novelty : float;
  rt_expected_value_rate : float;
  rt_duration_minutes : float;
  rt_duration_observed : bool;
  rt_accept_rate : float;
  rt_ucb : float;
  rt_coverage_bonus : float;
  rt_bias : float;
  rt_infra_penalty : float;
  rt_routing_multiplier : float;
  rt_routing_value : float;
  rt_unbiased_routing_value : float
}.

(** [math.log(x)] and [math.sqrt(x)]. *)
Definition py_log (x : float) : res float :=
  if fleb x f0 then Err (ValueError "math domain error") else Ok (math_log x).
Definition py_sqrt (x : float) : res float :=
  if fltb x f0 then Err (ValueError "math domain error") else Ok (SFsqrt 53 1024 x).

Definition known_rates (s : router_state) : list float := omap (λ fr, value_rate_ema fr.2) (families s).

Definition cold_start_rate (s : router_state) : res float :=
  match known_rates s with
  | [] => Ok (cfg_float s "cold_start_value_rate")
  | rates => py_div_int (py_sum rates) (Z.of_nat (length rates))
  end.

Definition ucb_term (s : router_state) (record : family_record) : res float :=
  l ← py_log (fadd f1 (float_of_Z (dispatches s)));
  q ← py_div l (fadd (float_of_Z (runs record)) f1);
  r ← py_sqrt q;
  Ok (fmin (cfg_float s "ucb_cap") (fmul (cfg_float s "ucb_coefficient") r)).

Definition coverage_bonus (s : router_state) (record : family_record) : res float :=
  horizon0 ← num_int (cfg s "coverage_horizon_epochs");
  let horizon := Z.max 1 horizon0 in
  let epochs_since := match last_run_epoch record with
                      | Some last_run => if (runs record =? 0)%Z then horizon
                                         else Z.max 0 (updated_epoch s - last_run)
                      | None => horizon
                      end in
  Ok (fmul (cfg_float s "coverage_bonus_cap") (fmin f1 (int_div epochs_since horizon))).

Definition family_routing_terms (s : router_state) (family : string) : res routing_terms :=
  let record := default blank_family (dict_get family (families s)) in
  cold ← cold_start_rate s;
  let value_rate := default cold (value_rate_ema record) in
  let novelty := predicted_novelty s family in
  ucb ← ucb_term s record;
  bonus ← coverage_bonus s record;
  let b := or_zero (bias record) in
  let infra_penalty := fmul (cfg_float s "infra_penalty_weight") (or_zero (infra_ema record)) in
  let expected := fmul value_rate novelty in
  let floor := cfg_float s "routing_multiplier_floor" in
  let base := fadd (fadd f1 ucb) bonus in
  let unbiased := fmax floor (fsub base infra_penalty) in
  let multiplier := fmax floor (fsub (fadd base b) infra_penalty) in
  Ok {| rt_family := family; rt_runs := runs record; rt_value_rate := round4 value_rate;
        rt_novelty := round4 novelty; rt_expected_value_rate := round4 expected;
        rt_duration_minutes :=
          round4 (default (cfg_float s "cold_start_duration_minutes") (duration_ema record));
        rt_duration_observed := is_some (duration_ema record);
        rt_accept_rate := round4 (default (cfg_float s "cold_start_accept_rate") (accept_rate_ema record));
        rt_ucb := round4 ucb; rt_coverage_bonus := round4 bonus; rt_bias := round4 b;
        rt_infra_penalty := round4 infra_penalty; rt_routing_multiplier := round4 multiplier;
        rt_routing_value := round4 (fmul expected multiplier);
        rt_unbiased_routing_value := round4 (fmul expected unbiased) |}.

Definition is_router_state_version (schema_version : string) : bool :=
  startswith "loopx_explore_router_state" schema_version.
End platform.
