(* ===== verification/RouterTheorems.v ===== *)
(** The theorems about novelty and routing: first-seen credit is given once and
    does not depend on families, folding an epoch never raises, the run counts
    add up, the bias stays within its clamp, and the bias never enters value
    estimates. *)

From stdpp Require Import base strings list sets gmap.
From Stdlib Require Import ZArith Lia SpecFloat.
From S2P Require Import Prelude PyFloat PyValue ListLib RouterState.

(** * First-seen credit *)

Lemma first_seen_spec seen l seen' credited :
  first_seen seen l = (seen', credited) →
  seen' = seen ∪ list_to_set l.*1 ∧ NoDup credited.*1 ∧
  (∀ k, k ∈ credited.*1 ↔ k ∈ l.*1 ∧ k ∉ seen) ∧ credited ⊆ l.
Proof.
  revert seen seen' credited. induction l as [|[k w] l IH]; intros seen seen' credited; simpl.
  - intros [= <- <-]. split_and!; [set_solver|apply NoDup_nil_2|set_solver|set_solver].
  - case_bool_decide as Hk.
    + intros (-> & Hnd & Hin & Hsub)%IH. split_and!; [set_solver|done| |set_solver].
      intros k'. rewrite Hin. set_solver.
    + destruct (first_seen _ l) as [s' c] eqn:E. intros [= <- <-].
      apply IH in E as (-> & Hnd & Hin & Hsub). split_and!; simpl.
      * set_solver.
      * apply NoDup_cons. split; [|done]. rewrite Hin. set_solver.
      * intros k'. rewrite !elem_of_cons, Hin, not_elem_of_union, not_elem_of_singleton.
        destruct (decide (k' = k)) as [->|]; tauto.
      * set_solver.
Qed.

Lemma first_seen_size seen keys w :
  length (first_seen seen (weigh_keys w keys)).2 = size (list_to_set keys ∖ seen : gset string).
Proof.
  destruct (first_seen seen _) as [seen' credited] eqn:E.
  apply first_seen_spec in E as (_ & Hnd & Hin & _).
  cbn [snd]. rewrite <- (length_fmap fst credited), <- (size_list_to_set (C := gset string) credited.*1) by done.
  f_equal. apply set_eq. intros k. rewrite elem_of_list_to_set, Hin, elem_of_difference, elem_of_list_to_set.
  unfold weigh_keys. rewrite <- list_fmap_compose. by setoid_rewrite list_fmap_id.
Qed.

(** A run of the ledger over several records. *)
Fixpoint credit_all (seen : gset string) (l : list observation) : gset string * Z :=
  match l with
  | [] => (seen, 0%Z)
  | r :: l' =>
      let '(seen, _, n) := ledger_credit seen r in
      let '(seen, m) := credit_all seen l' in (seen, n + m)%Z
  end.

(** The key of an observation is no key of a flag. *)
Definition plain_keys (r : observation) : Prop :=
  Forall (λ k, startswith "flag:" k = false) (observation_keys r).

Lemma flag_prefix family flag : startswith "flag:" (flag_pseudo_key family flag) = true.
Proof. done. Qed.

Lemma ledger_credit_spec seen r :
  ∃ v flags, ledger_credit seen r =
    (seen ∪ list_to_set (observation_keys r) ∪ flags, v,
     Z.of_nat (size (list_to_set (observation_keys r) ∖ seen : gset string))) ∧
  ∀ k, k ∈ flags → startswith "flag:" k = true.
Proof.
  unfold ledger_credit. rewrite <- (first_seen_size _ _ DEFAULT_OBSERVATION_WEIGHT).
  destruct (first_seen seen _) as [s1 c1] eqn:E1. apply first_seen_spec in E1 as (-> & _).
  destruct (first_seen _ (weigh_flags _ _)) as [s2 c2] eqn:E2. apply first_seen_spec in E2 as (-> & _).
  eexists _, _. split.
  - simpl. unfold weigh_keys. rewrite <- list_fmap_compose. by setoid_rewrite list_fmap_id.
  - intros k. rewrite elem_of_list_to_set. unfold weigh_flags. rewrite <- list_fmap_compose.
    by intros (fw & -> & _)%list_elem_of_fmap.
Qed.

(** The ledger counts every observation key once, whatever families the
    records carry: over any sequence of records whose keys do not start with
    ["flag:"], the novel keys are exactly the distinct keys that were not seen
    before; relabelling a record can not mint a key again. *)
Theorem novelty_counted_once seen records :
  Forall plain_keys records →
  (credit_all seen records).2 =
    Z.of_nat (size (list_to_set (records ≫= observation_keys) ∖ seen : gset string)).
Proof.
  revert seen. induction records as [|r records IH]; intros seen Hp; simpl.
  { assert (∅ ∖ seen = (∅ : gset string)) as -> by set_solver. by rewrite size_empty. }
  apply Forall_cons in Hp as [Hr Hp]. destruct (ledger_credit_spec seen r) as (v & flags & -> & Hfl).
  specialize (IH (seen ∪ list_to_set (observation_keys r) ∪ flags) Hp).
  destruct (credit_all _ records) as [s m]. cbn [snd] in *. subst m.
  rewrite <- Nat2Z.inj_add. f_equal.
  set (K := list_to_set (observation_keys r) : gset string).
  set (R := list_to_set (records ≫= observation_keys) : gset string) in *.
  rewrite <- size_union by set_solver. f_equal. rewrite list_to_set_app_L. fold K R.
  assert (R ∖ (seen ∪ K ∪ flags) = R ∖ (seen ∪ K)) as ->.
  { apply set_eq. intros k. rewrite !elem_of_difference, !elem_of_union. split; [tauto|].
    intros [HR Hn]. split; [done|]. intros [?|Hk]; [tauto|]. apply Hfl in Hk.
    unfold R in HR. apply elem_of_list_to_set, list_elem_of_bind in HR as (r' & Hk' & Hr').
    rewrite Forall_forall in Hp. specialize (Hp r' Hr'). unfold plain_keys in Hp.
    rewrite Forall_forall in Hp. specialize (Hp k Hk'). cbv beta in Hp. congruence. }
  apply set_eq. intros k. rewrite elem_of_union, !elem_of_difference, !elem_of_union.
  destruct (decide (k ∈ K)); tauto.
Qed.

(** Observation keys and flags share one name space: after family ["f"] raised
    flag ["x"], the new observation key ["flag:f:x"] is not novel. *)
Example flag_key_collision :
  let first := {| o_family := "f"; observation_keys := []; weighted_flags := [("x", f1)] |} in
  let second := {| o_family := "g"; observation_keys := ["flag:f:x"]; weighted_flags := [] |} in
  (credit_all ∅ [first; second]).2 = 0%Z ∧ (credit_all ∅ [second; first]).2 = 1%Z.
Proof. split; vm_compute; reflexivity. Qed.

(** The flag ["b:c"] of family ["a"] and the flag ["c"] of family ["a:b"] are
    one fact for the ledger. *)
Example flag_family_collision :
  let first := {| o_family := "a"; observation_keys := []; weighted_flags := [("b:c", f1)] |} in
  let second := {| o_family := "a:b"; observation_keys := []; weighted_flags := [("c", f1)] |} in
  (ledger_credit (ledger_credit ∅ first).1.1 second).1.2 = f0 ∧ (ledger_credit ∅ second).1.2 = f1.
Proof. split; vm_compute; reflexivity. Qed.

(** * Comparisons *)

Lemma fleb_opp_abs a : isnan a = false → fleb (fopp (fabs a)) (fabs a) = true.
Proof. by destruct a as [| | |[] m e]. Qed.

Lemma clamp_bounds c b :
  isnan c = false → let v := clamp_bias (fabs c) b in
  fleb (fopp (fabs c)) v = true ∧ fleb v (fabs c) = true.
Proof.
  intros Hc v. unfold v, clamp_bias, fmax, fmin.
  assert (isnan (fabs c) = false ∧ isnan (fopp (fabs c)) = false) as [Ha Ho] by (by destruct c).
  pose proof (fleb_opp_abs c Hc). pose proof (fleb_refl _ Ha). pose proof (fleb_refl _ Ho).
  destruct (fltb b (fabs c)) eqn:E1.
  - destruct (fltb (fopp (fabs c)) b) eqn:E2; split; try done; by apply fltb_fleb.
  - by destruct (fltb (fopp (fabs c)) (fabs c)).
Qed.

(** * Folding an epoch *)

(** The sum of a count over a dictionary. *)
Definition total_of {V} (f : V → Z) (d : list (string * V)) : Z := foldr (λ kv n, f kv.2 + n)%Z 0%Z d.

Lemma total_set {V} (f : V → Z) k v d :
  total_of f (dict_set k v d) = (total_of f d - from_option f 0 (dict_get k d) + f v)%Z.
Proof.
  induction d as [|[k' v'] d IH]; simpl; [lia|]. destruct (decide (k = k')); simpl; [lia|].
  rewrite IH. lia.
Qed.

Section router.
Context (py_sum : list float → float) (math_log : float → float) (parse_float : string → option float).
Notation observe_epoch := (observe_epoch py_sum parse_float).
Notation advance_epoch := (advance_epoch py_sum).
Notation scan_probe := (scan_probe py_sum parse_float).
Notation scan_probes := (scan_probes py_sum parse_float).
Notation fold_family := (fold_family py_sum).
Notation fold_families := (fold_families py_sum).

Definition sampled (d : list (string * samples)) : Z :=
  total_of (λ sm, Z.of_nat (length (sm_value_rate sm))) d.

Lemma accept_sample_ok p : ∃ x, accept_sample parse_float p = Ok x.
Proof.
  unfold accept_sample. destruct (_ && _); [eauto|]. destruct (count_float _ _) as [a|]; [|eauto].
  destruct (count_float _ _) as [b|]; [|eauto]. destruct (counts_are_valid _ _ a b) eqn:E; [|eauto].
  unfold counts_are_valid in E. repeat (apply andb_true_iff in E as [E ?]).
  rewrite py_div_ok by (by apply fltb_nonzero). simpl. eauto.
Qed.

Lemma scan_probe_ok a p :
  ∃ a', scan_probe a p = Ok a' ∧ sampled (ps_samples a') = (sampled (ps_samples a) + 1)%Z ∧
    ps_seen a' = ps_seen a ∪ list_to_set (p_observation_keys p) ∪
      list_to_set (flag_pseudo_key (probe_family p) <$> (p_weighted_flags p).*1).
Proof.
  unfold RouterState.scan_probe. destruct (first_seen (ps_seen a) _) as [s1 c1] eqn:E1.
  destruct (first_seen s1 _) as [s2 c2] eqn:E2.
  apply first_seen_spec in E1 as (-> & _). apply first_seen_spec in E2 as (-> & _).
  destruct (accept_sample_ok p) as [x Hx].
  rewrite (py_div_ok _ (fmax ROUTER_MIN_DURATION_MINUTES _)) by (apply fmax_nonzero; by try intros []).
  set (raw := fadd _ (py_sum _)). simpl.
  assert (∃ y, (if fltb f0 raw then py_div (add_weights (add_weights f0 c1) c2) raw else Ok f0) = Ok y)
    as [y ->].
  { destruct (fltb f0 raw) eqn:E; [|eauto]. rewrite py_div_ok by (by apply fltb_nonzero). eauto. }
  simpl. rewrite Hx. simpl. eexists. split; [done|]. simpl. split.
  - unfold sampled. rewrite total_set. simpl. rewrite length_app. simpl.
    destruct (dict_get _ (ps_samples a)); simpl; lia.
  - unfold weigh_keys, weigh_flags. rewrite <- !list_fmap_compose.
    f_equal. f_equal. f_equal. by setoid_rewrite list_fmap_id.
Qed.

Definition probe_keys (p : probe) : gset string :=
  list_to_set (p_observation_keys p) ∪
  list_to_set (flag_pseudo_key (probe_family p) <$> (p_weighted_flags p).*1).

Lemma scan_probes_ok a l :
  ∃ a', scan_probes a l = Ok a' ∧
    sampled (ps_samples a') = (sampled (ps_samples a) + Z.of_nat (length l))%Z ∧
    ps_seen a' = ps_seen a ∪ ⋃ (probe_keys <$> l).
Proof.
  revert a. induction l as [|p l IH]; intros a; simpl.
  { exists a. split_and!; [done|lia|set_solver]. }
  destruct (scan_probe_ok a p) as (a1 & -> & Hs & Hk). simpl. destruct (IH a1) as (a2 & -> & Hs' & Hk').
  exists a2. split_and!; [done|lia|]. rewrite Hk', Hk. unfold probe_keys at 2. set_solver.
Qed.

Lemma mean_ok l : ∃ x, mean py_sum l = Ok x.
Proof. unfold mean. rewrite py_div_int_ok by lia. eauto. Qed.

Lemma fold_family_ok s epoch r sm :
  ∃ r', fold_family s epoch r sm = Ok r' ∧
    runs r' = (runs r + Z.of_nat (length (sm_value_rate sm)))%Z ∧ bias r' = bias r ∧
    last_run_epoch r' = Some epoch.
Proof.
  unfold RouterState.fold_family. destruct (mean_ok (sm_value_rate sm)) as [x1 ->]. simpl.
  destruct (mean_ok (sm_duration sm)) as [x2 ->]. simpl. rewrite py_div_ok by (apply fmax_nonzero; by try intros []).
  simpl. destruct (mean_ok (sm_infra sm)) as [x3 ->]. simpl.
  destruct (mean_ok (sm_novelty sm)) as [x4 ->]. simpl. eauto.
Qed.

Lemma fold_families_ok s epoch l fs :
  ∃ fs', fold_families s epoch l fs = Ok fs' ∧
    total_of runs fs' = (total_of runs fs + sampled l)%Z ∧
    ∀ f, bias (default blank_family (dict_get f fs')) = bias (default blank_family (dict_get f fs)).
Proof.
  revert fs. induction l as [|[f sm] l IH]; intros fs; simpl.
  { exists fs. split_and!; [done|unfold sampled; simpl; lia|done]. }
  destruct (fold_family_ok s epoch (default blank_family (dict_get f fs)) sm) as (r & -> & Hr & Hb & _).
  simpl. destruct (IH (dict_set f r fs)) as (fs' & -> & Ht & Hbs). exists fs'. split_and!; [done| |].
  - rewrite Ht, total_set, Hr. unfold sampled. simpl. destruct (dict_get f fs); simpl; lia.
  - intros f'. rewrite Hbs. destruct (decide (f' = f)) as [->|Hne].
    + rewrite dict_get_set_eq. done.
    + by rewrite dict_get_set_ne.
Qed.

Lemma ensure_total fs eligible :
  total_of runs (fold_left ensure_family eligible fs) = total_of runs fs.
Proof.
  revert fs. induction eligible as [|f l IH]; intros fs; simpl; [done|]. rewrite IH.
  unfold ensure_family, dict_has. destruct (dict_get f fs) eqn:E; [done|]. rewrite total_set, E. simpl. lia.
Qed.

Lemma advance_total s epoch horizon eligible fair fs :
  total_of runs (advance_family s epoch horizon eligible fair <$> fs) = total_of runs fs.
Proof. induction fs as [|[f r] fs IH]; [done|]. simpl. f_equal. apply IH. Qed.

(** The states that the harness can reach. *)
Inductive router_reachable : router_state → Prop :=
| rr_initial config : router_reachable (initial_router_state config)
| rr_observe s epoch probes s' :
    router_reachable s → observe_epoch s epoch probes = Ok s' → router_reachable s'
| rr_advance s epoch eligible s' :
    router_reachable s → advance_epoch s epoch eligible = Ok s' → router_reachable s'.

Lemma observe_ok s epoch probes :
  ∃ s', observe_epoch s epoch probes = Ok s' ∧
    rs_config s' = rs_config s ∧ updated_epoch s' = updated_epoch s ∧
    dispatches s' = (dispatches s + Z.of_nat (length probes))%Z ∧
    observed_epochs s' = (observed_epochs s + 1)%Z ∧
    total_of runs (families s') = (total_of runs (families s) + Z.of_nat (length probes))%Z ∧
    seen_observation_keys s' = seen_observation_keys s ∪ ⋃ (probe_keys <$> probes) ∧
    ∀ f, bias (default blank_family (dict_get f (families s'))) =
         bias (default blank_family (dict_get f (families s))).
Proof.
  unfold RouterState.observe_epoch.
  match goal with |- context [RouterState.scan_probes _ _ ?a _] =>
    destruct (scan_probes_ok a probes) as (a' & -> & Hs & Hk) end. simpl in *.
  destruct (fold_families_ok s epoch (ps_samples a') (families s)) as (fs & -> & Ht & Hb). simpl.
  eexists. split; [done|]. simpl. split_and!; try done. rewrite Ht, Hs. unfold sampled. simpl. lia.
Qed.

(** Folding an epoch of probes never raises, for any probes (no division by
    zero, whatever the durations, weights and counts are), and it only does what
    it should: the counts grow by the number of probes, the seen keys by those
    of the probes, and no family's bias moves. *)
Theorem router_observe_total s epoch probes :
  ∃ s', observe_epoch s epoch probes = Ok s' ∧ updated_epoch s' = updated_epoch s ∧
    dispatches s' = (dispatches s + Z.of_nat (length probes))%Z ∧
    observed_epochs s' = (observed_epochs s + 1)%Z ∧
    seen_observation_keys s' = seen_observation_keys s ∪ ⋃ (probe_keys <$> probes) ∧
    ∀ f, bias (default blank_family (dict_get f (families s'))) =
         bias (default blank_family (dict_get f (families s))).
Proof.
  destruct (observe_ok s epoch probes) as (s' & ? & _ & ? & ? & ? & _ & ? & ?). exists s'. auto 10.
Qed.

Lemma advance_ok_inv s epoch eligible s' :
  advance_epoch s epoch eligible = Ok s' →
  rs_config s' = rs_config s ∧ dispatches s' = dispatches s ∧ updated_epoch s' = epoch ∧
  ∃ horizon fair, families s' =
    advance_family (with_families s (fold_left ensure_family eligible (families s))) epoch horizon
      eligible fair <$> fold_left ensure_family eligible (families s).
Proof.
  unfold RouterState.advance_epoch. simpl. destruct (match eligible with [] => _ | _ => _ end) as [fair|]; [|done].
  simpl. destruct (num_int _) as [h|]; [|done]. simpl. intros [= <-]. simpl. split_and!; eauto.
Qed.

(** In every state the harness reaches, the runs of all families together
    are the probes dispatched. *)
Theorem router_counts s : router_reachable s → total_of runs (families s) = dispatches s.
Proof.
  induction 1 as [config|s epoch probes s' _ IH H|s epoch eligible s' _ IH H]; [done| |].
  - destruct (observe_ok s epoch probes) as (s1 & H1 & _ & _ & Hd & _ & Ht & _).
    rewrite H1 in H. injection H as <-. by rewrite Ht, IH, Hd.
  - apply advance_ok_inv in H as (_ & -> & _ & h & fair & ->). by rewrite advance_total, ensure_total.
Qed.

(** After an epoch boundary the bias of every family lies within the clamp:
    it is a value between [-|bias_clamp|] and [|bias_clamp|], rounded to four
    digits, whatever the previous bias was (NaN included). *)
Theorem router_bias_bounded s epoch eligible s' family r :
  isnan (cfg_float s "bias_clamp") = false → advance_epoch s epoch eligible = Ok s' →
  dict_get family (families s') = Some r →
  let c := fabs (cfg_float s "bias_clamp") in
  ∃ v, bias r = round4 v ∧ fleb (fopp c) v = true ∧ fleb v c = true.
Proof.
  intros Hc H Hr c. apply advance_ok_inv in H as (_ & _ & _ & h & fair & Hfs). rewrite Hfs in Hr.
  apply dict_get_Some_in, list_elem_of_fmap in Hr as ([f r0] & E & _).
  unfold advance_family in E. injection E as _ ->. eexists. split; [reflexivity|]. by apply clamp_bounds.
Qed.

(** * The bias steers the order only *)

(** States that agree up to the biases. *)
Definition debias_record (r : family_record) : family_record := set_bias r f0.
Definition debias (s : router_state) : router_state :=
  with_families s (prod_map id debias_record <$> families s).

#[global] Instance router_equiv : Equiv router_state := λ s s', debias s = debias s'.
#[global] Instance router_equivalence : Equivalence (≡@{router_state}).
Proof. unfold equiv, router_equiv. split; intros ?; [done|by symmetry|intros; by etrans]. Qed.

Definition res_map {A B} (f : A → B) (r : res A) : res B :=
  match r with Ok a => Ok (f a) | Err e => Err e end.

Lemma dict_get_map {V W} (f : V → W) k d : dict_get k (prod_map id f <$> d) = f <$> dict_get k d.
Proof. induction d as [|[k' v] d IH]; [done|]. simpl. by destruct (decide (k = k')). Qed.

Lemma dict_set_map {V W} (f : V → W) k v d :
  dict_set k (f v) (prod_map id f <$> d) = prod_map id f <$> dict_set k v d.
Proof.
  induction d as [|[k' v'] d IH]; [done|]. simpl. destruct (decide (k = k')); [done|].
  simpl. f_equal. apply IH.
Qed.

Lemma family_debias s f :
  default blank_family (dict_get f (families (debias s))) =
  debias_record (default blank_family (dict_get f (families s))).
Proof. simpl. rewrite dict_get_map. by destruct (dict_get f (families s)). Qed.

Lemma fold_family_debias s epoch r sm :
  fold_family (debias s) epoch (debias_record r) sm = res_map debias_record (fold_family s epoch r sm).
Proof.
  unfold RouterState.fold_family. destruct (mean py_sum (sm_value_rate sm)); [|done].
  destruct (mean py_sum (sm_duration sm)); [|done]. simpl.
  destruct (py_div _ (fmax f1 _)); [|done]. simpl. destruct (mean py_sum (sm_infra sm)); [|done].
  simpl. by destruct (mean py_sum (sm_novelty sm)).
Qed.

Lemma fold_families_debias s epoch l fs :
  fold_families (debias s) epoch l (prod_map id debias_record <$> fs) =
  res_map (fmap (prod_map id debias_record)) (fold_families s epoch l fs).
Proof.
  revert fs. induction l as [|[f sm] l IH]; intros fs; [done|]. simpl. rewrite dict_get_map.
  replace (default blank_family (debias_record <$> dict_get f fs))
    with (debias_record (default blank_family (dict_get f fs))) by (by destruct (dict_get f fs)).
  rewrite fold_family_debias. destruct (fold_family s epoch _ sm); [|done]. simpl.
  rewrite dict_set_map. apply IH.
Qed.

Lemma observe_debias s epoch probes :
  observe_epoch (debias s) epoch probes = res_map debias (observe_epoch s epoch probes).
Proof.
  unfold RouterState.observe_epoch. change (seen_observation_keys (debias s)) with (seen_observation_keys s).
  destruct (scan_probes _ probes) as [a|]; [|done]. simpl.
  rewrite fold_families_debias. by destruct (fold_families s epoch _ _).
Qed.

Lemma predicted_debias s f : predicted_novelty (debias s) f = predicted_novelty s f.
Proof. unfold predicted_novelty. simpl. rewrite dict_get_map. by destruct (dict_get f (families s)). Qed.

(** The terms that may enter value estimates: all but the bias, the multiplier
    and the routing value. *)
Definition value_terms (t : routing_terms) :=
  (rt_family t, rt_runs t, rt_value_rate t, rt_novelty t, rt_expected_value_rate t, rt_duration_minutes t,
   rt_duration_observed t, rt_accept_rate t, rt_ucb t, rt_coverage_bonus t, rt_infra_penalty t,
   rt_unbiased_routing_value t).

Notation terms := (family_routing_terms py_sum math_log).

Lemma known_rates_debias s : known_rates (debias s) = known_rates s.
Proof.
  unfold known_rates. simpl. induction (families s) as [|[f r] fs IH]; [done|]. csimpl.
  destruct (value_rate_ema r); [by rewrite IH|apply IH].
Qed.

Lemma terms_debias s f : res_map value_terms (terms (debias s) f) = res_map value_terms (terms s f).
Proof.
  unfold family_routing_terms, cold_start_rate, ucb_term, coverage_bonus.
  rewrite known_rates_debias, family_debias, predicted_debias.
  change (cfg_float (debias s)) with (cfg_float s). change (cfg (debias s)) with (cfg s).
  change (dispatches (debias s)) with (dispatches s).
  change (updated_epoch (debias s)) with (updated_epoch s).
  set (r := default blank_family _). unfold debias_record. cbn [set_bias value_rate_ema duration_ema
    accept_rate_ema novelty_rate infra_ema runs last_run_epoch bias].
  destruct (match known_rates s with [] => _ | _ => _ end); [|done]. cbn [mbind res_bind].
  destruct (py_log _ _) as [l|]; [|done]. cbn [mbind res_bind].
  destruct (py_div l _) as [q|]; [|done]. cbn [mbind res_bind].
  destruct (py_sqrt q); [|done]. cbn [mbind res_bind]. by destruct (num_int _).
Qed.

(** The bias never feeds back into estimates: for states that agree up to
    the biases, folding the same epoch gives states that agree up to the
    biases (and keeps each bias), the predicted novelty is the same, and so are
    all routing terms but the bias, the multiplier and the routing value. *)
Theorem router_bias_separation s s' :
  s ≡ s' →
  (∀ epoch probes, res_map debias (observe_epoch s epoch probes) =
                   res_map debias (observe_epoch s' epoch probes)) ∧
  (∀ f, predicted_novelty s f = predicted_novelty s' f) ∧
  ∀ f, res_map value_terms (terms s f) = res_map value_terms (terms s' f).
Proof.
  intros E. unfold equiv, router_equiv in E. split_and!.
  - intros epoch probes. by rewrite <- !observe_debias, E.
  - intros f. by rewrite <- (predicted_debias s), E, predicted_debias.
  - intros f. by rewrite <- (terms_debias s), E, terms_debias.
Qed.
End router.

(** * An example *)

Module RouterExample.
Definition sum (l : list float) : float := fold_left fadd l f0.
Definition log (x : float) : float := fsub x f1.
Definition parse (_ : string) : option float := None.

Definition probe0 : probe :=
  {| p_family := "f"; p_duration_minutes := f0; p_observation_keys := ["k"; "k"; "l"];
     p_weighted_flags := [("hot", f1)]; p_accepted := true; p_retryable_infra_error := false;
     p_accepted_count := PInt 1; p_attempt_count := PInt 2 |}.

Definition get_ok (d : router_state) (r : res router_state) : router_state :=
  match r with Ok a => a | Err _ => d end.

Definition s0 : router_state := initial_router_state [("bias_gamma", NInt 3)].
Definition s1 : router_state := get_ok s0 (observe_epoch sum parse s0 1 [probe0]).
Definition s2 : router_state := get_ok s0 (advance_epoch sum s1 9 ["f"; "g"]).

Lemma novelty_counted_once_witness :
  (credit_all {["a"]} [{| o_family := "f"; observation_keys := ["a"; "b"]; weighted_flags := [("x", f1)] |};
                       {| o_family := "g"; observation_keys := ["b"; "c"]; weighted_flags := [] |}]).2 = 2%Z.
Proof.
  rewrite novelty_counted_once; [vm_compute; reflexivity|]. by repeat constructor.
Defined.

Lemma router_counts_witness :
  router_reachable sum parse s2 ∧ total_of runs (families s2) = dispatches s2 ∧ dispatches s2 = 1%Z.
Proof.
  assert (router_reachable sum parse s2) as Hr.
  { apply (rr_advance sum parse s1 9 ["f"; "g"]); [|vm_compute; reflexivity].
    apply (rr_observe sum parse s0 1 [probe0]); [apply rr_initial|vm_compute; reflexivity]. }
  split_and!; [exact Hr|by apply (router_counts sum parse)|vm_compute; reflexivity].
Defined.

Lemma router_bias_bounded_witness :
  ∃ r, dict_get "g" (families s2) = Some r ∧ bias r = lit 1 2 ∧
    ∃ v, bias r = round4 v ∧ fleb (fopp (lit 1 2)) v = true ∧ fleb v (lit 1 2) = true.
Proof.
  eexists. split; [vm_compute; reflexivity|]. split; [vm_compute; reflexivity|].
  apply (router_bias_bounded sum s1 9 ["f"; "g"] s2 "g"); vm_compute; reflexivity.
Defined.

Lemma router_bias_separation_witness :
  s2 ≡ debias s2 ∧ s2 ≠ debias s2 ∧
  res_map value_terms (family_routing_terms sum log s2 "g") =
    res_map value_terms (family_routing_terms sum log (debias s2) "g") ∧
  res_map rt_bias (family_routing_terms sum log s2 "g") ≠
    res_map rt_bias (family_routing_terms sum log (debias s2) "g").
Proof.
  assert (s2 ≡ debias s2) as He by (vm_compute; reflexivity).
  split; [exact He|]. split; [vm_compute; discriminate|].
  split; [apply (router_bias_separation sum log parse s2 (debias s2) He)|vm_compute; discriminate].
Defined.
End RouterExample.
