(* ===== verification/EpisodeProbes.v ===== *)
(** What the records of an epoch amount to: the execution metrics and the
    router probes of [loopx/capabilities/explore/episode_runtime.py], and the
    reading of probes by [observe_epoch] of
    [loopx/capabilities/explore/router_state.py].

    The fields of a record are arbitrary values.  The text of values that are
    not [str], what [float] and [int] make of a text, the builtin [sum] of
    floats, and the elements of objects that are no list, mapping or text are
    parameters. *)

From stdpp Require Import base strings list sets gmap.
From Stdlib Require Import ZArith Lia SpecFloat.
From S2P Require Import Prelude PyFloat PyValue PyConv TraceRuntime EpisodeRuntime RouterState.

Section records.
Variables (str_of : pyval → string) (parse_float : string → option float).
Variables (parse_int : string → option Z) (py_sum : list float → float).
Variables (iter_of : pyval → res (list pyval)).

Definition duration_of (record : items) : res float :=
  match float_or_zero parse_float (pget "duration_minutes" record) with
  | Ok x => Ok (fmax f0 x)
  | Err e => if bool_decide (exn_class e ∈ ["TypeError"; "ValueError"]) then Ok f0 else Err e
  end.

(** * Execution metrics *)

Definition kind_of (record : items) : string :=
  py_str str_of (por (pget "record_kind" record) (PStr RECORD_KIND_STANDALONE)).

Definition failed_record (record : items) : bool :=
  bool_decide (str_or_empty str_of (pget "execution_status" record) = "adapter_error").

Definition group_id_of (record : items) : string :=
  py_strip (str_or_empty str_of (pget "execution_group_id" record)).

Record group_cost := { gc_prefix : float; gc_attempted : float; gc_successful : float }.

Definition no_cost : group_cost := {| gc_prefix := f0; gc_attempted := f0; gc_successful := f0 |}.

(** The locals of the loop over the records. *)
Record cost_scan := {
  shared_prefix_minutes : float;
  suffix_minutes : float;
  standalone_minutes : float;
  cost_groups : list (string * group_cost);
  episode_count : Z;
  episode_error_count : Z
}.

Definition add_cost (kind : string) (minutes : float) (failed : bool) (g : group_cost) : group_cost :=
  if bool_decide (kind = RECORD_KIND_SHARED_PREFIX) then
    {| gc_prefix := fadd (gc_prefix g) minutes; gc_attempted := gc_attempted g;
       gc_successful := gc_successful g |}
  else if bool_decide (kind = RECORD_KIND_EPISODE_SUFFIX) then
    {| gc_prefix := gc_prefix g; gc_attempted := fadd (gc_attempted g) f1;
       gc_successful := if failed then gc_successful g else fadd (gc_successful g) f1 |}
  else g.

Definition scan_record (a : cost_scan) (record : items) : res cost_scan :=
  let kind := kind_of record in
  minutes ← duration_of record;
  let failed := failed_record record in
  let prefix := bool_decide (kind = RECORD_KIND_SHARED_PREFIX) in
  let suffix := bool_decide (kind = RECORD_KIND_EPISODE_SUFFIX) in
  let group_id := group_id_of record in
  let groups := cost_groups a in
  Ok {| shared_prefix_minutes :=
          if prefix then fadd (shared_prefix_minutes a) minutes else shared_prefix_minutes a;
        suffix_minutes := if suffix then fadd (suffix_minutes a) minutes else suffix_minutes a;
        standalone_minutes :=
          if prefix || suffix then standalone_minutes a else fadd (standalone_minutes a) minutes;
        cost_groups :=
          if is_empty group_id then groups
          else dict_set group_id
                 (add_cost kind minutes failed (default no_cost (dict_get group_id groups))) groups;
        episode_count := (episode_count a + if suffix then 1 else 0)%Z;
        episode_error_count := (episode_error_count a + if suffix && failed then 1 else 0)%Z |}.

Definition empty_scan : cost_scan :=
  {| shared_prefix_minutes := f0; suffix_minutes := f0; standalone_minutes := f0; cost_groups := [];
     episode_count := 0; episode_error_count := 0 |}.

(** [group["prefix"] * max(0.0, group[...] - 1.0)]. *)
Definition avoided_minutes (runs_of : group_cost → float) (g : group_cost) : float :=
  fmul (gc_prefix g) (fmax f0 (fsub (runs_of g) f1)).

Definition summarize_execution_records (records : list items) : res items :=
  a ← rfold scan_record empty_scan records;
  let groups := (cost_groups a).*2 in
  let avoided := sum_value py_sum (avoided_minutes gc_attempted <$> groups) in
  let successful_avoided := sum_value py_sum (avoided_minutes gc_successful <$> groups) in
  let effective := fadd (fadd (shared_prefix_minutes a) (suffix_minutes a)) (standalone_minutes a) in
  Ok (as_items
    [("shared_prefix_compute_minutes", PFloat (py_round 6 (shared_prefix_minutes a)));
     ("episode_suffix_compute_minutes", PFloat (py_round 6 (suffix_minutes a)));
     ("standalone_compute_minutes", PFloat (py_round 6 (standalone_minutes a)));
     ("effective_compute_minutes", PFloat (py_round 6 effective));
     ("avoided_recompute_minutes", round_value 6 avoided);
     ("successful_avoided_recompute_minutes", round_value 6 successful_avoided);
     ("episode_group_count", PInt (Z.of_nat (length (cost_groups a))));
     ("episode_count", PInt (episode_count a));
     ("episode_error_count", PInt (episode_error_count a))]).

Definition minute_fields : list string :=
  ["shared_prefix_compute_minutes"; "episode_suffix_compute_minutes"; "standalone_compute_minutes";
   "effective_compute_minutes"; "avoided_recompute_minutes"; "successful_avoided_recompute_minutes"].

Definition count_fields : list string := ["episode_group_count"; "episode_count"; "episode_error_count"].

Definition combine_minutes (metrics : list items) (field : string) : res (string * pyval) :=
  parts ← rmap (λ part, float_or_zero parse_float (pget field part)) metrics;
  Ok (field, round_value 6 (sum_value py_sum parts)).

Definition combine_counts (metrics : list items) (field : string) : res (string * pyval) :=
  parts ← rmap (λ part, int_or_zero parse_int (pget field part)) metrics;
  Ok (field, PInt (foldr Z.add 0%Z parts)).

Definition combine_execution_metrics (metrics : list items) : res items :=
  minutes ← rmap (combine_minutes metrics) minute_fields;
  counts ← rmap (combine_counts metrics) count_fields;
  Ok (as_items (minutes ++ counts)%list).

(** * Router probes *)

(** A probe as [build_router_probes] makes it; the fields of a record of its
    own are passed on as they are. *)
Record router_probe := {
  rp_execution_group_id : option string;
  rp_family : string;
  rp_duration_minutes : pyval;
  rp_observation_keys : pyval;
  rp_weighted_flags : pyval;
  rp_accepted : bool;
  rp_counts : option (nat * nat);
  rp_retryable_infra_error : bool
}.

Definition family_or_general (record : items) : string :=
  py_str str_of (por (pget "family" record) (PStr "general")).

Definition accepted (record : items) : bool := truthy (pget "accepted" record).
Definition infra_error (record : items) : bool := truthy (pget "retryable_infra_error" record).

Definition record_probe (record : items) : router_probe :=
  {| rp_execution_group_id := None; rp_family := family_or_general record;
     rp_duration_minutes := pget "duration_minutes" record;
     rp_observation_keys := por (pget "observation_keys" record) (PSeq false []);
     rp_weighted_flags := por (pget "weighted_flags" record) (PMap false []);
     rp_accepted := accepted record; rp_counts := None;
     rp_retryable_infra_error := infra_error record |}.

Inductive entry := RecordEntry (record : items) | GroupEntry (group_id : string).

(** The first loop: the entries in order and the records of each group. *)
Definition scan_entry (a : list entry * list (string * list items)) (record : items)
  : list entry * list (string * list items) :=
  let '(ordered, grouped) := a in
  let group_id := group_id_of record in
  if is_empty group_id then (ordered ++ [RecordEntry record], grouped)%list
  else
    match dict_get group_id grouped with
    | None => (ordered ++ [GroupEntry group_id], dict_set group_id [record] grouped)%list
    | Some siblings => (ordered, dict_set group_id (siblings ++ [record])%list grouped)
    end.

Definition scan_entries (records : list items) : list entry * list (string * list items) :=
  fold_left scan_entry records ([], []).

(** [for key in record.get("observation_keys") or []: str(key)]. *)
Definition key_list (v : pyval) : res (list string) :=
  if truthy v then l ← py_iter iter_of v; Ok (fmap (M:=list) (py_str str_of) l) else Ok [].

Definition add_key (a : list string * gset string) (key : string) : list string * gset string :=
  if bool_decide (key ∈ a.2) then a else (a.1 ++ [key], {[ key ]} ∪ a.2)%list.

Definition flag_name (k : option string) : string := default (str_of POther) k.

Definition merge_flag (flags : list (string * float)) (kv : option string * pyval)
  : res (list (string * float)) :=
  let name := flag_name kv.1 in
  weight ← to_float parse_float kv.2;
  Ok (dict_set name (fmax (default (S754_infinity true) (dict_get name flags)) weight) flags).

(** The keys and flags of the siblings. *)
Definition fold_sibling (a : (list string * gset string) * list (string * float)) (record : items)
  : res ((list string * gset string) * list (string * float)) :=
  keys ← key_list (pget "observation_keys" record);
  flags ← match pget "weighted_flags" record with
          | PMap _ d => rfold merge_flag a.2 d
          | _ => Ok a.2
          end;
  Ok (fold_left add_key keys a.1, flags).

Definition is_suffix (record : items) : bool :=
  py_eq (pget "record_kind" record) (PStr RECORD_KIND_EPISODE_SUFFIX).

(** [suffixes or siblings]. *)
Definition acceptance_records (siblings : list items) : list items :=
  match filter (λ r, is_suffix r = true) siblings with [] => siblings | suffixes => suffixes end.

Definition accepted_count (siblings : list items) : nat :=
  length (filter (λ r, accepted r = true) (acceptance_records siblings)).

Definition attempt_count (siblings : list items) : nat := length (acceptance_records siblings).

Definition IndexError := mk_exn "IndexError".

Definition group_probe (group_id : string) (siblings : list items) : res router_probe :=
  a ← rfold fold_sibling (([], ∅), []) siblings;
  first ← match siblings with
          | record :: _ => Ok record
          | [] => Err (IndexError "list index out of range")
          end;
  minutes ← rmap duration_of siblings;
  Ok {| rp_execution_group_id := Some group_id; rp_family := family_or_general first;
        rp_duration_minutes := sum_value py_sum minutes;
        rp_observation_keys := PSeq false (PStr <$> a.1.1);
        rp_weighted_flags := PMap false (as_items (prod_map id PFloat <$> a.2));
        rp_accepted := (0 <? accepted_count siblings)%nat;
        rp_counts := Some (accepted_count siblings, attempt_count siblings);
        rp_retryable_infra_error := existsb infra_error siblings |}.

Definition entry_probe (grouped : list (string * list items)) (e : entry) : res router_probe :=
  match e with
  | RecordEntry record => Ok (record_probe record)
  | GroupEntry group_id => group_probe group_id (default [] (dict_get group_id grouped))
  end.

Definition build_router_probes (records : list items) : res (list router_probe) :=
  let '(ordered, grouped) := scan_entries records in
  rmap (entry_probe grouped) ordered.

(** * Reading a probe *)

Definition count_value (counts : option (nat * nat)) (f : nat * nat → nat) : pyval :=
  match counts with Some c => PInt (Z.of_nat (f c)) | None => PNone end.

Definition set_flag (flags : list (string * float)) (kv : option string * pyval)
  : res (list (string * float)) :=
  weight ← to_float parse_float kv.2; Ok (dict_set (flag_name kv.1) weight flags).

(** The conversions at the head of the loop of [observe_epoch]. *)
Definition read_probe (p : router_probe) : res probe :=
  minutes ← float_or_zero parse_float (rp_duration_minutes p);
  keys ← key_list (rp_observation_keys p);
  flags ← match rp_weighted_flags p with PMap _ d => rfold set_flag [] d | _ => Ok [] end;
  Ok {| p_family := rp_family p; p_duration_minutes := minutes; p_observation_keys := keys;
        p_weighted_flags := flags; p_accepted := rp_accepted p;
        p_retryable_infra_error := rp_retryable_infra_error p;
        p_accepted_count := count_value (rp_counts p) fst;
        p_attempt_count := count_value (rp_counts p) snd |}.

(** [observe_epoch] on probes as they are passed: the conversions change no
    state and nothing else of the loop raises. *)
Definition observe_router_probes (s : router_state) (epoch : Z) (probes : list router_probe)
  : res router_state :=
  ps ← rmap read_probe probes; observe_epoch py_sum parse_float s epoch ps.
End records.
