(* ===== verification/ProbeTheorems.v ===== *)
(** Properties of the execution metrics and router probes of an epoch. *)

From stdpp Require Import base strings list sets gmap.
From Stdlib Require Import ZArith Lia SpecFloat.
From S2P Require Import Prelude PyFloat ListLib PyValue PyConv TraceRuntime EpisodeRuntime.
From S2P Require Import EpisodeUnits EpisodeTheorems RouterState RouterTheorems EpisodeProbes.

(** * Grouping *)

Section grouping.
Context (str_of : pyval → string) (parse_float : string → option float) (py_sum : list float → float).
Context (iter_of : pyval → res (list pyval)).
Notation gid := (group_id_of str_of).
Notation scan_entries := (scan_entries str_of).
Notation group_probe := (group_probe str_of parse_float py_sum iter_of).

Definition ungrouped (r : items) : Prop := gid r = "".

#[local] Instance ungrouped_dec r : Decision (ungrouped r) := decide (gid r = "").

(** The records that stand alone, and the first record of each group. *)
Fixpoint heads_from (seen : list string) (records : list items) : list items :=
  match records with
  | [] => []
  | r :: l =>
      if decide (ungrouped r) then r :: heads_from seen l
      else if decide (gid r ∈ seen) then heads_from seen l
      else r :: heads_from (gid r :: seen) l
  end.

Definition heads (records : list items) : list items := heads_from [] records.

(** The records that the probe of a head is about. *)
Definition members (records : list items) (h : items) : list items :=
  if decide (ungrouped h) then [h] else filter (λ r, gid r = gid h) records.

Definition head_entry (h : items) : entry :=
  if decide (ungrouped h) then RecordEntry h else GroupEntry (gid h).

Definition head_probe (records : list items) (h : items) : res router_probe :=
  if decide (ungrouped h) then Ok (record_probe str_of h) else group_probe (gid h) (members records h).

Lemma heads_from_snoc seen l r :
  heads_from seen (l ++ [r])
  = (heads_from seen l ++ if decide (ungrouped r ∨ (gid r ∉ seen ∧ gid r ∉ (gid <$> l))) then [r] else [])%list.
Proof.
  revert seen. induction l as [|x l IH]; intros seen; cbn [app heads_from].
  - assert (gid r ∉ (gid <$> [])) as Hn by (intros []%elem_of_nil).
    repeat case_decide; try done; tauto.
  - rewrite fmap_cons. destruct (decide (ungrouped x)) as [Hx|Hx].
    + rewrite IH. cbn [app]. do 2 f_equal. apply decide_ext. rewrite not_elem_of_cons.
      assert (¬ ungrouped r → gid r ≠ gid x) by (unfold ungrouped in *; congruence).
      destruct (decide (ungrouped r)); tauto.
    + destruct (decide (gid x ∈ seen)) as [Hs|Hs]; rewrite IH; cbn [app]; repeat f_equal;
        apply decide_ext; rewrite !not_elem_of_cons.
      * assert (gid r ∉ seen → gid r ≠ gid x) by congruence. tauto.
      * tauto.
Qed.

Lemma heads_snoc l r :
  heads (l ++ [r])
  = (heads l ++ if decide (ungrouped r ∨ gid r ∉ (gid <$> l)) then [r] else [])%list.
Proof.
  unfold heads. rewrite heads_from_snoc. f_equal. apply decide_ext.
  assert (gid r ∉ []) by apply not_elem_of_nil. tauto.
Qed.

Lemma ungrouped_empty r : is_empty (gid r) = true ↔ ungrouped r.
Proof. unfold ungrouped. by destruct (gid r). Qed.

Definition siblings_of (records : list items) (g : string) : option (list items) :=
  match filter (λ r, gid r = g) records with [] => None | l => Some l end.

Lemma siblings_snoc records r g :
  siblings_of (records ++ [r]) g
  = if decide (gid r = g) then Some (filter (λ x, gid x = g) records ++ [r])%list
    else siblings_of records g.
Proof.
  unfold siblings_of. rewrite filter_app, filter_cons, filter_nil. case_decide; [|by rewrite app_nil_r].
  by destruct (filter _ records).
Qed.

Lemma scan_entries_spec records :
  (scan_entries records).1 = head_entry <$> heads records ∧
  ∀ g, g ≠ "" → dict_get g (scan_entries records).2 = siblings_of records g.
Proof.
  induction records as [|r l [IH1 IH2]] using rev_ind; [done|].
  unfold EpisodeProbes.scan_entries. rewrite fold_left_app. cbn [fold_left].
  fold (scan_entries l). destruct (scan_entries l) as [ordered grouped]. cbn [fst snd] in *.
  rewrite heads_snoc, fmap_app. unfold scan_entry.
  destruct (is_empty (gid r)) eqn:He.
  - apply ungrouped_empty in He. rewrite decide_True by (by left). cbn [fst snd]. split.
    + rewrite IH1. f_equal. cbn. unfold head_entry. by rewrite decide_True.
    + intros g Hg. rewrite siblings_snoc, decide_False by congruence. auto.
  - assert (¬ ungrouped r) as Hr by (rewrite <- ungrouped_empty; congruence).
    pose proof (IH2 (gid r) Hr) as Hg. rewrite Hg.
    destruct (siblings_of l (gid r)) as [sib|] eqn:Es; cbn [fst snd]; split.
    + rewrite decide_False; [by rewrite app_nil_r|]. intros [?|Hn]; [done|]. apply Hn.
      unfold siblings_of in Es. destruct (filter _ l) as [|x f] eqn:Ef; [done|].
      assert (x ∈ filter (λ x, gid x = gid r) l) as Hx by (rewrite Ef; by left).
      apply list_elem_of_filter in Hx as [<- Hx]. by apply list_elem_of_fmap_2.
    + intros g Hne. rewrite siblings_snoc. case_decide as Hd.
      * subst g. rewrite dict_get_set_eq. unfold siblings_of in Es.
        destruct (filter _ l); [done|]. by injection Es as <-.
      * rewrite dict_get_set_ne by done. auto.
    + rewrite decide_True, IH1; [|right; intros Hin].
      * f_equal. cbn. unfold head_entry. by rewrite decide_False.
      * apply list_elem_of_fmap_1 in Hin as (x & Hx & Hin). unfold siblings_of in Es.
        destruct (filter _ l) eqn:Ef; [|done].
        assert (x ∈ filter (λ x, gid x = gid r) l) as Hf by (by apply list_elem_of_filter).
        rewrite Ef in Hf. by apply not_elem_of_nil in Hf.
    + intros g Hne. rewrite siblings_snoc. case_decide as Hd.
      * subst g. rewrite dict_get_set_eq. unfold siblings_of in Es. by destruct (filter _ l).
      * rewrite dict_get_set_ne by done. auto.
Qed.

Lemma heads_sub l h : h ∈ heads l → h ∈ l.
Proof.
  induction l as [|r l IH] using rev_ind; [done|]. rewrite heads_snoc, !elem_of_app.
  intros [?|H]; [by left; auto|]. case_decide; [by right|by apply not_elem_of_nil in H].
Qed.

Lemma probes_spec records :
  build_router_probes str_of parse_float py_sum iter_of records = rmap (head_probe records) (heads records).
Proof.
  unfold build_router_probes. destruct (scan_entries_spec records) as [H1 H2].
  destruct (scan_entries records) as [ordered grouped]. cbn [fst snd] in *.
  rewrite H1, rmap_fmap. apply rmap_ext. intros h Hh.
  unfold head_entry, head_probe, members. case_decide as Hd; [done|]. cbn [entry_probe].
  rewrite (H2 (gid h)) by done. unfold siblings_of.
  destruct (filter (λ r, gid r = gid h) records) as [|y f] eqn:Ef; [done|]. by cbn.
Qed.

Lemma heads_ungrouped l : filter ungrouped (heads l) = filter ungrouped l.
Proof.
  induction l as [|r l IH] using rev_ind; [done|]. rewrite heads_snoc, !filter_app, IH. f_equal.
  case_decide as Hd; [done|]. rewrite filter_cons_False, filter_nil; tauto.
Qed.

Lemma heads_groups l :
  NoDup (gid <$> filter (λ r, ¬ ungrouped r) (heads l)) ∧
  ∀ r, r ∈ l → ¬ ungrouped r → gid r ∈ (gid <$> filter (λ r, ¬ ungrouped r) (heads l)).
Proof.
  induction l as [|r l [IH1 IH2]] using rev_ind; [split; [constructor|set_solver]|].
  rewrite heads_snoc. case_decide as Hd.
  - rewrite filter_app, fmap_app, filter_cons, filter_nil. destruct (decide (¬ ungrouped r)) as [Hu|Hu].
    + cbn [fmap list_fmap]. split.
      * apply NoDup_app. split_and!; [done| |apply NoDup_singleton].
        intros g Hg ->%list_elem_of_singleton. destruct Hd as [?|Hd]; [done|]. apply Hd.
        apply list_elem_of_fmap_1 in Hg as (x & -> & [_ Hx]%list_elem_of_filter).
        apply list_elem_of_fmap_2, heads_sub, Hx.
      * intros x [Hx|Hx]%elem_of_app Hn; apply elem_of_app; [left; auto|].
        apply list_elem_of_singleton in Hx as ->. right. by left.
    + cbn [fmap list_fmap]. rewrite app_nil_r. split; [done|].
      intros x [Hx|Hx]%elem_of_app Hn; [auto|]. apply list_elem_of_singleton in Hx as ->. done.
  - rewrite app_nil_r. split; [done|]. intros x [Hx|Hx]%elem_of_app Hn; [auto|].
    apply list_elem_of_singleton in Hx as ->.
    destruct (decide (gid r ∈ gid <$> l)) as [Hin|Hin]; [|tauto].
    apply list_elem_of_fmap_1 in Hin as (y & Hy & Hin). rewrite Hy. apply IH2; [done|].
    unfold ungrouped in *. congruence.
Qed.

Lemma bind_fmap_list {A B C} (f : A → B) (g : B → list C) l : (f <$> l) ≫= g = l ≫= (λ a, g (f a)).
Proof. induction l as [|a l IH]; [done|]. rewrite fmap_cons, !bind_cons. by f_equal. Qed.

Lemma bind_single {A} (f : A → list A) l : (∀ a, a ∈ l → f a = [a]) → l ≫= f = l.
Proof.
  induction l as [|a l IH]; intros H; [done|]. rewrite bind_cons, H by (by left).
  simpl. f_equal. apply IH. intros b Hb. apply H. by right.
Qed.

Lemma members_perm records : heads records ≫= members records ≡ₚ records.
Proof.
  rewrite (filter_split ungrouped (heads records)), bind_app.
  etrans; [|symmetry; apply (filter_split ungrouped)]. apply Permutation_app.
  - rewrite heads_ungrouped, bind_single; [done|].
    intros h [Hh _]%list_elem_of_filter. unfold members. by rewrite decide_True.
  - destruct (heads_groups records) as [Hnd Hin].
    etrans; [|apply (group_perm gid (gid <$> filter (λ r, ¬ ungrouped r) (heads records))); [done|]].
    + rewrite bind_fmap_list. apply reflexive_eq, bind_ext_in.
      intros h [Hh _]%list_elem_of_filter. unfold members. rewrite decide_False by done.
      symmetry. apply filter_filter_in. unfold ungrouped in *. congruence.
    + intros r [Hr Hin']%list_elem_of_filter. auto.
Qed.

(** Folding the records of an epoch into probes is grouping by execution
    group: there is one probe per record outside a group and one per group, in
    the order of their first records; a group's probe is made of exactly the
    records of the group; every record is in exactly one probe. *)
Theorem router_probes_partition records :
  build_router_probes str_of parse_float py_sum iter_of records
    = rmap (head_probe records) (heads records) ∧
  heads records ≫= members records ≡ₚ records ∧
  NoDup (gid <$> filter (λ r, ¬ ungrouped r) (heads records)).
Proof.
  split; [apply probes_spec|]. split; [apply members_perm|]. apply heads_groups.
Qed.
End grouping.

(** * The probe of a group *)

Section group.
Context (str_of : pyval → string) (parse_float : string → option float) (py_sum : list float → float).
Context (iter_of : pyval → res (list pyval)).
Notation key_list := (key_list str_of iter_of).
Notation fold_sibling := (fold_sibling str_of parse_float iter_of).
Notation merge_flag := (merge_flag str_of parse_float).
Notation group_probe := (group_probe str_of parse_float py_sum iter_of).
Notation read_probe := (read_probe str_of parse_float iter_of).

Definition record_keys (r : items) : res (list string) := key_list (pget "observation_keys" r).

Definition named_weight (kv : option string * pyval) : res (string * float) :=
  w ← to_float parse_float kv.2; Ok (flag_name str_of kv.1, w).

Definition record_flags (r : items) : res (list (string * float)) :=
  match pget "weighted_flags" r with PMap _ d => rmap named_weight d | _ => Ok [] end.

(** The largest weight of each flag. *)
Definition raise_flag (flags : list (string * float)) (nw : string * float) : list (string * float) :=
  dict_set nw.1 (fmax (default (S754_infinity true) (dict_get nw.1 flags)) nw.2) flags.

Definition best_flags (l : list (string * float)) : list (string * float) := fold_left raise_flag l [].

Definition weights_of (name : string) (l : list (string * float)) : list float :=
  (filter (λ nw, nw.1 = name) l).*2.

Lemma best_flags_spec l name :
  dict_get name (best_flags l)
  = match weights_of name l with [] => None | ws => Some (fold_left fmax ws (S754_infinity true)) end.
Proof.
  unfold best_flags, weights_of. induction l as [|[n w] l IH] using rev_ind; [done|].
  rewrite fold_left_app, filter_app, fmap_app, filter_cons, filter_nil. cbn [fold_left fst snd].
  unfold raise_flag at 1. cbn [fst snd]. case_decide as Hd.
  - subst n. rewrite dict_get_set_eq, IH. cbn [fmap list_fmap].
    destruct (filter _ l).*2 as [|x ws]; [done|]. cbn [app default]. cbn [fold_left]. by rewrite fold_left_app.
  - rewrite dict_get_set_ne by done. by rewrite IH, app_nil_r.
Qed.

Lemma best_flags_keys l : NoDup (dict_keys (best_flags l)).
Proof.
  unfold best_flags. induction l as [|nw l IH] using rev_ind; [constructor|].
  rewrite fold_left_app. by apply dict_keys_set_NoDup.
Qed.

Lemma merge_flags fl d fl' :
  rfold merge_flag fl d = Ok fl' → ∃ ws, rmap named_weight d = Ok ws ∧ fl' = fold_left raise_flag ws fl.
Proof.
  revert fl. induction d as [|kv d IH]; intros fl; simpl; [intros [= <-]; by exists []|].
  destruct (merge_flag fl kv) as [x|e] eqn:Em; simpl; [|done].
  unfold EpisodeProbes.merge_flag in Em. destruct (to_float parse_float kv.2) as [w|e] eqn:Ew; [|done].
  injection Em as <-. intros (ws & -> & ->)%IH. exists ((flag_name str_of kv.1, w) :: ws).
  assert (named_weight kv = Ok (flag_name str_of kv.1, w)) as -> by (unfold named_weight; by rewrite Ew).
  done.
Qed.

Definition uniq_from (acc keys : list string) : list string :=
  fold_left (λ acc x, if bool_decide (x ∈ acc) then acc else acc ++ [x])%list keys acc.

Lemma add_keys keys acc :
  fold_left add_key keys (acc, list_to_set acc)
  = (uniq_from acc keys, list_to_set (uniq_from acc keys)).
Proof.
  unfold uniq_from. revert acc. induction keys as [|k keys IH]; intros acc; [done|]. cbn [fold_left].
  rewrite <- IH. f_equal. unfold add_key. cbn [fst snd].
  destruct (decide (k ∈ acc)) as [Hk|Hk].
  - by rewrite !bool_decide_eq_true_2 by (done || by apply elem_of_list_to_set).
  - rewrite !bool_decide_eq_false_2 by (done || by rewrite elem_of_list_to_set).
    f_equal. rewrite list_to_set_app_L. cbn. set_solver.
Qed.

(** The loop over the siblings. *)
Lemma fold_siblings_spec siblings a :
  rfold fold_sibling (([], ∅), []) siblings = Ok a →
  ∃ kss fss, rmap record_keys siblings = Ok kss ∧ rmap record_flags siblings = Ok fss ∧
    a = ((uniq (concat kss), list_to_set (uniq (concat kss))), best_flags (concat fss)).
Proof.
  intros H. refine (rfold_inv fold_sibling (λ pre a, ∃ kss fss,
    rmap record_keys pre = Ok kss ∧ rmap record_flags pre = Ok fss ∧
    a = ((uniq (concat kss), list_to_set (uniq (concat kss))), best_flags (concat fss)))
    siblings [] _ _ _ _ H); [|by exists [], []].
  intros pre x r x' _ (kss & fss & Hk & Hf & ->). unfold EpisodeProbes.fold_sibling. cbn [fst snd].
  destruct (key_list (pget "observation_keys" r)) as [ks|e] eqn:Ek; cbn; [|done].
  change ((∅ : gset string)) with (list_to_set [] : gset string).
  intros Hx. assert (∃ ws, record_flags r = Ok ws ∧
    x' = (fold_left add_key ks (uniq (concat kss), list_to_set (uniq (concat kss))),
          fold_left raise_flag ws (best_flags (concat fss)))) as (ws & Hw & ->).
  { unfold record_flags. destruct (pget "weighted_flags" r); cbn in Hx; try (injection Hx as <-; by exists []).
    destruct (rfold merge_flag _ items) as [fl|e] eqn:Em; cbn in Hx; [|done]. injection Hx as <-.
    destruct (merge_flags _ _ _ Em) as (ws & -> & ->). eauto. }
  exists (kss ++ [ks])%list, (fss ++ [ws])%list. split_and!; [by apply rmap_snoc|by apply rmap_snoc|].
  rewrite add_keys, !concat_app. cbn [concat]. rewrite !app_nil_r. unfold uniq, best_flags.
  by rewrite !fold_left_app.
Qed.

Lemma key_list_texts l : key_list (PSeq false (PStr <$> l)) = Ok l.
Proof.
  unfold EpisodeProbes.key_list. destruct l as [|s l]; [done|]. cbn -[fmap].
  rewrite <- list_fmap_compose. f_equal. apply list_fmap_id.
Qed.

Lemma set_flags_fresh l acc :
  NoDup (dict_keys (acc ++ l)%list) →
  rfold (set_flag str_of parse_float) acc (as_items (prod_map id PFloat <$> l)) = Ok (acc ++ l)%list.
Proof.
  revert acc. induction l as [|[n w] l IH]; intros acc H; [by rewrite app_nil_r|].
  change (as_items (prod_map id PFloat <$> (n, w) :: l))
    with ((Some n, PFloat w) :: as_items (prod_map id PFloat <$> l)). cbn [rfold].
  assert (set_flag str_of parse_float acc (Some n, PFloat w) = Ok (acc ++ [(n, w)])%list) as ->.
  { unfold set_flag. cbn. f_equal. apply dict_set_fresh, dict_get_None.
    unfold dict_keys in *. rewrite fmap_app, fmap_cons in H.
    apply NoDup_app in H as (_ & Hd & _). intros Hn. apply (Hd n Hn). by left. }
  cbn [mbind res_bind]. rewrite IH; by rewrite <- (assoc_L (++)%list).
Qed.

Lemma acceptance_nonempty siblings : siblings ≠ [] → (0 < attempt_count siblings)%nat.
Proof.
  intros H. unfold attempt_count, acceptance_records. destruct (filter _ siblings) eqn:E; [|simpl; lia].
  destruct siblings; [done|simpl; lia].
Qed.

Lemma acceptance_le siblings :
  (accepted_count siblings ≤ attempt_count siblings)%nat ∧ (attempt_count siblings ≤ length siblings)%nat.
Proof.
  unfold accepted_count, attempt_count, acceptance_records. split; [apply length_filter|].
  destruct (filter _ siblings) eqn:E; [done|]. rewrite <- E. apply length_filter.
Qed.

Lemma counts_weighted q a t :
  p_accepted_count q = PInt (Z.of_nat a) → p_attempt_count q = PInt (Z.of_nat t) →
  (a ≤ t)%nat → (0 < t)%nat → (Z.of_nat t < 2 ^ 53)%Z →
  accept_sample parse_float q
  = Ok (fdiv (float_of_Z (Z.of_nat a)) (float_of_Z (Z.of_nat t)), float_of_Z (Z.of_nat t)).
Proof.
  intros Ha Ht Hle Hpos Hb. unfold accept_sample. rewrite Ha, Ht. cbn [is_none andb count_float].
  destruct (float_of_Z_small (Z.of_nat a) ltac:(lia)) as (Fa & Ia & La & _).
  destruct (float_of_Z_small (Z.of_nat t) ltac:(lia)) as (Ft & It & Lt & Pt).
  rewrite Fa, Ft. unfold counts_are_valid. cbn [is_bool negb].
  rewrite Fa, Ft, Ia, It, La, Pt, float_of_Z_leb by lia. cbn [andb].
  by rewrite py_div_ok by (apply fltb_nonzero, Pt; lia).
Qed.

(** What the router learns from an episode group.  The probe of a group
    reads back without a conversion error: its keys are the keys of all its
    records, each once, in order of first occurrence; a flag has its largest
    weight; the duration is the sum of the records' durations; and acceptance
    is weighted by the attempts, so that the probe counts as
    [accepted / attempts] with weight [attempts], [attempts] being the number
    of suffix records, or of all records where there is no suffix, below
    [2 ^ 53].  The fall-back on the boolean is never taken. *)
Theorem group_probe_weighted group_id siblings p :
  group_probe group_id siblings = Ok p → (Z.of_nat (length siblings) < 2 ^ 53)%Z →
  ∃ first kss fss minutes q,
    head siblings = Some first ∧ rmap record_keys siblings = Ok kss ∧
    rmap record_flags siblings = Ok fss ∧ rmap (duration_of parse_float) siblings = Ok minutes ∧
    rp_execution_group_id p = Some group_id ∧ read_probe p = Ok q ∧
    p_family q = family_or_general str_of first ∧ p_duration_minutes q = or_zero (py_sum minutes) ∧
    p_observation_keys q = uniq (concat kss) ∧
    NoDup (dict_keys (p_weighted_flags q)) ∧
    (∀ name, dict_get name (p_weighted_flags q)
             = match weights_of name (concat fss) with
               | [] => None | ws => Some (fold_left fmax ws (S754_infinity true)) end) ∧
    let a := Z.of_nat (accepted_count siblings) in
    let t := Z.of_nat (attempt_count siblings) in
    (0 ≤ a ≤ t)%Z ∧ (0 < t)%Z ∧
    accept_sample parse_float q = Ok (fdiv (float_of_Z a) (float_of_Z t), float_of_Z t).
Proof.
  unfold EpisodeProbes.group_probe. intros H Hb.
  destruct (rfold fold_sibling _ siblings) as [x|e] eqn:Ef; cbn -[Z.pow] in H; [|done].
  destruct (fold_siblings_spec _ _ Ef) as (kss & fss & Hk & Hf & ->).
  destruct siblings as [|first rest] eqn:Es; [done|]. rewrite <- Es in *. cbn -[Z.pow] in H.
  destruct (rmap (duration_of parse_float) siblings) as [minutes|e] eqn:Em; cbn -[Z.pow] in H; [|done].
  assert (siblings ≠ []) as Hne by (rewrite Es; done).
  pose proof (acceptance_nonempty siblings Hne). pose proof (acceptance_le siblings) as [? ?].
  assert (sum_value py_sum minutes = PFloat (py_sum minutes)) as Hs.
  { apply rmap_length in Em. destruct minutes; [|done]. by destruct siblings. }
  exists first, kss, fss, minutes.
  assert (∃ q, read_probe p = Ok q) as [q Hq].
  { injection H as <-. unfold EpisodeProbes.read_probe. cbn [rp_duration_minutes rp_observation_keys rp_weighted_flags fst snd].
    rewrite Hs, float_or_zero_float. cbn [mbind res_bind]. rewrite key_list_texts. cbn [mbind res_bind].
    rewrite (set_flags_fresh _ []) by apply best_flags_keys. cbn. eauto. }
  exists q. pose proof Hq as Hq'. injection H as <-. unfold EpisodeProbes.read_probe in Hq'.
  cbn [rp_duration_minutes rp_observation_keys rp_weighted_flags fst snd] in Hq'.
  rewrite Hs, float_or_zero_float in Hq'. cbn [mbind res_bind] in Hq'.
  rewrite key_list_texts in Hq'. cbn [mbind res_bind] in Hq'.
  rewrite (set_flags_fresh _ []) in Hq' by apply best_flags_keys. cbn [mbind res_bind app] in Hq'.
  injection Hq' as <-. split_and!; try done; try lia.
  - by rewrite Es.
  - apply best_flags_keys.
  - apply best_flags_spec.
  - apply (counts_weighted _ (accepted_count siblings) (attempt_count siblings)); try done; lia.
Qed.
End group.
