(* ===== verification/MetricTheorems.v ===== *)
(** The execution metrics of an epoch, in closed form. *)

From stdpp Require Import base strings list sets gmap.
From Stdlib Require Import ZArith Lia SpecFloat.
From S2P Require Import Prelude PyFloat ListLib PyValue PyConv TraceRuntime EpisodeRuntime.
From S2P Require Import RouterState EpisodeProbes ProbeTheorems.

Section metrics.
Context (str_of : pyval → string) (parse_float : string → option float).
Context (parse_int : string → option Z) (py_sum : list float → float).
Notation gid := (group_id_of str_of).
Notation kind := (kind_of str_of).
Notation duration_of := (duration_of parse_float).
Notation summarize := (summarize_execution_records str_of parse_float py_sum).
Notation scan_record := (scan_record str_of parse_float).

(** A record with its duration. *)
Notation timed := (items * float)%type.

Definition is_kind (k : string) (x : timed) : Prop := kind x.1 = k.
Definition is_standalone (x : timed) : Prop :=
  kind x.1 ≠ RECORD_KIND_SHARED_PREFIX ∧ kind x.1 ≠ RECORD_KIND_EPISODE_SUFFIX.
Definition failed_suffix (x : timed) : Prop :=
  is_kind RECORD_KIND_EPISODE_SUFFIX x ∧ failed_record str_of x.1 = true.
Definition of_group (g : string) (x : timed) : Prop := gid x.1 = g.

#[local] Instance is_kind_dec k x : Decision (is_kind k x) := decide (kind x.1 = k).
#[local] Instance is_standalone_dec x : Decision (is_standalone x).
Proof. unfold is_standalone. apply _. Defined.
#[local] Instance failed_suffix_dec x : Decision (failed_suffix x).
Proof. unfold failed_suffix. apply _. Defined.
#[local] Instance of_group_dec g x : Decision (of_group g x) := decide (gid x.1 = g).

(** The minutes of the records that satisfy [P], added in order. *)
Definition minutes_of (P : timed → Prop) `{∀ x, Decision (P x)} (l : list timed) : float :=
  fold_left fadd (filter P l).*2 f0.

Definition count_of (P : timed → Prop) `{∀ x, Decision (P x)} (l : list timed) : Z :=
  Z.of_nat (length (filter P l)).

(** [0.0 + 1.0 + ... + 1.0]. *)
Definition count_up (n : nat) : float := Nat.iter n (λ x, fadd x f1) f0.

Definition group_ids (records : list items) : list string := filter (λ g, g ≠ "") (gid <$> records).

Definition group_cost_of (l : list timed) (g : string) : group_cost :=
  let own := filter (of_group g) l in
  {| gc_prefix := minutes_of (is_kind RECORD_KIND_SHARED_PREFIX) own;
     gc_attempted := count_up (length (filter (is_kind RECORD_KIND_EPISODE_SUFFIX) own));
     gc_successful :=
       count_up (length (filter (λ x, is_kind RECORD_KIND_EPISODE_SUFFIX x ∧ ¬ failed_suffix x) own)) |}.

(** What the loop over the records has computed. *)
Record scanned_costs (l : list timed) (a : cost_scan) : Prop := {
  sc_durations : rmap duration_of l.*1 = Ok l.*2;
  sc_prefix : shared_prefix_minutes a = minutes_of (is_kind RECORD_KIND_SHARED_PREFIX) l;
  sc_suffix : suffix_minutes a = minutes_of (is_kind RECORD_KIND_EPISODE_SUFFIX) l;
  sc_standalone : standalone_minutes a = minutes_of is_standalone l;
  sc_episodes : episode_count a = count_of (is_kind RECORD_KIND_EPISODE_SUFFIX) l;
  sc_errors : episode_error_count a = count_of failed_suffix l;
  sc_keys : dict_keys (cost_groups a) = uniq (group_ids l.*1);
  sc_groups : ∀ g, g ∈ group_ids l.*1 → dict_get g (cost_groups a) = Some (group_cost_of l g)
}.

Lemma minutes_snoc P `{∀ x, Decision (P x)} l x :
  minutes_of P (l ++ [x]) = if decide (P x) then fadd (minutes_of P l) x.2 else minutes_of P l.
Proof.
  unfold minutes_of. rewrite filter_snoc, fmap_app, fold_left_app. by case_decide.
Qed.

Lemma count_snoc P `{∀ x, Decision (P x)} l x :
  count_of P (l ++ [x]) = (count_of P l + if decide (P x) then 1 else 0)%Z.
Proof. unfold count_of. rewrite filter_snoc, length_app. case_decide; simpl; lia. Qed.

Lemma group_ids_snoc records r :
  group_ids (records ++ [r]) = if decide (gid r = "") then group_ids records else (group_ids records ++ [gid r])%list.
Proof.
  unfold group_ids. rewrite fmap_app. change (gid <$> [r]) with [gid r]. rewrite filter_snoc.
  repeat case_decide; try done. by rewrite app_nil_r.
Qed.

Lemma group_cost_fresh (l : list timed) g : g ≠ "" → g ∉ group_ids l.*1 → group_cost_of l g = no_cost.
Proof.
  intros Hg Hn. unfold group_cost_of. rewrite (filter_none (of_group g)); [done|].
  apply Forall_forall. intros x Hx Hof. apply Hn. unfold group_ids.
  apply list_elem_of_filter. split; [done|]. unfold of_group in Hof. rewrite <- Hof.
  by apply list_elem_of_fmap_2, list_elem_of_fmap_2.
Qed.

Lemma group_cost_other l x g : gid x.1 ≠ g → group_cost_of (l ++ [x]) g = group_cost_of l g.
Proof.
  intros Hg. unfold group_cost_of. rewrite filter_snoc, decide_False by done. by rewrite app_nil_r.
Qed.

Lemma group_cost_own l x :
  group_cost_of (l ++ [x]) (gid x.1)
  = add_cost (kind x.1) x.2 (failed_record str_of x.1) (group_cost_of l (gid x.1)).
Proof.
  unfold group_cost_of, add_cost. rewrite filter_snoc, decide_True by done.
  rewrite minutes_snoc, !filter_snoc. cbn [gc_prefix gc_attempted gc_successful].
  assert (RECORD_KIND_SHARED_PREFIX ≠ RECORD_KIND_EPISODE_SUFFIX) as Hk by done.
  assert (kind x.1 = RECORD_KIND_SHARED_PREFIX → kind x.1 ≠ RECORD_KIND_EPISODE_SUFFIX) as Hps by congruence.
  unfold failed_suffix, is_kind.
  destruct (decide (kind x.1 = RECORD_KIND_SHARED_PREFIX)) as [Hp|Hp].
  { rewrite bool_decide_eq_true_2 by done. rewrite (decide_False (P := kind x.1 = RECORD_KIND_EPISODE_SUFFIX)),
      (decide_False (P := _ ∧ _)), !app_nil_r by (auto || tauto). done. }
  rewrite bool_decide_eq_false_2 by done.
  destruct (decide (kind x.1 = RECORD_KIND_EPISODE_SUFFIX)) as [Hs|Hs].
  - rewrite bool_decide_eq_true_2, length_app, Nat.add_1_r by done.
    assert (failed_record str_of x.1 = true ∨ failed_record str_of x.1 = false) as [Hf|Hf]
      by (destruct (failed_record str_of x.1); auto).
    + rewrite decide_False, app_nil_r, Hf by tauto. done.
    + rewrite decide_True, length_app, Nat.add_1_r, Hf; [done|]. split; [done|]. intros [_ ?]. congruence.
  - rewrite bool_decide_eq_false_2, (decide_False (P := _ ∧ _)), !app_nil_r by (done || tauto). done.
Qed.

Lemma scan_record_ok a r a' :
  scan_record a r = Ok a' → ∃ d, duration_of r = Ok d ∧ scan_record a r = Ok a'.
Proof.
  intros H. pose proof H as H'. unfold EpisodeProbes.scan_record in H'.
  destruct (duration_of r) as [d|e]; [eauto|done].
Qed.

Lemma group_dict_step l a x :
  scanned_costs l a → gid x.1 ≠ "" →
  let a' := dict_set (gid x.1)
    (add_cost (kind x.1) x.2 (failed_record str_of x.1)
       (default no_cost (dict_get (gid x.1) (cost_groups a)))) (cost_groups a) in
  dict_keys a' = uniq (group_ids (l ++ [x])%list.*1) ∧
  ∀ g, g ∈ group_ids (l ++ [x])%list.*1 → dict_get g a' = Some (group_cost_of (l ++ [x]) g).
Proof.
  intros Hs Hg a'. rewrite fmap_app. change ([x].*1) with [x.1].
  rewrite group_ids_snoc, decide_False by done.
  assert (default no_cost (dict_get (gid x.1) (cost_groups a)) = group_cost_of l (gid x.1)) as Hd.
  { destruct (decide (gid x.1 ∈ group_ids l.*1)) as [Hin|Hin]; [by rewrite (sc_groups _ _ Hs)|].
    rewrite group_cost_fresh by done.
    assert (dict_get (gid x.1) (cost_groups a) = None) as ->; [|done].
    apply dict_get_None. by rewrite (sc_keys _ _ Hs), elem_of_uniq. }
  unfold a'. rewrite Hd, <- group_cost_own. split.
  - rewrite dict_keys_set, uniq_snoc, (sc_keys _ _ Hs). unfold dict_has.
    destruct (decide (gid x.1 ∈ group_ids l.*1)) as [Hin|Hin].
    + by rewrite (sc_groups _ _ Hs), bool_decide_eq_true_2 by (done || by apply elem_of_uniq).
    + rewrite bool_decide_eq_false_2 by (by rewrite elem_of_uniq). assert (dict_get (gid x.1) (cost_groups a) = None) as ->; [|done].
      apply dict_get_None. by rewrite (sc_keys _ _ Hs), elem_of_uniq.
  - intros g Hin. destruct (decide (g = gid x.1)) as [->|Hne]; [by rewrite dict_get_set_eq|].
    rewrite dict_get_set_ne by done. rewrite group_cost_other by done. apply (sc_groups _ _ Hs).
    apply elem_of_app in Hin as [?|?%list_elem_of_singleton]; done.
Qed.

Lemma scan_step l a x a' :
  scanned_costs l a → duration_of x.1 = Ok x.2 → scan_record a x.1 = Ok a' → scanned_costs (l ++ [x]) a'.
Proof.
  intros Hs Hd H. unfold EpisodeProbes.scan_record in H. rewrite Hd in H. cbn [mbind res_bind] in H.
  injection H as <-. split; cbn [shared_prefix_minutes suffix_minutes standalone_minutes cost_groups
    episode_count episode_error_count].
  - rewrite !fmap_app. apply rmap_snoc; [apply (sc_durations _ _ Hs)|done].
  - rewrite minutes_snoc, (sc_prefix _ _ Hs). unfold is_kind. case_bool_decide; by case_decide.
  - rewrite minutes_snoc, (sc_suffix _ _ Hs). unfold is_kind. case_bool_decide; by case_decide.
  - rewrite minutes_snoc, (sc_standalone _ _ Hs). unfold is_standalone.
    repeat case_bool_decide; case_decide; try done; tauto.
  - rewrite count_snoc, (sc_episodes _ _ Hs). unfold is_kind. case_bool_decide; by case_decide.
  - rewrite count_snoc, (sc_errors _ _ Hs). unfold failed_suffix, is_kind.
    case_decide as Hf; [destruct Hf as [Hk ->]; by rewrite bool_decide_eq_true_2|].
    case_bool_decide; [|done]. destruct (failed_record str_of x.1); [tauto|done].
  - destruct (is_empty (gid x.1)) eqn:He; [|apply group_dict_step; [done|by destruct (gid x.1)]].
    apply is_empty_spec in He. rewrite fmap_app. change ([x].*1) with [x.1].
    rewrite group_ids_snoc, decide_True by done. apply (sc_keys _ _ Hs).
  - destruct (is_empty (gid x.1)) eqn:He; [|apply group_dict_step; [done|by destruct (gid x.1)]].
    apply is_empty_spec in He. rewrite fmap_app. change ([x].*1) with [x.1].
    rewrite group_ids_snoc, decide_True by done. intros g Hg.
    rewrite group_cost_other; [by apply (sc_groups _ _ Hs)|].
    intros <-. apply list_elem_of_filter in Hg as [Hg _]. done.
Qed.

Lemma scan_spec records a :
  rfold scan_record empty_scan records = Ok a → ∃ l, l.*1 = records ∧ scanned_costs l a.
Proof.
  intros H. refine (rfold_inv scan_record (λ pre a, ∃ l, l.*1 = pre ∧ scanned_costs l a) records [] _ _ _ _ H).
  - intros pre x r x' _ (l & <- & Hs) Hx. destruct (scan_record_ok _ _ _ Hx) as (d & Hd & _).
    exists (l ++ [(r, d)])%list. split; [by rewrite fmap_app|]. by eapply scan_step.
  - exists []. split; [done|]. split; try done. intros g Hg. exfalso. by apply (not_elem_of_nil g).
Qed.

Lemma duration_error r e : duration_of r = Err e → exn_class e = "OverflowError".
Proof.
  unfold EpisodeProbes.duration_of, float_or_zero. destruct (truthy _); [|done].
  destruct (pget "duration_minutes" r); cbn; try done; try (by intros [= <-]).
  - destruct (isfinite _); [done|]. by intros [= <-].
  - by destruct (parse_float s).
Qed.

Lemma scan_error records a e : rfold scan_record a records = Err e → exn_class e = "OverflowError".
Proof.
  revert a. induction records as [|r l IH]; intros a; cbn [rfold]; [done|].
  destruct (scan_record a r) as [a'|e'] eqn:Es; cbn [mbind res_bind]; [apply IH|].
  intros [= ->]. unfold EpisodeProbes.scan_record in Es.
  destruct (duration_of r) eqn:Ed; cbn in Es; [done|]. injection Es as ->. by eapply duration_error.
Qed.

Lemma dict_as_map {V} (f : string → V) d :
  NoDup (dict_keys d) → (∀ k, k ∈ dict_keys d → dict_get k d = Some (f k)) → d.*2 = f <$> dict_keys d.
Proof.
  induction d as [|[k v] d IH]; intros Hnd H; [done|].
  change (dict_keys ((k, v) :: d)) with (k :: dict_keys d) in *.
  apply NoDup_cons in Hnd as [Hk Hnd]. rewrite !fmap_cons. cbn [snd]. f_equal.
  - specialize (H k ltac:(by left)). cbn in H. rewrite decide_True in H by done. congruence.
  - apply IH; [done|]. intros k' Hk'. specialize (H k' ltac:(by right)). cbn in H.
    rewrite decide_False in H by (intros ->; done). done.
Qed.

(** The minutes a group saved: its prefix, once less than its runs. *)
Definition saved (runs_of : group_cost → float) (l : list timed) (g : string) : float :=
  avoided_minutes runs_of (group_cost_of l g).

(** The execution metrics of any records, in closed form.  The minutes are
    added per kind of record, the effective minutes are those of all three
    kinds; the episodes are the suffix records and the errors those of them
    that failed; a group is a distinct group id, and the avoided minutes are,
    group by group, the minutes of its prefixes times its attempted (its
    successful) suffixes less one.  The only exception is the [OverflowError]
    of an integer duration too large for a float. *)
Theorem execution_metrics_account records :
  match summarize records with
  | Err e => exn_class e = "OverflowError"
  | Ok m => ∃ l, l.*1 = records ∧ rmap duration_of records = Ok l.*2 ∧
      let prefix := minutes_of (is_kind RECORD_KIND_SHARED_PREFIX) l in
      let suffix := minutes_of (is_kind RECORD_KIND_EPISODE_SUFFIX) l in
      let standalone := minutes_of is_standalone l in
      let gs := uniq (group_ids records) in
      m = as_items
        [("shared_prefix_compute_minutes", PFloat (py_round 6 prefix));
         ("episode_suffix_compute_minutes", PFloat (py_round 6 suffix));
         ("standalone_compute_minutes", PFloat (py_round 6 standalone));
         ("effective_compute_minutes", PFloat (py_round 6 (fadd (fadd prefix suffix) standalone)));
         ("avoided_recompute_minutes", round_value 6 (sum_value py_sum (saved gc_attempted l <$> gs)));
         ("successful_avoided_recompute_minutes",
            round_value 6 (sum_value py_sum (saved gc_successful l <$> gs)));
         ("episode_group_count", PInt (Z.of_nat (length gs)));
         ("episode_count", PInt (count_of (is_kind RECORD_KIND_EPISODE_SUFFIX) l));
         ("episode_error_count", PInt (count_of failed_suffix l))]
  end.
Proof.
  unfold summarize_execution_records.
  destruct (rfold scan_record empty_scan records) as [a|e] eqn:Ea; cbn [mbind res_bind];
    [|by eapply scan_error].
  destruct (scan_spec _ _ Ea) as (l & <- & Hs). exists l. split; [done|].
  split; [apply (sc_durations _ _ Hs)|]. cbn zeta.
  assert ((cost_groups a).*2 = group_cost_of l <$> uniq (group_ids l.*1)) as Hg.
  { rewrite <- (sc_keys _ _ Hs). apply dict_as_map.
    - rewrite (sc_keys _ _ Hs). apply uniq_NoDup.
    - intros k. rewrite (sc_keys _ _ Hs), elem_of_uniq. apply (sc_groups _ _ Hs). }
  assert (length (cost_groups a) = length (uniq (group_ids l.*1))) as ->
    by (by rewrite <- (sc_keys _ _ Hs); unfold dict_keys; rewrite length_fmap).
  rewrite Hg, <- !list_fmap_compose, (sc_prefix _ _ Hs), (sc_suffix _ _ Hs), (sc_standalone _ _ Hs),
    (sc_episodes _ _ Hs), (sc_errors _ _ Hs). done.
Qed.

(** Records stripped of their groups, as [run_budget_arm] strips them when the
    adapter runs no episodes. *)
Lemma no_groups records : Forall (λ r, gid r = "") records → uniq (group_ids records) = [].
Proof.
  intros H. assert (group_ids records = []) as ->; [|done]. unfold group_ids. apply filter_none.
  apply Forall_fmap. eapply Forall_impl; [apply H|]. intros x Hx Hn. by apply Hn.
Qed.
End metrics.
