(* ===== verification/HarnessFrontier.v ===== *)
(** Frontier work and the no-prune planner of the Explore harness:
    [_frontier_gain], [VariantCatalog], [select_frontier_work] and
    [plan_router_no_prune] of [loopx/capabilities/explore/harness_runtime.py].

    A [catalog] holds the consumed spec ids, what the consumption file holds,
    how often the catalog file was read and the calls of [compile_variant].  The
    catalog file belongs to the agent and may change at any time:
    [catalog_file n] is its value at the n-th read ([PNone] when it is missing
    or not JSON).  The first eight hexadecimal digits of SHA-1, [float] of a
    text, the text of values that are not [str], the adapter's
    [compile_variant] and the worker-branch planner are parameters.  Priorities
    are not NaN. *)

From stdpp Require Import base strings list sets gmap.
From Stdlib Require Import ZArith Lia SpecFloat.
From S2P Require Import Prelude PyFloat PyValue PyConv PySort TraceRuntime EpisodeRuntime.
From S2P Require Import HarnessQueue.
From S2P Require Import RouterState.

(** [s.endswith(p)]. *)
Definition endswith (p s : string) : bool :=
  (String.length p <=? String.length s)%nat
  && bool_decide (String.substring (String.length s - String.length p) (String.length p) s = p).

(** * Gain *)

(** The statistics of a family: under its own name, or under the first name
    that ends with a slash and it. *)
Definition family_stats (router : option router_state) (family : string) : option family_record :=
  s ← router;
  match dict_get family (families s) with
  | Some r => Some r
  | None => snd <$> find (λ kv, endswith ("/" ++ family) kv.1) (families s)
  end.

Definition frontier_gain (router : option router_state) (family : string) (epoch : Z) : float :=
  let stats := family_stats router family in
  let count := default 0%Z (runs <$> stats) in
  let score :=
    if (count <=? 0)%Z then fadd f1 (lit 125 100)
    else
      let score := match stats ≫= novelty_rate with
                   | Some n => fadd f1 (fmin (lit 125 100) (fmul (fmax f0 n) (lit 125 100)))
                   | None => f1
                   end in
      match stats ≫= accept_rate_ema with
      | Some a => if fleb a (lit 1 2) then fadd score (lit 1 4) else score
      | None => score
      end in
  round4 (fadd score (fmin (lit 1 2) (fmul (float_of_Z (Z.max 0 (epoch - 1))) (lit 3 100)))).

(** * Catalog *)

Record compile_call := { cc_spec : items; cc_seed : items; cc_result : res items }.

Record catalog := {
  consumed : gset string;
  consumption_file : option (list string);
  catalog_reads : nat;
  compiled : list compile_call
}.

Section frontier.
Variables (str_of : pyval → string) (parse_float : string → option float) (sha1_prefix : string → Z).
Variables (catalog_file : nat → pyval) (compile_variant : list compile_call → items → items → res items).

Definition spec_mapping (v : pyval) : res items :=
  match v with PMap _ d => Ok d | _ => Err (AttributeError "object has no attribute 'get'") end.

(** The specs of the catalog's value. *)
Definition read_specs (payload : pyval) : res (list items) :=
  let specs := match payload with PMap _ d => pget "specs" d | _ => PNone end in
  l ← (if negb (truthy specs) then Ok []
       else match specs with
            | PSeq _ l => rmap spec_mapping l
            | PMap _ _ | PStr _ => Err (AttributeError "'str' object has no attribute 'get'")
            | _ => Err (TypeError "object is not iterable")
            end);
  Ok (filter (λ spec, truthy (pget "spec_id" spec) = true) l).

Definition catalog_specs : M catalog (list items) := λ c,
  (read_specs (catalog_file (catalog_reads c)),
   {| consumed := consumed c; consumption_file := consumption_file c;
      catalog_reads := S (catalog_reads c); compiled := compiled c |}).

Definition spec_id_of (spec : items) : string := py_str str_of (pget "spec_id" spec).

Definition is_pending (done : gset string) (spec : items) : bool := negb (bool_decide (spec_id_of spec ∈ done)).

Definition seeded_by (family : string) (spec : items) : bool :=
  bool_decide (str_or_empty str_of (pget "seed_family" spec) = family).

Definition pending_for (family : string) : M catalog (list items) :=
  specs ← catalog_specs;
  done ← gets consumed;
  mret (filter (λ spec, seeded_by family spec = true ∧ is_pending done spec = true) specs).

Definition pending_count : M catalog nat :=
  specs ← catalog_specs;
  done ← gets consumed;
  mret (length (filter (λ spec, is_pending done spec = true) specs)).

(** [sorted(self.consumed)]. *)
Definition sorted_set (X : gset string) : list string := py_sort String.ltb (elements X).

Definition set_consumed (X : gset string) : M catalog unit :=
  modify (λ c, {| consumed := X; consumption_file := Some (sorted_set X);
                  catalog_reads := catalog_reads c; compiled := compiled c |}).

Definition consume (spec_id : string) : M catalog unit :=
  done ← gets consumed; set_consumed ({[ spec_id ]} ∪ done).

Definition restore_consumed (spec_ids : list pyval) : M catalog unit :=
  set_consumed (list_to_set (filter (λ s, is_empty (py_strip s) = false) (py_str str_of <$> spec_ids))).

Definition call_compile (spec seed : items) : M catalog (res items) := λ c,
  let r := compile_variant (compiled c) spec seed in
  (Ok r, {| consumed := consumed c; consumption_file := consumption_file c;
            catalog_reads := catalog_reads c;
            compiled := compiled c ++ [{| cc_spec := spec; cc_seed := seed; cc_result := r |}] |})%list.

(** * Selection *)

Definition family_of (item : items) : string := str_or_empty str_of (pget "family" item).

Definition by_family (seed_items : list items) : list (string * items) :=
  fold_left (λ d item,
    let family := family_of item in
    if is_empty family || dict_has family d then d else (d ++ [(family, item)])%list) seed_items [].

Definition gain_key (router : option router_state) (epoch : Z) (family : string) : float * Z * string :=
  (fopp (frontier_gain router family epoch),
   ((sha1_prefix family * (2 * epoch + 1)) mod 1000003)%Z, family).

(** Tuples compare by the first components that differ. *)
Definition gain_lt (a b : float * Z * string) : bool :=
  let '(ga, ha, fa) := a in
  let '(gb, hb, fb) := b in
  if negb (feqb ga gb) then fltb ga gb
  else if negb (ha =? hb)%Z then (ha <? hb)%Z
  else String.ltb fa fb.

Definition ranked_families (router : option router_state) (epoch : Z) (seed_items : list items)
  : list (string * items) :=
  py_sort (λ x y, gain_lt (gain_key router epoch x.1) (gain_key router epoch y.1)) (by_family seed_items).

Definition spec_key (spec : items) : res (float * string) :=
  p ← float_or_zero parse_float (pget "priority" spec); Ok (fopp p, spec_id_of spec).

Definition spec_lt (a b : (float * string) * items) : bool :=
  if negb (feqb a.1.1 b.1.1) then fltb a.1.1 b.1.1 else String.ltb a.1.2 b.1.2.

(** [sorted(pending, key=...)]. *)
Definition sort_specs (pending : list items) : res (list items) :=
  keys ← rmap spec_key pending;
  Ok ((py_sort spec_lt (zip keys pending)).*2).

Definition complete_variant (family : string) (seed spec item : items) : items :=
  psetdefault "concurrency_key" (PStr (family ++ ":variant:" ++ spec_id_of spec))
    (psetdefault "seed_item_id" (pget "item_id" seed)
      (psetdefault "family" (PStr family)
        (psetdefault "variant_spec" (PMap false spec)
          (psetdefault "is_variant" (PBool true) item)))).

(** A row of the audit, with the spec it is about. *)
Record spec_audit := {
  sa_spec : items;
  sa_spec_id : pyval;
  sa_seed_family : string;
  sa_intent : pyval;
  sa_gain : float
}.

Fixpoint select_loop (router : option router_state) (epoch : Z) (lanes : nat)
    (ranked : list (string * items)) : M catalog (list (items * spec_audit)) :=
  match ranked with
  | [] => mret []
  | (family, seed) :: rest =>
      match lanes with
      | O => mret []
      | S lanes' =>
          found ← pending_for family;
          pending ← lift (sort_specs found);
          match pending with
          | [] => select_loop router epoch lanes rest
          | spec :: _ =>
              r ← call_compile spec seed;
              item ← lift r;
              let item := complete_variant family seed spec item in
              _ ← consume (spec_id_of spec);
              let row := {| sa_spec := spec; sa_spec_id := pget "spec_id" spec;
                            sa_seed_family := family; sa_intent := pget "intent" spec;
                            sa_gain := frontier_gain router family epoch |} in
              more ← select_loop router epoch lanes' rest;
              mret ((item, row) :: more)
          end
      end
  end.

Record frontier_audit := {
  fa_requested_lanes : Z;
  fa_admitted : nat;
  fa_catalog_pending_after : nat;
  fa_specs : list spec_audit
}.

Definition select_frontier_work (router : option router_state) (epoch max_lanes : Z)
    (seed_items : list items) : M catalog (list items * frontier_audit) :=
  rows ← select_loop router epoch (Z.to_nat (Z.max 0 max_lanes))
           (ranked_families router epoch seed_items);
  left ← pending_count;
  mret (rows.*1,
        {| fa_requested_lanes := max_lanes; fa_admitted := length rows;
           fa_catalog_pending_after := left; fa_specs := rows.*2 |}).

(** * The no-prune planner *)

(** The items under their ids, and the items whose id was taken. *)
Definition index_items (seed_items : list items) : list (string * items) * list items :=
  fold_left (λ a item,
    let item_id := py_str str_of (pget "item_id" item) in
    if dict_has item_id a.1 then (a.1, a.2 ++ [item])%list else (a.1 ++ [(item_id, item)], a.2)%list)
    seed_items ([], []).

Definition planner_todo (index : nat) (entry : string * items) : items :=
  let '(item_id, item) := entry in
  as_items
    [("todo_id", PStr item_id);
     ("text", PStr (py_str str_of (por (pget "text" item) (pget "item_id" item))));
     ("status", PStr "open"); ("task_class", PStr "advancement_task");
     ("required_write_scopes",
       PSeq false [PStr ("artifacts/" ++ py_str str_of (pget "family" item) ++ "/**")]);
     ("index", PInt (Z.of_nat index))].

(** The todo ids of the selected and of the rejected branches. *)
Record branch_plan := { bp_selected : list (list pyval); bp_rejected : list (list pyval) }.

(** The loop over the ids of the plan: the items found and the ids used. *)
Definition place (by_id : list (string * items)) (a : list items * gset string) (todo_id : string)
  : list items * gset string :=
  match dict_get todo_id by_id with
  | Some item => if bool_decide (todo_id ∈ a.2) then a else (a.1 ++ [item], {[ todo_id ]} ∪ a.2)%list
  | None => a
  end.

Definition plan_router_no_prune (plan : list items → branch_plan) (seed_items : list items) : list items :=
  let '(by_id, duplicate_items) := index_items seed_items in
  let p := plan (imap planner_todo by_id) in
  let planned := py_str str_of <$> (concat (bp_selected p) ++ concat (bp_rejected p))%list in
  let '(ordered, used) := fold_left (place by_id) planned ([], ∅) in
  (ordered ++ (filter (λ kv, kv.1 ∉ used) by_id).*2 ++ duplicate_items)%list.

Definition plan_round_robin (seed_items : list items) : list items := seed_items.
End frontier.
