(* ===== verification/FrontierTheorems.v ===== *)
(** What the frontier selection and the no-prune planner guarantee.

    Whatever the worker-branch planner answers, the planned queue is a
    permutation of the seeds.  Frontier selection takes at most the lanes it was
    given, one spec per family in the order of the gain, and consumes a spec
    exactly when the adapter compiled it, at most once. *)

From stdpp Require Import base strings list sets gmap.
From Stdlib Require Import ZArith Lia SpecFloat Sorting.Sorted.
From S2P Require Import Prelude PyFloat ListLib PyValue PyConv PySort TraceRuntime EpisodeRuntime.
From S2P Require Import HarnessQueue RouterState HarnessFrontier.

(** * The no-prune planner *)

Lemma fold_left_snoc_ind {A B} (f : B → A → B) (b : B) (P : list A → B → Prop) l :
  P [] b → (∀ l x b', P l b' → P (l ++ [x])%list (f b' x)) → P l (fold_left f l b).
Proof.
  intros Hb Hf. induction l as [|x l IH] using rev_ind; [done|].
  rewrite fold_left_app. simpl. by apply Hf.
Qed.

Section planner.
Variable (str_of : pyval → string).

Lemma index_items_spec seeds :
  let '(by_id, dups) := index_items str_of seeds in
  NoDup (dict_keys by_id) ∧ by_id.*2 ++ dups ≡ₚ seeds.
Proof.
  unfold index_items. apply (fold_left_snoc_ind _ _
    (λ l (a : list (string * items) * list items), let '(by_id, dups) := a in
       NoDup (dict_keys by_id) ∧ by_id.*2 ++ dups ≡ₚ l)).
  { split; [constructor|done]. }
  intros l item [by_id dups] [Hnd Hp]. simpl. unfold dict_has.
  destruct (dict_get _ by_id) eqn:E.
  - split; [done|]. rewrite app_assoc. by f_equiv.
  - apply dict_get_None in E. split.
    + unfold dict_keys in *. rewrite fmap_app. apply NoDup_app.
      split_and!; [done| |apply NoDup_singleton]. intros k Hk ->%list_elem_of_singleton. by apply E.
    + rewrite fmap_app, <- Hp. simpl. rewrite <- !app_assoc. f_equiv. simpl. by rewrite Permutation_cons_append.
Qed.

(** What the loop over the plan places: the known ids, once each, in order. *)
Lemma place_spec by_id planned :
  fold_left (place by_id) planned ([], ∅) =
  (omap (λ k, dict_get k by_id) (uniq planned),
   list_to_set (filter (λ k, k ∈ dict_keys by_id) (uniq planned))).
Proof.
  apply (fold_left_snoc_ind _ _ (λ l a, a =
    (omap (λ k, dict_get k by_id) (uniq l),
     list_to_set (filter (λ k, k ∈ dict_keys by_id) (uniq l))))); [done|].
  intros l x a ->. rewrite uniq_snoc. unfold place. simpl.
  destruct (dict_get x by_id) as [item|] eqn:E.
  - assert (x ∈ dict_keys by_id) as Hx
      by (destruct (decide (x ∈ dict_keys by_id)) as [|Hn]; [done|]; apply dict_get_None in Hn; congruence).
    assert (x ∈@{gset string} list_to_set (filter (λ k, k ∈ dict_keys by_id) (uniq l)) ↔ x ∈ uniq l) as Hin.
    { rewrite elem_of_list_to_set, list_elem_of_filter. tauto. }
    destruct (decide (x ∈ uniq l)) as [Hd|Hd].
    + rewrite !bool_decide_true by tauto. done.
    + rewrite !bool_decide_false by tauto. rewrite omap_app, filter_app. simpl. rewrite E. simpl.
      f_equal. rewrite filter_cons, filter_nil, decide_True by done. rewrite list_to_set_app_L. simpl.
      rewrite (right_id_L ∅ (∪)). apply (comm_L (∪)).
  - apply dict_get_None in E as Hx. destruct (bool_decide _); [done|].
    rewrite omap_app, filter_app. simpl. rewrite E, filter_cons, filter_nil, decide_False by done. simpl.
    by rewrite !app_nil_r.
Qed.

Lemma omap_get_perm {V} (d : list (string * V)) ks :
  NoDup (dict_keys d) → NoDup ks →
  omap (λ k, dict_get k d) ks ≡ₚ (filter (λ kv, kv.1 ∈ ks) d).*2.
Proof.
  intros Hd. induction ks as [|k ks IH]; intros Hk; simpl.
  { rewrite filter_none; [done|]. apply Forall_forall. intros kv _. apply not_elem_of_nil. }
  apply NoDup_cons in Hk as [Hk Hks].
  destruct (dict_get k d) as [v|] eqn:E; rewrite IH by done; clear IH.
  - apply dict_get_Some_in in E. apply list_elem_of_split in E as (d1 & d2 & ->).
    unfold dict_keys in Hd. rewrite fmap_app in Hd. simpl in Hd.
    apply NoDup_app in Hd as (_ & Hd1 & [Hd2 _]%NoDup_cons).
    assert (∀ kv, kv ∈ (d1 ++ d2)%list → kv.1 ≠ k) as Hne.
    { intros kv [H|H]%elem_of_app <-.
      - apply (Hd1 kv.1); [by apply list_elem_of_fmap_2|left].
      - apply Hd2. by apply (list_elem_of_fmap_2 fst). }
    rewrite !filter_app, !filter_cons. simpl. rewrite decide_False, decide_True by (try left; done).
    rewrite !fmap_app. simpl. rewrite Permutation_middle. apply Permutation_app.
    + apply reflexive_eq. f_equal. apply filter_ext_in. intros kv Hkv.
      rewrite elem_of_cons. assert (kv.1 ≠ k) by (apply Hne; set_solver). tauto.
    + constructor. apply reflexive_eq. f_equal. apply filter_ext_in. intros kv Hkv.
      rewrite elem_of_cons. assert (kv.1 ≠ k) by (apply Hne; set_solver). tauto.
  - apply dict_get_None in E. apply reflexive_eq. f_equal. apply filter_ext_in. intros kv Hkv.
    rewrite elem_of_cons. assert (kv.1 ≠ k) by (intros <-; apply E; by apply list_elem_of_fmap_2). tauto.
Qed.

Lemma no_prune_spec plan seed_items :
  let by_id := (index_items str_of seed_items).1 in
  let p := plan (imap (planner_todo str_of) by_id) in
  let planned := py_str str_of <$> (concat (bp_selected p) ++ concat (bp_rejected p))%list in
  let out := plan_router_no_prune str_of plan seed_items in
  out ≡ₚ seed_items ∧ omap (λ k, dict_get k by_id) (uniq planned) `prefix_of` out.
Proof.
  intros by_id p planned out. unfold out, plan_router_no_prune.
  pose proof (index_items_spec seed_items) as Hi. unfold by_id, p in *.
  destruct (index_items str_of seed_items) as [d dups]. simpl in *. destruct Hi as [Hnd Hp].
  fold planned. rewrite place_spec. split; [|by eexists].
  rewrite <- Hp, app_assoc. f_equiv. rewrite omap_get_perm by (done || apply uniq_NoDup).
  rewrite <- fmap_app. f_equiv.
  etrans; [|symmetry; apply (filter_split (λ kv : string * items, kv.1 ∈ uniq planned))].
  apply Permutation_app; [done|]. apply reflexive_eq, filter_ext_in. intros kv Hkv. fold planned.
  assert (kv.1 ∈ dict_keys d) by (by apply list_elem_of_fmap_2).
  rewrite (elem_of_list_to_set (C := gset string)), list_elem_of_filter. tauto.
Qed.

(** Sorting without pruning.  Whatever branches the worker-branch planner
    selects and rejects (unknown and repeated ids included), the queue planned
    by the router arm is a permutation of the seed items: no seed loses its
    slot and none runs twice; it starts with the seeds the plan names, in the
    order in which the plan first names them. *)
Theorem no_prune_permutation plan seed_items :
  let by_id := (index_items str_of seed_items).1 in
  let p := plan (imap (planner_todo str_of) by_id) in
  let planned := py_str str_of <$> (concat (bp_selected p) ++ concat (bp_rejected p))%list in
  let out := plan_router_no_prune str_of plan seed_items in
  out ≡ₚ seed_items ∧ omap (λ k, dict_get k by_id) (uniq planned) `prefix_of` out.
Proof. apply no_prune_spec. Qed.
End planner.

(** * Ranking *)

Lemma frontier_gain_not_nan router family epoch : isnan (frontier_gain router family epoch) = false.
Proof.
  unfold frontier_gain. apply py_round_not_nan, fadd_not_nan.
  2:{ apply fmin_finite; [done|]. apply fmul_no_sign; [apply float_of_Z_no_sign; lia|done]. }
  assert (∀ n, isnan (fadd f1 (fmin (lit 125 100) (fmul (fmax f0 n) (lit 125 100)))) = false) as Hn.
  { intros n. apply fadd_not_nan; [done|]. apply fmin_finite; [done|].
    by apply fmul_no_sign; [apply fmax_no_sign|]. }
  destruct (_ <=? _)%Z; [by vm_compute|].
  set (score := match _ ≫= novelty_rate with Some n => _ | None => _ end).
  assert (isnan score = false) as Hs by (unfold score; destruct (_ ≫= novelty_rate); [apply Hn|done]).
  destruct (_ ≫= accept_rate_ema) as [a|]; [|done].
  destruct (fleb a (lit 1 2)); [by apply fadd_not_nan|done].
Qed.

Section ranking.
Variables (str_of : pyval → string) (sha1_prefix : string → Z) (router : option router_state) (epoch : Z).

Lemma by_family_spec seeds :
  NoDup (by_family str_of seeds).*1 ∧
  ∀ f s, (f, s) ∈ by_family str_of seeds → s ∈ seeds ∧ family_of str_of s = f ∧ f ≠ "".
Proof.
  unfold by_family. apply (fold_left_snoc_ind _ _ (λ l d,
    NoDup d.*1 ∧ ∀ f s, (f, s) ∈ d → s ∈ l ∧ family_of str_of s = f ∧ f ≠ "")).
  { split; [constructor|by intros ?? ?%elem_of_nil]. }
  intros l item d [Hnd Hd]. unfold dict_has.
  destruct (is_empty _) eqn:Ee; simpl; [|destruct (dict_get _ d) eqn:Eg].
  - split; [done|]. intros f s (? & ? & ?)%Hd. set_solver.
  - split; [done|]. intros f s (? & ? & ?)%Hd. set_solver.
  - apply dict_get_None in Eg. apply is_empty_false in Ee. split.
    + rewrite fmap_app. apply NoDup_app. split_and!; [done| |apply NoDup_singleton].
      intros k Hk ->%list_elem_of_singleton. by apply Eg.
    + intros f s [(? & ? & ?)%Hd|[= -> ->]%list_elem_of_singleton]%elem_of_app; set_solver.
Qed.

Definition rank_key (f : string) : (Z * Z * Z) * Z * string :=
  let '(g, h, name) := gain_key sha1_prefix router epoch f in (frank g, h, name).

Lemma gain_lt_key x y :
  gain_lt (gain_key sha1_prefix router epoch x) (gain_key sha1_prefix router epoch y) = true ↔
  lex (lex lex_lt Z.lt) string_lt (rank_key x) (rank_key y).
Proof.
  unfold rank_key, gain_key, gain_lt, lex. simpl.
  set (gx := fopp _). set (gy := fopp _).
  assert (isnan gx = false) as Hx by (unfold gx; rewrite isnan_fopp; apply frontier_gain_not_nan).
  assert (isnan gy = false) as Hy by (unfold gy; rewrite isnan_fopp; apply frontier_gain_not_nan).
  pose proof (fltb_lex gx gy Hx Hy) as Hlt. pose proof (feqb_lex gx gy Hx Hy) as Heq.
  pose proof (st_irrefl lex_lt (frank gx)) as Hirr.
  destruct (feqb gx gy) eqn:E; simpl.
  - assert (frank gx = frank gy) as Hf by (by apply Heq). rewrite <- Hf in *.
    set (hx := (_ mod _)%Z). set (hy := (_ mod _)%Z).
    destruct (Z.eqb_spec hx hy) as [->|Hne]; simpl.
    + unfold string_lt. split; [intros H; right; auto|]. intros [[?|[_ ?]]|[_ H]]; [tauto|lia|done].
    + rewrite Z.ltb_lt. split; [intros H; left; right; auto|].
      intros [[?|[_ H]]|[[= H] _]]; [tauto|done|done].
  - assert (frank gx ≠ frank gy) as Hf by (intros H; apply Heq in H; congruence).
    rewrite Hlt. split; [intros H; left; left; done|]. intros [[H|[H _]]|[[= H] _]]; [done|tauto|tauto].
Qed.

(** The families are ranked by gain, then by the rotated hash, then by name. *)
Lemma ranked_families_spec seeds :
  let ranked := ranked_families str_of sha1_prefix router epoch seeds in
  NoDup ranked.*1 ∧ ranked ≡ₚ by_family str_of seeds ∧
  StronglySorted (λ x y, gain_lt (gain_key sha1_prefix router epoch y.1)
                                 (gain_key sha1_prefix router epoch x.1) = false) ranked.
Proof.
  intros ranked. assert (ranked ≡ₚ by_family str_of seeds) as Hp by apply py_sort_perm.
  split_and!; [|done|].
  - rewrite Hp. apply by_family_spec.
  - apply (py_sort_sorted (λ x y : string * items, gain_lt (gain_key sha1_prefix router epoch x.1)
      (gain_key sha1_prefix router epoch y.1)) (λ x, rank_key x.1) (lex (lex lex_lt Z.lt) string_lt)
      (λ _, True)); [intros x y _ _; apply gain_lt_key|by apply Forall_true].
Qed.
End ranking.

(** * Selection *)

Section selection.
Variables (str_of : pyval → string) (parse_float : string → option float) (sha1_prefix : string → Z).
Variables (catalog_file : nat → pyval) (compile_variant : list compile_call → items → items → res items).
Variables (router : option router_state) (epoch : Z).

Notation spec_id := (spec_id_of str_of).

Definition tick (c : catalog) : catalog :=
  {| consumed := consumed c; consumption_file := consumption_file c;
     catalog_reads := S (catalog_reads c); compiled := compiled c |}.

Definition pending_at (c : catalog) (family : string) (spec : items) : Prop :=
  seeded_by str_of family spec = true ∧ is_pending str_of (consumed c) spec = true.

Lemma pending_for_eq family c :
  pending_for str_of catalog_file family c =
  (specs ← read_specs (catalog_file (catalog_reads c));
   Ok (filter (λ spec, seeded_by str_of family spec = true ∧ is_pending str_of (consumed c) spec = true) specs),
   tick c).
Proof.
  unfold pending_for, catalog_specs, gets, mbind, M_bind, mret, M_ret. simpl.
  by destruct (read_specs _).
Qed.

Lemma sort_specs_perm found pending : sort_specs str_of parse_float found = Ok pending → pending ≡ₚ found.
Proof.
  unfold sort_specs. destruct (rmap _ found) as [keys|e] eqn:E; simpl; [|done]. intros [= <-].
  rewrite py_sort_perm. apply rmap_length in E. by rewrite snd_zip by lia.
Qed.

Definition succeeded (call : compile_call) : bool := is_ok (cc_result call).

(** The spec of a call was pending for its family in the catalog read. *)
Definition from_catalog (ranked : list (string * items)) (c c' : catalog) (call : compile_call) : Prop :=
  ∃ n specs family, (catalog_reads c ≤ n < catalog_reads c')%nat ∧
    read_specs (catalog_file n) = Ok specs ∧ cc_spec call ∈ specs ∧
    (family, cc_seed call) ∈ ranked ∧ seeded_by str_of family (cc_spec call) = true ∧
    spec_id (cc_spec call) ∉ consumed c.

(** The bookkeeping of the calls [new]: consumed are exactly the specs that
    compiled, once each. *)
Definition booked (c c' : catalog) (new : list compile_call) : Prop :=
  let ids := (λ call, spec_id (cc_spec call)) <$> filter (λ call, succeeded call = true) new in
  compiled c' = (compiled c ++ new)%list ∧ NoDup ids ∧ Forall (λ id, id ∉ consumed c) ids ∧
  consumed c' = consumed c ∪ list_to_set ids ∧
  consumption_file c' = match ids with [] => consumption_file c | _ => Some (sorted_set (consumed c')) end.

(** A selected item and its row of the audit, against the call that made it. *)
Definition row_of (row : items * spec_audit) (call : compile_call) : Prop :=
  ∃ item, cc_result call = Ok item ∧ sa_spec row.2 = cc_spec call ∧
    row.1 = complete_variant str_of (sa_seed_family row.2) (cc_seed call) (cc_spec call) item ∧
    sa_gain row.2 = frontier_gain router (sa_seed_family row.2) epoch.

Definition select_post (lanes : nat) (ranked : list (string * items)) (c : catalog)
    (r : res (list (items * spec_audit))) (c' : catalog) : Prop :=
  ∃ new, booked c c' new ∧ (catalog_reads c ≤ catalog_reads c')%nat ∧
    (length (filter (λ call, succeeded call = true) new) ≤ lanes)%nat ∧
    Forall (from_catalog ranked c c') new ∧
    match r with
    | Ok rows => Forall2 row_of rows new ∧ (sa_seed_family ∘ snd <$> rows) `sublist_of` ranked.*1
    | Err _ => (length (filter (λ call, succeeded call = false) new) ≤ 1)%nat
    end.

Lemma booked_nil c n :
  booked c {| consumed := consumed c; consumption_file := consumption_file c; catalog_reads := n;
              compiled := compiled c |} [].
Proof.
  unfold booked. simpl. rewrite app_nil_r, (right_id_L ∅ (∪)).
  split_and!; [done|constructor|constructor|done|done].
Qed.

Lemma select_post_idle lanes ranked c r n :
  match r with Ok rows => rows = [] | Err _ => True end →
  select_post lanes ranked c r
    {| consumed := consumed c; consumption_file := consumption_file c;
       catalog_reads := n + catalog_reads c; compiled := compiled c |}.
Proof.
  intros Hr. exists []. split_and!; [apply booked_nil|simpl; lia|simpl; lia|constructor|].
  destruct r as [rows|e]; [subst; split; [constructor|apply sublist_nil_l]|simpl; lia].
Qed.

Lemma from_catalog_mono ranked ranked' c1 c2 c3 c4 call :
  ranked ⊆ ranked' → (catalog_reads c1 ≤ catalog_reads c2)%nat → (catalog_reads c3 ≤ catalog_reads c4)%nat →
  consumed c1 ⊆ consumed c2 →
  from_catalog ranked c2 c3 call → from_catalog ranked' c1 c4 call.
Proof.
  intros Hr H1 H2 Hc (n & specs & family & Hn & Hs & Hin & Hf & Hseed & Hid).
  exists n, specs, family. split_and!; [lia|lia|done|done|by apply Hr|done|set_solver].
Qed.

Notation loop := (select_loop str_of parse_float catalog_file compile_variant router epoch).

(** One spec compiled and consumed. *)
Lemma select_post_cons lanes ranked family seed c spec item rows_r c2 specs :
  let call := {| cc_spec := spec; cc_seed := seed; cc_result := Ok item |} in
  let c1 := {| consumed := {[ spec_id spec ]} ∪ consumed c;
               consumption_file := Some (sorted_set ({[ spec_id spec ]} ∪ consumed c));
               catalog_reads := S (catalog_reads c); compiled := compiled c ++ [call] |}%list in
  let row := {| sa_spec := spec; sa_spec_id := pget "spec_id" spec; sa_seed_family := family;
                sa_intent := pget "intent" spec; sa_gain := frontier_gain router family epoch |} in
  read_specs (catalog_file (catalog_reads c)) = Ok specs → spec ∈ specs →
  seeded_by str_of family spec = true → spec_id spec ∉ consumed c →
  select_post lanes ranked c1 rows_r c2 →
  select_post (S lanes) ((family, seed) :: ranked) c
    (match rows_r with
     | Ok rows => Ok ((complete_variant str_of family seed spec item, row) :: rows)
     | Err e => Err e
     end) c2.
Proof.
  intros call c1 row Hread Hin Hseed Hid (new & (Hcomp & Hnd & Hfresh & Hcons & Hfile) & Hreads & Hlen & Hall & Hr).
  assert (filter (λ call, succeeded call = true) (call :: new) =
          call :: filter (λ call, succeeded call = true) new) as Hfil by (by rewrite filter_cons, decide_True).
  simpl in Hcomp, Hreads, Hfresh, Hcons. exists (call :: new). split_and!; [|lia|rewrite Hfil; simpl; lia| |].
  - unfold booked. rewrite Hfil. simpl. split_and!.
    + by rewrite Hcomp, <- app_assoc.
    + constructor; [|done]. intros Hm. rewrite Forall_forall in Hfresh. specialize (Hfresh _ Hm). set_solver.
    + constructor; [done|]. eapply Forall_impl; [exact Hfresh|]. set_solver.
    + rewrite Hcons. set_solver.
    + rewrite Hfile. destruct (_ <$> filter _ new) eqn:E; [|done]. rewrite Hcons. simpl.
      by rewrite (right_id_L ∅ (∪)).
  - constructor.
    + exists (catalog_reads c), specs, family. split_and!; try done; try lia; left.
    + eapply Forall_impl; [exact Hall|]. intros call'. apply from_catalog_mono; simpl; [set_solver|lia|lia|set_solver].
  - destruct rows_r as [rows|e].
    + destruct Hr as [Hrows Hsub]. split; [|by apply sublist_skip]. constructor; [|done]. by exists item.
    + rewrite filter_cons, decide_False by done. done.
Qed.

Lemma select_loop_spec lanes ranked c r c' :
  loop lanes ranked c = (r, c') → select_post lanes ranked c r c'.
Proof.
  revert lanes c r c'. induction ranked as [|[family seed] ranked IH]; intros lanes c r c' H.
  { injection H as <- <-. by apply (select_post_idle lanes [] c (Ok []) 0). }
  destruct lanes as [|lanes]; [injection H as <- <-; by apply (select_post_idle 0 _ c (Ok []) 0)|].
  cbn [select_loop] in H. unfold mbind, M_bind, lift in H. rewrite pending_for_eq in H.
  destruct (read_specs _) as [specs|e] eqn:Hread; simpl in H;
    [|injection H as <- <-; by apply (select_post_idle _ _ c (Err e) 1)].
  destruct (sort_specs _ _ _) as [pending|e] eqn:Hsort;
    [|injection H as <- <-; by apply (select_post_idle _ _ c (Err e) 1)].
  apply sort_specs_perm in Hsort. destruct pending as [|spec pending].
  { destruct (IH _ _ _ _ H) as (new & Hb & Hreads & Hlen & Hall & Hr). exists new.
    simpl in Hreads. split_and!; [done|lia|done| |].
    - eapply Forall_impl; [exact Hall|]. intros call. apply from_catalog_mono; simpl; [set_solver|lia|done|done].
    - destruct r as [rows|e]; [|done]. destruct Hr. split; [done|by apply sublist_cons]. }
  assert (spec ∈ specs ∧ seeded_by str_of family spec = true ∧ spec_id spec ∉ consumed c)
    as (Hin & Hseed & Hid).
  { assert (spec ∈ spec :: pending) as Hs by left. rewrite Hsort in Hs.
    apply list_elem_of_filter in Hs as [[? Hp] ?]. unfold is_pending in Hp.
    by apply negb_true_iff, bool_decide_eq_false in Hp. }
  simpl in H. destruct (compile_variant _ _ _) as [item|e] eqn:Hc.
  - unfold consume, gets, set_consumed, modify, mbind, M_bind in H. simpl in H.
    match type of H with context [loop lanes ranked ?c1] => destruct (loop lanes ranked c1) as [r1 c2] eqn:E end.
    apply IH in E. apply (select_post_cons _ _ family seed c spec item _ _ specs) in E; try done.
    by destruct r1; injection H as <- <-.
  - injection H as <- <-. exists [{| cc_spec := spec; cc_seed := seed; cc_result := Err e |}].
    assert (filter (λ call, succeeded call = true)
              [{| cc_spec := spec; cc_seed := seed; cc_result := Err e |}] = []) as Hf by done.
    unfold booked. rewrite Hf. simpl. rewrite (right_id_L ∅ (∪)).
    split_and!; try done; try constructor; try lia; [|constructor].
    exists (catalog_reads c), specs, family. split_and!; try done; simpl; try lia; left.
Qed.

(** Frontier selection.  Families are ranked by gain, the rotated hash and
    the name; specs are taken in that order, at most one per family and at most
    [max_lanes].  Whatever the adapter answers and however the catalog file
    changes meanwhile, a spec is consumed exactly when it was compiled, no spec
    is compiled twice or after it was consumed, and the consumption file holds
    the consumed specs; an error loses at most the spec that failed.  Every
    selected item was compiled from a spec that the catalog held for the family
    of its seed: the harness never invents work. *)
Theorem frontier_selection max_lanes seed_items c :
  let ranked := ranked_families str_of sha1_prefix router epoch seed_items in
  let out := select_frontier_work str_of parse_float sha1_prefix catalog_file compile_variant router
               epoch max_lanes seed_items c in
  let c' := out.2 in
  NoDup ranked.*1 ∧
  StronglySorted (λ x y, gain_lt (gain_key sha1_prefix router epoch y.1)
                                 (gain_key sha1_prefix router epoch x.1) = false) ranked ∧
  ∃ new, booked c c' new ∧
    (length (filter (λ call, succeeded call = true) new) ≤ Z.to_nat (Z.max 0 max_lanes))%nat ∧
    (length (filter (λ call, succeeded call = false) new) ≤ 1)%nat ∧
    Forall (from_catalog ranked c c') new ∧
    match out.1 with
    | Ok (selected, audit) =>
        fa_admitted audit = length selected ∧ Forall2 row_of (zip selected (fa_specs audit)) new ∧
        length selected = length new ∧ length (fa_specs audit) = length new ∧
        (sa_seed_family <$> fa_specs audit) `sublist_of` ranked.*1
    | Err _ => True
    end.
Proof.
  intros ranked out c'. destruct (ranked_families_spec str_of sha1_prefix router epoch seed_items)
    as (Hnd & _ & Hsorted). split_and!; [done|done|].
  unfold c', out, select_frontier_work, mbind, M_bind. fold ranked.
  destruct (loop _ ranked c) as [r c1] eqn:E. apply select_loop_spec in E.
  destruct E as (new & Hb & Hreads & Hlen & Hall & Hr).
  destruct r as [rows|e]; [|exists new; by split_and!]. destruct Hr as [Hrows Hsub].
  assert (length (filter (λ call, succeeded call = false) new) = 0)%nat as Hno.
  { rewrite filter_none; [done|]. eapply Forall2_Forall_r; [exact Hrows|]. apply Forall_true.
    intros row call (item & Hi & _). unfold succeeded. by rewrite Hi. }
  assert (Forall (from_catalog ranked c (tick c1)) new) as Hall'.
  { eapply Forall_impl; [exact Hall|]. intros call. apply from_catalog_mono; simpl; [done|done|lia|done]. }
  exists new. unfold pending_count, catalog_specs, gets, mbind, M_bind. simpl.
  assert (length rows = length new) as Hl by (by eapply Forall2_length).
  destruct (read_specs _) as [specs|e]; simpl; split_and!; try done; try lia.
  - by rewrite length_fmap.
  - rewrite <- (zip_fst_snd rows) in Hrows. done.
  - by rewrite length_fmap.
  - by rewrite length_fmap.
  - by rewrite <- list_fmap_compose.
Qed.
End selection.

(** * Examples *)

Module FrontierExample.

Definition text_of (v : pyval) : string := match v with PNone => "None" | _ => "?" end.
Definition seed (id family : string) : items :=
  as_items [("item_id", PStr id); ("family", PStr family)].
Definition spec (id family : string) : items :=
  as_items [("spec_id", PStr id); ("seed_family", PStr family)].

(** A catalog that lists two specs of the same priority for one family. *)
Definition file (_ : nat) : pyval :=
  PMap false (as_items [("specs", PSeq false [PMap false (spec "b" "f"); PMap false (spec "a" "f")])]).
Definition compile (_ : list compile_call) (s _ : items) : res items := Ok [].
Definition fresh : catalog :=
  {| consumed := ∅; consumption_file := None; catalog_reads := 0; compiled := [] |}.

(** Specs of equal priority are taken in the order of their ids, not of the
    catalog: ["a"] goes first although ["b"] is listed first. *)
Example tie_by_spec_id :
  consumption_file (select_frontier_work text_of (λ _, None) (λ _, 0%Z) file compile None 1 1
                      [seed "s" "f"] fresh).2 = Some ["a"].
Proof. vm_compute. reflexivity. Qed.

(** A plan that names an unknown id, a repeated id and one of three seeds. *)
Example no_prune_example :
  plan_router_no_prune text_of
    (λ _, {| bp_selected := [[PStr "y"; PStr "nobody"]]; bp_rejected := [[PStr "y"]] |})
    [seed "x" "f"; seed "y" "f"; seed "x" "g"]
  = [seed "y" "f"; seed "x" "f"; seed "x" "g"].
Proof. vm_compute. reflexivity. Qed.
End FrontierExample.
