(* ===== verification/HarnessCheckpoint.v ===== *)
(** Restart contract of a harness arm:
    [loopx/capabilities/explore/harness_checkpoint.py], and from
    [loopx/capabilities/explore/harness_runtime.py] the runtime signature and
    the restoring of an arm's state by [run_budget_arm].

    A [files] maps paths to texts.  [write_arm_checkpoint] is the sequence of
    its file operations, each of which may fail; a write that fails leaves a
    prefix of the text.  A checkpoint that is read is missing, unreadable or a
    JSON value.  The text and the [repr] of values that are not [str], and what
    [float] and [int] make of a text, are parameters. *)

From stdpp Require Import base strings list sets gmap.
From Stdlib Require Import ZArith Lia.
From S2P Require Import Prelude PyFloat PyValue PyConv PySort TraceRuntime EpisodeRuntime.
From S2P Require Import RouterState HarnessFrontier.

Definition HARNESS_CHECKPOINT_SCHEMA_VERSION : string := "loopx_explore_harness_checkpoint_v0".

(** * Writing *)

Definition OSError := mk_exn "OSError".

Notation files := (gmap string string).

Record path := { directory : string; name : string }.

Definition path_text (p : path) : string := directory p ++ "/" ++ name p.

(** [path.with_name(f".{path.name}.tmp")]. *)
Definition temporary_of (p : path) : path := {| directory := directory p; name := "." ++ name p ++ ".tmp" |}.

(** Which operations fail: [mkdir], [write_text] after some characters,
    [replace], [unlink]. *)
Record faults := { f_mkdir : bool; f_write : option nat; f_replace : bool; f_unlink : bool }.

(** The states of the files after each operation, the last one first, and the
    outcome. *)
Definition write_arm_checkpoint (p : path) (text : string) (f : faults) (fs : files)
  : list files * res unit :=
  let temporary := path_text (temporary_of p) in
  if f_mkdir f then ([fs], Err (OSError "mkdir"))
  else
    let '(now, earlier, r) :=
      match f_write f with
      | Some n => (<[temporary := String.substring 0 n text]> fs, [fs], Err (OSError "write_text"))
      | None =>
          let written := <[temporary := text]> fs in
          if f_replace f then (written, [fs], Err (OSError "replace"))
          else (<[path_text p := text]> (delete temporary written), [written; fs], Ok tt)
      end in
    if f_unlink f then (now :: earlier, Err (OSError "unlink"))
    else (delete temporary now :: now :: earlier, r).

(** * Signature and state *)

Record signature := {
  sg_arm_key : string;
  sg_adapter_type : string;
  sg_worker_count : Z;
  sg_use_router : bool;
  sg_frontier_max_lanes : Z;
  sg_variant_catalog_enabled : bool;
  sg_goal_id : string;
  sg_agent_id : string;
  sg_item_failure_policy : string;
  sg_episode_mode : option string
}.

Definition opt_text (o : option string) : pyval := match o with Some s => PStr s | None => PNone end.

Definition arm_runtime_signature (g : signature) : list (string * pyval) :=
  [("arm_key", PStr (sg_arm_key g)); ("adapter_type", PStr (sg_adapter_type g));
   ("worker_count", PInt (Z.max 1 (sg_worker_count g))); ("use_router", PBool (sg_use_router g));
   ("frontier_max_lanes", PInt (Z.max 0 (sg_frontier_max_lanes g)));
   ("variant_catalog_enabled", PBool (sg_variant_catalog_enabled g));
   ("goal_id", PStr (sg_goal_id g)); ("agent_id", PStr (sg_agent_id g));
   ("item_failure_policy", PStr (sg_item_failure_policy g));
   ("episode_mode", opt_text (sg_episode_mode g))].

(** What an arm carries from one epoch to the next. *)
Record arm_state := {
  arm_next_epoch : Z;
  arm_elapsed_minutes : float;
  arm_epochs : list items;
  arm_checkpoints : list items;
  arm_novelty_seen : gset string;
  arm_router_state : option items;
  arm_load_profile : option items;
  arm_catalog_consumed : gset string;
  arm_coverage_first_seen : list (string * float);
  arm_raw_value_total : float;
  arm_novel_value_total : float;
  arm_variant_records_total : Z
}.

Definition round6 : float → float := py_round 6.

Definition opt_mapping (o : option items) : pyval := match o with Some d => PMap false d | None => PNone end.

Definition texts (l : list string) : pyval := PSeq false (PStr <$> l).

(** [build_arm_checkpoint], with [sorted(ledger.seen)] and
    [sorted(catalog.consumed)] as [run_budget_arm] passes them. *)
Definition checkpoint_state (s : arm_state) : items :=
  as_items
    [("next_epoch", PInt (arm_next_epoch s));
     ("elapsed_minutes", PFloat (round6 (arm_elapsed_minutes s)));
     ("epochs", PSeq false (PMap false <$> arm_epochs s));
     ("checkpoints", PSeq false (PMap false <$> arm_checkpoints s));
     ("novelty_seen", texts (py_sort String.ltb (sorted_set (arm_novelty_seen s))));
     ("router_state", opt_mapping (arm_router_state s));
     ("load_profile", opt_mapping (arm_load_profile s));
     ("catalog_consumed", texts (py_sort String.ltb (sorted_set (arm_catalog_consumed s))));
     ("coverage_first_seen", PMap false (as_items (prod_map id PFloat <$> arm_coverage_first_seen s)));
     ("raw_value_total", PFloat (round6 (arm_raw_value_total s)));
     ("novel_value_total", PFloat (round6 (arm_novel_value_total s)));
     ("variant_records_total", PInt (arm_variant_records_total s))].

Definition build_arm_checkpoint (arm_key : string) (g : signature) (s : arm_state) : pyval :=
  PMap false (as_items
    [("schema_version", PStr HARNESS_CHECKPOINT_SCHEMA_VERSION); ("arm_key", PStr arm_key);
     ("completed_epochs", PInt (Z.of_nat (length (arm_epochs s))));
     ("runtime_signature", PMap false (as_items (arm_runtime_signature g)));
     ("state", PMap false (checkpoint_state s))]).

(** * Loading *)

Inductive file_read := Missing | Unreadable (e : exn) | Parsed (v : pyval).

Section loading.
Variables (str_of repr_of : pyval → string).
Variables (parse_float : string → option float) (parse_int : string → option Z).

Notation repr := (repr_val repr_of).

Definition dict_or (v : pyval) (message : string) : res items :=
  match v with PMap _ d => Ok d | _ => Err (ValueError message) end.

Definition list_or (field : string) (v : pyval) : res (list pyval) :=
  match v with
  | PSeq _ l => Ok l
  | _ => Err (ValueError ("resume checkpoint state." ++ field ++ " must be a list"))
  end.

Definition is_text (v : pyval) : bool := match v with PStr _ => true | _ => false end.

Definition mismatches (sig : items) (expected : list (string * pyval)) : list (string * pyval) :=
  filter (λ kv, py_eq (pget kv.1 sig) kv.2 = false) expected.

Definition mismatch_text (sig : items) (kv : string * pyval) : string :=
  kv.1 ++ "=" ++ repr (pget kv.1 sig) ++ " (expected " ++ repr kv.2 ++ ")".

(** The identity of the checkpoint: schema, arm and runtime signature. *)
Definition check_identity (payload : items) (expected : list (string * pyval)) : res unit :=
  _ ← require (py_eq (pget "schema_version" payload) (PStr HARNESS_CHECKPOINT_SCHEMA_VERSION))
        (ValueError ("resume checkpoint schema is incompatible: expected "
           ++ py_repr HARNESS_CHECKPOINT_SCHEMA_VERSION ++ ", got "
           ++ repr (pget "schema_version" payload)));
  let expected_arm := str_or_empty str_of (default PNone (dict_get "arm_key" expected)) in
  _ ← require (bool_decide (str_or_empty str_of (pget "arm_key" payload) = expected_arm))
        (ValueError ("resume checkpoint arm_key is incompatible: expected " ++ py_repr expected_arm
           ++ ", got " ++ repr (pget "arm_key" payload)));
  sig ← dict_or (pget "runtime_signature" payload) "resume checkpoint is missing runtime_signature";
  let bad := mismatches sig expected in
  require (bool_decide (bad = []))
    (ValueError ("resume checkpoint runtime is incompatible: "
       ++ join ", " (mismatch_text sig <$> bad))).

(** The types of the fields of the state. *)
Definition check_fields (state : items) : res (list items * list items) :=
  epochs ← list_or "epochs" (pget "epochs" state);
  checkpoints ← list_or "checkpoints" (pget "checkpoints" state);
  seen ← list_or "novelty_seen" (pget "novelty_seen" state);
  spent ← list_or "catalog_consumed" (pget "catalog_consumed" state);
  epochs ← rmap (λ v, dict_or v "resume checkpoint state.epochs must contain objects") epochs;
  checkpoints ← rmap (λ v, dict_or v "resume checkpoint state.checkpoints must contain objects") checkpoints;
  _ ← require (forallb is_text seen)
        (ValueError "resume checkpoint state.novelty_seen must contain strings");
  _ ← require (forallb is_text spent)
        (ValueError "resume checkpoint state.catalog_consumed must contain strings");
  coverage ← dict_or (pget "coverage_first_seen" state)
        "resume checkpoint state.coverage_first_seen must be an object";
  _ ← catching (rmap (to_float parse_float) coverage.*2)
        (ValueError "resume checkpoint state.coverage_first_seen values must be numeric");
  _ ← require (is_none (pget "load_profile" state) || is_mapping (pget "load_profile" state))
        (ValueError "resume checkpoint state.load_profile must be an object or null");
  Ok (epochs, checkpoints).

Definition epoch_number (d : items) : res Z := int_or_zero parse_int (pget "epoch" d).

(** The epoch history is contiguous from epoch 1. *)
Definition check_history (payload state : items) (epochs checkpoints : list items) : res unit :=
  completed ← catching (int_or_zero parse_int (pget "completed_epochs" payload))
        (ValueError "resume checkpoint completed_epochs must be an integer");
  _ ← require (completed =? Z.of_nat (length epochs))%Z
        (ValueError "resume checkpoint completed_epochs does not match epoch history");
  _ ← require (Z.of_nat (length checkpoints) =? completed)%Z
        (ValueError "resume checkpoint anytime history does not match completed_epochs");
  let expected_epochs := Z.of_nat <$> seq 1 (Z.to_nat completed) in
  numbers ← catching (a ← rmap epoch_number epochs; b ← rmap epoch_number checkpoints; Ok (a, b))
        (ValueError "resume checkpoint epoch history must use integer epoch ids");
  _ ← require (bool_decide (numbers.1 = expected_epochs) && bool_decide (numbers.2 = expected_epochs))
        (ValueError "resume checkpoint epoch history is not contiguous from epoch 1");
  next_epoch ← catching (int_or_zero parse_int (pget "next_epoch" state))
        (ValueError "resume checkpoint state.next_epoch must be an integer");
  require (next_epoch =? completed + 1)%Z
    (ValueError ("resume checkpoint next_epoch is inconsistent: expected " ++ py_int (completed + 1)
       ++ ", got " ++ py_int next_epoch)).

Definition is_router_state (v : pyval) : bool :=
  match v with
  | PMap _ d => is_router_state_version (str_or_empty str_of (pget "schema_version" d))
  | _ => false
  end.

Definition NUMERIC_FIELDS : list string :=
  ["elapsed_minutes"; "raw_value_total"; "novel_value_total"; "variant_records_total"].

Definition check_number (state : items) (field : string) : res unit :=
  _ ← catching (float_or_zero parse_float (pget field state))
        (ValueError ("resume checkpoint state." ++ field ++ " must be numeric"));
  Ok tt.

Definition load_arm_checkpoint (path : string) (file : file_read) (expected : list (string * pyval))
  : res items :=
  v ← match file with
      | Missing => Err (ValueError ("resume checkpoint does not exist: " ++ path))
      | Unreadable e =>
          Err (raise_from (ValueError ("resume checkpoint is unreadable or invalid JSON: " ++ path)) e)
      | Parsed v => Ok v
      end;
  payload ← dict_or v "resume checkpoint must be a JSON object";
  _ ← check_identity payload expected;
  state ← dict_or (pget "state" payload) "resume checkpoint is missing state";
  history ← check_fields state;
  _ ← check_history payload state history.1 history.2;
  _ ← require (negb (truthy (default PNone (dict_get "use_router" expected)))
               || is_router_state (pget "router_state" state))
        (ValueError "resume checkpoint has an invalid router_state for a router arm");
  _ ← rmap (check_number state) NUMERIC_FIELDS;
  Ok state.

(** * Restoring *)

Definition mapping_or_none (v : pyval) : option items := match v with PMap _ d => Some d | _ => None end.

Definition elements_of (v : pyval) : list pyval := match v with PSeq _ l => l | _ => [] end.

Definition mappings_of (v : pyval) : list items := omap mapping_or_none (elements_of v).

Definition coverage_of (v : pyval) : res (list (string * float)) :=
  match v with
  | PMap _ d => rmap (λ kv, x ← to_float parse_float kv.2;
                            Ok (default (str_of POther) kv.1, x)) d
  | _ => Ok []
  end.

(** The block [if resume:] of [run_budget_arm], on a state that was loaded. *)
Definition restore_arm (state : items) : res arm_state :=
  coverage ← coverage_of (pget "coverage_first_seen" state);
  raw ← float_or_zero parse_float (pget "raw_value_total" state);
  novel ← float_or_zero parse_float (pget "novel_value_total" state);
  variants ← int_or_zero parse_int (pget "variant_records_total" state);
  next_epoch ← to_int parse_int (pget "next_epoch" state);
  elapsed ← float_or_zero parse_float (pget "elapsed_minutes" state);
  Ok {| arm_next_epoch := next_epoch; arm_elapsed_minutes := elapsed;
        arm_epochs := mappings_of (pget "epochs" state);
        arm_checkpoints := mappings_of (pget "checkpoints" state);
        arm_novelty_seen := list_to_set (py_str str_of <$> elements_of (pget "novelty_seen" state));
        arm_router_state := mapping_or_none (pget "router_state" state);
        arm_load_profile := mapping_or_none (pget "load_profile" state);
        arm_catalog_consumed :=
          list_to_set (filter (λ s, is_empty (py_strip s) = false)
            (py_str str_of <$> elements_of (pget "catalog_consumed" state)));
        arm_coverage_first_seen := coverage; arm_raw_value_total := raw;
        arm_novel_value_total := novel; arm_variant_records_total := variants |}.
End loading.
