(* ===== verification/CheckpointTheorems.v ===== *)
(** What the restart contract of a harness arm guarantees.

    The checkpoint file is replaced as a whole; a checkpoint that loads belongs
    to the arm and has a contiguous history; and an arm that is written,
    loaded and restored continues where it stopped, its totals rounded to six
    digits. *)

From stdpp Require Import base strings list sets gmap.
From Stdlib Require Import ZArith Lia.
From S2P Require Import Prelude PyFloat ListLib PyValue PyConv PySort TraceRuntime.
From S2P Require Import EpisodeRuntime.
From S2P Require Import RouterState HarnessFrontier HarnessCheckpoint.

Create HintDb checkpoint.

(** * Writing *)

Lemma string_length_app s t : String.length (s ++ t) = (String.length s + String.length t)%nat.
Proof. induction s as [|a s IH]; simpl; [done|]. by rewrite IH. Qed.

Lemma temporary_ne p : path_text (temporary_of p) ≠ path_text p.
Proof.
  intros H. apply (f_equal String.length) in H. revert H. unfold path_text, temporary_of. simpl.
  rewrite ?string_length_app. simpl. rewrite ?string_length_app. simpl. lia.
Qed.

(** The checkpoint file is the old one or the complete new one, and only it and
    the temporary file have changed. *)
Definition whole (p : path) (text : string) (fs st : files) : Prop :=
  (st !! path_text p = fs !! path_text p ∨ st !! path_text p = Some text) ∧
  ∀ q, q ≠ path_text p → q ≠ path_text (temporary_of p) → st !! q = fs !! q.

Lemma whole_refl p text fs : whole p text fs fs.
Proof. split; [by left|done]. Qed.

Lemma whole_temporary p text fs t : whole p text fs (<[path_text (temporary_of p) := t]> fs).
Proof.
  pose proof (temporary_ne p). split; [left|intros q ? ?]; by rewrite lookup_insert_ne by congruence.
Qed.

Lemma whole_delete p text fs st :
  whole p text fs st → whole p text fs (delete (path_text (temporary_of p)) st).
Proof.
  pose proof (temporary_ne p). intros [H1 H2]. split; [|intros q ? ?]; rewrite lookup_delete_ne by congruence; auto.
Qed.

Lemma whole_replace p text fs st : whole p text fs st → whole p text fs (<[path_text p := text]> st).
Proof.
  intros [H1 H2]. split; [right; by rewrite lookup_insert_eq|].
  intros q Hq Hq'. rewrite lookup_insert_ne by congruence. by apply H2.
Qed.

#[local] Hint Resolve whole_refl whole_temporary whole_delete whole_replace
  Forall_cons_2 Forall_nil_2 : checkpoint.

(** C22: The checkpoint is replaced atomically.  Whichever file operations fail,
    after every operation (so at every point where the process may be killed)
    the checkpoint file holds what it held before or the complete new text, and
    no file other than it and the temporary one has changed.  When the write
    returns, the file holds the new text; the temporary file is gone unless its
    removal failed. *)
Theorem checkpoint_atomic p text f fs :
  let '(trace, r) := write_arm_checkpoint p text f fs in
  let file := path_text p in
  let temporary := path_text (temporary_of p) in
  Forall (whole p text fs) trace ∧
  ∃ last rest, trace = last :: rest ∧
    match r with
    | Ok _ => last !! file = Some text ∧ last !! temporary = None
    | Err _ => f_mkdir f = false → f_unlink f = false → last !! temporary = None
    end.
Proof.
  unfold write_arm_checkpoint. pose proof (temporary_ne p) as Hne.
  destruct (f_mkdir f); [split; [auto with checkpoint|by exists fs, []]|].
  destruct (f_write f) as [n|]; [|destruct (f_replace f)]; destruct (f_unlink f);
    cbv beta iota zeta; (split; [by eauto 10 with checkpoint|eexists _, _; split; [reflexivity|]]);
    try (intros _ ?; discriminate); try (intros _ _; apply lookup_delete_eq).
  split; [|apply lookup_delete_eq]. rewrite lookup_delete_ne by done. apply lookup_insert_eq.
Qed.

(** * Loading *)

Lemma rmap_cancel {A B} (f : A → res B) (g : B → A) l : (∀ b, f (g b) = Ok b) → rmap f (g <$> l) = Ok l.
Proof.
  intros H. induction l as [|b l IH]; [done|]. rewrite fmap_cons. cbn [rmap]. rewrite H.
  cbn [mbind res_bind]. by rewrite IH.
Qed.

Lemma catching_ok {A} (r : res A) e a : catching r e = Ok a ↔ r = Ok a.
Proof. destruct r as [|c]; simpl; [done|]. by destruct (bool_decide _). Qed.

Lemma dict_or_ok v m d : dict_or v m = Ok d ↔ ∃ fz, v = PMap fz d.
Proof. destruct v; simpl; split; try done; try (intros (? & [=]); done); [intros [= <-]; eauto|intros (? & [= -> ->]); done]. Qed.

Lemma list_or_ok field v l : list_or field v = Ok l → elements_of v = l.
Proof. destruct v; simpl; try done. by intros [= <-]. Qed.

Lemma rmap_mappings m vs ds : rmap (λ v, dict_or v m) vs = Ok ds → omap mapping_or_none vs = ds.
Proof.
  revert ds. induction vs as [|v vs IH]; intros ds; simpl; [by intros [= <-]|].
  destruct (dict_or v m) as [d|e] eqn:E; simpl; [|done]. apply dict_or_ok in E as (fz & ->).
  destruct (rmap _ vs) as [ds'|e]; simpl; [|done]. intros [= <-]. f_equal. by apply IH.
Qed.

Section loading.
Variables (str_of repr_of : pyval → string).
Variables (parse_float : string → option float) (parse_int : string → option Z).

Notation load := (load_arm_checkpoint str_of repr_of parse_float parse_int).
Notation restore := (restore_arm str_of parse_float parse_int).

(** A history numbered from epoch 1. *)
Definition numbered (l : list items) : Prop :=
  rmap (epoch_number parse_int) l = Ok (Z.of_nat <$> seq 1 (length l)).

Lemma check_history_ok payload state epochs checkpoints u :
  check_history parse_int payload state epochs checkpoints = Ok u →
  numbered epochs ∧ numbered checkpoints ∧ length checkpoints = length epochs ∧
  to_int parse_int (pget "next_epoch" state) = Ok (Z.of_nat (S (length epochs))).
Proof.
  unfold check_history. intros H. inv_res.
  repeat match goal with H : catching _ _ = Ok _ |- _ => apply catching_ok in H end. inv_res.
  apply Z.eqb_eq in H1, H2, H. subst. rewrite Nat2Z.id in H4.
  apply andb_true_iff in H4 as [Ha%bool_decide_eq_true Hb%bool_decide_eq_true]. simpl in Ha, Hb.
  assert (length checkpoints = length epochs) as Hl by lia. unfold numbered. rewrite Hl.
  split_and!; [by rewrite <- Ha|by rewrite <- Hb|done|].
  unfold int_or_zero in H5. destruct (truthy _); [rewrite H5; f_equal; lia|]. injection H5 as H5. lia.
Qed.

Lemma coverage_ok fz (d : items) xs :
  rmap (to_float parse_float) d.*2 = Ok xs → ∃ l, coverage_of str_of parse_float (PMap fz d) = Ok l.
Proof.
  revert xs. unfold coverage_of. induction d as [|[k v] d IH]; intros xs; [simpl; eauto|].
  rewrite fmap_cons. cbn [rmap fst snd]. destruct (to_float parse_float v); simpl; [|done].
  destruct (rmap (to_float parse_float) d.*2) as [ys|e]; simpl; [|done]. intros _.
  destruct (IH ys eq_refl) as [l ->]. simpl. eauto.
Qed.

Lemma check_fields_ok state es cs :
  check_fields parse_float state = Ok (es, cs) →
  mappings_of (pget "epochs" state) = es ∧ mappings_of (pget "checkpoints" state) = cs ∧
  ∃ l, coverage_of str_of parse_float (pget "coverage_first_seen" state) = Ok l.
Proof.
  unfold check_fields. intros H. inv_res.
  repeat match goal with
  | H : catching _ _ = Ok _ |- _ => apply catching_ok in H
  | H : dict_or _ _ = Ok _ |- _ => apply dict_or_ok in H as (? & H)
  | H : list_or _ _ = Ok _ |- _ => apply list_or_ok in H
  | H : rmap (λ v, dict_or v _) _ = Ok _ |- _ => apply rmap_mappings in H
  end. inv_res. unfold mappings_of. split_and!; [congruence|congruence|].
  match goal with H : pget "coverage_first_seen" state = _ |- _ => rewrite H end.
  by eapply coverage_ok.
Qed.

Lemma check_number_ok state field u :
  check_number parse_float state field = Ok u → ∃ x, float_or_zero parse_float (pget field state) = Ok x.
Proof. unfold check_number. intros H. inv_res. apply catching_ok in H0. eauto. Qed.

Lemma py_eq_text v s : py_eq v (PStr s) = true → v = PStr s.
Proof.
  destruct v as [|b|n|x|t| | | |]; simpl; try done.
  - by destruct (is_integer x), (truncate x).
  - by intros ->%bool_decide_eq_true.
Qed.

Lemma check_identity_ok payload expected u :
  check_identity str_of repr_of payload expected = Ok u →
  pget "schema_version" payload = PStr HARNESS_CHECKPOINT_SCHEMA_VERSION ∧
  ∃ fz sig, pget "runtime_signature" payload = PMap fz sig ∧
    Forall (λ kv, py_eq (pget kv.1 sig) kv.2 = true) expected.
Proof.
  unfold check_identity. intros H. inv_res. split; [by apply py_eq_text|].
  apply dict_or_ok in H2 as (fz & Hsig). eexists fz, _. split; [done|].
  apply bool_decide_eq_true in H. apply Forall_forall. intros kv Hkv.
  apply not_false_is_true. intros Hf. apply (not_elem_of_nil kv). rewrite <- H.
  by apply list_elem_of_filter.
Qed.

Lemma restore_ok state n :
  (∃ l, coverage_of str_of parse_float (pget "coverage_first_seen" state) = Ok l) →
  Forall (λ field, ∃ x, float_or_zero parse_float (pget field state) = Ok x) NUMERIC_FIELDS →
  to_int parse_int (pget "next_epoch" state) = Ok n →
  ∀ v, pget "variant_records_total" state = PInt v →
  ∃ s, restore state = Ok s ∧ arm_epochs s = mappings_of (pget "epochs" state) ∧
    arm_checkpoints s = mappings_of (pget "checkpoints" state) ∧ arm_next_epoch s = n ∧
    arm_variant_records_total s = v.
Proof.
  intros [l Hc] Hf Hn v Hv. unfold NUMERIC_FIELDS in Hf. rewrite !Forall_cons in Hf. destruct Hf as ([x Hx] & [y Hy] & [z Hz] & _).
  unfold restore_arm. rewrite Hc, Hx, Hy, Hz, Hn, Hv. simpl.
  assert (int_or_zero parse_int (PInt v) = Ok v) as ->.
  { unfold int_or_zero. simpl. by destruct (Z.eqb_spec v 0) as [->|]. }
  simpl. eexists. by split_and!.
Qed.

Lemma load_spec path file expected state :
  load path file expected = Ok state →
  (∃ fz payload fz' sig fz'', file = Parsed (PMap fz payload) ∧
     pget "schema_version" payload = PStr HARNESS_CHECKPOINT_SCHEMA_VERSION ∧
     pget "runtime_signature" payload = PMap fz' sig ∧
     Forall (λ kv, py_eq (pget kv.1 sig) kv.2 = true) expected ∧ pget "state" payload = PMap fz'' state) ∧
  numbered (mappings_of (pget "epochs" state)) ∧ numbered (mappings_of (pget "checkpoints" state)) ∧
  length (mappings_of (pget "checkpoints" state)) = length (mappings_of (pget "epochs" state)) ∧
  to_int parse_int (pget "next_epoch" state) = Ok (Z.of_nat (S (length (mappings_of (pget "epochs" state))))) ∧
  (truthy (default PNone (dict_get "use_router" expected)) = true →
    is_router_state str_of (pget "router_state" state) = true) ∧
  ∀ n, pget "variant_records_total" state = PInt n →
    ∃ s, restore state = Ok s ∧ arm_epochs s = mappings_of (pget "epochs" state) ∧
      arm_checkpoints s = mappings_of (pget "checkpoints" state) ∧
      arm_next_epoch s = Z.of_nat (S (length (arm_epochs s))) ∧ arm_variant_records_total s = n.
Proof.
  unfold load_arm_checkpoint. intros H. inv_res.
  destruct file as [|e|v]; inv_res. apply dict_or_ok in H1 as (fz & ->), H3 as (fz'' & Hstate).
  apply check_identity_ok in H2 as (Hschema & fz' & sig & Hsig & Hall). destruct x3 as [es cs].
  apply check_fields_ok in H4 as (Hes & Hcs & Hcov). simpl in H5.
  apply check_history_ok in H5 as (Hn1 & Hn2 & Hlen & Hnext). rewrite Hes, Hcs.
  split_and!; [by repeat eexists|done|done|done|done| |].
  - intros Hr. by rewrite Hr in H6.
  - intros n Hv. rewrite <- Hes, <- Hcs.
    assert (Forall (λ field, ∃ x, float_or_zero parse_float (pget field state) = Ok x) NUMERIC_FIELDS) as Hnum.
    { clear -H7. revert x6 H7. induction NUMERIC_FIELDS as [|f fs IH]; intros us H; [constructor|].
      cbn [rmap] in H. inv_res. constructor; [by eapply check_number_ok|by eapply IH]. }
    destruct (restore_ok state _ Hcov Hnum Hnext n Hv) as (s & H1 & H2 & H3 & H4 & H5).
    exists s. split_and!; try done. by rewrite H4, H2, Hes.
Qed.

(** C37: What a checkpoint that loads is.  It is a JSON object of the current
    schema whose runtime signature agrees with the arm's on every field; its
    epochs and its anytime history are numbered 1, 2, ... without gaps and
    equally long, the next epoch is the one after them, and a router arm gets a
    router state.  If moreover the number of variant records is an integer, the
    arm is restored from it, with that history. *)
Theorem checkpoint_load_sound path file expected state :
  load path file expected = Ok state →
  (∃ fz payload fz' sig fz'', file = Parsed (PMap fz payload) ∧
     pget "schema_version" payload = PStr HARNESS_CHECKPOINT_SCHEMA_VERSION ∧
     pget "runtime_signature" payload = PMap fz' sig ∧
     Forall (λ kv, py_eq (pget kv.1 sig) kv.2 = true) expected ∧ pget "state" payload = PMap fz'' state) ∧
  numbered (mappings_of (pget "epochs" state)) ∧ numbered (mappings_of (pget "checkpoints" state)) ∧
  length (mappings_of (pget "checkpoints" state)) = length (mappings_of (pget "epochs" state)) ∧
  to_int parse_int (pget "next_epoch" state) = Ok (Z.of_nat (S (length (mappings_of (pget "epochs" state))))) ∧
  (truthy (default PNone (dict_get "use_router" expected)) = true →
    is_router_state str_of (pget "router_state" state) = true) ∧
  ∀ n, pget "variant_records_total" state = PInt n →
    ∃ s, restore state = Ok s ∧ arm_epochs s = mappings_of (pget "epochs" state) ∧
      arm_checkpoints s = mappings_of (pget "checkpoints" state) ∧
      arm_next_epoch s = Z.of_nat (S (length (arm_epochs s))) ∧ arm_variant_records_total s = n.
Proof. apply load_spec. Qed.

(** ** Errors *)

(** The exceptions of a computation are of the classes [cs]. *)
Definition raises_only {A} (cs : list string) (r : res A) : Prop :=
  match r with Ok _ => True | Err e => exn_class e ∈ cs end.

Lemma raises_bind {A B} cs (r : res A) (f : A → res B) :
  raises_only cs r → (∀ a, raises_only cs (f a)) → raises_only cs (r ≫= f).
Proof. destruct r; simpl; auto. Qed.

Lemma raises_require cs b e : exn_class e ∈ cs → raises_only cs (require b e).
Proof. by destruct b. Qed.

Lemma raises_rmap {A B} cs (f : A → res B) l : (∀ a, raises_only cs (f a)) → raises_only cs (rmap f l).
Proof.
  intros H. induction l as [|a l IH]; [done|]. cbn [rmap].
  apply raises_bind; [apply H|intros b]. by apply raises_bind.
Qed.

Definition LOAD_ERRORS : list string := ["ValueError"; "OverflowError"].
Definition NUMBER_ERRORS : list string := ["TypeError"; "ValueError"; "OverflowError"].

Lemma raises_catching {A} (r : res A) m :
  raises_only NUMBER_ERRORS r → raises_only LOAD_ERRORS (catching r (ValueError m)).
Proof.
  destruct r as [a|e]; simpl; [done|]. unfold NUMBER_ERRORS, LOAD_ERRORS. intros H.
  case_bool_decide as Hc; simpl; set_solver.
Qed.

Lemma raises_to_float v : raises_only NUMBER_ERRORS (to_float parse_float v).
Proof.
  unfold NUMBER_ERRORS. destruct v as [|b|n|x|t| | | |]; simpl; try set_solver.
  - destruct (isfinite _); simpl; set_solver.
  - destruct (parse_float t); simpl; set_solver.
Qed.

Lemma raises_to_int v : raises_only NUMBER_ERRORS (to_int parse_int v).
Proof.
  unfold NUMBER_ERRORS. destruct v as [|b|n|x|t| | | |]; simpl; try set_solver.
  - destruct x; simpl; set_solver.
  - destruct (parse_int t); simpl; set_solver.
Qed.

Lemma raises_float_or_zero v : raises_only NUMBER_ERRORS (float_or_zero parse_float v).
Proof. unfold float_or_zero. destruct (truthy v); [apply raises_to_float|done]. Qed.

Lemma raises_int_or_zero v : raises_only NUMBER_ERRORS (int_or_zero parse_int v).
Proof. unfold int_or_zero. destruct (truthy v); [apply raises_to_int|done]. Qed.

Lemma value_error_listed m : exn_class (ValueError m) ∈ LOAD_ERRORS.
Proof. left. Qed.

Lemma raises_dict_or v m : raises_only LOAD_ERRORS (dict_or v m).
Proof. destruct v; simpl; done || left. Qed.

Lemma raises_list_or field v : raises_only LOAD_ERRORS (list_or field v).
Proof. destruct v; simpl; done || left. Qed.

(** The exceptions of loading.  Loading a checkpoint returns a state or
    raises a [ValueError] that names the defect; the only other exception is the
    [OverflowError] of a number too large for its conversion. *)
Theorem checkpoint_load_errors path file expected :
  raises_only LOAD_ERRORS (load path file expected).
Proof.
  unfold load_arm_checkpoint, check_identity, check_fields, check_history, check_number, epoch_number.
  apply raises_bind; [destruct file; simpl; done || left|intros ?].
  repeat first
    [ apply raises_dict_or | apply raises_list_or | apply raises_to_float | apply raises_int_or_zero
    | apply raises_float_or_zero | apply raises_require; left | apply raises_catching
    | apply raises_rmap; [intros ?|..] | apply raises_bind; [|intros ?] | exact I ].
Qed.

(** ** Round trip *)

Definition scalar (v : pyval) : bool :=
  match v with PNone | PBool _ | PInt _ | PStr _ => true | _ => false end.

Lemma py_eq_refl v : scalar v = true → py_eq v v = true.
Proof.
  destruct v; try done; intros _; simpl; [apply Z.eqb_refl|apply Z.eqb_refl|by apply bool_decide_true].
Qed.

Lemma signature_matches g :
  mismatches (as_items (arm_runtime_signature g)) (arm_runtime_signature g) = [].
Proof.
  unfold mismatches. apply filter_none.
  assert (∀ k v, pget k (as_items (arm_runtime_signature g)) = v → scalar v = true →
            ¬ py_eq (pget k (as_items (arm_runtime_signature g))) v = false) as H.
  { intros k v -> Hv. by rewrite py_eq_refl. }
  repeat (apply Forall_cons; split; [apply H; [reflexivity|done || by destruct (sg_episode_mode g)]|]).
  apply Forall_nil_2.
Qed.

(** What an arm must satisfy when it writes a checkpoint. *)
Record writable (g : signature) (s : arm_state) : Prop := {
  wr_epochs : numbered (arm_epochs s);
  wr_checkpoints : numbered (arm_checkpoints s);
  wr_length : length (arm_checkpoints s) = length (arm_epochs s);
  wr_next : arm_next_epoch s = Z.of_nat (S (length (arm_epochs s)));
  wr_router : sg_use_router g = true →
    ∃ d, arm_router_state s = Some d ∧ is_router_state str_of (PMap false d) = true;
  wr_variants : isfinite (float_of_Z (arm_variant_records_total s)) = true
}.

Definition named (X : gset string) : gset string := filter (λ x, is_empty (py_strip x) = false) X.

(** The state as the checkpoint keeps it: totals rounded, blank specs dropped. *)
Definition rounded (s : arm_state) : arm_state :=
  {| arm_next_epoch := arm_next_epoch s; arm_elapsed_minutes := or_zero (round6 (arm_elapsed_minutes s));
     arm_epochs := arm_epochs s; arm_checkpoints := arm_checkpoints s;
     arm_novelty_seen := arm_novelty_seen s; arm_router_state := arm_router_state s;
     arm_load_profile := arm_load_profile s; arm_catalog_consumed := named (arm_catalog_consumed s);
     arm_coverage_first_seen := arm_coverage_first_seen s;
     arm_raw_value_total := or_zero (round6 (arm_raw_value_total s));
     arm_novel_value_total := or_zero (round6 (arm_novel_value_total s));
     arm_variant_records_total := arm_variant_records_total s |}.

Lemma texts_back l : py_str str_of <$> elements_of (texts l) = l.
Proof. unfold texts. simpl. rewrite <- list_fmap_compose. apply list_fmap_id. Qed.

Lemma sorted_set_back (X : gset string) : list_to_set (py_sort String.ltb (sorted_set X)) = X.
Proof.
  unfold sorted_set. apply set_eq. intros x. rewrite elem_of_list_to_set, !py_sort_perm.
  apply elem_of_elements.
Qed.

Lemma named_back (X : gset string) :
  list_to_set (filter (λ s, is_empty (py_strip s) = false) (py_sort String.ltb (sorted_set X))) = named X.
Proof.
  apply set_eq. intros x. unfold named. rewrite elem_of_list_to_set, list_elem_of_filter, elem_of_filter.
  by rewrite <- (sorted_set_back X) at 2; rewrite elem_of_list_to_set.
Qed.

Lemma mappings_back l : mappings_of (PSeq false (PMap false <$> l)) = l.
Proof.
  unfold mappings_of. simpl. induction l as [|d l IH]; [done|].
  rewrite fmap_cons. simpl. f_equal. exact IH.
Qed.

Lemma mapping_back o : mapping_or_none (opt_mapping o) = o.
Proof. by destruct o. Qed.

Lemma coverage_back l :
  coverage_of str_of parse_float (PMap false (as_items (prod_map id PFloat <$> l))) = Ok l.
Proof.
  unfold coverage_of, as_items. rewrite <- list_fmap_compose. apply rmap_cancel. by intros [k x].
Qed.

Lemma coverage_floats (l : list (string * float)) :
  rmap (to_float parse_float) (as_items (prod_map id PFloat <$> l)).*2 = Ok l.*2.
Proof.
  unfold as_items. rewrite <- !list_fmap_compose, (list_fmap_ext _ (PFloat ∘ snd)) by done.
  rewrite list_fmap_compose. by apply rmap_cancel.
Qed.

Lemma texts_only l : forallb is_text (PStr <$> l) = true.
Proof. induction l; [done|]. by rewrite fmap_cons. Qed.

Lemma state_fields s :
  check_fields parse_float (checkpoint_state s) = Ok (arm_epochs s, arm_checkpoints s).
Proof.
  unfold check_fields.
  change (pget "epochs" (checkpoint_state s)) with (PSeq false (PMap false <$> arm_epochs s)).
  change (pget "checkpoints" (checkpoint_state s)) with (PSeq false (PMap false <$> arm_checkpoints s)).
  change (pget "novelty_seen" (checkpoint_state s))
    with (texts (py_sort String.ltb (sorted_set (arm_novelty_seen s)))).
  change (pget "catalog_consumed" (checkpoint_state s))
    with (texts (py_sort String.ltb (sorted_set (arm_catalog_consumed s)))).
  change (pget "coverage_first_seen" (checkpoint_state s))
    with (PMap false (as_items (prod_map id PFloat <$> arm_coverage_first_seen s))).
  change (pget "load_profile" (checkpoint_state s)) with (opt_mapping (arm_load_profile s)).
  unfold texts. cbn [list_or mbind res_bind]. rewrite !rmap_cancel by done. cbn [mbind res_bind].
  rewrite !texts_only. cbn [require mbind res_bind dict_or]. rewrite coverage_floats.
  by destruct (arm_load_profile s).
Qed.

Lemma state_history g s fz arm_key :
  writable g s →
  check_history parse_int (as_items
    [("schema_version", PStr HARNESS_CHECKPOINT_SCHEMA_VERSION); ("arm_key", PStr arm_key);
     ("completed_epochs", PInt (Z.of_nat (length (arm_epochs s))));
     ("runtime_signature", PMap fz (as_items (arm_runtime_signature g)));
     ("state", PMap fz (checkpoint_state s))]) (checkpoint_state s) (arm_epochs s) (arm_checkpoints s) = Ok tt.
Proof.
  intros [He Hc Hl Hn _ _]. unfold check_history.
  set (payload := as_items _).
  change (pget "completed_epochs" payload) with (PInt (Z.of_nat (length (arm_epochs s)))).
  change (pget "next_epoch" (checkpoint_state s)) with (PInt (arm_next_epoch s)).
  rewrite !int_or_zero_int, Hn, Hl. cbn [catching mbind res_bind]. rewrite Z.eqb_refl.
  cbn [require mbind res_bind]. unfold numbered in He, Hc. rewrite He, Hc, Hl, Nat2Z.id.
  cbn [mbind res_bind catching fst snd]. rewrite !bool_decide_true by done.
  cbn [andb require mbind res_bind]. by rewrite (proj2 (Z.eqb_eq _ _)) by lia.
Qed.

Lemma restore_checkpoint g s :
  writable g s → restore (checkpoint_state s) = Ok (rounded s).
Proof.
  intros Hw. unfold restore_arm.
  change (pget "coverage_first_seen" (checkpoint_state s))
    with (PMap false (as_items (prod_map id PFloat <$> arm_coverage_first_seen s))).
  change (pget "raw_value_total" (checkpoint_state s)) with (PFloat (round6 (arm_raw_value_total s))).
  change (pget "novel_value_total" (checkpoint_state s)) with (PFloat (round6 (arm_novel_value_total s))).
  change (pget "variant_records_total" (checkpoint_state s)) with (PInt (arm_variant_records_total s)).
  change (pget "next_epoch" (checkpoint_state s)) with (PInt (arm_next_epoch s)).
  change (pget "elapsed_minutes" (checkpoint_state s)) with (PFloat (round6 (arm_elapsed_minutes s))).
  change (pget "epochs" (checkpoint_state s)) with (PSeq false (PMap false <$> arm_epochs s)).
  change (pget "checkpoints" (checkpoint_state s)) with (PSeq false (PMap false <$> arm_checkpoints s)).
  change (pget "novelty_seen" (checkpoint_state s))
    with (texts (py_sort String.ltb (sorted_set (arm_novelty_seen s)))).
  change (pget "catalog_consumed" (checkpoint_state s))
    with (texts (py_sort String.ltb (sorted_set (arm_catalog_consumed s)))).
  change (pget "router_state" (checkpoint_state s)) with (opt_mapping (arm_router_state s)).
  change (pget "load_profile" (checkpoint_state s)) with (opt_mapping (arm_load_profile s)).
  rewrite coverage_back, !float_or_zero_float, int_or_zero_int, !mappings_back, !texts_back, !mapping_back.
  cbn [mbind res_bind to_int]. rewrite sorted_set_back. unfold rounded. do 2 f_equal.
  apply named_back.
Qed.

Lemma roundtrip_spec path g s :
  writable g s →
  ∃ state,
    load path (Parsed (build_arm_checkpoint (sg_arm_key g) g s)) (arm_runtime_signature g) = Ok state ∧
    restore state = Ok (rounded s).
Proof.
  intros Hw. exists (checkpoint_state s). split; [|by eapply restore_checkpoint].
  unfold load_arm_checkpoint, build_arm_checkpoint. cbn [mbind res_bind dict_or].
  set (payload := as_items _).
  assert (check_identity str_of repr_of payload (arm_runtime_signature g) = Ok tt) as ->.
  { unfold check_identity.
    change (pget "schema_version" payload) with (PStr HARNESS_CHECKPOINT_SCHEMA_VERSION).
    change (pget "arm_key" payload) with (PStr (sg_arm_key g)).
    change (pget "runtime_signature" payload) with (PMap false (as_items (arm_runtime_signature g))).
    change (dict_get "arm_key" (arm_runtime_signature g)) with (Some (PStr (sg_arm_key g))).
    rewrite py_eq_refl by done. cbn [require mbind res_bind default dict_or].
    by rewrite signature_matches, !bool_decide_true by done. }
  cbn [mbind res_bind]. change (pget "state" payload) with (PMap false (checkpoint_state s)).
  cbn [mbind res_bind dict_or]. rewrite state_fields. cbn [mbind res_bind fst snd].
  unfold payload. rewrite (state_history g s false (sg_arm_key g) Hw). cbn [mbind res_bind].
  change (dict_get "use_router" (arm_runtime_signature g)) with (Some (PBool (sg_use_router g))).
  change (pget "router_state" (checkpoint_state s)) with (opt_mapping (arm_router_state s)).
  assert (negb (truthy (default PNone (Some (PBool (sg_use_router g)))))
          || is_router_state str_of (opt_mapping (arm_router_state s)) = true) as ->.
  { simpl. destruct (sg_use_router g) eqn:E; [|done]. simpl.
    by destruct (wr_router _ _ Hw E) as (d & -> & Hd). }
  cbn [require mbind res_bind].
  assert (∀ field, field ∈ NUMERIC_FIELDS → check_number parse_float (checkpoint_state s) field = Ok tt) as Hnum.
  { intros field Hf. unfold check_number.
    assert (∃ x, float_or_zero parse_float (pget field (checkpoint_state s)) = Ok x) as [x ->]; [|done].
    unfold NUMERIC_FIELDS in Hf. rewrite !elem_of_cons in Hf.
    destruct Hf as [->|[->|[->|[->|[]%elem_of_nil]]]].
    - by eexists; apply float_or_zero_float.
    - by eexists; apply float_or_zero_float.
    - by eexists; apply float_or_zero_float.
    - change (pget "variant_records_total" (checkpoint_state s)) with (PInt (arm_variant_records_total s)).
      unfold float_or_zero. destruct (truthy _); [|by eexists]. simpl.
      rewrite (wr_variants _ _ Hw). by eexists. }
  rewrite (rmap_ok _ (λ _, tt)); [done|]. apply Forall_forall. exact Hnum.
Qed.

End loading.

(** * Examples *)

Module CheckpointExample.

Definition text_of (_ : pyval) : string := "".
Definition no_float (_ : string) : option float := None.
Definition no_int (_ : string) : option Z := None.

Definition sig : signature :=
  {| sg_arm_key := "a"; sg_adapter_type := "pkg.Adapter"; sg_worker_count := 2; sg_use_router := true;
     sg_frontier_max_lanes := 0; sg_variant_catalog_enabled := false; sg_goal_id := "g"; sg_agent_id := "h";
     sg_item_failure_policy := "record"; sg_episode_mode := None |}.

Definition arm : arm_state :=
  {| arm_next_epoch := 2; arm_elapsed_minutes := lit 1 3; arm_epochs := [as_items [("epoch", PInt 1)]];
     arm_checkpoints := [as_items [("epoch", PInt 1)]]; arm_novelty_seen := {[ "k" ]};
     arm_router_state := Some (as_items [("schema_version", PStr "loopx_explore_router_state_v0")]);
     arm_load_profile := None; arm_catalog_consumed := {[ "s" ]};
     arm_coverage_first_seen := [("f", f1)]; arm_raw_value_total := f1; arm_novel_value_total := f1;
     arm_variant_records_total := 3 |}.

Definition written : pyval := build_arm_checkpoint "a" sig arm.

Notation load := (load_arm_checkpoint text_of text_of no_float no_int "p").


Lemma checkpoint_load_sound_witness : ∃ state,
  load (Parsed written) (arm_runtime_signature sig) = Ok state ∧
  numbered no_int (mappings_of (pget "epochs" state)).
Proof.
  destruct (load (Parsed written) (arm_runtime_signature sig)) as [state|e] eqn:E.
  - exists state. split; [done|].
    exact (proj1 (proj2 (checkpoint_load_sound text_of text_of no_float no_int "p" _ _ _ E))).
  - vm_compute in E. discriminate.
Defined.

Definition with_field (key : string) (v : pyval) (p : pyval) : pyval :=
  match p with
  | PMap fz d => match pget "state" d with
                 | PMap fz' st => PMap fz (pset "state" (PMap fz' (pset key v st)) d)
                 | _ => p
                 end
  | _ => p
  end.

(** The number of variant records is checked with [float] and restored with
    [int]: NaN loads, and then raises a plain [ValueError]. *)
Example variant_total_escapes :
  let file := with_field "variant_records_total" (PFloat SpecFloat.S754_nan) written in
  match load (Parsed file) (arm_runtime_signature sig) with
  | Ok state => restore_arm text_of no_float no_int state =
                Err (ValueError "cannot convert float NaN to integer")
  | Err _ => False
  end.
Proof. vm_compute. reflexivity. Qed.

(** An infinite [next_epoch] raises [OverflowError], which the check meant to
    report malformed numbers does not catch. *)
Example overflow_escapes :
  match load (Parsed (with_field "next_epoch" (PFloat (SpecFloat.S754_infinity false)) written))
             (arm_runtime_signature sig) with
  | Ok _ => False
  | Err e => exn_class e = "OverflowError"
  end.
Proof. vm_compute. reflexivity. Qed.
End CheckpointExample.
