(* ===== verification/BudgetArm.v ===== *)
(** A harness arm: [run_budget_arm] of
    [loopx/capabilities/explore/harness_runtime.py], with the ledger on dynamic
    records, [emit_frontier_requests], [step_auc] and the dict form of the
    router state.

    What an epoch meets outside (the clock, the seeds the adapter lists, the
    branch planner, the schedule of the workers with the answers of [execute])
    is an [epoch_env].  The files other than the checkpoint are written without
    failure.  [len] and iteration of objects that are no list, mapping or text
    are parameters, as in [EpisodeProbes]. *)

From stdpp Require Import base strings list sets gmap.
From Stdlib Require Import ZArith Lia SpecFloat.
From S2P Require Import Prelude PyFloat PyValue PyConv PySort TraceRuntime EpisodeRuntime.
From S2P Require Import HarnessQueue RouterState HarnessFrontier HarnessCheckpoint EpisodeProbes.

Definition HARNESS_ARM_SCHEMA_VERSION : string := "loopx_explore_harness_arm_v0".
Definition FRONTIER_REQUESTS_SCHEMA_VERSION : string := "loopx_explore_frontier_requests_v0".
Definition HARNESS_RUNTIME_POLICY_SCHEMA_VERSION : string := "loopx_explore_harness_runtime_policy_v0".
Definition ROUTER_STATE_SCHEMA_VERSION : string := "loopx_explore_router_state_v0".

(** * The router state as a dict *)

Definition num_value (v : num) : pyval := match v with NInt n => PInt n | NFloat x => PFloat x end.

Definition opt_float (o : option float) : pyval := match o with Some x => PFloat x | None => PNone end.
Definition opt_int (o : option Z) : pyval := match o with Some n => PInt n | None => PNone end.

Definition family_items (r : family_record) : items :=
  as_items
    [("value_rate_ema", opt_float (value_rate_ema r)); ("duration_ema", opt_float (duration_ema r));
     ("accept_rate_ema", opt_float (accept_rate_ema r)); ("novelty_rate", opt_float (novelty_rate r));
     ("infra_ema", PFloat (infra_ema r)); ("runs", PInt (runs r));
     ("last_run_epoch", opt_int (last_run_epoch r)); ("bias", PFloat (bias r))].

Definition dict_value {V} (f : V → pyval) (d : list (string * V)) : pyval :=
  PMap false (as_items (prod_map id f <$> d)).

Definition router_items (s : router_state) : items :=
  as_items
    [("schema_version", PStr ROUTER_STATE_SCHEMA_VERSION);
     ("config", dict_value num_value (rs_config s)); ("updated_epoch", PInt (updated_epoch s));
     ("totals", PMap false (as_items [("dispatches", PInt (dispatches s));
                                      ("observed_epochs", PInt (observed_epochs s))]));
     ("seen_observation_keys", texts (sorted_set (seen_observation_keys s)));
     ("families", dict_value (λ r, PMap false (family_items r)) (families s));
     ("last_epoch", PMap false (as_items
        [("epoch", PInt (last_epoch s));
         ("minutes_by_family", dict_value PFloat (minutes_by_family s));
         ("novel_value_by_family", dict_value PFloat (novel_value_by_family s))]))].

(** The state that a dict of this form stands for. *)
Definition float_in (v : pyval) : option float := match v with PFloat x => Some x | _ => None end.
Definition int_in (v : pyval) : option Z := match v with PInt n => Some n | _ => None end.
Definition mapping_in (v : pyval) : items := match v with PMap _ d => d | _ => [] end.

Definition num_in (v : pyval) : num := match v with PFloat x => NFloat x | PInt n => NInt n | _ => NInt 0 end.

Definition entries_in {V} (f : pyval → V) (v : pyval) : list (string * V) :=
  omap (λ kv, (λ k, (k, f kv.2)) <$> kv.1) (mapping_in v).

Definition family_in (v : pyval) : family_record :=
  let d := mapping_in v in
  {| value_rate_ema := float_in (pget "value_rate_ema" d); duration_ema := float_in (pget "duration_ema" d);
     accept_rate_ema := float_in (pget "accept_rate_ema" d); novelty_rate := float_in (pget "novelty_rate" d);
     infra_ema := default f0 (float_in (pget "infra_ema" d)); runs := default 0%Z (int_in (pget "runs" d));
     last_run_epoch := int_in (pget "last_run_epoch" d); bias := default f0 (float_in (pget "bias" d)) |}.

Definition text_in (v : pyval) : option string := match v with PStr s => Some s | _ => None end.

Definition router_in (d : items) : router_state :=
  let totals := mapping_in (pget "totals" d) in
  let last := mapping_in (pget "last_epoch" d) in
  {| rs_config := entries_in num_in (pget "config" d);
     updated_epoch := default 0%Z (int_in (pget "updated_epoch" d));
     dispatches := default 0%Z (int_in (pget "dispatches" totals));
     observed_epochs := default 0%Z (int_in (pget "observed_epochs" totals));
     seen_observation_keys := list_to_set (omap text_in (elements_of (pget "seen_observation_keys" d)));
     families := entries_in family_in (pget "families" d);
     last_epoch := default 0%Z (int_in (pget "epoch" last));
     minutes_by_family := entries_in (λ v, default f0 (float_in v)) (pget "minutes_by_family" last);
     novel_value_by_family :=
       entries_in (λ v, default f0 (float_in v)) (pget "novel_value_by_family" last) |}.

(** * Parameters of a run *)

Record arm_config := {
  ac_signature : signature;
  ac_budget_minutes : float;
  ac_max_epochs : Z;
  ac_guard_factor : float;
  ac_guard_recent : Z;
  ac_checkpoint_enabled : bool;
  ac_checkpoint_path : string
}.

Definition ac_arm_key (c : arm_config) : string := sg_arm_key (ac_signature c).
Definition ac_use_router (c : arm_config) : bool := sg_use_router (ac_signature c).
Definition ac_failure_policy (c : arm_config) : string := sg_item_failure_policy (ac_signature c).
Definition ac_episode_mode (c : arm_config) : option string := sg_episode_mode (ac_signature c).
Definition ac_fatal (c : arm_config) : bool :=
  bool_decide (ac_failure_policy c = ITEM_FAILURE_POLICY_FATAL).

(** What one epoch meets: the minutes since the start when it begins and when
    its records are in, its wall time, the seeds, the planner, and the run of
    the queue. *)
Record epoch_env := {
  ee_begun : float;
  ee_ended : float;
  ee_epoch_wall : float;
  ee_seeds : res (list items);
  ee_plan : option router_state → option items → list items → branch_plan;
  ee_wall : nat → float;
  ee_schedule : list turn;
  ee_order : list nat
}.

(** The locals of [run_budget_arm] and the files it writes. *)
Record arm_run := {
  ar_catalog : option catalog;
  ar_ledger : gset string;
  ar_router : option router_state;
  ar_profile : option items;
  ar_epochs : list items;
  ar_checkpoints : list items;
  ar_coverage : list (string * float);
  ar_raw : float;
  ar_novel : float;
  ar_variants : Z;
  ar_metrics : items;
  ar_checkpoint_file : option pyval;
  ar_requests_file : option items;
  ar_router_file : option items;
  ar_progress_file : option items
}.

Definition set_catalog (c : option catalog) (s : arm_run) : arm_run :=
  {| ar_catalog := c; ar_ledger := ar_ledger s; ar_router := ar_router s; ar_profile := ar_profile s;
     ar_epochs := ar_epochs s; ar_checkpoints := ar_checkpoints s; ar_coverage := ar_coverage s;
     ar_raw := ar_raw s; ar_novel := ar_novel s; ar_variants := ar_variants s; ar_metrics := ar_metrics s;
     ar_checkpoint_file := ar_checkpoint_file s; ar_requests_file := ar_requests_file s;
     ar_router_file := ar_router_file s; ar_progress_file := ar_progress_file s |}.

Definition set_requests (d : items) (s : arm_run) : arm_run :=
  {| ar_catalog := ar_catalog s; ar_ledger := ar_ledger s; ar_router := ar_router s;
     ar_profile := ar_profile s; ar_epochs := ar_epochs s; ar_checkpoints := ar_checkpoints s;
     ar_coverage := ar_coverage s; ar_raw := ar_raw s; ar_novel := ar_novel s;
     ar_variants := ar_variants s; ar_metrics := ar_metrics s;
     ar_checkpoint_file := ar_checkpoint_file s; ar_requests_file := Some d;
     ar_router_file := ar_router_file s; ar_progress_file := ar_progress_file s |}.

(** An operation of the catalog [c] of an arm. *)
Definition on_catalog {A} (c : catalog) (m : M catalog A) : M arm_run (A * catalog) := λ s,
  let '(r, c') := m c in (a ← r; Ok (a, c'), set_catalog (Some c') s).

Section arm.
Variables (str_of repr_of type_name : pyval → string) (retryable_infra_error : exn → bool).
Variables (parse_float : string → option float) (parse_int : string → option Z).
Variables (py_sum : list float → float) (iter_of : pyval → res (list pyval)) (len_of : pyval → res Z).
Variables (sha1_prefix : string → Z) (catalog_file : nat → pyval).
Variables (compile_variant : list compile_call → items → items → res items).

Notation key_list := (key_list str_of iter_of).
Notation flag_name := (flag_name str_of).

(** * The ledger on records *)

(** [(v or {}).items()] and [.values()]. *)
Definition flag_items (attribute : string) (v : pyval) : res items :=
  match por v (PMap false []) with
  | PMap _ d => Ok d
  | w => Err (AttributeError ("'" ++ type_name w ++ "' object has no attribute '" ++ attribute ++ "'"))
  end.

Definition py_len (v : pyval) : res Z :=
  match v with
  | PSeq _ l => Ok (Z.of_nat (length l))
  | PMap _ d => Ok (Z.of_nat (length d))
  | PStr s => Ok (Z.of_nat (String.length s))
  | PBytes | POther => len_of v
  | _ => Err (TypeError ("object of type '" ++ type_name v ++ "' has no len()"))
  end.

Definition raw_value (record : items) : res float :=
  n ← py_len (por (pget "observation_keys" record) (PSeq false []));
  flags ← flag_items "values" (pget "weighted_flags" record);
  weights ← rmap (to_float parse_float) flags.*2;
  Ok (fadd (fmul DEFAULT_OBSERVATION_WEIGHT (float_of_Z n)) (py_sum weights)).

(** A flag is converted only where it is novel. *)
Definition credit_flag (family : string) (a : gset string * float) (kv : option string * pyval)
  : res (gset string * float) :=
  let pseudo := flag_pseudo_key family (flag_name kv.1) in
  if bool_decide (pseudo ∈ a.1) then Ok a
  else weight ← to_float parse_float kv.2; Ok ({[ pseudo ]} ∪ a.1, fadd a.2 weight).

Definition credit (seen : gset string) (record : items) : res (gset string * float) :=
  keys ← key_list (pget "observation_keys" record);
  let '(seen, novel) := first_seen seen (weigh_keys DEFAULT_OBSERVATION_WEIGHT keys) in
  flags ← flag_items "items" (pget "weighted_flags" record);
  rfold (credit_flag (family_or_general str_of record)) (seen, add_weights f0 novel) flags.

(** * Beginning an epoch *)

(** The budget and the duration guard: a reason to stop, if any. *)
Definition recent_epochs (recent : Z) (epochs : list items) : list items :=
  drop (length epochs - Z.to_nat (Z.max 1 recent)) epochs.

Definition max_of (l : list float) : float := match l with [] => f0 | x :: l' => fold_left fmax l' x end.

Definition guard (c : arm_config) (epochs : list items) (elapsed : float) : res (option string) :=
  let remaining := fsub (ac_budget_minutes c) elapsed in
  match epochs with
  | [] => Ok None
  | _ =>
      if fleb remaining f0 then Ok (Some "budget_exhausted")
      else if fltb f0 (ac_guard_factor c) then
        walls ← rmap (λ entry, float_or_zero parse_float (pget "epoch_wall_minutes" entry))
                  (recent_epochs (ac_guard_recent c) epochs);
        let estimated := fmul (max_of walls) (ac_guard_factor c) in
        Ok (if fltb remaining estimated then Some "duration_guard" else None)
      else Ok None
  end.

(** [emit_frontier_requests]. *)
Definition PER_FAMILY_KEY_CAP : Z := 24.

Definition seen_for_family (ledger : gset string) (family : string) : list string :=
  take (Z.to_nat (Z.max 1 PER_FAMILY_KEY_CAP))
    (sorted_set (filter (λ key, startswith "flag:" key = false
                                ∨ startswith ("flag:" ++ family ++ ":") key = true) ledger)).

Notation pending_for := (pending_for str_of catalog_file).
Notation pending_count := (pending_count str_of catalog_file).

Fixpoint request_rows (ledger : gset string) (router : option router_state) (epoch : Z)
    (listed : list string) (seed_items : list items) : M catalog (list (float * items)) :=
  match seed_items with
  | [] => mret []
  | item :: rest =>
      let family := family_of str_of item in
      if is_empty family || bool_decide (family ∈ listed)
      then request_rows ledger router epoch listed rest
      else
        pending ← pending_for family;
        let gain := frontier_gain router family epoch in
        let row := as_items
          [("family", PStr family); ("seed_item_id", pget "item_id" item); ("seed_text", pget "text" item);
           ("pending_spec_count", PInt (Z.of_nat (length pending))); ("frontier_gain", PFloat gain);
           ("seen_keys_sample", texts (seen_for_family ledger family))] in
        more ← request_rows ledger router epoch (family :: listed) rest;
        mret ((gain, row) :: more)
  end.

Definition emit_frontier_requests (arm_key : string) (epoch : Z) (seed_items : list items)
    (ledger : gset string) (router : option router_state) : M catalog items :=
  rows ← request_rows ledger router epoch [] seed_items;
  left ← pending_count;
  let sorted := (py_sort (λ a b, fltb (fopp a.1) (fopp b.1)) rows).*2 in
  mret (as_items
    [("schema_version", PStr FRONTIER_REQUESTS_SCHEMA_VERSION); ("arm", PStr arm_key);
     ("epoch", PInt epoch); ("total_seen_keys", PInt (Z.of_nat (size ledger)));
     ("catalog_pending_total", PInt (Z.of_nat left));
     ("families", PSeq false (PMap false <$> sorted));
     ("how_to_respond", PStr ("Append specs to the variant catalog file: {spec_id, seed_family, "
        ++ "intent, ops (adapter-defined), key_prefix, priority}. The harness "
        ++ "schedules them by frontier gain; it never invents specs."))]).

Record epoch_plan := {
  ep_seeds : list items;
  ep_queue_items : list items;
  ep_frontier : option frontier_audit;
  ep_execution_items : list items
}.

Definition frontier_work (c : arm_config) (epoch : Z) (seeds : list items)
  : M arm_run (list items * option frontier_audit) :=
  found ← gets ar_catalog;
  match found with
  | Some cat =>
      if ac_use_router c && (0 <? sg_frontier_max_lanes (ac_signature c))%Z then
        router ← gets ar_router;
        work ← on_catalog cat (select_frontier_work str_of parse_float sha1_prefix catalog_file
                 compile_variant router epoch (sg_frontier_max_lanes (ac_signature c)) seeds);
        ledger ← gets ar_ledger;
        request ← on_catalog work.2 (emit_frontier_requests (ac_arm_key c) epoch seeds ledger router);
        _ ← modify (set_requests request.1);
        mret (work.1.1, Some work.1.2)
      else mret ([], None)
  | None => mret ([], None)
  end.

Definition build_units (c : arm_config) (epoch : Z) (l : list items) : res (list execution_unit) :=
  build_episode_execution_units str_of repr_of l (ac_arm_key c) epoch (ac_fatal c).

(** The loop body up to [run_queue_epoch]: a reason to stop, or the work. *)
Definition begin_epoch (c : arm_config) (offset : float) (e : epoch_env) (epoch : Z)
  : M arm_run (string + epoch_plan) :=
  epochs ← gets ar_epochs;
  stop ← lift (guard c epochs (fadd offset (ee_begun e)));
  match stop with
  | Some reason => mret (inl reason)
  | None =>
      seeds ← lift (ee_seeds e);
      match seeds with
      | [] => mret (inl "seed_queue_empty")
      | _ =>
          _ ← lift (if is_some (ac_episode_mode c) && ac_fatal c
                    then _ ← build_units c epoch seeds; Ok tt else Ok tt);
          router ← gets ar_router;
          profile ← gets ar_profile;
          let planned := if ac_use_router c
                         then plan_router_no_prune str_of (ee_plan e router profile) seeds
                         else plan_round_robin seeds in
          work ← frontier_work c epoch seeds;
          let queue_items := (planned ++ work.1)%list in
          units ← lift (if is_some (ac_episode_mode c)
                        then us ← build_units c epoch queue_items; Ok (fmap (M:=list) unit_record us)
                        else Ok queue_items);
          mret (inr {| ep_seeds := seeds; ep_queue_items := queue_items; ep_frontier := work.2;
                       ep_execution_items := units |})
      end
  end.

(** * Ending an epoch *)

Record credit_scan := { cr_seen : gset string; cr_raw : float; cr_novel : float; cr_variants : Z }.

(** One record: its credit, and the record with the two values. *)
Definition credit_record (a : credit_scan) (record : items) : res (credit_scan * items) :=
  got ← credit (cr_seen a) record;
  let record := pset "novel_value" (PFloat got.2) record in
  raw ← raw_value record;
  let record := pset "raw_value" (PFloat raw) record in
  Ok ({| cr_seen := got.1; cr_raw := fadd (cr_raw a) raw; cr_novel := fadd (cr_novel a) got.2;
         cr_variants := (cr_variants a + if is_variant record then 1 else 0)%Z |}, record).

Fixpoint credit_records (a : credit_scan) (l : list items) : res (credit_scan * list items) :=
  match l with
  | [] => Ok (a, [])
  | r :: l' =>
      x ← credit_record a r;
      rest ← credit_records x.1 l';
      Ok (rest.1, x.2 :: rest.2)
  end.

Definition set_results (l : lane) (results : list items) : lane :=
  {| lane_branch_id := lane_branch_id l; launch_index := launch_index l; wall_minutes := wall_minutes l;
     lane_item_ids := lane_item_ids l; lane_families := lane_families l; lane_results := results |}.

Fixpoint credit_lanes (a : credit_scan) (lanes : list lane) : res (credit_scan * list lane) :=
  match lanes with
  | [] => Ok (a, [])
  | l :: lanes' =>
      x ← credit_records a (lane_results l);
      rest ← credit_lanes x.1 lanes';
      Ok (rest.1, set_results l x.2 :: rest.2)
  end.

Definition lane_items (l : lane) : items :=
  as_items
    [("branch_id", PStr (lane_branch_id l)); ("launch_index", PInt (Z.of_nat (launch_index l)));
     ("wall_minutes", PFloat (wall_minutes l)); ("item_ids", PSeq false (lane_item_ids l));
     ("families", PSeq false (lane_families l)); ("results", PSeq false (PMap false <$> lane_results l))].

Definition audit_items (a : frontier_audit) : items :=
  as_items
    [("requested_lanes", PInt (fa_requested_lanes a)); ("admitted", PInt (Z.of_nat (fa_admitted a)));
     ("catalog_pending_after", PInt (Z.of_nat (fa_catalog_pending_after a)));
     ("specs", PSeq false ((λ r, PMap false (as_items
        [("spec_id", sa_spec_id r); ("seed_family", PStr (sa_seed_family r));
         ("intent", sa_intent r); ("gain", PFloat (sa_gain r))])) <$> fa_specs a))].

(** A record as the metrics see it when the adapter runs no episodes. *)
Definition strip_group (record : items) : items :=
  pset "record_kind" (PStr RECORD_KIND_STANDALONE) (pset "execution_group_id" PNone record).

Definition metric_records (c : arm_config) (records : list items) : list items :=
  match ac_episode_mode c with None => strip_group <$> records | Some _ => records end.

Notation summarize := (summarize_execution_records str_of parse_float py_sum).
Notation combine := (combine_execution_metrics parse_float parse_int py_sum).

Definition cover (minutes : float) (d : list (string * float)) (record : items) : list (string * float) :=
  let family := family_of str_of record in
  if is_empty family || dict_has family d then d else dict_set family minutes d.

Definition eligible_families (seeds : list items) : list string :=
  sorted_set (list_to_set (omap (λ item,
    let v := pget "family" item in if truthy v then Some (py_str str_of v) else None) seeds)).

(** The feedback of an epoch to the router. *)
Definition route (c : arm_config) (epoch : Z) (seeds records : list items) (router : option router_state)
  : res (option router_state) :=
  if ac_use_router c then
    probes ← match ac_episode_mode c with
      | Some _ => build_router_probes str_of parse_float py_sum iter_of records
      | None => Ok (fmap (M:=list) (record_probe str_of) records)
      end;
    s ← match router with
      | Some s => Ok s
      | None => Err (TypeError "'NoneType' object is not iterable")
      end;
    s ← observe_router_probes str_of parse_float py_sum iter_of s epoch probes;
    s ← advance_epoch py_sum s epoch (eligible_families seeds);
    Ok (Some s)
  else Ok router.

Definition load_profile_of (c : arm_config) (epoch : Z) (epoch_wall : float) (lanes : list lane) : items :=
  as_items
    [("source", PStr ("observed_epoch_" ++ zero_pad 2 epoch ++ "_" ++ ac_arm_key c));
     ("parallel_wall_minutes", PFloat epoch_wall);
     ("max_branch_minutes", PFloat (max_of ((λ l, or_zero (wall_minutes l)) <$> lanes)));
     ("branch_count", PInt (Z.of_nat (length lanes)))].

Definition anytime_entry (c : arm_config) (epoch : Z) (elapsed_after raw novel : float)
    (covered variants : Z) (metrics : items) : items :=
  as_items
    [("epoch", PInt epoch); ("elapsed_minutes", PFloat (py_round 3 elapsed_after));
     ("raw_value_cum", PFloat (py_round 3 raw)); ("novel_value_cum", PFloat (py_round 3 novel));
     ("coverage_count_cum", PInt covered); ("variant_records_cum", PInt variants);
     ("requested_worker_minutes_cum",
       PFloat (py_round 3 (fmul elapsed_after (float_of_Z (sg_worker_count (ac_signature c))))));
     ("execution_metrics_cum", PMap false metrics)].

Definition epoch_entry (epoch : Z) (epoch_wall : float) (p : epoch_plan) (metrics : items)
    (lanes : list lane) : items :=
  as_items
    [("schema_version", PStr HARNESS_ARM_SCHEMA_VERSION); ("epoch", PInt epoch);
     ("epoch_wall_minutes", PFloat (py_round 3 epoch_wall));
     ("queue_size", PInt (Z.of_nat (length (ep_queue_items p))));
     ("execution_unit_count", PInt (Z.of_nat (length (ep_execution_items p))));
     ("execution_metrics", PMap false metrics);
     ("frontier", match ep_frontier p with Some a => PMap false (audit_items a) | None => PNone end);
     ("lanes", PSeq false ((λ l, PMap false (lane_items l)) <$> lanes))].

(** What [write_arm_checkpoint] is given. *)
Definition state_to_write (s : arm_run) (next_epoch : Z) (elapsed : float) : arm_state :=
  {| arm_next_epoch := next_epoch; arm_elapsed_minutes := elapsed; arm_epochs := ar_epochs s;
     arm_checkpoints := ar_checkpoints s; arm_novelty_seen := ar_ledger s;
     arm_router_state := router_items <$> ar_router s; arm_load_profile := ar_profile s;
     arm_catalog_consumed := default ∅ (consumed <$> ar_catalog s);
     arm_coverage_first_seen := ar_coverage s; arm_raw_value_total := ar_raw s;
     arm_novel_value_total := ar_novel s; arm_variant_records_total := ar_variants s |}.

Definition write_checkpoint (c : arm_config) (next_epoch : Z) (elapsed : float) (s : arm_run) : arm_run :=
  {| ar_catalog := ar_catalog s; ar_ledger := ar_ledger s; ar_router := ar_router s;
     ar_profile := ar_profile s; ar_epochs := ar_epochs s; ar_checkpoints := ar_checkpoints s;
     ar_coverage := ar_coverage s; ar_raw := ar_raw s; ar_novel := ar_novel s;
     ar_variants := ar_variants s; ar_metrics := ar_metrics s;
     ar_checkpoint_file :=
       if ac_checkpoint_enabled c
       then Some (build_arm_checkpoint (ac_arm_key c) (ac_signature c)
                    (state_to_write s next_epoch elapsed))
       else ar_checkpoint_file s;
     ar_requests_file := ar_requests_file s; ar_router_file := ar_router_file s;
     ar_progress_file := Some (as_items
       [("arm", PStr (ac_arm_key c)); ("completed_epochs", PInt (Z.of_nat (length (ar_epochs s))));
        ("last_checkpoint", opt_mapping (last (ar_checkpoints s)))]) |}.

(** The loop body after [run_queue_epoch]. *)
Definition finish_epoch (c : arm_config) (offset : float) (e : epoch_env) (epoch : Z) (p : epoch_plan)
    (lanes : list lane) (s : arm_run) : res arm_run :=
  x ← credit_lanes {| cr_seen := ar_ledger s; cr_raw := f0; cr_novel := f0;
                      cr_variants := ar_variants s |} lanes;
  let '(a, lanes) := x in
  let records := lanes ≫= lane_results in
  let raw_cum := fadd (ar_raw s) (cr_raw a) in
  let novel_cum := fadd (ar_novel s) (cr_novel a) in
  epoch_metrics ← summarize (metric_records c records);
  metrics ← combine [ar_metrics s; epoch_metrics];
  let elapsed_after := fadd offset (ee_ended e) in
  let coverage := fold_left (cover (py_round 3 elapsed_after)) records (ar_coverage s) in
  router ← route c epoch (ep_seeds p) records (ar_router s);
  let entry := anytime_entry c epoch elapsed_after raw_cum novel_cum (Z.of_nat (length coverage))
                 (cr_variants a) metrics in
  Ok (write_checkpoint c (epoch + 1) elapsed_after
    {| ar_catalog := ar_catalog s; ar_ledger := cr_seen a; ar_router := router;
       ar_profile := if ac_use_router c then Some (load_profile_of c epoch (ee_epoch_wall e) lanes)
                     else ar_profile s;
       ar_epochs := (ar_epochs s ++ [epoch_entry epoch (ee_epoch_wall e) p epoch_metrics lanes])%list;
       ar_checkpoints := (ar_checkpoints s ++ [entry])%list;
       ar_coverage := coverage; ar_raw := raw_cum; ar_novel := novel_cum; ar_variants := cr_variants a;
       ar_metrics := metrics; ar_checkpoint_file := ar_checkpoint_file s;
       ar_requests_file := ar_requests_file s;
       ar_router_file := if ac_use_router c then router_items <$> router else ar_router_file s;
       ar_progress_file := ar_progress_file s |}).

(** * The loop *)

Definition run_queue (c : arm_config) (e : epoch_env) (p : epoch_plan) : option (res (list lane)) :=
  run_queue_epoch str_of type_name retryable_infra_error (ee_wall e) (ep_execution_items p)
    (sg_worker_count (ac_signature c)) (PStr (ac_failure_policy c)) (ee_schedule e) (ee_order e).

(** [for epoch in range(next_epoch, max_epochs + 1)]: the reason to stop or the
    exception, and the arm; [None] if the schedule of an epoch ends while a
    worker is running. *)
Fixpoint arm_loop (c : arm_config) (offset : float) (env : Z → epoch_env) (n : nat) (epoch : Z)
    (s : arm_run) : option (res string * arm_run) :=
  match n with
  | O => Some (Ok "max_epochs", s)
  | S n' =>
      match begin_epoch c offset (env epoch) epoch s with
      | (Err e, s') => Some (Err e, s')
      | (Ok (inl reason), s') => Some (Ok reason, s')
      | (Ok (inr p), s') =>
          r ← run_queue c (env epoch) p;
          match r ≫= λ lanes, finish_epoch c offset (env epoch) epoch p lanes s' with
          | Err e => Some (Err e, s')
          | Ok s'' => arm_loop c offset env n' (epoch + 1) s''
          end
      end
  end.

(** * Starting and restarting *)

Definition fresh_arm (c : arm_config) (cat : option catalog) : arm_run :=
  let cat := match cat with
             | Some k => Some (if ac_checkpoint_enabled c then (restore_consumed str_of [] k).2 else k)
             | None => None
             end in
  {| ar_catalog := cat; ar_ledger := ∅;
     ar_router := if ac_use_router c then Some (initial_router_state []) else None;
     ar_profile := None; ar_epochs := []; ar_checkpoints := []; ar_coverage := []; ar_raw := f0;
     ar_novel := f0; ar_variants := 0; ar_metrics := []; ar_checkpoint_file := None;
     ar_requests_file := None; ar_router_file := None; ar_progress_file := None |}.

Definition execution_metric_fields : list string := (minute_fields ++ count_fields)%list.

Definition as_dict (v : pyval) : res items :=
  match v with
  | PMap _ d => Ok d
  | _ => Err (AttributeError ("'" ++ type_name v ++ "' object has no attribute 'get'"))
  end.

(** [for x in v or []]. *)
Definition elements_or_none (v : pyval) : res (list pyval) :=
  if truthy v then py_iter iter_of v else Ok [].

(** The metrics of an epoch of the history: the stored ones if complete. *)
Definition historical_metrics (c : arm_config) (epoch : items) : res items :=
  let stored := pget "execution_metrics" epoch in
  let complete := match stored with
                  | PMap _ d => forallb (λ f, bool_decide (Some f ∈ d.*1)) execution_metric_fields
                  | _ => false
                  end in
  if complete then Ok (mapping_in stored)
  else
    lanes ← elements_or_none (pget "lanes" epoch);
    results ← rmap (λ lane, d ← as_dict lane; elements_or_none (pget "results" d)) lanes;
    records ← rmap (λ v, match v, ac_episode_mode c with
                         | PMap _ d, _ => Ok d
                         | _, Some _ => as_dict v
                         | _, None => Err (TypeError ("'" ++ type_name v ++ "' object is not a mapping"))
                         end) (concat results);
    summarize (metric_records c records).

(** The arm, the next epoch and the minutes spent before. *)
Definition resume_arm (c : arm_config) (cat : option catalog) (file : file_read)
  : res (arm_run * Z * float) :=
  state ← load_arm_checkpoint str_of repr_of parse_float parse_int (ac_checkpoint_path c) file
            (arm_runtime_signature (ac_signature c));
  a ← restore_arm str_of parse_float parse_int state;
  let cat := match cat with
             | Some k => Some (restore_consumed str_of (elements_of (pget "catalog_consumed" state)) k).2
             | None => None
             end in
  history ← rmap (historical_metrics c) (arm_epochs a);
  metrics ← combine history;
  Ok ({| ar_catalog := cat; ar_ledger := arm_novelty_seen a; ar_router := router_in <$> arm_router_state a;
         ar_profile := arm_load_profile a; ar_epochs := arm_epochs a;
         ar_checkpoints := arm_checkpoints a; ar_coverage := arm_coverage_first_seen a;
         ar_raw := arm_raw_value_total a; ar_novel := arm_novel_value_total a;
         ar_variants := arm_variant_records_total a; ar_metrics := metrics;
         ar_checkpoint_file := match file with Parsed v => Some v | _ => None end;
         ar_requests_file := None; ar_router_file := None; ar_progress_file := None |},
      arm_next_epoch a, arm_elapsed_minutes a).

(** A fresh arm also combines the metrics of its empty history. *)
Definition start_arm (c : arm_config) (cat : option catalog) (resume : option file_read)
  : res (arm_run * Z * float) :=
  match resume with
  | Some file => resume_arm c cat file
  | None =>
      metrics ← combine [];
      let s := fresh_arm c cat in
      Ok ({| ar_catalog := ar_catalog s; ar_ledger := ar_ledger s; ar_router := ar_router s;
             ar_profile := ar_profile s; ar_epochs := ar_epochs s; ar_checkpoints := ar_checkpoints s;
             ar_coverage := ar_coverage s; ar_raw := ar_raw s; ar_novel := ar_novel s;
             ar_variants := ar_variants s; ar_metrics := metrics;
             ar_checkpoint_file := ar_checkpoint_file s; ar_requests_file := ar_requests_file s;
             ar_router_file := ar_router_file s; ar_progress_file := ar_progress_file s |}, 1%Z, f0)
  end.

Definition not_enforced : pyval :=
  PMap false (as_items [("enforced", PBool false); ("owner", PStr "external_runner")]).

(** What [run_budget_arm] returns. *)
Definition arm_payload (c : arm_config) (resumed : bool) (next_epoch : Z) (elapsed : float)
    (stop_reason : string) (s : arm_run) : items :=
  as_items
    [("schema_version", PStr HARNESS_ARM_SCHEMA_VERSION); ("arm_key", PStr (ac_arm_key c));
     ("budget_minutes", PFloat (ac_budget_minutes c));
     ("elapsed_minutes", PFloat (py_round 3 elapsed)); ("stop_reason", PStr stop_reason);
     ("epoch_count", PInt (Z.of_nat (length (ar_epochs s))));
     ("raw_value_total", PFloat (py_round 3 (ar_raw s)));
     ("novel_value_total", PFloat (py_round 3 (ar_novel s)));
     ("variant_records_total", PInt (ar_variants s)); ("execution_metrics", PMap false (ar_metrics s));
     ("coverage_count", PInt (Z.of_nat (length (ar_coverage s))));
     ("coverage_first_seen_minutes", dict_value PFloat (ar_coverage s));
     ("checkpoints", PSeq false (PMap false <$> ar_checkpoints s));
     ("epochs", PSeq false (PMap false <$> ar_epochs s));
     ("resume", PMap false (as_items
       [("schema_version", PStr "loopx_explore_harness_resume_v0");
        ("enabled", PBool (ac_checkpoint_enabled c)); ("resumed", PBool resumed);
        ("checkpoint_schema_version", PStr HARNESS_CHECKPOINT_SCHEMA_VERSION);
        ("checkpoint_path", if ac_checkpoint_enabled c then PStr (ac_checkpoint_path c) else PNone);
        ("restored_epoch_count", PInt (if resumed then next_epoch - 1 else 0)%Z)]));
     ("runtime_policy", PMap false (as_items
       [("schema_version", PStr HARNESS_RUNTIME_POLICY_SCHEMA_VERSION);
        ("item_failure_policy", PStr (ac_failure_policy c));
        ("item_exception_isolation",
          PBool (bool_decide (ac_failure_policy c = ITEM_FAILURE_POLICY_RECORD)));
        ("episode_execution", PMap false (as_items
          [("mode", PStr (default "standalone" (ac_episode_mode c)));
           ("adapter_owned_restore", PBool (is_some (ac_episode_mode c)))]));
        ("planner_guidance", PMap false (as_items
          [("retry_backoff", not_enforced); ("infra_cooldown", not_enforced)]))]))].

(** [finished] is the last reading of the clock. *)
Definition run_budget_arm (c : arm_config) (cat : option catalog) (resume : option file_read)
    (env : Z → epoch_env) (finished : float) : option (res items) :=
  match start_arm c cat resume with
  | Err e => Some (Err e)
  | Ok (s, next_epoch, offset) =>
      out ← arm_loop c offset env (Z.to_nat (ac_max_epochs c + 1 - next_epoch)) next_epoch s;
      Some (reason ← out.1;
            Ok (arm_payload c (is_some resume) next_epoch (fadd offset finished) reason out.2))
  end.

(** * Anytime curves *)

(** The locals of [step_auc]. *)
Record auc := { auc_area : float; auc_t : float; auc_v : float }.

Definition auc_step (value_key : string) (horizon : float) (a : auc) (checkpoint : items) : res auc :=
  minutes ← float_or_zero parse_float (pget "elapsed_minutes" checkpoint);
  let t := fmin minutes horizon in
  let later := fltb (auc_t a) t in
  v ← float_or_zero parse_float (pget value_key checkpoint);
  Ok {| auc_area := if later then fadd (auc_area a) (fmul (auc_v a) (fsub t (auc_t a))) else auc_area a;
        auc_t := if later then t else auc_t a; auc_v := v |}.

Definition step_auc (value_key : string) (horizon : float) (checkpoints : list items) : res float :=
  a ← rfold (auc_step value_key horizon) {| auc_area := f0; auc_t := f0; auc_v := f0 |} checkpoints;
  let area := if fltb (auc_t a) horizon
              then fadd (auc_area a) (fmul (auc_v a) (fsub horizon (auc_t a))) else auc_area a in
  Ok (py_round 3 area).

Definition as_dict_list (v : pyval) : res (list items) := l ← elements_or_none v; rmap as_dict l.

(** The score of one arm. *)
Definition score_arm (budget_minutes : float) (worker_count : Z) (arm : items) : res items :=
  let checkpoints := por (pget "checkpoints" arm) (PSeq false []) in
  let metrics := mapping_in (pget "execution_metrics" arm) in
  effective ← float_or_zero parse_float (pget "effective_compute_minutes" metrics);
  curve ← as_dict_list checkpoints;
  area ← step_auc "novel_value_cum" budget_minutes curve;
  total ← float_or_zero parse_float (pget "novel_value_total" arm);
  requested ← py_div total (fmax (lit 1 1000) (fmul budget_minutes (float_of_Z worker_count)));
  per_effective ← (if fltb f0 effective
                   then x ← py_div total effective; Ok (PFloat (py_round 4 x)) else Ok PNone);
  Ok (as_items
    [("novel_value_endpoint", pget "novel_value_total" arm); ("novel_value_auc", PFloat area);
     ("raw_value_total", pget "raw_value_total" arm); ("coverage_count", pget "coverage_count" arm);
     ("variant_records_total", pget "variant_records_total" arm);
     ("epoch_count", pget "epoch_count" arm); ("elapsed_minutes", pget "elapsed_minutes" arm);
     ("stop_reason", pget "stop_reason" arm); ("execution_metrics", PMap false metrics);
     ("novel_value_per_requested_worker_minute", PFloat (py_round 4 requested));
     ("novel_value_per_effective_compute_minute", per_effective); ("anytime_curve", checkpoints)]).

Definition aggregate_arms (budget_minutes : float) (worker_count : Z)
    (coverage_denominator : option Z) (arms : list (string * items)) : res items :=
  scores ← rmap (λ ka, d ← score_arm budget_minutes worker_count ka.2; Ok (ka.1, PMap false d)) arms;
  Ok (as_items
    [("schema_version", PStr "loopx_explore_harness_score_v0");
     ("budget_minutes_per_arm", PFloat budget_minutes); ("worker_count", PInt worker_count);
     ("coverage_denominator", opt_int coverage_denominator); ("arms", PMap false (as_items scores))]).
End arm.
