(* ===== verification/ArmTheorems.v ===== *)
(** Properties of a harness arm. *)

From stdpp Require Import base strings list sets gmap.
From Stdlib Require Import ZArith Lia SpecFloat.
From S2P Require Import Prelude PyFloat ListLib PyValue PyConv PySort TraceRuntime EpisodeRuntime.
From S2P Require Import EpisodeUnits HarnessQueue QueueTheorems RouterState RouterTheorems.
From S2P Require Import HarnessFrontier FrontierTheorems HarnessCheckpoint CheckpointTheorems.
From S2P Require Import EpisodeProbes ProbeTheorems MetricTheorems BudgetArm.

(** * The router state as a dict *)

Lemma entries_back {V} (f : V → pyval) (g : pyval → V) d :
  (∀ v, g (f v) = v) → entries_in g (dict_value f d) = d.
Proof.
  intros H. unfold entries_in, dict_value. cbn [mapping_in]. induction d as [|[k v] d IH]; [done|].
  change (as_items (prod_map id f <$> (k, v) :: d)) with ((Some k, f v) :: as_items (prod_map id f <$> d)).
  cbn [omap list_omap fst snd fmap option_fmap option_map]. rewrite H. f_equal. exact IH.
Qed.

Lemma family_back r : family_in (PMap false (family_items r)) = r.
Proof. destruct r as [[] [] [] [] ? ? [] ?]; reflexivity. Qed.

Lemma seen_back (X : gset string) :
  list_to_set (omap text_in (elements_of (texts (sorted_set X)))) = X.
Proof.
  assert (∀ l, omap text_in (elements_of (texts l)) = l) as ->.
  { intros l. unfold texts. cbn [elements_of]. induction l as [|x l IH]; [done|].
    rewrite fmap_cons. cbn. f_equal. exact IH. }
  unfold sorted_set. apply set_eq. intros x. rewrite elem_of_list_to_set, py_sort_perm.
  apply elem_of_elements.
Qed.

Lemma router_back s : router_in (router_items s) = s.
Proof.
  destruct s as [cfg upd disp obs seen fams last mins novs]. unfold router_in.
  set (d := router_items _).
  change (pget "config" d) with (dict_value num_value cfg).
  change (pget "families" d) with (dict_value (λ r, PMap false (family_items r)) fams).
  change (pget "seen_observation_keys" d) with (texts (sorted_set seen)).
  change (pget "minutes_by_family" (mapping_in (pget "last_epoch" d))) with (dict_value PFloat mins).
  change (pget "novel_value_by_family" (mapping_in (pget "last_epoch" d))) with (dict_value PFloat novs).
  rewrite !entries_back, seen_back by (done || apply family_back || by intros []). reflexivity.
Qed.

Lemma Forall_Forall_swap {A B} (P : A → B → Prop) (l : list A) (k : list B) :
  Forall (λ a, Forall (P a) k) l ↔ Forall (λ b, Forall (λ a, P a b) l) k.
Proof. rewrite !Forall_forall. setoid_rewrite Forall_forall. naive_solver. Qed.

(** * The frame of an epoch's beginning *)

(** The arm without its catalog and the request file. *)
Definition core (s : arm_run) : arm_run := set_catalog None (set_requests [] s).

Lemma core_catalog c s : core (set_catalog c s) = core s.
Proof. reflexivity. Qed.

Lemma core_requests d s : core (set_requests d s) = core s.
Proof. reflexivity. Qed.

Section arm.
Context (str_of repr_of type_name : pyval → string) (retryable_infra_error : exn → bool).
Context (parse_float : string → option float) (parse_int : string → option Z).
Context (py_sum : list float → float) (iter_of : pyval → res (list pyval)) (len_of : pyval → res Z).
Context (sha1_prefix : string → Z) (catalog_file : nat → pyval).
Context (compile_variant : list compile_call → items → items → res items).
Notation frontier_work := (frontier_work str_of parse_float sha1_prefix catalog_file compile_variant).
Notation begin_epoch := (begin_epoch str_of repr_of parse_float sha1_prefix catalog_file compile_variant).
Notation build_units := (build_units str_of repr_of).
Notation guard := (guard parse_float).

Lemma wp_on_catalog {A} c (m : M catalog A) s (Q : res (A * catalog) → arm_run → Prop) :
  (∀ r c', m c = (r, c') → Q (a ← r; Ok (a, c')) (set_catalog (Some c') s)) → wp (on_catalog c m) s Q.
Proof. unfold wp, on_catalog. destruct (m c) as [r c']. simpl. auto. Qed.

(** The variants of an epoch: what [select_frontier_work] picks where the
    frontier is on, none otherwise. *)
Definition selected (c : arm_config) (epoch : Z) (seeds : list items) (s : arm_run)
    (variants : list items) (audit : option frontier_audit) : Prop :=
  let lanes := sg_frontier_max_lanes (ac_signature c) in
  match ar_catalog s, ac_use_router c && (0 <? lanes)%Z with
  | Some cat, true =>
      ∃ a, audit = Some a ∧
        (select_frontier_work str_of parse_float sha1_prefix catalog_file compile_variant
           (ar_router s) epoch lanes seeds cat).1 = Ok (variants, a)
  | _, _ => audit = None ∧ variants = []
  end.

(** The work of an epoch that begins. *)
Record begun (c : arm_config) (offset : float) (e : epoch_env) (epoch : Z) (s : arm_run)
    (p : epoch_plan) : Prop := {
  bg_guard : guard c (ar_epochs s) (fadd offset (ee_begun e)) = Ok None;
  bg_seeds : ee_seeds e = Ok (ep_seeds p);
  bg_nonempty : ep_seeds p ≠ [];
  bg_items : ∃ variants, ep_queue_items p ≡ₚ (ep_seeds p ++ variants)%list ∧
    selected c epoch (ep_seeds p) s variants (ep_frontier p);
  bg_units : match ac_episode_mode c with
             | None => ep_execution_items p = ep_queue_items p
             | Some _ => ∃ us, build_units c epoch (ep_queue_items p) = Ok us ∧
                               ep_execution_items p = unit_record <$> us
             end
}.

Definition begin_post (c : arm_config) (offset : float) (e : epoch_env) (epoch : Z) (s : arm_run)
    (r : res (string + epoch_plan)) : Prop :=
  match r with
  | Ok (inr p) => begun c offset e epoch s p
  | Ok (inl reason) =>
      guard c (ar_epochs s) (fadd offset (ee_begun e)) = Ok (Some reason) ∨
      guard c (ar_epochs s) (fadd offset (ee_begun e)) = Ok None ∧ ee_seeds e = Ok [] ∧
        reason = "seed_queue_empty"
  | Err _ => True
  end.

Lemma frontier_work_spec c epoch seeds s :
  wp (frontier_work c epoch seeds) s (λ r s', core s' = core s ∧
    match r with Ok (l, a) => selected c epoch seeds s l a | Err _ => True end).
Proof.
  unfold BudgetArm.frontier_work, selected. apply wp_bind, wp_gets.
  destruct (ar_catalog s) as [cat|]; [|by apply wp_ret].
  destruct (ac_use_router c && _); [|by apply wp_ret].
  apply wp_bind, wp_gets, wp_bind, wp_on_catalog. intros [w|e] c1 Hw; [|done].
  apply wp_bind, wp_gets, wp_bind, wp_on_catalog. intros [q|e] c2 _; [|done].
  apply wp_bind, wp_modify, wp_ret. split; [done|]. exists w.2. split; [done|]. rewrite Hw. by destruct w.
Qed.

Lemma begin_epoch_spec c offset e epoch s :
  wp (begin_epoch c offset e epoch) s (λ r s', core s' = core s ∧ begin_post c offset e epoch s r).
Proof.
  unfold BudgetArm.begin_epoch. apply wp_bind, wp_gets, wp_bind, wp_lift.
  destruct (guard c (ar_epochs s) _) as [[reason|]|x] eqn:Eg; [by apply wp_ret; split; [|left]| |done].
  apply wp_bind, wp_lift. destruct (ee_seeds e) as [seeds|x] eqn:Es; [|done].
  destruct seeds as [|seed rest]; [apply wp_ret; split; [done|by right]|].
  set (seeds := seed :: rest) in *. apply wp_bind, wp_lift.
  destruct (if is_some _ && _ then _ else _) as [[]|x]; [|done].
  apply wp_bind, wp_gets, wp_bind, wp_gets, wp_bind.
  eapply wp_mono; [apply frontier_work_spec|]. intros [[work audit]|x] s1 [Hc Hw]; [|done].
  apply wp_bind, wp_lift. cbn [fst snd].
  set (planned := if ac_use_router c then _ else _).
  assert (planned ≡ₚ seeds) as Hp.
  { unfold planned. destruct (ac_use_router c); [|done].
    apply (no_prune_spec str_of (ee_plan e (ar_router s) (ar_profile s)) seeds). }
  assert (∃ variants, (planned ++ work)%list ≡ₚ (seeds ++ variants)%list ∧
            selected c epoch seeds s variants audit) as Hv.
  { exists work. split; [by rewrite Hp|done]. }
  destruct (ac_episode_mode c) as [mode|] eqn:Em; cbn [is_some].
  - destruct (build_units c epoch (planned ++ work)) as [us|x] eqn:Eu; [|done]. cbn [mbind res_bind].
    apply wp_ret. split; [done|]. split; cbn; try done. rewrite Em. eauto.
  - apply wp_ret. split; [done|]. split; cbn; try done. by rewrite Em.
Qed.

(** * The history of an arm *)

Notation credit_lanes := (credit_lanes str_of type_name parse_float py_sum iter_of len_of).
Notation summarize := (summarize_execution_records str_of parse_float py_sum).
Notation combine := (combine_execution_metrics parse_float parse_int py_sum).
Notation route := (route str_of parse_float py_sum iter_of).
Notation finish_epoch := (finish_epoch str_of type_name parse_float parse_int py_sum iter_of len_of).
Notation historical_metrics := (historical_metrics str_of type_name parse_float py_sum iter_of).
Notation numbered := (numbered parse_int).
Notation load := (load_arm_checkpoint str_of repr_of parse_float parse_int).
Notation restore := (restore_arm str_of parse_float parse_int).

(** The metrics that can be combined. *)
Definition combinable (m : items) : Prop :=
  Forall (λ f, is_ok (float_or_zero parse_float (pget f m)) = true) minute_fields ∧
  Forall (λ f, is_ok (int_or_zero parse_int (pget f m)) = true) count_fields.

Lemma rmap_is_ok {A B} (f : A → res B) l : (∃ bs, rmap f l = Ok bs) ↔ Forall (λ a, is_ok (f a) = true) l.
Proof.
  induction l as [|a l IH]; simpl; [split; [constructor|eauto]|]. rewrite Forall_cons, <- IH.
  destruct (f a) as [b|e]; simpl; [|split; [by intros [? ?]|by intros [? _]]].
  destruct (rmap f l) as [bs|e]; simpl; split; try (by intros [? ?]); eauto.
Qed.

Lemma combine_ok ms : (∃ m, combine ms = Ok m) ↔ Forall combinable ms.
Proof.
  unfold combine_execution_metrics.
  assert ((∃ x, rmap (combine_minutes parse_float py_sum ms) minute_fields = Ok x) ↔
    Forall (λ f, Forall (λ m, is_ok (float_or_zero parse_float (pget f m)) = true) ms) minute_fields) as H1.
  { rewrite rmap_is_ok. apply Forall_iff. intros f. rewrite <- rmap_is_ok. unfold combine_minutes.
    destruct (rmap _ ms); simpl; split; eauto; try done; by intros [? ?]. }
  assert ((∃ x, rmap (combine_counts parse_int ms) count_fields = Ok x) ↔
    Forall (λ f, Forall (λ m, is_ok (int_or_zero parse_int (pget f m)) = true) ms) count_fields) as H2.
  { rewrite rmap_is_ok. apply Forall_iff. intros f. rewrite <- rmap_is_ok. unfold combine_counts.
    destruct (rmap _ ms); simpl; split; eauto; try done; by intros [? ?]. }
  unfold combinable. rewrite Forall_and.
  rewrite (Forall_Forall_swap (λ m f, is_ok (float_or_zero parse_float (pget f m)) = true) ms).
  rewrite (Forall_Forall_swap (λ m f, is_ok (int_or_zero parse_int (pget f m)) = true) ms), <- H1, <- H2.
  clear H1 H2 retryable_infra_error len_of.
  destruct (rmap _ minute_fields), (rmap _ count_fields); simpl; naive_solver.
Qed.

Lemma summary_shape records m :
  summarize records = Ok m → combinable m ∧ m.*1 = Some <$> execution_metric_fields.
Proof.
  unfold summarize_execution_records. intros H. inv_res. split; [|done].
  assert (∀ l, is_ok (float_or_zero parse_float (round_value 6 (sum_value py_sum l))) = true) as Hs.
  { intros [|y l]; [done|]. cbn [sum_value round_value]. by rewrite float_or_zero_float. }
  assert (∀ y, is_ok (float_or_zero parse_float (PFloat y)) = true) as Hf.
  { intros y. by rewrite float_or_zero_float. }
  assert (∀ n, is_ok (int_or_zero parse_int (PInt n)) = true) as Hi.
  { intros n. by rewrite int_or_zero_int. }
  split; repeat (apply Forall_cons; split); try apply Forall_nil_2; first [apply Hf | apply Hs | apply Hi].
Qed.

Lemma stored_metrics c epoch wall p m lanes :
  m.*1 = Some <$> execution_metric_fields → historical_metrics c (epoch_entry epoch wall p m lanes) = Ok m.
Proof.
  intros Hm. unfold BudgetArm.historical_metrics.
  change (pget "execution_metrics" (epoch_entry epoch wall p m lanes)) with (PMap false m).
  cbv beta iota zeta. assert (forallb (λ f, bool_decide (Some f ∈ m.*1)) execution_metric_fields = true) as ->; [|done].
  apply forallb_forall. intros f Hf. apply bool_decide_eq_true. rewrite Hm.
  apply list_elem_of_fmap_2. by apply list_elem_of_In.
Qed.

(** What holds of an arm between epochs. *)
Record arm_inv (c : arm_config) (s : arm_run) : Prop := {
  ai_epochs : numbered (ar_epochs s);
  ai_checkpoints : numbered (ar_checkpoints s);
  ai_length : length (ar_checkpoints s) = length (ar_epochs s);
  ai_router : ac_use_router c = true → is_Some (ar_router s);
  ai_history : Forall (λ d, ∃ m, historical_metrics c d = Ok m ∧ combinable m) (ar_epochs s)
}.

Lemma numbered_snoc l d :
  numbered l → epoch_number parse_int d = Ok (Z.of_nat (S (length l))) → numbered (l ++ [d]).
Proof.
  unfold CheckpointTheorems.numbered. intros Hl Hd. rewrite length_app, seq_app, fmap_app.
  apply rmap_snoc; [done|]. by rewrite Hd.
Qed.

Lemma arm_inv_core c s s' : core s' = core s → arm_inv c s → arm_inv c s'.
Proof.
  intros Hc [H1 H2 H3 H4 H5].
  assert (ar_epochs s' = ar_epochs s) as E1 by apply (f_equal ar_epochs Hc).
  assert (ar_checkpoints s' = ar_checkpoints s) as E2 by apply (f_equal ar_checkpoints Hc).
  assert (ar_router s' = ar_router s) as E3 by apply (f_equal ar_router Hc).
  split; rewrite ?E1, ?E2, ?E3; done.
Qed.

(** The arm after an epoch, before the files are written. *)
Definition advanced (c : arm_config) (e : epoch_env) (epoch : Z) (p : epoch_plan) (a : credit_scan)
    (lanes : list lane) (em m : items) (router : option router_state) (elapsed : float) (s : arm_run)
  : arm_run :=
  let records := lanes ≫= lane_results in
  let coverage := fold_left (cover str_of (py_round 3 elapsed)) records (ar_coverage s) in
  {| ar_catalog := ar_catalog s; ar_ledger := cr_seen a; ar_router := router;
     ar_profile := if ac_use_router c then Some (load_profile_of c epoch (ee_epoch_wall e) lanes)
                   else ar_profile s;
     ar_epochs := (ar_epochs s ++ [epoch_entry epoch (ee_epoch_wall e) p em lanes])%list;
     ar_checkpoints := (ar_checkpoints s ++
       [anytime_entry c epoch elapsed (fadd (ar_raw s) (cr_raw a)) (fadd (ar_novel s) (cr_novel a))
          (Z.of_nat (length coverage)) (cr_variants a) m])%list;
     ar_coverage := coverage; ar_raw := fadd (ar_raw s) (cr_raw a);
     ar_novel := fadd (ar_novel s) (cr_novel a); ar_variants := cr_variants a; ar_metrics := m;
     ar_checkpoint_file := ar_checkpoint_file s; ar_requests_file := ar_requests_file s;
     ar_router_file := if ac_use_router c then router_items <$> router else ar_router_file s;
     ar_progress_file := ar_progress_file s |}.

Lemma finish_epoch_inv c offset e epoch p lanes s s' :
  finish_epoch c offset e epoch p lanes s = Ok s' →
  ∃ a lanes' em m router,
    credit_lanes {| cr_seen := ar_ledger s; cr_raw := f0; cr_novel := f0; cr_variants := ar_variants s |}
      lanes = Ok (a, lanes') ∧
    summarize (metric_records c (lanes' ≫= lane_results)) = Ok em ∧
    route c epoch (ep_seeds p) (lanes' ≫= lane_results) (ar_router s) = Ok router ∧
    let elapsed := fadd offset (ee_ended e) in
    s' = write_checkpoint c (epoch + 1) elapsed (advanced c e epoch p a lanes' em m router elapsed s).
Proof.
  unfold BudgetArm.finish_epoch. intros H. apply res_bind_Ok in H as ([a lanes'] & Hc & H). inv_res.
  by exists a, lanes', x, x0, x1.
Qed.

Lemma route_router c epoch seeds records router router' :
  route c epoch seeds records router = Ok router' → ac_use_router c = true → is_Some router'.
Proof. unfold BudgetArm.route. intros H Hr. rewrite Hr in H. inv_res. eauto. Qed.

Lemma finish_arm_inv c offset e epoch p lanes s s' :
  finish_epoch c offset e epoch p lanes s = Ok s' → arm_inv c s →
  epoch = Z.of_nat (S (length (ar_epochs s))) →
  arm_inv c s' ∧ length (ar_epochs s') = S (length (ar_epochs s)).
Proof.
  intros (a & lanes' & em & m & router & _ & Hs & Hr & ->)%finish_epoch_inv [H1 H2 H3 H4 H5] ->.
  cbn [write_checkpoint advanced ar_epochs]. split; [|rewrite length_app; cbn; lia].
  apply summary_shape in Hs as [Hcomb Hkeys]. split;
    cbn [write_checkpoint advanced ar_epochs ar_checkpoints ar_router].
  - by apply numbered_snoc.
  - apply numbered_snoc; [done|]. by rewrite H3.
  - rewrite !length_app, H3. done.
  - intros Hu. by eapply route_router.
  - apply Forall_app. split; [done|]. apply Forall_singleton. exists em. split; [|done].
    by apply stored_metrics.
Qed.

(** * Restarting *)

(** A total as it was, or as a checkpoint keeps it. *)
Definition kept (x y : float) : Prop := y = x ∨ y = or_zero (round6 x).

(** The restored state is the arm's. *)
Record carries (a : arm_state) (s : arm_run) : Prop := {
  ca_next : arm_next_epoch a = Z.of_nat (S (length (ar_epochs s)));
  ca_epochs : arm_epochs a = ar_epochs s;
  ca_checkpoints : arm_checkpoints a = ar_checkpoints s;
  ca_ledger : arm_novelty_seen a = ar_ledger s;
  ca_router : router_in <$> arm_router_state a = ar_router s;
  ca_profile : arm_load_profile a = ar_profile s;
  ca_coverage : arm_coverage_first_seen a = ar_coverage s;
  ca_variants : arm_variant_records_total a = ar_variants s;
  ca_raw : kept (ar_raw s) (arm_raw_value_total a);
  ca_novel : kept (ar_novel s) (arm_novel_value_total a)
}.

Definition resumable (c : arm_config) (s : arm_run) : Prop :=
  ∃ v st a, ar_checkpoint_file s = Some v ∧
    load (ac_checkpoint_path c) (Parsed v) (arm_runtime_signature (ac_signature c)) = Ok st ∧
    restore st = Ok a ∧ carries a s.

Lemma resumable_core c s s' : core s' = core s → resumable c s → resumable c s'.
Proof.
  intros Hc (v & st & a & Hf & Hl & Hr & [H1 H2 H3 H4 H5 H6 H7 H8 H9 H10]).
  exists v, st, a. pose proof (f_equal ar_checkpoint_file Hc : ar_checkpoint_file s' = _) as Ef.
  rewrite Ef. split_and!; try done. split.
  - rewrite H1. by rewrite (f_equal ar_epochs Hc : ar_epochs s' = ar_epochs s).
  - by rewrite (f_equal ar_epochs Hc : ar_epochs s' = ar_epochs s).
  - by rewrite (f_equal ar_checkpoints Hc : ar_checkpoints s' = ar_checkpoints s).
  - by rewrite (f_equal ar_ledger Hc : ar_ledger s' = ar_ledger s).
  - by rewrite (f_equal ar_router Hc : ar_router s' = ar_router s).
  - by rewrite (f_equal ar_profile Hc : ar_profile s' = ar_profile s).
  - by rewrite (f_equal ar_coverage Hc : ar_coverage s' = ar_coverage s).
  - by rewrite (f_equal ar_variants Hc : ar_variants s' = ar_variants s).
  - by rewrite (f_equal ar_raw Hc : ar_raw s' = ar_raw s).
  - by rewrite (f_equal ar_novel Hc : ar_novel s' = ar_novel s).
Qed.

Lemma router_valid r : is_router_state str_of (PMap false (router_items r)) = true.
Proof. reflexivity. Qed.

(** The checkpoint that an epoch writes restores the arm. *)
Lemma written_resumable c epoch elapsed s :
  ac_checkpoint_enabled c = true → arm_inv c s → epoch = Z.of_nat (S (length (ar_epochs s))) →
  isfinite (float_of_Z (ar_variants s)) = true → resumable c (write_checkpoint c epoch elapsed s).
Proof.
  intros He [H1 H2 H3 H4 H5] -> Hv. set (g := ac_signature c).
  set (a := state_to_write s (Z.of_nat (S (length (ar_epochs s)))) elapsed).
  assert (writable str_of parse_int g a) as Hw.
  { split; try done. intros Hu. destruct (H4 Hu) as [r Hr]. exists (router_items r).
    split; [cbn; by rewrite Hr|exact (router_valid r)]. }
  destruct (roundtrip_spec str_of repr_of parse_float parse_int (ac_checkpoint_path c) g a Hw)
    as (st & Hl & Hr).
  exists (build_arm_checkpoint (ac_arm_key c) g a), st, (rounded a). split_and!; [|done|done|].
  - cbn [write_checkpoint ar_checkpoint_file]. by rewrite He.
  - split; try done; [|by right|by right].
    change (router_in <$> (router_items <$> ar_router s) = ar_router s).
    destruct (ar_router s) as [r|]; [|done]. cbn [fmap option_fmap option_map]. by rewrite router_back.
Qed.

(** An arm between epochs, with its checkpoint. *)
Definition arm_good (c : arm_config) (s : arm_run) : Prop :=
  arm_inv c s ∧ (isfinite (float_of_Z (ar_variants s)) = true → ar_epochs s ≠ [] → resumable c s).

Lemma arm_good_core c s s' : core s' = core s → arm_good c s → arm_good c s'.
Proof.
  intros Hc [H1 H2]. split; [by eapply arm_inv_core|].
  rewrite (f_equal ar_variants Hc : ar_variants s' = ar_variants s).
  rewrite (f_equal ar_epochs Hc : ar_epochs s' = ar_epochs s).
  intros Hv Hn. by eapply resumable_core, H2.
Qed.

Lemma finish_good c offset e epoch p lanes s s' :
  ac_checkpoint_enabled c = true → finish_epoch c offset e epoch p lanes s = Ok s' →
  arm_good c s → epoch = Z.of_nat (S (length (ar_epochs s))) →
  arm_good c s' ∧ length (ar_epochs s') = S (length (ar_epochs s)).
Proof.
  intros He Hf [Hi _] ->. destruct (finish_arm_inv _ _ _ _ _ _ _ _ Hf Hi eq_refl) as [Hi' Hlen].
  split; [|done]. split; [done|]. intros Hv _.
  apply finish_epoch_inv in Hf as (a & lanes' & em & m & router & _ & _ & _ & ->).
  cbn [write_checkpoint ar_variants] in Hv. cbn [write_checkpoint ar_epochs] in Hlen.
  apply written_resumable; [done| |rewrite Hlen; lia|done].
  destruct Hi' as [? ? ? ? ?]. by split.
Qed.

Notation arm_loop := (arm_loop str_of repr_of type_name retryable_infra_error parse_float parse_int
  py_sum iter_of len_of sha1_prefix catalog_file compile_variant).

(** Where a loop of at most [n] epochs from [s] stopped, and why. *)
Definition stopped (c : arm_config) (offset : float) (env : Z → epoch_env) (n : nat) (s : arm_run)
    (r : res string) (s' : arm_run) : Prop :=
  let k := length (ar_epochs s') in
  let e := env (Z.of_nat (S k)) in
  let g := guard c (ar_epochs s') (fadd offset (ee_begun e)) in
  (length (ar_epochs s) ≤ k ≤ length (ar_epochs s) + n)%nat ∧
  match r with
  | Ok reason =>
      reason = "max_epochs" ∧ k = (length (ar_epochs s) + n)%nat ∨
      g = Ok (Some reason) ∨
      g = Ok None ∧ ee_seeds e = Ok [] ∧ reason = "seed_queue_empty"
  | Err _ => True
  end.

(** Rule induction over the epochs of a run. *)
Lemma arm_loop_ind c offset env (Φ : arm_run → Prop) n epoch s r s' :
  (∀ s1 s2, core s2 = core s1 → Φ s1 → Φ s2) →
  (∀ k p lanes s1 s2, (epoch ≤ k)%Z → k = Z.of_nat (S (length (ar_epochs s1))) → Φ s1 →
     guard c (ar_epochs s1) (fadd offset (ee_begun (env k))) = Ok None → finish_epoch c offset (env k) k p lanes s1 = Ok s2 →
     Φ s2 ∧ length (ar_epochs s2) = S (length (ar_epochs s1))) →
  epoch = Z.of_nat (S (length (ar_epochs s))) → Φ s →
  arm_loop c offset env n epoch s = Some (r, s') → Φ s' ∧ stopped c offset env n s r s'.
Proof.
  intros Hcore Hstep. revert epoch s Hstep.
  induction n as [|n IH]; intros epoch s Hstep Hep Hs; cbn [BudgetArm.arm_loop].
  { intros [= <- <-]. split; [done|]. split; [lia|]. left. split; [done|lia]. }
  destruct (begin_epoch c offset (env epoch) epoch s) as [x s1] eqn:Eb.
  pose proof (wp_elim _ _ _ _ _ (begin_epoch_spec c offset (env epoch) epoch s) Eb) as [Hc Hp].
  assert (Φ s1) as Hs1 by (by eapply Hcore).
  assert (ar_epochs s1 = ar_epochs s) as Ee by apply (f_equal ar_epochs Hc).
  assert (∀ e, Φ s1 ∧ stopped c offset env (S n) s (Err e) s1) as Herr.
  { intros e. split; [done|]. split; [rewrite Ee; lia|done]. }
  destruct x as [[reason|p]|e]; [| |by intros [= <- <-]].
  { intros [= <- <-]. split; [done|]. split; [rewrite Ee; lia|]. right. rewrite Ee, <- Hep. exact Hp. }
  destruct (run_queue _ _ _ _ _ _) as [q|]; [|done]. cbn [mbind option_bind].
  destruct q as [lanes|e]; cbn [mbind res_bind]; [|by intros [= <- <-]].
  destruct (finish_epoch c offset (env epoch) epoch p lanes s1) as [s2|e] eqn:Ef; [|by intros [= <- <-]].
  assert (guard c (ar_epochs s1) (fadd offset (ee_begun (env epoch))) = Ok None) as Hb.
  { rewrite Ee. apply (bg_guard _ _ _ _ _ _ Hp). }
  destruct (Hstep epoch p lanes s1 s2) as [Hs2 Hl]; [lia|by rewrite Ee|done..|]. intros Hloop.
  destruct (IH (epoch + 1)%Z s2) as [Hs' [Hk Hr]]; [|rewrite Hl, Ee; lia|done|done|].
  { intros k p' lanes' s3 s4 Hk. apply Hstep. lia. }
  rewrite Hl, Ee in Hk, Hr. split; [done|]. split; [lia|]. destruct r as [reason|]; [|done].
  destruct Hr as [[? ?]|Hr]; [left; split; [done|lia]|by right].
Qed.

Notation start_arm := (start_arm str_of repr_of type_name parse_float parse_int py_sum iter_of).
Notation resume_arm := (resume_arm str_of repr_of type_name parse_float parse_int py_sum iter_of).

Lemma restore_inv st a :
  restore st = Ok a →
  arm_epochs a = mappings_of (pget "epochs" st) ∧ arm_checkpoints a = mappings_of (pget "checkpoints" st) ∧
  arm_router_state a = mapping_or_none (pget "router_state" st) ∧
  to_int parse_int (pget "next_epoch" st) = Ok (arm_next_epoch a).
Proof. unfold restore_arm. intros H. inv_res. by split_and!. Qed.

Lemma rmap_combinable {A} (f : A → res items) l ms :
  rmap f l = Ok ms → Forall combinable ms → Forall (λ a, ∃ m, f a = Ok m ∧ combinable m) l.
Proof.
  revert ms. induction l as [|a l IH]; intros ms; simpl; [constructor|].
  destruct (f a) as [m|e] eqn:E; simpl; [|done]. destruct (rmap f l) as [ms'|e]; simpl; [|done].
  intros [= <-] [Hm Hms]%Forall_cons. constructor; [eauto|by eapply IH].
Qed.

Lemma combinable_history c l :
  Forall (λ d, ∃ m, historical_metrics c d = Ok m ∧ combinable m) l →
  ∃ ms m, rmap (historical_metrics c) l = Ok ms ∧ combine ms = Ok m.
Proof.
  intros H. assert (∃ ms, rmap (historical_metrics c) l = Ok ms ∧ Forall combinable ms) as (ms & Hm & Hc).
  { induction H as [|d l (m & Hd & Hm) _ (ms & IH & Hms)]; simpl; [by exists []|].
    rewrite Hd, IH. exists (m :: ms). split; [done|by constructor]. }
  apply combine_ok in Hc as [m Hm']. by exists ms, m.
Qed.

Lemma resume_good c cat v s next offset :
  resume_arm c cat (Parsed v) = Ok (s, next, offset) →
  arm_good c s ∧ next = Z.of_nat (S (length (ar_epochs s))).
Proof.
  unfold BudgetArm.resume_arm. intros H. apply res_bind_Ok in H as (st & Hl & H).
  apply res_bind_Ok in H as (a & Hr & H). apply res_bind_Ok in H as (ms & Hh & H).
  apply res_bind_Ok in H as (m & Hm & H). injection H as <- <- <-.
  destruct (restore_inv _ _ Hr) as (He & Hc & Hro & Hn).
  destruct (load_spec _ _ _ _ _ _ _ _ Hl) as (_ & N1 & N2 & Hlen & Hnext & Huse & _).
  assert (arm_next_epoch a = Z.of_nat (S (length (arm_epochs a)))) as Ha.
  { rewrite Hnext in Hn. injection Hn as Hn. by rewrite He, <- Hn. }
  split; [|done]. split.
  - split; cbn [ar_epochs ar_checkpoints ar_router].
    + by rewrite He.
    + by rewrite Hc.
    + by rewrite He, Hc.
    + intros Hu. rewrite Hro.
      assert (is_router_state str_of (pget "router_state" st) = true) as Hi by (apply Huse; cbn; exact Hu).
      by destruct (pget "router_state" st).
    + eapply rmap_combinable; [done|]. apply combine_ok. eauto.
  - intros _ _. exists v, st, a. split_and!; [done|done|done|]. split; try done; by left.
Qed.

Lemma start_good c cat resume s next offset :
  start_arm c cat resume = Ok (s, next, offset) →
  arm_good c s ∧ next = Z.of_nat (S (length (ar_epochs s))).
Proof.
  unfold BudgetArm.start_arm. destruct resume as [file|].
  - intros H. destruct file as [|e|v]; [done|done|]. by eapply resume_good.
  - intros H. apply res_bind_Ok in H as (m & _ & H). injection H as <- <- <-. split; [|done].
    split; [|done]. split; try done. cbn. intros ->. by eexists.
Qed.

Lemma run_good c cat resume env n s0 next offset r s :
  ac_checkpoint_enabled c = true → start_arm c cat resume = Ok (s0, next, offset) →
  arm_loop c offset env n next s0 = Some (r, s) → arm_good c s.
Proof.
  intros He Hst Hl. apply start_good in Hst as [Hg Hn].
  eapply (arm_loop_ind c offset env (arm_good c)) in Hl as [? _]; [done|by apply arm_good_core| |done..].
  intros k p lanes s1 s2 _ Hk H1 _ Hf. by eapply finish_good.
Qed.


(** * The budget *)

(** An epoch may begin: the first one always; a later one only while budget is
    left, and, where the duration guard is on, as much of it as the slowest of
    the recent epochs took, times the guard's factor. *)
Definition may_begin (c : arm_config) (epochs : list items) (elapsed : float) : Prop :=
  epochs = [] ∨
  let remaining := fsub (ac_budget_minutes c) elapsed in
  fleb remaining f0 = false ∧
  (fltb f0 (ac_guard_factor c) = true →
   ∃ walls, rmap (λ d, float_or_zero parse_float (pget "epoch_wall_minutes" d))
              (recent_epochs (ac_guard_recent c) epochs) = Ok walls ∧
     fltb remaining (fmul (max_of walls) (ac_guard_factor c)) = false).

Lemma guard_None c epochs elapsed : guard c epochs elapsed = Ok None → may_begin c epochs elapsed.
Proof.
  unfold BudgetArm.guard, may_begin. destruct epochs as [|d l] eqn:E; [by left|]. rewrite <- E. intros H. right.
  destruct (fleb _ f0) eqn:El; [done|]. split; [done|]. intros Hf. rewrite Hf in H. inv_res.
  eexists. split; [done|]. by destruct (fltb _ _).
Qed.

Lemma guard_Some c epochs elapsed reason :
  guard c epochs elapsed = Ok (Some reason) →
  epochs ≠ [] ∧ ¬ may_begin c epochs elapsed ∧ reason ∈ ["budget_exhausted"; "duration_guard"].
Proof.
  unfold BudgetArm.guard, may_begin. destruct epochs as [|d l] eqn:E; [done|]. rewrite <- E. intros H.
  assert (epochs ≠ []) as Hne by (rewrite E; done). split; [done|].
  destruct (fleb _ f0) eqn:El.
  { injection H as [= <-]. split; [|by left]. intros [?|[? _]]; done. }
  destruct (fltb f0 _) eqn:Ef; [|done]. apply res_bind_Ok in H as (walls & Hw & H).
  injection H as H. destruct (fltb _ (fmul (max_of walls) _)) eqn:Eg in H; [|done].
  injection H as <-. split; [|right; left].
  intros [?|[_ Hg]]; [done|]. destruct (Hg eq_refl) as (walls' & Hw' & Hg'). congruence.
Qed.

(** C17: the wall-clock budget of an arm.  The run only appends to the history,
    at most the allowed number of epochs, numbered on from the last one; every
    epoch of the run after the first of the arm began while budget was left
    and the duration guard allowed it; and the reason reported is the one that
    holds: the epochs are used up, the next epoch may not begin, or the adapter
    lists no seeds. *)
Theorem arm_budget c cat resume env n s0 next offset r s :
  start_arm c cat resume = Ok (s0, next, offset) → arm_loop c offset env n next s0 = Some (r, s) →
  let k0 := length (ar_epochs s0) in
  let k := length (ar_epochs s) in
  ar_epochs s0 `prefix_of` ar_epochs s ∧ numbered (ar_epochs s) ∧ (k ≤ k0 + n)%nat ∧
  (∀ i, (k0 ≤ i < k)%nat →
     may_begin c (take i (ar_epochs s)) (fadd offset (ee_begun (env (Z.of_nat (S i)))))) ∧
  let e := env (Z.of_nat (S k)) in
  let elapsed := fadd offset (ee_begun e) in
  match r with
  | Ok reason =>
      reason = "max_epochs" ∧ k = (k0 + n)%nat ∨
      reason ∈ ["budget_exhausted"; "duration_guard"] ∧ k ≠ 0%nat ∧ ¬ may_begin c (ar_epochs s) elapsed ∨
      reason = "seed_queue_empty" ∧ may_begin c (ar_epochs s) elapsed ∧ ee_seeds e = Ok []
  | Err _ => True
  end.
Proof.
  intros Hst Hl k0 k. destruct (start_good _ _ _ _ _ _ Hst) as [[Hi _] Hn].
  set (Φ s1 := arm_inv c s1 ∧ ar_epochs s0 `prefix_of` ar_epochs s1 ∧
    ∀ i, (k0 ≤ i < length (ar_epochs s1))%nat →
      may_begin c (take i (ar_epochs s1)) (fadd offset (ee_begun (env (Z.of_nat (S i)))))).
  eapply (arm_loop_ind c offset env Φ) in Hl as [(Hi' & Hpre & Hb) [Hk Hr]].
  - split_and!; [done|apply (ai_epochs _ _ Hi')|unfold k, k0; lia|done|]. destruct r as [reason|]; [|done].
    destruct Hr as [?|[Hg|(Hg & ? & ?)]]; [by left|right; left|right; right].
    + apply guard_Some in Hg as (? & ? & ?). split_and!; [done| |done]. unfold k. by destruct (ar_epochs s).
    + apply guard_None in Hg. done.
  - intros s1 s2 Hc (A & B & C). unfold Φ.
    rewrite (f_equal ar_epochs Hc : ar_epochs s2 = ar_epochs s1). split; [by eapply arm_inv_core|done].
  - intros j p lanes s1 s2 _ Hj (A & B & C) Hbeg Hf.
    destruct (finish_arm_inv _ _ _ _ _ _ _ _ Hf A Hj) as [A2 Hlen]. split; [|done]. unfold Φ.
    apply finish_epoch_inv in Hf as (a & lanes' & em & m & router & _ & _ & _ & ->).
    split; [done|]. clear A2. cbn [write_checkpoint advanced ar_epochs] in *.
    split; [by apply prefix_app_r|]. intros i Hi2. destruct (decide (i = length (ar_epochs s1))) as [->|Hne].
    + rewrite take_app_length. apply guard_None. by rewrite <- Hj.
    + rewrite take_app_le by lia. apply C. lia.
  - done.
  - split; [done|]. split; [done|]. intros i Hi2. unfold k0 in Hi2. lia.
Qed.
End arm.
