(* ===== verification/ArmAccounts.v ===== *)
(** What an arm books from the records of its epochs. *)

From stdpp Require Import base strings list sets gmap.
From Stdlib Require Import ZArith Lia SpecFloat.
From S2P Require Import Prelude PyFloat ListLib PyValue PyConv PySort TraceRuntime EpisodeRuntime.
From S2P Require Import EpisodeUnits HarnessQueue QueueTheorems RouterState RouterTheorems.
From S2P Require Import HarnessFrontier FrontierTheorems HarnessCheckpoint CheckpointTheorems.
From S2P Require Import EpisodeProbes ProbeTheorems MetricTheorems BudgetArm ArmTheorems.

Section accounts.
Context (str_of repr_of type_name : pyval → string) (retryable_infra_error : exn → bool).
Context (parse_float : string → option float) (parse_int : string → option Z).
Context (py_sum : list float → float) (iter_of : pyval → res (list pyval)) (len_of : pyval → res Z).
Context (sha1_prefix : string → Z) (catalog_file : nat → pyval).
Context (compile_variant : list compile_call → items → items → res items).
Notation credit := (credit str_of type_name parse_float iter_of).
Notation credit_record := (credit_record str_of type_name parse_float py_sum iter_of len_of).
Notation credit_records := (credit_records str_of type_name parse_float py_sum iter_of len_of).
Notation credit_lanes := (credit_lanes str_of type_name parse_float py_sum iter_of len_of).
Notation start_arm := (start_arm str_of repr_of type_name parse_float parse_int py_sum iter_of).
Notation arm_loop := (arm_loop str_of repr_of type_name retryable_infra_error parse_float parse_int
  py_sum iter_of len_of sha1_prefix catalog_file compile_variant).
Notation family_of := (family_of str_of).

Definition ok_or {A} (d : A) (r : res A) : A := match r with Ok a => a | Err _ => d end.

(** The names a record leaves in the ledger: its keys, and its flags within its
    family. *)
Definition marks (record : items) : gset string :=
  list_to_set (ok_or [] (key_list str_of iter_of (pget "observation_keys" record))) ∪
  list_to_set ((λ kv : option string * pyval,
                  flag_pseudo_key (family_or_general str_of record) (flag_name str_of kv.1))
               <$> ok_or [] (flag_items type_name "items" (pget "weighted_flags" record))).

Lemma marks_pset k v r :
  k ∉ ["observation_keys"; "weighted_flags"; "family"] → marks (pset k v r) = marks r.
Proof.
  intros Hk. rewrite !not_elem_of_cons in Hk. destruct Hk as (H1 & H2 & H3 & _).
  unfold marks, family_or_general. by rewrite !pget_pset_ne by done.
Qed.

Lemma first_seen_all seen w keys :
  (first_seen seen (weigh_keys w keys)).1 = seen ∪ list_to_set keys.
Proof.
  unfold weigh_keys. revert seen. induction keys as [|k keys IH]; intros seen; [cbn; set_solver|].
  rewrite fmap_cons. cbn [first_seen]. case_bool_decide as Hk; [rewrite IH; cbn; set_solver|].
  specialize (IH ({[ k ]} ∪ seen)). destruct (first_seen _ _) as [seen' l]. cbn [fst] in *. rewrite IH.
  cbn. set_solver.
Qed.

Lemma credit_flags_seen family a d a' :
  rfold (credit_flag str_of parse_float family) a d = Ok a' →
  a'.1 = a.1 ∪ list_to_set ((λ kv, flag_pseudo_key family (flag_name str_of kv.1)) <$> d).
Proof.
  revert a. induction d as [|kv d IH]; intros a; cbn [rfold].
  { intros [= <-]. cbn. set_solver. }
  destruct (credit_flag str_of parse_float family a kv) as [a1|e] eqn:E; cbn [mbind res_bind]; [|done].
  intros ->%IH. rewrite fmap_cons. cbn [list_to_set]. unfold credit_flag in E.
  case_bool_decide as Hk; [injection E as <-; set_solver|].
  destruct (to_float parse_float kv.2); cbn in E; [|done]. injection E as <-. cbn [fst]. set_solver.
Qed.

Lemma credit_seen seen r x : credit seen r = Ok x → x.1 = seen ∪ marks r.
Proof.
  unfold BudgetArm.credit, marks. intros H. apply res_bind_Ok in H as (keys & Hk & H).
  pose proof (first_seen_all seen DEFAULT_OBSERVATION_WEIGHT keys) as Hs.
  destruct (first_seen seen _) as [seen1 novel]. cbn [fst] in Hs.
  apply res_bind_Ok in H as (flags & Hf & H). apply credit_flags_seen in H. rewrite H, Hk, Hf. cbn [ok_or fst].
  rewrite Hs. set_solver.
Qed.

(** The ledger and the variant count after some records. *)
Definition booked_by (a : credit_scan) (records : list items) (a' : credit_scan) : Prop :=
  cr_seen a' = cr_seen a ∪ ⋃ (marks <$> records) ∧
  cr_variants a' = (cr_variants a + Z.of_nat (length (filter (λ r, is_variant r = true) records)))%Z.

Lemma booked_app a l1 a1 l2 a2 :
  booked_by a l1 a1 → booked_by a1 l2 a2 → booked_by a (l1 ++ l2) a2.
Proof.
  intros [H1 H2] [H3 H4]. split.
  - rewrite H3, H1, fmap_app, union_list_app_L. set_solver.
  - rewrite H4, H2, filter_app, length_app. lia.
Qed.

Lemma credit_record_booked a r a' r' : credit_record a r = Ok (a', r') → booked_by a [r'] a'.
Proof.
  unfold BudgetArm.credit_record. intros H. apply res_bind_Ok in H as (got & Hc & H).
  apply res_bind_Ok in H as (raw & _ & H). injection H as <- <-. apply credit_seen in Hc. split; cbn [cr_seen cr_variants].
  - cbn [fmap list_fmap union_list foldr]. rewrite !marks_pset by set_solver. rewrite Hc. set_solver.
  - rewrite filter_cons, filter_nil. case_decide as Hd; [rewrite Hd; done|].
    destruct (is_variant _); [done|cbn; lia].
Qed.

Lemma credit_records_booked a l a' l' : credit_records a l = Ok (a', l') → booked_by a l' a'.
Proof.
  revert a a' l'. induction l as [|r l IH]; intros a a' l'; cbn [BudgetArm.credit_records].
  { intros [= <- <-]. split; [cbn; set_solver|cbn; lia]. }
  intros H. apply res_bind_Ok in H as ([a1 r1] & H1 & H). apply res_bind_Ok in H as ([a2 l2] & H2 & H).
  injection H as <- <-. cbn [fst snd] in *.
  eapply (booked_app a [r1]); [by eapply credit_record_booked|by eapply IH].
Qed.

Lemma credit_lanes_booked a lanes a' lanes' :
  credit_lanes a lanes = Ok (a', lanes') → booked_by a (lanes' ≫= lane_results) a'.
Proof.
  revert a a' lanes'. induction lanes as [|l lanes IH]; intros a a' lanes'; cbn [BudgetArm.credit_lanes].
  { intros [= <- <-]. split; [cbn; set_solver|cbn; lia]. }
  intros H. apply res_bind_Ok in H as ([a1 l1] & H1 & H). apply res_bind_Ok in H as ([a2 l2] & H2 & H).
  injection H as <- <-. cbn [fst snd] in *. rewrite bind_cons. cbn [set_results lane_results].
  eapply booked_app; [by eapply credit_records_booked|by eapply IH].
Qed.

(** * The history holds the records *)

Definition epoch_records (epoch : items) : list items :=
  mappings_of (pget "lanes" epoch) ≫= λ lane, mappings_of (pget "results" lane).

Definition all_records (s : arm_run) : list items := ar_epochs s ≫= epoch_records.

Lemma epoch_entry_records epoch wall p m lanes :
  epoch_records (epoch_entry epoch wall p m lanes) = lanes ≫= lane_results.
Proof.
  unfold epoch_records.
  change (pget "lanes" (epoch_entry epoch wall p m lanes))
    with (PSeq false ((λ l, PMap false (lane_items l)) <$> lanes)).
  assert (((λ l, PMap false (lane_items l)) <$> lanes) = PMap false <$> (lane_items <$> lanes)) as ->
    by (by rewrite <- list_fmap_compose).
  rewrite mappings_back, bind_fmap_list. apply bind_ext_in. intros l _.
  change (pget "results" (lane_items l)) with (PSeq false (PMap false <$> lane_results l)).
  apply mappings_back.
Qed.

Definition covered_families (records : list items) : list string :=
  uniq (filter (λ f, f ≠ "") (family_of <$> records)).

Lemma cover_keys minutes l d records :
  dict_keys d = uniq l →
  dict_keys (fold_left (cover str_of minutes) records d)
  = uniq (l ++ filter (λ f, f ≠ "") (family_of <$> records)).
Proof.
  revert l d. induction records as [|r records IH]; intros l d Hd; cbn [fold_left].
  { by rewrite app_nil_r. }
  rewrite fmap_cons, filter_cons. unfold cover at 2. destruct (is_empty (family_of r)) eqn:He; cbn [orb].
  { apply is_empty_spec in He. rewrite decide_False by (by intros []). by apply IH. }
  rewrite decide_True by (by intros Hf%is_empty_spec; congruence).
  rewrite cons_middle, app_assoc. apply IH. rewrite uniq_snoc, <- Hd.
  destruct (dict_has (family_of r) d) eqn:Eh; unfold dict_has in Eh.
  - rewrite bool_decide_eq_true_2; [done|]. apply dec_stable. rewrite <- dict_get_None.
    by destruct (dict_get (family_of r) d).
  - assert (dict_get (family_of r) d = None) as Eg by (by destruct (dict_get (family_of r) d)).
    rewrite bool_decide_eq_false_2 by (by apply dict_get_None). rewrite dict_keys_set. unfold dict_has.
    by rewrite Eg.
Qed.

(** The books agree with the records of the history. *)
Record accounted (s : arm_run) : Prop := {
  ac_ledger : ar_ledger s = ⋃ (marks <$> all_records s);
  ac_variants : ar_variants s = Z.of_nat (length (filter (λ r, is_variant r = true) (all_records s)));
  ac_coverage : dict_keys (ar_coverage s) = covered_families (all_records s)
}.

Lemma accounted_core s s' : core s' = core s → accounted s → accounted s'.
Proof.
  intros Hc [H1 H2 H3]. unfold all_records in *. split; unfold all_records.
  - by rewrite (f_equal ar_epochs Hc : ar_epochs s' = _), (f_equal ar_ledger Hc : ar_ledger s' = _).
  - by rewrite (f_equal ar_epochs Hc : ar_epochs s' = _), (f_equal ar_variants Hc : ar_variants s' = _).
  - by rewrite (f_equal ar_epochs Hc : ar_epochs s' = _), (f_equal ar_coverage Hc : ar_coverage s' = _).
Qed.

Lemma finish_accounted c offset e epoch p lanes s s' :
  finish_epoch str_of type_name parse_float parse_int py_sum iter_of len_of c offset e epoch p lanes s = Ok s' →
  accounted s → accounted s'.
Proof.
  intros (a & lanes' & em & m & router & Hc & _ & _ & ->)%finish_epoch_inv [H1 H2 H3].
  apply credit_lanes_booked in Hc as [Hs Hv]. cbn [cr_seen cr_variants] in Hs, Hv.
  assert (∀ q, all_records (write_checkpoint c (epoch + 1) q (advanced str_of c e epoch p a lanes' em m router q s))
    = (all_records s ++ (lanes' ≫= lane_results))%list) as Hall.
  { intros q. unfold all_records. cbn [write_checkpoint advanced ar_epochs].
    rewrite bind_app. f_equal. cbn [mbind list_bind]. rewrite app_nil_r. apply epoch_entry_records. }
  split; rewrite Hall; cbn [write_checkpoint advanced ar_ledger ar_variants ar_coverage].
  - by rewrite fmap_app, union_list_app_L, <- H1.
  - rewrite Hv, H2, filter_app, length_app. lia.
  - unfold covered_families. rewrite fmap_app, filter_app. by apply cover_keys.
Qed.


(** * The work of an epoch *)

Notation begin_epoch := (begin_epoch str_of repr_of parse_float sha1_prefix catalog_file compile_variant).
Notation run_queue := (run_queue str_of type_name retryable_infra_error).

Lemma build_partition c epoch l us :
  build_units str_of repr_of c epoch l = Ok us → us ≫= unit_members ≡ₚ l.
Proof.
  unfold build_units. destruct (build_spec str_of repr_of l (ac_arm_key c) epoch) as (vs & Hs & Hf & Ht).
  assert (make_units str_of (ac_arm_key c) epoch 0 vs (imap pair l) ≫= unit_members ≡ₚ l) as Hp.
  { rewrite units_members_perm by done. by rewrite imap_pair_snd. }
  destruct (ac_fatal c); [rewrite Ht; destruct (head _)|rewrite Hf]; congruence || by intros [= <-].
Qed.

(** The items that an executed unit stands for. *)
Definition unit_of (c : arm_config) (executed : list items) (l : list items) : Prop :=
  match ac_episode_mode c with
  | None => executed ≡ₚ l
  | Some _ => ∃ us, executed ≡ₚ unit_record <$> us ∧ us ≫= unit_members ≡ₚ l
  end.

End accounts.
