(* ===== verification/ArmExamples.v ===== *)
(** Example runs of a harness arm, and of the probes and metrics of an epoch. *)

From stdpp Require Import base strings list sets gmap.
From Stdlib Require Import ZArith Lia SpecFloat.
From S2P Require Import Prelude PyFloat ListLib PyValue PyConv PySort TraceRuntime EpisodeRuntime.
From S2P Require Import EpisodeUnits HarnessQueue QueueTheorems RouterState RouterTheorems.
From S2P Require Import HarnessFrontier FrontierTheorems HarnessCheckpoint CheckpointTheorems.
From S2P Require Import EpisodeProbes ProbeTheorems MetricTheorems BudgetArm ArmTheorems ArmAccounts.

Module ArmExample.
Definition text_of (_ : pyval) : string := "?".
Definition no_float (_ : string) : option float := None.
Definition no_int (_ : string) : option Z := None.
Definition add_up (l : list float) : float := fold_left fadd l f0.
Definition no_iter (_ : pyval) : res (list pyval) := Err (TypeError "not iterable").
Definition no_len (_ : pyval) : res Z := Err (TypeError "no len").
Definition hash (_ : string) : Z := 0.
Definition no_catalog (_ : nat) : pyval := PNone.
Definition no_variant (_ : list compile_call) (_ _ : items) : res items := Err (ValueError "no variants").
Definition retryable (_ : exn) : bool := false.

(** A prefix and two suffixes of one group, of which the second failed, and a
    record of its own. *)
Definition record (kind status : string) (minutes : Z) (keys : list string) (accepted : bool) : items :=
  as_items [("record_kind", PStr kind); ("execution_group_id", PStr "g"); ("family", PStr "f");
            ("execution_status", PStr status); ("duration_minutes", PInt minutes);
            ("observation_keys", texts keys); ("weighted_flags", dict_value PFloat [("w", lit 1 2)]);
            ("accepted", PBool accepted)].

Definition siblings : list items :=
  [record "shared_prefix" "ok" 10 ["a"] true; record "episode_suffix" "ok" 2 ["a"; "b"] true;
   record "episode_suffix" "adapter_error" 3 [] false].

Definition alone : items :=
  as_items [("family", PStr "h"); ("duration_minutes", PInt 4); ("observation_keys", texts ["c"])].

Notation group := (group_probe text_of no_float add_up no_iter).

Lemma group_probe_weighted_witness : ∃ p q, group "g" siblings = Ok p ∧
  read_probe text_of no_float no_iter p = Ok q ∧ p_observation_keys q = ["a"; "b"] ∧
  accept_sample no_float q = Ok (fdiv (float_of_Z 1) (float_of_Z 2), float_of_Z 2).
Proof.
  destruct (group "g" siblings) as [p|e] eqn:E; [|vm_compute in E; discriminate].
  destruct (group_probe_weighted text_of no_float add_up no_iter "g" siblings p E) as
    (first & kss & fss & minutes & q & _ & Hk & _ & _ & _ & Hq & _ & _ & Hkeys & _ & _ & _ & _ & Ha);
    [reflexivity|].
  exists p, q. split_and!; [reflexivity|exact Hq| |exact Ha]. vm_compute in Hk. injection Hk as <-.
  rewrite Hkeys. reflexivity.
Defined.

(** The metrics of these records: ten minutes were avoided, none of them by two
    successful suffixes. *)
Example metrics_example :
  match summarize_execution_records text_of no_float add_up (siblings ++ [alone])%list with
  | Ok m => (pget "avoided_recompute_minutes" m, pget "successful_avoided_recompute_minutes" m,
             pget "episode_count" m, pget "episode_error_count" m)
  | Err _ => (PNone, PNone, PNone, PNone)
  end = (PFloat (float_of_Z 10), PFloat f0, PInt 2, PInt 1).
Proof. vm_compute. reflexivity. Qed.

(** * Two epochs of a router arm *)

Definition sig : signature :=
  {| sg_arm_key := "a"; sg_adapter_type := "pkg.Adapter"; sg_worker_count := 1; sg_use_router := true;
     sg_frontier_max_lanes := 0; sg_variant_catalog_enabled := false; sg_goal_id := "g"; sg_agent_id := "h";
     sg_item_failure_policy := "record"; sg_episode_mode := None |}.

Definition arm_settings : arm_config :=
  {| ac_signature := sig; ac_budget_minutes := float_of_Z 100; ac_max_epochs := 2;
     ac_guard_factor := lit 115 100; ac_guard_recent := 3; ac_checkpoint_enabled := true;
     ac_checkpoint_path := "run/arm_checkpoint_a.json" |}.

Definition seed (id family : string) : items :=
  as_items [("item_id", PStr id); ("text", PStr "t"); ("family", PStr family)].

Definition answer : pyval :=
  PMap false (as_items [("observation_keys", texts ["k"]); ("weighted_flags", dict_value PFloat [("w", f1)]);
                        ("accepted", PBool true); ("duration_minutes", PInt 5)]).

Definition turns : list (list turn) :=
  replicate 14 [{| t_worker := 0; t_outcome := Ok answer; t_minutes := f1 |}].

Definition env (k : Z) : epoch_env :=
  {| ee_begun := float_of_Z (10 * (k - 1)); ee_ended := float_of_Z (10 * k); ee_epoch_wall := float_of_Z 9;
     ee_seeds := Ok [seed "1" "f"; seed "2" "g"];
     ee_plan := λ _ _ _, {| bp_selected := [[PStr "2"]]; bp_rejected := [] |};
     ee_wall := λ _, float_of_Z 9; ee_schedule := concat turns; ee_order := [0%nat] |}.

Notation start := (start_arm text_of text_of text_of no_float no_int add_up no_iter).
Notation loop := (arm_loop text_of text_of text_of retryable no_float no_int add_up no_iter no_len hash
  no_catalog no_variant).

Definition begun_arm : arm_run :=
  match start arm_settings None None with Ok (s, _, _) => s | Err _ => fresh_arm text_of arm_settings None end.

Definition final : arm_run :=
  match loop arm_settings f0 env 2 1 begun_arm with Some (_, s) => s | None => begun_arm end.

Example final_books :
  length (ar_epochs final) = 2%nat ∧ dict_keys (ar_coverage final) = ["g"; "f"] ∧
  size (ar_ledger final) = 3%nat.
Proof. vm_compute. auto. Qed.

Lemma started : start arm_settings None None = Ok (begun_arm, 1%Z, f0).
Proof. vm_compute. reflexivity. Defined.

Lemma ran : loop arm_settings f0 env 2 1 begun_arm = Some (Ok "max_epochs", final).
Proof. vm_compute. reflexivity. Defined.


Lemma arm_budget_witness :
  may_begin no_float arm_settings (take 1 (ar_epochs final)) (fadd f0 (float_of_Z 10)).
Proof.
  destruct (arm_budget text_of text_of text_of retryable no_float no_int add_up no_iter no_len hash
    no_catalog no_variant arm_settings None None env 2 begun_arm 1 f0 (Ok "max_epochs") final started ran)
    as (_ & _ & _ & H & _).
  apply (H 1%nat). vm_compute. split; repeat constructor.
Defined.


Definition first_plan : epoch_plan :=
  match begin_epoch text_of text_of no_float hash no_catalog no_variant arm_settings f0 (env 1) 1 begun_arm with
  | (Ok (inr p), _) => p
  | _ => {| ep_seeds := []; ep_queue_items := []; ep_frontier := None; ep_execution_items := [] |}
  end.

End ArmExample.
