(* ===== verification/SpecScheduler.v ===== *)
(** Speculative scheduling of exploration branches:
    [loopx/capabilities/explore/speculative_scheduler.py].

    Candidates carry the typed fields the schedulers read; branches of a
    dependency plan are mappings.  [py_pow] is [x ** y] of floats, a parameter;
    a bytes-like dependency list is outside the model. *)

From stdpp Require Import base strings list sets gmap.
From Stdlib Require Import ZArith Lia SpecFloat.
From S2P Require Import Prelude PyFloat PyValue TraceRuntime RouterState.

Definition clamp (value low high : float) : float := fmax low (fmin high value).
Definition unit_clamp (x : float) : float := clamp x f0 f1.

Definition round3 : float → float := py_round 3.

(** * Dependencies *)

(** [s.split(c)]. *)
Fixpoint split_on (c : Ascii.ascii) (word s : string) : list string :=
  match s with
  | EmptyString => [word]
  | String a s' => if bool_decide (a = c) then word :: split_on c "" s'
                   else split_on c (word ++ String a "") s'
  end.

Definition comma : Ascii.ascii := Ascii.ascii_of_N 44.
Definition semicolon : Ascii.ascii := Ascii.ascii_of_N 59.

Section dependencies.
Variable (str_of : pyval → string).

Definition nonempty_parts (l : list string) : list string := filter (λ s, is_empty s = false) l.

Definition normalize_dependency_ids (value : pyval) : list string :=
  match value with
  | PStr s => nonempty_parts (py_strip <$> split_on comma "" (replace_char semicolon comma s))
  | PSeq _ l => nonempty_parts ((λ v, py_strip (py_str str_of v)) <$> l)
  | _ => []
  end.

(** [event.update(dict(payload))]. *)
Definition pupdate (d : items) (payload : list (string * pyval)) : items :=
  fold_left (λ d kv, pset kv.1 kv.2 d) payload d.

Definition build_accept_reject_event (lane event_type todo_id reason : string) (verification_wave : Z)
    (payload : list (string * pyval)) : items :=
  pupdate (as_items [("schema_version", PStr "loopx_explore_accept_reject_event_v0");
                     ("lane", PStr lane); ("event_type", PStr event_type); ("todo_id", PStr todo_id);
                     ("verification_wave", PInt verification_wave); ("reason", PStr reason)]) payload.

Definition branch_id_of (branch : items) : string := str_or_empty str_of (pget "todo_id" branch).

Definition dependencies (branch : items) : list string :=
  normalize_dependency_ids
    (por (pget "depends_on" branch)
      (por (pget "dependency_todo_ids" branch) (pget "blocked_by_todo_ids" branch))).

(** The reason why a branch is invalid, if it is. *)
Definition invalidation (selected accepted rejected : gset string) (deps : list string) : option string :=
  let missing := filter (λ d, d ∉ selected) deps in
  let failed := filter (λ d, d ∈ rejected) deps in
  let not_yet_accepted := filter (λ d, d ∈ selected ∧ d ∉ accepted) deps in
  match missing, failed, not_yet_accepted with
  | _ :: _, _, _ => Some ("dependency_not_selected:" ++ join "," missing)
  | [], _ :: _, _ => Some ("dependency_rejected:" ++ join "," failed)
  | [], [], _ :: _ => Some ("dependency_not_accepted:" ++ join "," not_yet_accepted)
  | [], [], [] => None
  end.

Definition effective_selected (branches : list items) (selected_ids : list string) : gset string :=
  let selected := list_to_set selected_ids : gset string in
  if bool_decide (selected = ∅)
  then list_to_set (branch_id_of <$> filter (λ b, truthy (pget "todo_id" b) = true) branches)
  else selected.

Definition effective_accepted (selected : gset string) (accepted_ids : list string) : gset string :=
  let accepted := list_to_set accepted_ids : gset string in
  if bool_decide (accepted = ∅) then selected else accepted.

Definition invalid_branch (branch : items) (reason : string) : items :=
  pset "invalidation_reason" (PStr reason)
    (pset "selection_status" (PStr "invalidated_dependency") branch).

Definition partition_step (selected accepted rejected : gset string) (lane : string)
    (acc : list items * list items * list items) (branch : items)
  : list items * list items * list items :=
  let '(valid, invalidated, events) := acc in
  let deps := dependencies branch in
  match invalidation selected accepted rejected deps with
  | Some reason =>
      (valid, invalidated ++ [invalid_branch branch reason],
       events ++ [build_accept_reject_event lane "invalidated" (branch_id_of branch) reason 0
                    [("depends_on", PSeq false (PStr <$> deps))]])%list
  | None => (valid ++ [branch], invalidated, events)%list
  end.

Definition partition_invalidated_successors (branches : list items)
    (selected_ids accepted_ids rejected_ids : list string) (lane : string)
  : list items * list items * list items :=
  let selected := effective_selected branches selected_ids in
  let accepted := effective_accepted selected accepted_ids in
  fold_left (partition_step selected accepted (list_to_set rejected_ids) lane) branches ([], [], []).
End dependencies.

(** * Schedulers *)

Record candidate := {
  cd_todo_id : pyval;
  cd_confidence : option float;
  cd_expected_evidence_units : option float
}.

(** [float(candidate.get("confidence") or 0.05)]. *)
Definition cd_raw_confidence (c : candidate) : float :=
  match cd_confidence c with
  | Some x => if feqb x f0 then lit 5 100 else x
  | None => lit 5 100
  end.

Definition expected_evidence_units (c : candidate) : float := default f1 (cd_expected_evidence_units c).

Definition conditional_branch_confidence (raw_confidence previous_confidence : float) : float :=
  round3 (fadd (fmul (lit 82 100) (unit_clamp raw_confidence))
               (fmul (lit 18 100) (unit_clamp previous_confidence))).

(** The loop over the confidences, from [index] on. *)
Fixpoint bundle_loop (threshold : float) (l : list (option float)) (index : nat) : nat :=
  match l with
  | [] => index
  | c :: l' =>
      if fltb (unit_clamp (match c with Some x => or_zero x | None => f0 end)) threshold then index
      else bundle_loop threshold l' (S index)
  end.

Definition confident_bundle_prefix_length (confidences : list (option float)) (threshold : float)
    (max_length : Z) : nat :=
  let cutoff := Nat.min (Z.to_nat (Z.max 0 max_length)) (length confidences) in
  if fleb threshold f0 then cutoff else bundle_loop threshold (take cutoff confidences) 0.

Section schedulers.
Variable (py_pow : float → float → float).

Definition step_throughput (batch_size : Z) (load_factor : float) : res float :=
  let batch := Z.max 1 batch_size in
  let load := unit_clamp load_factor in
  py_div f1 (fadd f1 (fmul load (py_pow (float_of_Z (Z.max 0 (batch - 1))) (lit 118 100)))).

(** The running values of the serial schedule. *)
Record chain := { ch_survival : float; ch_evidence : float; ch_previous : float }.

Definition chain0 : chain := {| ch_survival := f1; ch_evidence := f0; ch_previous := f1 |}.

Record width_metrics := {
  pm_prefix_length : nat;
  pm_expected_evidence : float;
  pm_theta : float;
  pm_step_throughput : float;
  pm_prefix_survival : float
}.

Definition chain_step (s : chain) (c : candidate) : chain :=
  let confidence := conditional_branch_confidence (cd_raw_confidence c) (ch_previous s) in
  let survival := fmul (ch_survival s) confidence in
  {| ch_survival := survival;
     ch_evidence := fadd (ch_evidence s) (fmul survival (expected_evidence_units c));
     ch_previous := confidence |}.

Definition prefix_metrics (candidates : list candidate) (prefix_length : Z) (load_factor : float)
  : res width_metrics :=
  let limit := Nat.min (length candidates) (Z.to_nat (Z.max 0 prefix_length)) in
  if (limit =? 0)%nat then
    Ok {| pm_prefix_length := 0; pm_expected_evidence := f0; pm_theta := f0; pm_step_throughput := f0;
          pm_prefix_survival := f0 |}
  else
    let s := fold_left chain_step (take limit candidates) chain0 in
    throughput ← step_throughput (Z.of_nat limit) load_factor;
    Ok {| pm_prefix_length := limit; pm_expected_evidence := round3 (ch_evidence s);
          pm_theta := round3 (fmul (ch_evidence s) throughput);
          pm_step_throughput := round3 throughput; pm_prefix_survival := round3 (ch_survival s) |}.

(** ** [schedule_confidence_prefix] *)

Record prefix_step := {
  st_prefix_length : nat;
  st_todo_id : pyval;
  st_raw_confidence : float;
  st_conditional_confidence : float;
  st_prefix_survival : float;
  st_expected_evidence_units : float;
  st_step_throughput : float;
  st_expected_evidence : float;
  st_theta : float
}.

(** The loop: the running values, the best theta and its width, the steps. *)
Fixpoint schedule_loop (load_factor : float) (index : nat) (s : chain) (best_theta : float)
    (best_budget : nat) (l : list candidate) : res (float * nat * list prefix_step) :=
  match l with
  | [] => Ok (best_theta, best_budget, [])
  | c :: l' =>
      let raw_confidence := unit_clamp (cd_raw_confidence c) in
      let confidence := conditional_branch_confidence raw_confidence (ch_previous s) in
      let survival := fmul (ch_survival s) confidence in
      let expected_units := expected_evidence_units c in
      let evidence := fadd (ch_evidence s) (fmul survival expected_units) in
      throughput ← step_throughput (Z.of_nat index) load_factor;
      let theta := fmul evidence throughput in
      let row := {| st_prefix_length := index; st_todo_id := cd_todo_id c;
                    st_raw_confidence := round3 raw_confidence;
                    st_conditional_confidence := confidence; st_prefix_survival := round3 survival;
                    st_expected_evidence_units := round3 expected_units;
                    st_step_throughput := round3 throughput; st_expected_evidence := round3 evidence;
                    st_theta := round3 theta |} in
      let better := fltb best_theta theta in
      rest ← schedule_loop load_factor (S index)
               {| ch_survival := survival; ch_evidence := evidence; ch_previous := confidence |}
               (if better then theta else best_theta) (if better then index else best_budget) l';
      Ok (rest.1, row :: rest.2)
  end.

Record prefix_schedule := {
  sc_load_factor : float;
  sc_max_width : Z;
  sc_selected_prefix_length : nat;
  sc_best_theta : float;
  sc_speedup : float;
  sc_steps : list prefix_step;
  sc_baseline : width_metrics;
  sc_selected : width_metrics
}.

Definition schedule_confidence_prefix (candidates : list candidate) (max_width max_branch_width : Z)
    (load_factor : float) : res prefix_schedule :=
  let width := if (max_width =? 0)%Z then 1%Z else max_width in
  let budget_limit := Z.max 1 (Z.min max_branch_width width) in
  let safe_candidates := take (Z.to_nat budget_limit) candidates in
  let first := match safe_candidates with [] => 0%nat | _ => 1%nat end in
  out ← schedule_loop load_factor 1 chain0 f0 first safe_candidates;
  let '(best_theta, best_budget, steps) := out in
  baseline ← prefix_metrics safe_candidates 1 load_factor;
  selected ← prefix_metrics safe_candidates (Z.of_nat best_budget) load_factor;
  speedup ← py_div best_theta (fmax (lit 1 1000) (or_zero (pm_theta baseline)));
  Ok {| sc_load_factor := round3 (unit_clamp load_factor); sc_max_width := budget_limit;
        sc_selected_prefix_length := best_budget; sc_best_theta := round3 best_theta;
        sc_speedup := round3 speedup; sc_steps := steps; sc_baseline := baseline;
        sc_selected := selected |}.
(** ** [schedule_independent_lanes] *)

Record lane_step := {
  ln_lane_index : nat;
  ln_todo_id : pyval;
  ln_confidence : float;
  ln_expected_evidence_units : float;
  ln_expected_evidence : float;
  ln_lane_value : float;
  ln_step_throughput : float;
  ln_theta : float;
  ln_marginal_theta : float
}.

Fixpoint lanes_loop (load : float) (index : nat) (evidence previous_theta best_theta : float)
    (best_budget : nat) (l : list candidate) : res (float * nat * list lane_step) :=
  match l with
  | [] => Ok (best_theta, best_budget, [])
  | c :: l' =>
      let confidence := unit_clamp (cd_raw_confidence c) in
      let expected_units := expected_evidence_units c in
      let evidence := fadd evidence (fmul confidence expected_units) in
      throughput ← step_throughput (Z.of_nat index) load;
      let lane_value := fmul (fmul confidence expected_units) throughput in
      let theta := fmul evidence throughput in
      let row := {| ln_lane_index := index; ln_todo_id := cd_todo_id c;
                    ln_confidence := round3 confidence;
                    ln_expected_evidence_units := round3 expected_units;
                    ln_expected_evidence := round3 evidence; ln_lane_value := round4 lane_value;
                    ln_step_throughput := round3 throughput; ln_theta := round3 theta;
                    ln_marginal_theta := round4 (fsub theta previous_theta) |} in
      let better := fltb best_theta theta in
      rest ← lanes_loop load (S index) evidence theta (if better then theta else best_theta)
               (if better then index else best_budget) l';
      Ok (rest.1, row :: rest.2)
  end.

(** The opportunistic expansion: [for step in steps[core_budget:target_budget]]. *)
Fixpoint expand (value_floor : float) (budget : nat) (l : list lane_step) : nat :=
  match l with
  | [] => budget
  | step :: l' =>
      if fltb (or_zero (ln_lane_value step)) value_floor then budget
      else expand value_floor (if (ln_lane_index step =? 0)%nat then budget else ln_lane_index step) l'
  end.

Record refusal := {
  rf_todo_id : pyval;
  rf_lane_index : nat;
  rf_reason : string;
  rf_marginal_theta : float;
  rf_lane_value : float
}.

Definition refuse (target_budget : Z) (value_floor min_marginal_theta : float) (step : lane_step)
  : refusal :=
  {| rf_todo_id := ln_todo_id step; rf_lane_index := ln_lane_index step;
     rf_reason :=
       if (Z.of_nat (ln_lane_index step) <=? target_budget)%Z
          && fltb (or_zero (ln_lane_value step)) value_floor
       then "opportunistic_lane_value_below_floor"
       else if fleb (or_zero (ln_marginal_theta step)) min_marginal_theta
       then "interference_marginal_theta_nonpositive"
       else if (target_budget <? Z.of_nat (ln_lane_index step))%Z then "beyond_opportunistic_target"
       else "beyond_theta_peak";
     rf_marginal_theta := ln_marginal_theta step; rf_lane_value := ln_lane_value step |}.

Record lane_options := {
  lo_max_width : Z;
  lo_load_factor : float;
  lo_min_marginal_theta : float;
  lo_utilization_floor : float;
  lo_lane_value_floor : float;
  lo_lane_value_ratio : float
}.

Record lane_schedule := {
  ls_load_factor : float;
  ls_max_width : Z;
  ls_min_marginal_theta : float;
  ls_selected_prefix_length : nat;
  ls_core_selected_prefix_length : nat;
  ls_baseline_theta : float;
  ls_best_theta : float;
  ls_speedup : float;
  ls_steps : list lane_step;
  ls_queue_exhausted : bool;
  ls_opportunistic_admitted_count : nat;
  ls_target_lane_count : Z;
  ls_utilization_floor : float;
  ls_value_floor : float;
  ls_lane_value_ratio : float;
  ls_refusals : list refusal
}.

Definition schedule_independent_lanes (candidates : list candidate) (o : lane_options)
  : res lane_schedule :=
  let budget_limit := Z.max 1 (if (lo_max_width o =? 0)%Z then 1 else lo_max_width o) in
  let safe_candidates := take (Z.to_nat budget_limit) candidates in
  let load := unit_clamp (lo_load_factor o) in
  let first := match safe_candidates with [] => 0%nat | _ => 1%nat end in
  out ← lanes_loop load 1 f0 f0 f0 first safe_candidates;
  let '(best_theta, core_budget, steps) := out in
  let target_utilization := unit_clamp (or_zero (lo_utilization_floor o)) in
  wanted ← truncate (fadd (fmul (float_of_Z budget_limit) target_utilization) (lit 999 1000));
  let target_budget :=
    Z.min (Z.min (Z.of_nat (length safe_candidates)) budget_limit) wanted in
  let first_lane_value := match steps with step :: _ => ln_lane_value step | [] => f0 end in
  let value_floor :=
    fmax (fmax f0 (or_zero (lo_lane_value_floor o)))
         (fmul first_lane_value (unit_clamp (or_zero (lo_lane_value_ratio o)))) in
  let opportunistic_budget :=
    if (Z.of_nat core_budget <? target_budget)%Z && fltb f0 value_floor
    then expand value_floor core_budget
           (take (Z.to_nat target_budget - core_budget) (drop core_budget steps))
    else core_budget in
  let best_budget := Nat.max core_budget opportunistic_budget in
  let single_lane_theta := match steps with step :: _ => ln_theta step | [] => f0 end in
  speedup ← py_div best_theta (fmax (lit 1 1000) single_lane_theta);
  Ok {| ls_load_factor := round4 load; ls_max_width := budget_limit;
        ls_min_marginal_theta := round4 (lo_min_marginal_theta o);
        ls_selected_prefix_length := best_budget; ls_core_selected_prefix_length := core_budget;
        ls_baseline_theta := round3 single_lane_theta; ls_best_theta := round3 best_theta;
        ls_speedup := round3 speedup; ls_steps := steps;
        ls_queue_exhausted := (Z.of_nat (length safe_candidates) <? budget_limit)%Z;
        ls_opportunistic_admitted_count := (best_budget - core_budget)%nat;
        ls_target_lane_count := target_budget; ls_utilization_floor := round3 target_utilization;
        ls_value_floor := round4 value_floor;
        ls_lane_value_ratio := round3 (or_zero (lo_lane_value_ratio o));
        ls_refusals := refuse target_budget value_floor (lo_min_marginal_theta o) <$>
                         drop best_budget steps |}.

(** ** [calibrate_load_factor] *)

Record load_profile := {
  lp_parallel_wall_minutes : option num;
  lp_wall_minutes : option num;
  lp_max_branch_minutes : option num;
  lp_branch_count : option num;
  lp_source : pyval
}.

(** [a or b] of two numbers that may be missing. *)
Definition num_or (a b : option num) : option num :=
  match a with
  | Some v => if feqb (num_float v) f0 then b else a
  | None => b
  end.

(** The figures of an observed profile. *)
Record observed_load := {
  ob_parallel_wall_minutes : float;
  ob_max_branch_minutes : float;
  ob_parallel_overhead_ratio : float;
  ob_measured_load_factor : float;
  ob_measurement_weight : float
}.

Record load_calibration := {
  lc_source : string;
  lc_branch_count : option Z;
  lc_observed : option observed_load;
  lc_load_factor : float;
  lc_fallback_load_factor : float
}.

Definition calibrate_load_factor (str_of : pyval → string) (profile : option load_profile)
    (fallback_load_factor : float) : res load_calibration :=
  let fallback := unit_clamp fallback_load_factor in
  match profile with
  | None => Ok {| lc_source := "fallback"; lc_branch_count := None; lc_observed := None;
                  lc_load_factor := round4 fallback; lc_fallback_load_factor := round4 fallback |}
  | Some p =>
      let wall := num_float (default (NFloat f0)
                    (num_or (lp_parallel_wall_minutes p) (num_or (lp_wall_minutes p) None))) in
      let max_branch := num_float (default (NFloat f0) (num_or (lp_max_branch_minutes p) None)) in
      count ← num_int (default (NInt 1) (num_or (lp_branch_count p) None));
      let branch_count := Z.max 1 count in
      if (branch_count <=? 1)%Z || fleb wall f0 || fleb max_branch f0 then
        Ok {| lc_source := "fallback_insufficient_profile"; lc_branch_count := Some branch_count;
              lc_observed := None; lc_load_factor := round4 fallback;
              lc_fallback_load_factor := round4 fallback |}
      else
        ratio ← py_div wall max_branch;
        let overhead_ratio := fmax f0 (fsub ratio f1) in
        quotient ← py_div overhead_ratio (fmax f1 (py_pow (float_of_Z (branch_count - 1)) (lit 118 100)));
        let measured := unit_clamp quotient in
        let measurement_weight :=
          fmin (lit 45 100) (fmax (lit 15 100) (fdiv (float_of_Z branch_count) (float_of_Z 10))) in
        let load_factor := fadd (fmul (fsub f1 measurement_weight) fallback)
                                (fmul measurement_weight measured) in
        Ok {| lc_source := if truthy (lp_source p) then py_str str_of (lp_source p)
                           else "observed_parallel_profile";
              lc_branch_count := Some branch_count;
              lc_observed := Some {| ob_parallel_wall_minutes := round4 wall;
                                     ob_max_branch_minutes := round4 max_branch;
                                     ob_parallel_overhead_ratio := round4 overhead_ratio;
                                     ob_measured_load_factor := round4 measured;
                                     ob_measurement_weight := round4 measurement_weight |};
              lc_load_factor := round4 load_factor; lc_fallback_load_factor := round4 fallback |}
  end.
End schedulers.
