(* ===== verification/SchedulerTheorems.v ===== *)
(** What the speculative scheduler guarantees.

    The serial schedule selects the first width of greatest theta, and its
    incremental rows are the metrics computed from scratch for every prefix;
    independent lanes are admitted up to the theta peak and beyond it only
    while each lane clears the value floor; a bundle is cut at the first
    confidence below the threshold; a branch survives the dependency check
    exactly when all its dependencies are selected, accepted and not
    rejected. *)

From stdpp Require Import base strings list sets gmap.
From Stdlib Require Import ZArith Lia SpecFloat.
From S2P Require Import Prelude PyFloat ListLib PyValue TraceRuntime RouterState SpecScheduler.

(** * The first maximum *)

Fixpoint best_of (index : nat) (best : float * nat) (l : list float) : float * nat :=
  match l with
  | [] => best
  | t :: l' => best_of (S index) (if fltb best.1 t then (t, index) else best) l'
  end.

Lemma fltb_not_nan a b : fltb a b = true → isnan a = false ∧ isnan b = false.
Proof. by destruct a as [|[]| |], b as [|[]| |]. Qed.

Ltac lex :=
  repeat match goal with H : fltb ?a ?b = true |- _ => destruct (fltb_not_nan _ _ H); apply fltb_lex in H; [|done..] end;
  repeat match goal with _ : context [frank ?a] |- _ => destruct (frank a) as [[??]?] end;
  simpl in *; lia.

Lemma fltb_irrefl a : fltb a a = false.
Proof. apply not_true_is_false. intros H. lex. Qed.

Lemma fltb_trans a b c : fltb a b = true → fltb b c = true → fltb a c = true.
Proof.
  intros Hab Hbc. destruct (fltb_not_nan _ _ Hab), (fltb_not_nan _ _ Hbc).
  apply fltb_lex; [done..|]. lex.
Qed.

Lemma fltb_false_trans a b t : fltb a b = true → fltb a t = false → fltb b t = false.
Proof.
  intros Hab Hat. apply not_true_is_false. intros Hbt.
  by rewrite (fltb_trans _ _ _ Hab Hbt) in Hat.
Qed.

Lemma fltb_fleb_trans a b t : fltb a b = true → fleb b t = true → fltb a t = true.
Proof.
  intros Hab Hbt.
  assert (fltb b t = true ∨ feqb b t = true) as [H|H].
  { revert Hbt. unfold fleb, fltb, feqb, SFleb, SFltb, SFeqb.
    destruct (SFcompare b t) as [[]|]; auto. }
  - by apply fltb_trans with b.
  - destruct (fltb_not_nan _ _ Hab) as [Ha Hb].
    assert (isnan t = false) as Ht by (by destruct b as [|[]| |[] ? ?], t as [|[]| |[] ? ?]).
    apply feqb_lex in H; [|done..]. apply fltb_lex in Hab; [|done..]. apply fltb_lex; [done..|].
    by rewrite <- H.
Qed.

Lemma fltb_fleb_false a b t : fltb a b = true → fltb a t = false → fleb b t = false.
Proof.
  intros Hab Hat. apply not_true_is_false. intros Hbt.
  by rewrite (fltb_fleb_trans _ _ _ Hab Hbt) in Hat.
Qed.

Lemma best_of_bound i best l :
  let b := (best_of i best l).1 in
  (b = best.1 ∨ fltb best.1 b = true) ∧ ∀ t, t ∈ l → fltb b t = false.
Proof.
  revert i best. induction l as [|t l IH]; intros i best; simpl; [split; [auto|by intros ? ?%elem_of_nil]|].
  destruct (fltb best.1 t) eqn:E; simpl.
  - destruct (IH (S i) (t, i)) as [Hb Hl]. simpl in Hb. split.
    + right. destruct Hb as [->|Hb]; [done|by apply fltb_trans with t].
    + intros u [->|Hu]%elem_of_cons; [|by apply Hl].
      destruct Hb as [->|Hb]; [apply fltb_irrefl|].
      apply (fltb_false_trans t); [done|apply fltb_irrefl].
  - destruct (IH (S i) best) as [Hb Hl]. split; [done|].
    intros u [->|Hu]%elem_of_cons; [|by apply Hl].
    destruct Hb as [->|Hb]; [done|by apply fltb_false_trans with best.1].
Qed.

Lemma best_of_first i best l :
  best_of i best l = best ∨
  ∃ j b, best_of i best l = (b, i + j)%nat ∧ l !! j = Some b ∧ fltb best.1 b = true ∧
    ∀ j' t, (j' < j)%nat → l !! j' = Some t → fleb b t = false.
Proof.
  revert i best. induction l as [|t l IH]; intros i best; simpl; [by left|].
  destruct (fltb best.1 t) eqn:E; simpl.
  - right. destruct (IH (S i) (t, i)) as [->|(j & b & -> & Hj & Hlt & Hf)].
    + exists 0%nat, t. split_and!; [f_equal; lia|done|done|lia].
    + exists (S j), b. simpl in Hlt. split_and!; [f_equal; lia|done|by apply fltb_trans with t|].
      intros [|j'] u Hj' Hu; simpl in Hu; [injection Hu as <-|apply (Hf j'); [lia|done]].
      apply (fltb_fleb_false t); [done|apply fltb_irrefl].
  - destruct (IH (S i) best) as [->|(j & b & -> & Hj & Hlt & Hf)]; [by left|].
    right. exists (S j), b. split_and!; [f_equal; lia|done..|].
    intros [|j'] u Hj' Hu; simpl in Hu; [injection Hu as <-|apply (Hf j'); [lia|done]].
    by apply fltb_fleb_false with best.1.
Qed.

(** What a scan from [(0.0, first)] over the thetas of the widths [1 .. n]
    finds: no width is better, and the width found is the first best one. *)
Definition peak (theta : nat → float) (n k : nat) (best : float) : Prop :=
  (∀ j, (1 ≤ j ≤ n)%nat → fltb best (theta j) = false) ∧
  (best = f0 ∧ k = Nat.min 1 n ∨
   (1 ≤ k ≤ n)%nat ∧ best = theta k ∧ fltb f0 best = true ∧
   ∀ j, (1 ≤ j < k)%nat → fleb best (theta j) = false).

Lemma best_of_peak (theta : nat → float) (n : nat) :
  let out := best_of 1 (f0, Nat.min 1 n) (theta <$> seq 1 n) in peak theta n out.2 out.1.
Proof.
  intros out. assert (∀ j, (j < n)%nat → (theta <$> seq 1 n) !! j = Some (theta (S j))) as Hth.
  { intros j Hj. rewrite list_lookup_fmap, lookup_seq_lt by done. done. }
  split.
  - intros j Hj. apply best_of_bound. apply list_elem_of_lookup. exists (j - 1)%nat.
    rewrite Hth by lia. do 2 f_equal. lia.
  - destruct (best_of_first 1 (f0, Nat.min 1 n) (theta <$> seq 1 n)) as [H|(j & b & H & Hj & Hlt & Hf)];
      fold out in H; rewrite H; simpl; [by left|right].
    assert (j < n)%nat by (apply lookup_lt_Some in Hj; by rewrite length_fmap, length_seq in Hj).
    rewrite Hth in Hj by done. injection Hj as <-. split_and!; [lia|lia|done|done|].
    intros j' Hj'. apply (Hf (j' - 1)%nat); [lia|]. rewrite Hth by lia. do 2 f_equal. lia.
Qed.

(** * The serial schedule *)

Lemma unit_clamp_idem x : unit_clamp (unit_clamp x) = unit_clamp x.
Proof.
  unfold unit_clamp, clamp, fmax, fmin.
  destruct (fltb x f1) eqn:E1; [|done]. destruct (fltb f0 x) eqn:E2; [by rewrite E1, E2|done].
Qed.

Lemma unit_clamp_no_sign x : no_sign (unit_clamp x).
Proof.
  unfold unit_clamp, clamp, fmax. destruct (fltb f0 _) eqn:E; [|done].
  destruct (fmin f1 x) as [|[]| |[] ? ?]; done.
Qed.

Section serial.
Variable (py_pow : float → float → float).

(** A power of a number that is not negative is not negative. *)
Hypothesis pow_no_sign : ∀ n : nat, no_sign (py_pow (float_of_Z (Z.of_nat n)) (lit 118 100)).

Definition throughput (load : float) (k : nat) : float :=
  fdiv f1 (fadd f1 (fmul (unit_clamp load) (py_pow (float_of_Z (Z.of_nat (k - 1))) (lit 118 100)))).

Lemma step_throughput_ok load k :
  (1 ≤ k)%nat → step_throughput py_pow (Z.of_nat k) load = Ok (throughput load k).
Proof.
  intros Hk. unfold step_throughput, throughput.
  replace (Z.max 0 (Z.max 1 (Z.of_nat k) - 1)) with (Z.of_nat (k - 1)) by lia.
  apply py_div_ok, fadd_one_nonzero, fmul_no_sign; [apply unit_clamp_no_sign|apply pow_no_sign].
Qed.

Definition serial_chain (p : list candidate) : chain := fold_left chain_step p chain0.

Definition serial_theta (load : float) (p : list candidate) : float :=
  fmul (ch_evidence (serial_chain p)) (throughput load (length p)).

Definition serial_metrics (load : float) (p : list candidate) : width_metrics :=
  let s := serial_chain p in
  let t := throughput load (length p) in
  {| pm_prefix_length := length p; pm_expected_evidence := round3 (ch_evidence s);
     pm_theta := round3 (fmul (ch_evidence s) t); pm_step_throughput := round3 t;
     pm_prefix_survival := round3 (ch_survival s) |}.

(** The row of the last candidate [c] of the prefix [p]. *)
Definition serial_row (load : float) (p : list candidate) (c : candidate) : prefix_step :=
  let m := serial_metrics load p in
  {| st_prefix_length := pm_prefix_length m; st_todo_id := cd_todo_id c;
     st_raw_confidence := round3 (unit_clamp (cd_raw_confidence c));
     st_conditional_confidence := ch_previous (serial_chain p);
     st_prefix_survival := pm_prefix_survival m;
     st_expected_evidence_units := round3 (expected_evidence_units c);
     st_step_throughput := pm_step_throughput m; st_expected_evidence := pm_expected_evidence m;
     st_theta := pm_theta m |}.

Lemma prefix_metrics_ok load l k :
  (1 ≤ k ≤ length l)%nat →
  prefix_metrics py_pow l (Z.of_nat k) load = Ok (serial_metrics load (take k l)).
Proof.
  intros Hk. unfold prefix_metrics, serial_metrics, serial_chain. rewrite length_take.
  replace (Z.to_nat (Z.max 0 (Z.of_nat k))) with k by lia.
  replace (Nat.min (length l) k) with k by lia. replace (Nat.min k (length l)) with k by lia.
  destruct (Nat.eqb_spec k 0); [lia|]. by rewrite step_throughput_ok by lia.
Qed.

Lemma chain_step_clamped s c :
  {| ch_survival := fmul (ch_survival s)
       (conditional_branch_confidence (unit_clamp (cd_raw_confidence c)) (ch_previous s));
     ch_evidence := fadd (ch_evidence s) (fmul (fmul (ch_survival s)
       (conditional_branch_confidence (unit_clamp (cd_raw_confidence c)) (ch_previous s)))
       (expected_evidence_units c));
     ch_previous := conditional_branch_confidence (unit_clamp (cd_raw_confidence c)) (ch_previous s) |}
  = chain_step s c.
Proof. unfold chain_step, conditional_branch_confidence. by rewrite unit_clamp_idem. Qed.

Lemma take_app_S {A} (p : list A) x l : take (S (length p)) (p ++ x :: l) = (p ++ [x])%list.
Proof. rewrite take_app_ge by lia. by replace (S (length p) - length p)%nat with 1%nat by lia. Qed.

Lemma schedule_loop_ok load pre rest bt bb :
  let l := (pre ++ rest)%list in
  let widths := seq (S (length pre)) (length rest) in
  schedule_loop py_pow load (S (length pre)) (serial_chain pre) bt bb rest =
  Ok (best_of (S (length pre)) (bt, bb) ((λ k, serial_theta load (take k l)) <$> widths),
      zip_with (λ k c, serial_row load (take k l) c) widths rest).
Proof.
  revert pre bt bb. induction rest as [|c rest IH]; intros pre bt bb l widths; [done|].
  unfold l, widths in *. cbn [schedule_loop length seq fmap list_fmap best_of zip_with].
  assert (chain_step (serial_chain pre) c = serial_chain (pre ++ [c])) as Hc
    by (unfold serial_chain; by rewrite fold_left_app).
  pose proof (chain_step_clamped (serial_chain pre) c) as Hs. rewrite Hc in Hs.
  pose proof (f_equal ch_evidence Hs) as He. pose proof (f_equal ch_survival Hs) as Hv.
  pose proof (f_equal ch_previous Hs) as Hp. simpl in He, Hv, Hp. rewrite Hs, He, Hv, Hp.
  rewrite step_throughput_ok, take_app_S by lia. cbn [mbind res_bind].
  specialize (IH (pre ++ [c])%list). rewrite length_app, Nat.add_comm, <- app_assoc in IH.
  simpl in IH. rewrite IH. simpl.
  assert (length (pre ++ [c]) = S (length pre)) as Hn by (rewrite length_app; simpl; lia).
  assert (serial_theta load (pre ++ [c]) =
    fmul (ch_evidence (serial_chain (pre ++ [c]))) (throughput load (S (length pre)))) as Ht
    by (unfold serial_theta; by rewrite Hn).
  rewrite <- Ht. unfold serial_row at 2, serial_metrics. rewrite Hn, <- Ht. simpl.
  by destruct (fltb bt _).
Qed.

(** The candidates a schedule considers. *)
Definition considered (max_width max_branch_width : Z) (l : list candidate) : list candidate :=
  take (Z.to_nat (Z.max 1 (Z.min max_branch_width (if (max_width =? 0)%Z then 1 else max_width)))) l.

Lemma first_width {A} (l : list A) :
  match l with [] => 0%nat | _ => 1%nat end = Nat.min 1 (length l).
Proof. by destruct l. Qed.

Lemma prefix_metrics_total l k load :
  ∃ m, prefix_metrics py_pow l (Z.of_nat k) load = Ok m.
Proof.
  destruct (decide (Nat.min (length l) k = 0)%nat) as [H|H].
  - unfold prefix_metrics. replace (Z.to_nat (Z.max 0 (Z.of_nat k))) with k by lia. rewrite H. eauto.
  - unfold prefix_metrics. replace (Z.to_nat (Z.max 0 (Z.of_nat k))) with k by lia.
    destruct (Nat.eqb_spec (Nat.min (length l) k) 0); [done|].
    rewrite step_throughput_ok by lia. simpl. eauto.
Qed.

(** A schedule is always returned; what it holds. *)
Lemma schedule_ok candidates w bw load :
  let l := considered w bw candidates in
  let out := best_of 1 (f0, Nat.min 1 (length l))
               ((λ k, serial_theta load (take k l)) <$> seq 1 (length l)) in
  ∃ s, schedule_confidence_prefix py_pow candidates w bw load = Ok s ∧
    sc_selected_prefix_length s = out.2 ∧ sc_best_theta s = round3 out.1 ∧
    sc_steps s = zip_with (λ k c, serial_row load (take k l) c) (seq 1 (length l)) l ∧
    prefix_metrics py_pow l (Z.of_nat out.2) load = Ok (sc_selected s).
Proof.
  intros l out. unfold schedule_confidence_prefix. fold (considered w bw candidates). fold l.
  rewrite first_width. change chain0 with (serial_chain []).
  rewrite (schedule_loop_ok load [] l f0 (Nat.min 1 (length l)) : schedule_loop _ _ 1 _ _ _ _ = _).
  cbn [mbind res_bind app length]. fold out. destruct out as [b k]. cbn [fst snd].
  destruct (prefix_metrics_total l 1 load) as [m1 H1]. change (Z.of_nat 1) with 1%Z in H1. rewrite H1. simpl.
  destruct (prefix_metrics_total l k load) as [m2 H2]. rewrite H2. simpl.
  rewrite py_div_ok by (apply fmax_nonzero; [by intros []|done]). simpl. eauto 10.
Qed.

(** C40: The serial schedule never fails and selects the best width.  With
    [theta k] the survival-weighted evidence of the first [k] candidates times
    the throughput of a batch of [k], no width has a greater theta than the
    best one reported, and the selected width is the first that reaches it (or
    width one, when no theta is positive). *)
Theorem prefix_schedule_optimal candidates max_width max_branch_width load_factor :
  let l := considered max_width max_branch_width candidates in
  ∃ s best,
    schedule_confidence_prefix py_pow candidates max_width max_branch_width load_factor = Ok s ∧
    sc_best_theta s = round3 best ∧
    peak (λ k, serial_theta load_factor (take k l)) (length l) (sc_selected_prefix_length s) best.
Proof.
  intros l. destruct (schedule_ok candidates max_width max_branch_width load_factor)
    as (s & Hs & Hk & Hb & _). fold l in Hk, Hb.
  eexists s, _. split_and!; [done|exact Hb|]. rewrite Hk. apply best_of_peak.
Qed.

(** The incremental loop agrees with the metrics computed from scratch.
    The schedule has one row per considered candidate, in order; the row of
    width [k] holds what [prefix_metrics] gives for the prefix of length [k],
    and the selected metrics are those of the selected row. *)
Theorem prefix_steps_equivalent candidates max_width max_branch_width load_factor s :
  let l := considered max_width max_branch_width candidates in
  schedule_confidence_prefix py_pow candidates max_width max_branch_width load_factor = Ok s →
  length (sc_steps s) = length l ∧
  (∀ i row, sc_steps s !! i = Some row →
    cd_todo_id <$> l !! i = Some (st_todo_id row) ∧
    prefix_metrics py_pow l (Z.of_nat (S i)) load_factor =
    Ok {| pm_prefix_length := st_prefix_length row; pm_expected_evidence := st_expected_evidence row;
          pm_theta := st_theta row; pm_step_throughput := st_step_throughput row;
          pm_prefix_survival := st_prefix_survival row |}) ∧
  prefix_metrics py_pow l (Z.of_nat (sc_selected_prefix_length s)) load_factor = Ok (sc_selected s).
Proof.
  intros l Hs. destruct (schedule_ok candidates max_width max_branch_width load_factor)
    as (s' & Hs' & Hk & _ & Hsteps & Hsel). fold l in Hk, Hsteps, Hsel.
  rewrite Hs in Hs'. injection Hs' as <-. rewrite Hsteps, Hk. split_and!; [| |done].
  - rewrite length_zip_with, length_seq. lia.
  - intros i row Hi. apply lookup_zip_with_Some in Hi as (k & c & -> & Hk' & Hc).
    apply lookup_seq in Hk' as [-> Hlt]. rewrite Hc. split; [done|].
    by rewrite prefix_metrics_ok by lia.
Qed.

(** * Independent lanes *)

Definition lane_gain (c : candidate) : float :=
  fmul (unit_clamp (cd_raw_confidence c)) (expected_evidence_units c).

Definition lane_evidence (p : list candidate) : float := fold_left (λ e c, fadd e (lane_gain c)) p f0.

Definition lane_theta (load : float) (p : list candidate) : float :=
  fmul (lane_evidence p) (throughput load (length p)).

(** [previous_theta] before the candidate that follows the prefix [p]. *)
Definition previous_theta (load : float) (p : list candidate) : float :=
  match p with [] => f0 | _ => lane_theta load p end.

(** The row of the candidate [c] that follows the prefix [p]. *)
Definition lane_row (load : float) (p : list candidate) (c : candidate) : lane_step :=
  let q := (p ++ [c])%list in
  {| ln_lane_index := S (length p); ln_todo_id := cd_todo_id c;
     ln_confidence := round3 (unit_clamp (cd_raw_confidence c));
     ln_expected_evidence_units := round3 (expected_evidence_units c);
     ln_expected_evidence := round3 (lane_evidence q);
     ln_lane_value := round4 (fmul (lane_gain c) (throughput load (S (length p))));
     ln_step_throughput := round3 (throughput load (S (length p)));
     ln_theta := round3 (lane_theta load q);
     ln_marginal_theta := round4 (fsub (lane_theta load q) (previous_theta load p)) |}.

Lemma lanes_loop_ok load pre rest bt bb :
  let l := (pre ++ rest)%list in
  lanes_loop py_pow load (S (length pre)) (lane_evidence pre) (previous_theta load pre) bt bb rest =
  Ok (best_of (S (length pre)) (bt, bb)
        ((λ k, lane_theta load (take k l)) <$> seq (S (length pre)) (length rest)),
      zip_with (λ k c, lane_row load (take k l) c) (seq (length pre) (length rest)) rest).
Proof.
  revert pre bt bb. induction rest as [|c rest IH]; intros pre bt bb l; [done|].
  unfold l in *. cbn [lanes_loop length seq fmap list_fmap best_of zip_with].
  rewrite step_throughput_ok, take_app_S, take_app_length by lia. cbn [mbind res_bind].
  change (fmul (unit_clamp (cd_raw_confidence c)) (expected_evidence_units c)) with (lane_gain c).
  assert (fadd (lane_evidence pre) (lane_gain c) = lane_evidence (pre ++ [c])) as He
    by (unfold lane_evidence; by rewrite fold_left_app).
  assert (fmul (lane_evidence (pre ++ [c])) (throughput load (S (length pre))) =
          lane_theta load (pre ++ [c])) as Ht
    by (unfold lane_theta; rewrite length_app; by rewrite Nat.add_comm).
  assert (previous_theta load (pre ++ [c]) = lane_theta load (pre ++ [c])) as Hp by (by destruct pre).
  rewrite He, Ht. specialize (IH (pre ++ [c])%list).
  rewrite length_app, Nat.add_comm, <- app_assoc, Hp in IH. simpl in IH. rewrite IH. simpl.
  by destruct (fltb bt _).
Qed.

(** The opportunistic expansion stops at the first lane below the floor. *)
Lemma expand_spec load l floor core n :
  let rows := zip_with (λ k c, lane_row load (take k l) c) (seq 0 (length l)) l in
  (core + n ≤ length l)%nat →
  let out := expand floor core (take n (drop core rows)) in
  (core ≤ out ≤ core + n)%nat ∧
  ∀ i row, (core ≤ i < out)%nat → rows !! i = Some row → fltb (or_zero (ln_lane_value row)) floor = false.
Proof.
  intros rows. revert core. induction n as [|n IH]; intros core Hn out.
  { unfold out. rewrite take_0. simpl. split; [lia|intros; lia]. }
  assert (core < length rows)%nat as Hlt by (unfold rows; rewrite length_zip_with, length_seq; lia).
  destruct (lookup_lt_is_Some_2 rows core Hlt) as [row Hrow]. unfold out.
  rewrite (drop_S rows row core Hrow). cbn [take expand].
  destruct (fltb (or_zero (ln_lane_value row)) floor) eqn:E; [split; [lia|intros; lia]|].
  assert (ln_lane_index row = S core) as ->.
  { apply lookup_zip_with_Some in Hrow as (k & c & -> & Hk & Hc). simpl.
    apply lookup_seq in Hk as [-> ?]. rewrite length_take. lia. }
  simpl. destruct (IH (S core) ltac:(lia)) as [H1 H2]. split; [lia|].
  intros i r Hi Hr. destruct (decide (i = core)) as [->|]; [by simplify_eq|]. apply (H2 i); [lia|done].
Qed.

Definition lane_limit (o : lane_options) : Z :=
  Z.max 1 (if (lo_max_width o =? 0)%Z then 1 else lo_max_width o).

(** The number of lanes the utilization floor asks for. *)
Definition lane_target (o : lane_options) : float :=
  fadd (fmul (float_of_Z (lane_limit o)) (unit_clamp (or_zero (lo_utilization_floor o)))) (lit 999 1000).

Lemma lane_rows_index load l :
  ln_lane_index <$> zip_with (λ k c, lane_row load (take k l) c) (seq 0 (length l)) l = seq 1 (length l).
Proof.
  apply list_eq. intros i. rewrite list_lookup_fmap, lookup_zip_with.
  destruct (l !! i) as [c|] eqn:E.
  - pose proof (lookup_lt_Some _ _ _ E). rewrite !lookup_seq_lt by done. simpl.
    rewrite length_take. do 2 f_equal. lia.
  - apply lookup_ge_None in E. rewrite !lookup_seq_ge by done. done.
Qed.

Lemma peak_width theta n k best : peak theta n k best → (k ≤ n)%nat.
Proof. intros [_ [[_ ->]|[? _]]]; lia. Qed.

Lemma truncate_ok x : isfinite x = true → ∃ n, truncate x = Ok n.
Proof. destruct x; try done; simpl; eauto. Qed.

(** Lane admission.  For a finite utilization target the lane scheduler
    returns a schedule.  Its core width is the first peak of the additive
    theta over the considered candidates.  It admits at least the core lanes
    and at most the candidates there are, beyond the core only up to the
    utilization target, and every lane beyond the core has a value that
    reaches the (positive) floor: never a blind fill.  Every other lane is
    refused, in order. *)
Theorem lane_admission candidates o :
  let l := take (Z.to_nat (lane_limit o)) candidates in
  isfinite (lane_target o) = true →
  ∃ s best floor, schedule_independent_lanes py_pow candidates o = Ok s ∧
    let core := ls_core_selected_prefix_length s in
    let admitted := ls_selected_prefix_length s in
    peak (λ k, lane_theta (unit_clamp (lo_load_factor o)) (take k l)) (length l) core best ∧
    (core ≤ admitted ≤ length l)%nat ∧ (Z.of_nat (length l) ≤ lane_limit o)%Z ∧
    ls_value_floor s = round4 floor ∧
    ((core < admitted)%nat →
      fltb f0 floor = true ∧ (Z.of_nat admitted ≤ ls_target_lane_count s)%Z) ∧
    (∀ i row, (core ≤ i < admitted)%nat → ls_steps s !! i = Some row →
      fltb (or_zero (ln_lane_value row)) floor = false) ∧
    ls_opportunistic_admitted_count s = (admitted - core)%nat ∧
    rf_lane_index <$> ls_refusals s = seq (S admitted) (length l - admitted).
Proof.
  intros l Hfin. unfold schedule_independent_lanes. fold (lane_limit o) (lane_target o) l.
  set (load := unit_clamp (lo_load_factor o)). rewrite first_width.
  rewrite (lanes_loop_ok load [] l f0 (Nat.min 1 (length l)) : lanes_loop _ _ 1 f0 f0 _ _ _ = _).
  cbn [mbind res_bind app length].
  pose proof (best_of_peak (λ k, lane_theta load (take k l)) (length l)) as Hpeak. cbn zeta in Hpeak.
  destruct (best_of 1 _ _) as [best core]. cbn [fst snd] in Hpeak.
  pose proof (peak_width _ _ _ _ Hpeak) as Hcore.
  destruct (truncate_ok _ Hfin) as [wanted ->]. cbn [mbind res_bind].
  set (rows := zip_with _ _ _). set (target := Z.min _ wanted). set (floor := fmax (fmax _ _) _).
  set (opp := if _ && _ then _ else _).
  assert ((core ≤ opp ≤ length l)%nat ∧
          ((core < opp)%nat → fltb f0 floor = true ∧ (Z.of_nat opp ≤ target)%Z) ∧
          ∀ i row, (core ≤ i < opp)%nat → rows !! i = Some row →
            fltb (or_zero (ln_lane_value row)) floor = false) as (Hopp & Hbeyond & Hvalue).
  { unfold opp. destruct (Z.ltb_spec (Z.of_nat core) target) as [Ht|Ht]; [|simpl; split_and!; intros; lia].
    destruct (fltb f0 floor) eqn:Ef; simpl; [|split_and!; intros; lia].
    destruct (expand_spec load l floor core (Z.to_nat target - core)) as [H1 H2]; [lia|].
    fold rows in H1, H2. split_and!; [lia|lia| |done]. intros _. split; [done|lia]. }
  rewrite py_div_ok by (apply fmax_nonzero; [by intros []|done]). cbn [mbind res_bind].
  replace (Nat.max core opp) with opp by lia.
  eexists _, best, floor. split; [done|]. simpl. split_and!; try done; try lia.
  - unfold l. rewrite length_take. unfold lane_limit. lia.
  - rewrite <- list_fmap_compose, (list_fmap_ext _ ln_lane_index) by done.
    rewrite fmap_drop. unfold rows. rewrite lane_rows_index. apply drop_seq.
Qed.
End serial.

(** * Bundles *)

(** The confidence a bundle is cut by. *)
Definition bundle_confidence (c : option float) : float :=
  unit_clamp (match c with Some x => or_zero x | None => f0 end).

Lemma bundle_loop_spec threshold l i :
  ∃ k, bundle_loop threshold l i = (i + k)%nat ∧ (k ≤ length l)%nat ∧
    (∀ j c, (j < k)%nat → l !! j = Some c → fltb (bundle_confidence c) threshold = false) ∧
    ((k < length l)%nat → ∃ c, l !! k = Some c ∧ fltb (bundle_confidence c) threshold = true).
Proof.
  revert i. induction l as [|c l IH]; intros i; simpl.
  { exists 0%nat. split_and!; intros; lia. }
  fold (bundle_confidence c). destruct (fltb (bundle_confidence c) threshold) eqn:E.
  - exists 0%nat. split_and!; [lia|lia|intros; lia|eauto].
  - destruct (IH (S i)) as (k & -> & Hk & Hb & Ha). exists (S k). split_and!; [lia|lia| |].
    + intros [|j] d Hj Hd; simpl in Hd; [by simplify_eq|]. apply (Hb j); [lia|done].
    + intros ?. apply Ha. lia.
Qed.

(** A bundle is cut at the first confidence below the threshold: the
    length is at most the maximal length and the number of todos, a threshold
    that is not positive takes them all, and otherwise every todo kept reaches
    the threshold and the first one left out, if the maximum is not reached,
    does not. *)
Theorem bundle_cut confidences threshold max_length :
  let n := confident_bundle_prefix_length confidences threshold max_length in
  let cutoff := Nat.min (Z.to_nat (Z.max 0 max_length)) (length confidences) in
  (n ≤ cutoff)%nat ∧ (fleb threshold f0 = true → n = cutoff) ∧
  (fleb threshold f0 = false →
    (∀ i c, (i < n)%nat → confidences !! i = Some c → fltb (bundle_confidence c) threshold = false) ∧
    ((n < cutoff)%nat →
      ∃ c, confidences !! n = Some c ∧ fltb (bundle_confidence c) threshold = true)).
Proof.
  intros n cutoff. unfold n, confident_bundle_prefix_length. fold cutoff.
  destruct (fleb threshold f0); [split_and!; [lia|done|done]|].
  destruct (bundle_loop_spec threshold (take cutoff confidences) 0) as (k & -> & Hk & Hb & Ha).
  rewrite length_take in Hk, Ha. simpl. split_and!; [lia|done|]. intros _. split.
  - intros i c Hi Hc. apply (Hb i); [done|]. rewrite lookup_take_lt by lia. done.
  - intros Hlt. destruct Ha as (c & Hc & Hf); [lia|]. exists c. by rewrite lookup_take_lt in Hc by lia.
Qed.

(** * Dependencies *)

Section partition.
Variable (str_of : pyval → string).

(** A dependency is met when it is selected, accepted and not rejected. *)
Definition deps_met (selected accepted rejected : gset string) (branch : items) : Prop :=
  Forall (λ d, d ∈ selected ∧ d ∈ accepted ∧ d ∉ rejected) (dependencies str_of branch).

#[export] Instance deps_met_dec selected accepted rejected branch :
  Decision (deps_met selected accepted rejected branch).
Proof. apply _. Defined.

Definition reason_of (selected accepted rejected : gset string) (branch : items) : string :=
  default "" (invalidation selected accepted rejected (dependencies str_of branch)).

Lemma invalidation_none selected accepted rejected deps :
  invalidation selected accepted rejected deps = None ↔
  Forall (λ d, d ∈ selected ∧ d ∈ accepted ∧ d ∉ rejected) deps.
Proof.
  unfold invalidation. rewrite Forall_forall. split.
  - destruct (filter _ deps) eqn:E1; [|done]. destruct (filter (λ d, d ∈ rejected) deps) eqn:E2; [|done].
    destruct (filter (λ d, d ∈ selected ∧ d ∉ accepted) deps) eqn:E3; [|done]. intros _ d Hd.
    assert (d ∈ selected) as Hs.
    { destruct (decide (d ∈ selected)); [done|]. exfalso. apply (not_elem_of_nil d). rewrite <- E1.
      by apply list_elem_of_filter. }
    split_and!; [done| |].
    + destruct (decide (d ∈ accepted)); [done|]. exfalso. apply (not_elem_of_nil d). rewrite <- E3.
      by apply list_elem_of_filter.
    + intros Hr. apply (not_elem_of_nil d). rewrite <- E2. by apply list_elem_of_filter.
  - intros H. rewrite !filter_none; [done|..]; apply Forall_forall; intros d Hd;
      destruct (H d Hd) as (? & ? & ?); tauto.
Qed.

Lemma partition_fold selected accepted rejected lane branches v inv ev :
  fold_left (partition_step str_of selected accepted rejected lane) branches (v, inv, ev) =
  let bad := filter (λ b, ¬ deps_met selected accepted rejected b) branches in
  (v ++ filter (deps_met selected accepted rejected) branches,
   inv ++ ((λ b, invalid_branch b (reason_of selected accepted rejected b)) <$> bad),
   ev ++ ((λ b, build_accept_reject_event lane "invalidated" (branch_id_of str_of b)
                  (reason_of selected accepted rejected b) 0
                  [("depends_on", PSeq false (PStr <$> dependencies str_of b))]) <$> bad))%list.
Proof.
  revert v inv ev. induction branches as [|b l IH]; intros v inv ev; cbn [fold_left].
  { simpl. by rewrite !app_nil_r. }
  unfold partition_step at 2. rewrite !filter_cons. pose proof (invalidation_none selected accepted rejected
    (dependencies str_of b)) as Hn. fold (deps_met selected accepted rejected b) in Hn.
  destruct (invalidation _ _ _ _) as [reason|] eqn:E.
  - assert (¬ deps_met selected accepted rejected b) as Hb by (intros H; by apply Hn in H).
    rewrite decide_False, decide_True by done. rewrite IH. simpl. rewrite <- !app_assoc.
    assert (reason_of selected accepted rejected b = reason) as -> by (unfold reason_of; by rewrite E).
    done.
  - assert (deps_met selected accepted rejected b) as Hb by (by apply Hn).
    rewrite decide_True, decide_False by (done || by intros H). rewrite IH. simpl. by rewrite <- app_assoc.
Qed.

(** A branch stays in the plan exactly when each of its dependencies is
    selected, accepted and not rejected; every other branch is returned once
    among the invalidated ones, in order, marked with the reason, and one event
    carries its todo id, that reason and its dependencies. *)
Theorem partition_exact branches selected_ids accepted_ids rejected_ids lane :
  let selected := effective_selected str_of branches selected_ids in
  let accepted := effective_accepted selected accepted_ids in
  let rejected := list_to_set rejected_ids : gset string in
  let bad := filter (λ b, ¬ deps_met selected accepted rejected b) branches in
  let '(valid, invalidated, events) :=
    partition_invalidated_successors str_of branches selected_ids accepted_ids rejected_ids lane in
  valid = filter (deps_met selected accepted rejected) branches ∧
  Forall2 (λ b i, ∃ reason,
    invalidation selected accepted rejected (dependencies str_of b) = Some reason ∧
    pget "selection_status" i = PStr "invalidated_dependency" ∧
    pget "invalidation_reason" i = PStr reason ∧
    ∀ k, k ≠ "selection_status" → k ≠ "invalidation_reason" → pget k i = pget k b) bad invalidated ∧
  Forall2 (λ b e, ∃ reason,
    invalidation selected accepted rejected (dependencies str_of b) = Some reason ∧
    pget "todo_id" e = PStr (branch_id_of str_of b) ∧ pget "reason" e = PStr reason ∧
    pget "lane" e = PStr lane ∧
    pget "depends_on" e = PSeq false (PStr <$> dependencies str_of b)) bad events.
Proof.
  intros selected accepted rejected bad. unfold partition_invalidated_successors.
  fold selected accepted rejected. rewrite partition_fold. simpl. fold bad. split; [done|].
  assert (Forall (λ b, ∃ reason, reason_of selected accepted rejected b = reason ∧
    invalidation selected accepted rejected (dependencies str_of b) = Some reason) bad) as Hbad.
  { apply Forall_forall. intros b [Hb _]%list_elem_of_filter. unfold reason_of.
    destruct (invalidation _ _ _ _) eqn:E; [eauto|]. by apply invalidation_none in E. }
  split; apply Forall2_fmap_r, Forall_Forall2_diag; apply (Forall_impl _ _ _ Hbad);
    intros b (reason & Hrn & Hr); exists reason; simpl; rewrite ?Hrn; split_and!; try done.
  - unfold invalid_branch. by rewrite pget_pset_ne, pget_pset_eq.
  - unfold invalid_branch. by rewrite pget_pset_eq.
  - intros k H1 H2. unfold invalid_branch. by rewrite !pget_pset_ne.
Qed.
End partition.

(** * Load calibration *)

Lemma unit_clamp_bounds x : fleb f0 (unit_clamp x) = true ∧ fleb (unit_clamp x) f1 = true.
Proof.
  unfold unit_clamp, clamp, fmax, fmin. destruct (fltb x f1) eqn:E1; [|by vm_compute].
  destruct (fltb f0 x) eqn:E2; [|by vm_compute]. split; by apply fltb_fleb.
Qed.

Lemma weight_bounds x :
  let w := fmin (lit 45 100) (fmax (lit 15 100) x) in
  fleb (lit 15 100) w = true ∧ fleb w (lit 45 100) = true.
Proof.
  intros w. unfold w, fmin, fmax. destruct (fltb (lit 15 100) x) eqn:E1.
  - destruct (fltb x (lit 45 100)) eqn:E2; [split; by apply fltb_fleb|by vm_compute].
  - by vm_compute.
Qed.

(** Calibration returns whenever the branch count is an integer or a finite
    float.  Without a usable profile it reports the clamped fallback; with
    one, the measured load lies in [0, 1] and its weight in [0.15, 0.45]. *)
Theorem load_calibration_total py_pow str_of profile fallback :
  (∀ p v, profile = Some p → lp_branch_count p = Some v → is_ok (num_int v) = true) →
  ∃ c, calibrate_load_factor py_pow str_of profile fallback = Ok c ∧
    lc_fallback_load_factor c = round4 (unit_clamp fallback) ∧
    match lc_observed c with
    | None => lc_load_factor c = lc_fallback_load_factor c
    | Some o => ∃ measured weight,
        ob_measured_load_factor o = round4 measured ∧ ob_measurement_weight o = round4 weight ∧
        fleb f0 measured = true ∧ fleb measured f1 = true ∧
        fleb (lit 15 100) weight = true ∧ fleb weight (lit 45 100) = true ∧
        lc_load_factor c = round4 (fadd (fmul (fsub f1 weight) (unit_clamp fallback))
                                        (fmul weight measured))
    end.
Proof.
  intros H. unfold calibrate_load_factor. destruct profile as [p|]; [|eexists; by split_and!].
  assert (∃ n, num_int (default (NInt 1) (num_or (lp_branch_count p) None)) = Ok n) as [n ->].
  { specialize (H p). destruct (lp_branch_count p) as [v|]; [|eexists; done].
    specialize (H v eq_refl eq_refl). simpl. destruct (feqb (num_float v) f0); [eexists; done|].
    simpl. destruct (num_int v); [eexists; done|done]. }
  cbn [mbind res_bind].
  destruct (_ || _ || _) eqn:E; [eexists; by split_and!|].
  apply orb_false_elim in E as [_ Hmax]. rewrite py_div_ok.
  2:{ apply not_true_is_false. intros [s Hz]%feqb_zero. rewrite Hz in Hmax. by destruct s. }
  cbn [mbind res_bind]. rewrite py_div_ok by (apply fmax_nonzero; [by intros []|done]).
  eexists. split; [done|]. split; [done|]. simpl.
  pose proof (unit_clamp_bounds) as Hc. pose proof weight_bounds as Hw.
  eexists _, _. split_and!; try done; apply Hc || apply Hw.
Qed.

(** * Examples *)

Module SchedulerExample.

(** [x ** 1.0] in place of the platform's power. *)
Definition pow (x _ : float) : float := x.

Lemma pow_no_sign n : no_sign (pow (float_of_Z (Z.of_nat n)) (lit 118 100)).
Proof. apply float_of_Z_no_sign. lia. Qed.

Definition branch (id : string) (confidence : float) : candidate :=
  {| cd_todo_id := PStr id; cd_confidence := Some confidence; cd_expected_evidence_units := None |}.

Definition branches : list candidate :=
  [branch "a" (lit 9 10); branch "b" (lit 8 10); branch "c" (lit 1 10)].

Definition options : lane_options :=
  {| lo_max_width := 3; lo_load_factor := lit 1 2; lo_min_marginal_theta := f0;
     lo_utilization_floor := f1; lo_lane_value_floor := lit 3 10; lo_lane_value_ratio := f0 |}.

(** At a quarter of load two serial branches are best, the third does not pay. *)
Example serial_width_two :
  sc_selected_prefix_length <$> (match schedule_confidence_prefix pow branches 3 3 (lit 1 4) with
                                 | Ok s => Some s | Err _ => None end) = Some 2%nat.
Proof. vm_compute. reflexivity. Qed.

Lemma prefix_schedule_optimal_witness : ∃ s best,
  schedule_confidence_prefix pow branches 3 3 (lit 1 4) = Ok s ∧ sc_best_theta s = round3 best ∧
  peak (λ k, serial_theta pow (lit 1 4) (take k (considered 3 3 branches)))
    (length (considered 3 3 branches)) (sc_selected_prefix_length s) best.
Proof. exact (prefix_schedule_optimal pow pow_no_sign branches 3 3 (lit 1 4)). Defined.

Definition serial : res prefix_schedule := schedule_confidence_prefix pow branches 3 3 (lit 1 4).

Lemma prefix_steps_equivalent_witness : ∃ s, serial = Ok s ∧ length (sc_steps s) = 3%nat.
Proof.
  destruct serial as [s|e] eqn:E; [|vm_compute in E; discriminate].
  exists s. split; [done|].
  destruct (prefix_steps_equivalent pow pow_no_sign branches 3 3 (lit 1 4) s E) as [H _]. exact H.
Defined.

(** Two lanes at the theta peak, a third lane whose value is below the floor. *)
Lemma lane_admission_witness : ∃ s best floor,
  schedule_independent_lanes pow branches options = Ok s ∧
  peak (λ k, lane_theta pow (unit_clamp (lit 1 2)) (take k branches)) 3
    (ls_core_selected_prefix_length s) best ∧ ls_value_floor s = round4 floor.
Proof.
  destruct (lane_admission pow pow_no_sign branches options) as (s & best & floor & Hs & Hp & _ & _ & Hf & _).
  - vm_compute. reflexivity.
  - exists s, best, floor. exact (conj Hs (conj Hp Hf)).
Defined.

(** A rejected dependency invalidates its successor, selected or not. *)
Definition plan : list items :=
  [as_items [("todo_id", PStr "a")]; as_items [("todo_id", PStr "b"); ("depends_on", PStr "a; c")];
   as_items [("todo_id", PStr "c")]].

Example rejected_dependency :
  let '(valid, invalidated, _) :=
    partition_invalidated_successors (λ _, "") plan [] [] ["c"] "branch_plan" in
  valid = [as_items [("todo_id", PStr "a")]; as_items [("todo_id", PStr "c")]] ∧
  (pget "invalidation_reason" <$> invalidated) = [PStr "dependency_rejected:c"].
Proof. split; vm_compute; reflexivity. Qed.
End SchedulerExample.
