(* ===== verification/TodoContract.v ===== *)
(** What the branch planners read of a todo: the normalizers of
    [loopx/control_plane/todos/contract.py], the read model of
    [todo_semantics.py] and [monitor_todo.py], and the write scopes of
    [loopx/control_plane/work_items/task_lease.py].

    A todo is a mapping of texts, numbers, lists and mappings; Python sets are
    outside the model.  What the planners use and the model does not define
    are the fields of [planner_env]: the text, number and elements of values,
    sums and powers of floats, the normal form of a resume condition, the class
    that the patterns of [read_legacy_codec.json] give a text and the action
    names of that file, and the answers of the effect runtime on overlapping
    write scopes and on the composition settings of a harness. *)

From stdpp Require Import base strings list sets gmap.
From Stdlib Require Import ZArith Lia.
From S2P Require Import Prelude PyFloat PyValue PyConv TraceRuntime SpecScheduler.

Record planner_env := {
  str_of : pyval → string;
  repr_of : pyval → string;
  int_of_text : string → option Z;
  float_of_text : string → option float;
  iter_of : pyval → res (list pyval);
  py_sum : list float → float;
  py_pow : float → float → float;
  normalize_todo_resume_when : pyval → option string;
  todo_task_class_for_text : string → string;
  TODO_ACTION_KIND_ADVANCEMENT_VALUES : list string;
  TODO_ACTION_KIND_MONITOR_VALUES : list string;
  core_write_scopes_overlap : list string → list string → res bool;
  composition_policy : items → res (pyval * pyval)
}.

(** * Texts *)

(** [re.split("[...]", s)] with a class of single characters. *)
Fixpoint split_any (p : Ascii.ascii → bool) (word s : string) : list string :=
  match s with
  | EmptyString => [word]
  | String c s' => if p c then word :: split_any p "" s' else split_any p (word ++ String c "") s'
  end.

(** [s[:i]] for the first index [i] of a character of the class, or [s]. *)
Fixpoint before_any (p : Ascii.ascii → bool) (s : string) : string :=
  match s with
  | EmptyString => ""
  | String c s' => if p c then "" else String c (before_any p s')
  end.

Definition slash : Ascii.ascii := Ascii.ascii_of_N 47.

(** [s[: s.rfind("/") + 1]]. *)
Fixpoint upto_last_slash (s : string) : string :=
  match s with
  | EmptyString => ""
  | String c s' =>
      match upto_last_slash s' with
      | EmptyString => if bool_decide (c = slash) then String c "" else ""
      | t => String c t
      end
  end.

(** [^[first][rest]{0,most}$] on a text that does not end in a line break. *)
Definition token (first rest : Ascii.ascii → bool) (most : nat) (s : string) : bool :=
  match s with
  | EmptyString => false
  | String c s' => first c && all_chars rest s' && (String.length s' <=? most)%nat
  end.

Definition lower_or_digit (c : Ascii.ascii) : bool := lower_letter c || digit c.

Definition TODO_ID_PATTERN (s : string) : bool :=
  startswith "todo_" s
  && all_chars (λ c, lower_or_digit c || one_of "_-" c) s
  && (8 <=? String.length s)%nat && (String.length s <=? 69)%nat.
Definition TODO_AGENT_CLAIM_PATTERN : string → bool :=
  token lower_letter (λ c, lower_or_digit c || one_of "_.:@-" c) 79.
Definition TODO_CAPABILITY_PATTERN : string → bool :=
  token lower_letter (λ c, lower_or_digit c || one_of "_:-" c) 63.
Definition TODO_ACTION_KIND_PATTERN : string → bool :=
  token lower_letter (λ c, lower_or_digit c || one_of "_-" c) 63.
Definition TODO_EXPLORE_RESULT_NODE_REF_PATTERN : string → bool :=
  token is_ascii_letter (λ c, alphanumeric c || one_of "_.:-" c) 95.
Definition TODO_WRITE_SCOPE_MAX_CHARS : nat := 160.

Definition TODO_TASK_CLASS_ADVANCEMENT : string := "advancement_task".
Definition TODO_TASK_CLASS_MONITOR : string := "continuous_monitor".
Definition TODO_TASK_CLASS_VALUES : list string :=
  [TODO_TASK_CLASS_ADVANCEMENT; TODO_TASK_CLASS_MONITOR; "user_gate"; "user_action"; "blocker"].
Definition TODO_STATUS_OPEN : string := "open".
Definition TODO_STATUS_VALUES : list string := [TODO_STATUS_OPEN; "done"; "blocked"; "deferred"].

Definition space : Ascii.ascii := Ascii.ascii_of_N 32.
Definition hyphen : Ascii.ascii := Ascii.ascii_of_N 45.
Definition underscore : Ascii.ascii := Ascii.ascii_of_N 95.

(** [mapping[key]] when [key in mapping]. *)
Fixpoint pfind (k : string) (d : items) : option pyval :=
  match d with
  | [] => None
  | (k', v) :: d' => if decide (k' = Some k) then Some v else pfind k d'
  end.

Section Todos.
Context (E : planner_env).

(** * Normal forms *)

Definition compact_todo_text (value : pyval) : string :=
  join " " (py_split (py_strip (str_or_empty (str_of E) value))).

(** [str(value or "").strip().lower()]. *)
Definition stripped_lower (value : pyval) : string :=
  py_lower (py_strip (str_or_empty (str_of E) value)).

Definition normalize_todo_action_kind (value : pyval) : option string :=
  let candidate := stripped_lower value in
  if is_empty candidate then None
  else if TODO_ACTION_KIND_PATTERN candidate then Some candidate else None.

Definition normalize_todo_claimed_by (value : pyval) : option string :=
  let candidate := replace_char space hyphen (py_lower (compact_todo_text value)) in
  if negb (is_empty candidate) && TODO_AGENT_CLAIM_PATTERN candidate then Some candidate else None.

Definition normalize_todo_id (value : pyval) : option string :=
  let candidate := stripped_lower value in
  if negb (is_empty candidate) && TODO_ID_PATTERN candidate then Some candidate else None.

(** The raw values of a list or of a separated text. *)
Definition raw_values (value : pyval) : list string :=
  match value with
  | PNone => []
  | PSeq _ l => str_or_empty (str_of E) <$> l
  | _ => split_any (one_of ",;|") "" (str_or_empty (str_of E) value)
  end.

Definition safe_scope (scope : string) : bool :=
  negb (is_empty scope)
  && (String.length scope <=? TODO_WRITE_SCOPE_MAX_CHARS)%nat
  && negb (startswith "/" scope || startswith "~" scope || bool_decide (".." ∈ split_on slash "" scope))
  && all_chars (λ c, negb (is_space c || one_of "<>" c)) scope.

Definition normalize_required_write_scopes (value : pyval) : list string :=
  uniq (filter (λ scope, safe_scope scope = true)
          ((λ raw, compact_todo_text (PStr raw)) <$> raw_values value)).

Definition normal_capability (raw : string) : string :=
  replace_char space underscore
    (replace_char hyphen underscore (py_lower (compact_todo_text (PStr raw)))).

Definition normalize_required_capabilities (value : pyval) : list string :=
  uniq (filter (λ capability, negb (is_empty capability) && TODO_CAPABILITY_PATTERN capability = true)
          (normal_capability <$> raw_values value)).

Definition normalize_explore_result_node_refs (value : pyval) : list string :=
  uniq (filter (λ ref, negb (is_empty ref) && TODO_EXPLORE_RESULT_NODE_REF_PATTERN ref = true)
          ((λ raw, compact_todo_text (PStr raw)) <$> raw_values value)).

Definition normalize_explicit_todo_task_class (value : pyval) : option string :=
  let candidate := stripped_lower value in
  if bool_decide (candidate ∈ TODO_TASK_CLASS_VALUES) then Some candidate else None.

Definition normalize_todo_status (value : pyval) : option string :=
  let candidate := stripped_lower value in
  if bool_decide (candidate ∈ TODO_STATUS_VALUES) then Some candidate else None.

Definition normalize_todo_task_class (value : pyval) (text : string) (action_kind : pyval) : string :=
  match normalize_explicit_todo_task_class value with
  | Some candidate => candidate
  | None =>
      match normalize_todo_action_kind action_kind with
      | Some kind =>
          if bool_decide (kind ∈ TODO_ACTION_KIND_ADVANCEMENT_VALUES E) then TODO_TASK_CLASS_ADVANCEMENT
          else if bool_decide (kind ∈ TODO_ACTION_KIND_MONITOR_VALUES E) then TODO_TASK_CLASS_MONITOR
          else todo_task_class_for_text E text
      | None => todo_task_class_for_text E text
      end
  end.

(** * The read model *)

Definition todo_item_task_text (item : items) : string :=
  join " " (filter (λ s, is_empty (py_strip s) = false)
              ((λ key, str_or_empty (str_of E) (pget key item)) <$> ["title"; "text"])).

Definition monitor_todo_task_class (item : items) (task_text : string) : string :=
  normalize_todo_task_class (pget "task_class" item) task_text (pget "action_kind" item).

Definition todo_item_task_class (item : items) : string :=
  monitor_todo_task_class item (todo_item_task_text item).

Definition monitor_todo_is_actionable_open (item : items) : bool :=
  match pget "done" item with
  | PBool true => false
  | _ =>
      if bool_decide (default TODO_STATUS_OPEN (normalize_todo_status (pget "status" item)) = TODO_STATUS_OPEN)
      then if match normalize_todo_resume_when E (pget "resume_when" item) with
              | Some condition => negb (is_empty condition)
              | None => false
              end
           then match pget "resume_ready" item with PBool true => true | _ => false end
           else true
      else false
  end.

Definition todo_item_is_actionable_open (item : items) : bool :=
  match pget "goal_acceptance_guard" item with
  | PMap false guard =>
      match pget "allowed" guard with
      | PBool false => false
      | _ => monitor_todo_is_actionable_open item
      end
  | _ => monitor_todo_is_actionable_open item
  end.

(** * Priorities *)

Definition TODO_PRIORITIES : list string := ["P0"; "P1"; "P2"; "P3"; "P4"].
Definition TODO_MISSING_PRIORITY_RANK : Z := 50.
Definition TODO_MISSING_INDEX : Z := 999999.

Definition is_p (c : Ascii.ascii) : bool := one_of "Pp" c.
Definition is_level (c : Ascii.ascii) : bool := char_in 48 52 c.
Definition dash_or_space (c : Ascii.ascii) : bool := bool_decide (c = hyphen) || is_space c.
Definition priority_text (d : Ascii.ascii) : string := String (Ascii.ascii_of_N 80) (String d "").

(** The legacy label pattern: [^(P[0-4])], then the end, a dash or a space. *)
Definition TODO_PRIORITY_LABEL_PATTERN (s : string) : option string :=
  match s with
  | String p (String d EmptyString) => if is_p p && is_level d then Some (priority_text d) else None
  | String p (String d (String c _)) =>
      if is_p p && is_level d && dash_or_space c then Some (priority_text d) else None
  | _ => None
  end.

Definition newline : Ascii.ascii := Ascii.ascii_of_N 10.

(** [.+$]: at least one character, and no line break but a last one. *)
Fixpoint dot_plus (seen : bool) (s : string) : bool :=
  match s with
  | EmptyString => seen
  | String c s' => if bool_decide (c = newline) then seen && is_empty s' else dot_plus true s'
  end.

(** [\s*(.+)$]. *)
Fixpoint spaces_dot_plus (s : string) : bool :=
  dot_plus false s || match s with String c s' => is_space c && spaces_dot_plus s' | EmptyString => false end.

(** [[^\]]*\]] and then the rest of the prefix pattern. *)
Fixpoint closes (s : string) : bool :=
  match s with
  | EmptyString => false
  | String c s' => if bool_decide (c = Ascii.ascii_of_N 93) then spaces_dot_plus s' else closes s'
  end.

(** The legacy prefix pattern: a bracketed priority, and text behind it.  The
    bracketed text starts with its label. *)
Definition TODO_PRIORITY_PREFIX_PATTERN (text : string) : option string :=
  match py_lstrip text with
  | String b (String p (String d (String c rest))) =>
      if bool_decide (b = Ascii.ascii_of_N 91) && is_p p && is_level d
         && (if bool_decide (c = Ascii.ascii_of_N 93) then spaces_dot_plus rest
             else dash_or_space c && closes rest)
      then Some (priority_text d) else None
  | _ => None
  end.

Definition todo_priority_label (item : items) : option string :=
  match pfind "priority" item with
  | Some (PStr value) => TODO_PRIORITY_LABEL_PATTERN (py_strip value)
  | Some _ => None
  | None =>
      TODO_PRIORITY_PREFIX_PATTERN
        (str_or_empty (str_of E) (por (pget "text" item) (pget "title" item)))
  end.

Definition todo_priority_rank (item : items) : Z :=
  match todo_priority_label item with
  | Some priority =>
      match list_find (λ p, p = priority) TODO_PRIORITIES with
      | Some (i, _) => Z.of_nat i
      | None => TODO_MISSING_PRIORITY_RANK
      end
  | None => TODO_MISSING_PRIORITY_RANK
  end.

(** [int(raw_index)] with its [TypeError] and [ValueError] caught. *)
Definition todo_index_rank (item : items) : res Z :=
  match pget "index" item with
  | PNone => Ok TODO_MISSING_INDEX
  | raw_index =>
      match to_int (int_of_text E) raw_index with
      | Ok n => Ok n
      | Err e => if bool_decide (exn_class e ∈ ["TypeError"; "ValueError"]) then Ok TODO_MISSING_INDEX
                 else Err e
      end
  end.

Definition todo_projection_sort_key (item : items) : res (Z * Z) :=
  index ← todo_index_rank item; Ok (todo_priority_rank item, index).

(** * Write scopes *)

Definition scope_root (scope : string) : string :=
  let value := py_strip scope in
  if bool_decide (value ∈ ["*"; "**"; "./"]) then ""
  else
    let value := before_any (one_of "*?[") value in
    let value := if contains_char slash value then upto_last_slash value else value in
    rstrip_char slash value.

Definition write_scopes_overlap (left right : list string) : res bool :=
  core_write_scopes_overlap E (normalize_required_write_scopes (PSeq false (PStr <$> left)))
    (normalize_required_write_scopes (PSeq false (PStr <$> right))).

(** Some scope of one list has the same non-empty root as one of the other. *)
Definition roots_meet (left right : list string) : bool :=
  existsb (λ l, existsb (λ r, negb (is_empty (scope_root l)) && bool_decide (scope_root l = scope_root r))
                        right) left.

Definition _scopes_overlap (left right : list string) : res bool :=
  overlap ← write_scopes_overlap left right;
  if (overlap : bool) then Ok true
  else Ok (roots_meet (normalize_required_write_scopes (PSeq false (PStr <$> left)))
             (normalize_required_write_scopes (PSeq false (PStr <$> right)))).

Definition _required_write_scopes (item : items) : list string :=
  normalize_required_write_scopes (pget "required_write_scopes" item).

Definition _required_capabilities (item : items) : list string :=
  normalize_required_capabilities (pget "required_capabilities" item).
End Todos.
