(* ===== verification/ResourcePortfolio.v ===== *)
(** Resource lanes of a branch plan:
    [loopx/capabilities/explore/resource_portfolio.py].

    A lane has a declared capacity and a current usage; a plan may fill its free
    slots. *)

From stdpp Require Import base strings list sets gmap.
From Stdlib Require Import ZArith Lia.
From S2P Require Import Prelude PyFloat PyValue PyConv PySort TraceRuntime TodoContract.

Definition RESOURCE_LANE_CAPABILITY_PREFIX : string := "resource_lane:".
Definition RESOURCE_LANE_KEY_PATTERN : string → bool :=
  token lower_letter (λ c, lower_or_digit c || one_of "_" c) 63.

(** [s.removeprefix(p)]. *)
Fixpoint removeprefix (p s : string) : string :=
  match p, s with
  | EmptyString, _ => s
  | String a p', String b s' => if bool_decide (a = b) && startswith p' s' then removeprefix p' s' else s
  | String _ _, EmptyString => s
  end.

(** [s.split("=", 1)] of a text that has the character. *)
Fixpoint split_once (a : Ascii.ascii) (word s : string) : option (string * string) :=
  match s with
  | EmptyString => None
  | String c s' => if bool_decide (c = a) then Some (word, s') else split_once a (word ++ String c "") s'
  end.

Definition equals_sign : Ascii.ascii := Ascii.ascii_of_N 61.

Record resource_lane := {
  capacity : Z;
  current_usage : Z;
  available_slots : Z;
  overcommitted_by : Z
}.

Record portfolio := {
  rp_enabled : bool;
  rp_capacities : list (string * Z);
  rp_usage : list (string * Z);
  rp_available_slot_count : Z;
  rp_lanes : list (string * resource_lane)
}.

(** The sum of a list of integers. *)
Definition zsum (l : list Z) : Z := foldr Z.add 0%Z l.

(** A lane with the slots a selection takes. *)
Record filled_lane := {
  fl_lane : resource_lane;
  selected_slots : Z;
  remaining_slots : Z
}.

Record filled_portfolio := {
  fp_portfolio : portfolio;
  fp_lanes : list (string * filled_lane);
  fp_selected_slot_count : Z;
  fp_remaining_slot_count : Z;
  fp_unassigned_selected_count : Z
}.

Section Portfolio.
Context (E : planner_env).

Definition normalize_resource_lane_key (value : pyval) : res string :=
  let key := replace_char space underscore (replace_char hyphen underscore (stripped_lower E value)) in
  if RESOURCE_LANE_KEY_PATTERN key then Ok key
  else Err (ValueError ("resource lane " ++ repr_of E value ++ " must start with a letter and contain only lowercase letters, digits, or underscores")).

Definition parse_resource_count (flag_name : string) (counts : list (string * Z)) (value : string)
  : res (list (string * Z)) :=
  match split_once equals_sign "" value with
  | None => Err (ValueError (flag_name ++ " expects KEY=N, got: " ++ value))
  | Some (raw_key, raw_count) =>
      key ← normalize_resource_lane_key (PStr raw_key);
      if dict_has key counts
      then Err (ValueError (flag_name ++ " repeats resource lane " ++ py_repr key))
      else match int_of_text E (py_strip raw_count) with
           | None => Err (raise_from
               (ValueError (flag_name ++ " expects KEY=N with an integer N, got: " ++ value))
               (ValueError ("invalid literal for int() with base 10: " ++ py_repr (py_strip raw_count))))
           | Some count =>
               if (count <? 0)%Z
               then Err (ValueError (flag_name ++ " expects a non-negative N, got: " ++ value))
               else Ok (dict_set key count counts)
           end
  end.

Definition parse_resource_counts (values : list string) (flag_name : string) : res (list (string * Z)) :=
  rfold (parse_resource_count flag_name) [] values.

Definition not_a_count (field_name key : string) : exn :=
  ValueError (field_name ++ "[" ++ py_repr key ++ "] must be a non-negative integer").

Definition normalize_resource_count (field_name : string) (counts : list (string * Z))
    (entry : option string * pyval) : res (list (string * Z)) :=
  key ← normalize_resource_lane_key (key_value entry.1);
  if dict_has key counts
  then Err (ValueError (field_name ++ " repeats resource lane " ++ py_repr key))
  else match to_int (int_of_text E) entry.2 with
       | Err c =>
           if bool_decide (exn_class c ∈ ["OverflowError"; "TypeError"; "ValueError"])
           then Err (raise_from (not_a_count field_name key) c) else Err c
       | Ok count =>
           if (match entry.2 with PBool _ => true | _ => false end)
              || (count <? 0)%Z
              || match entry.2 with PStr _ => false | raw => negb (py_eq raw (PInt count)) end
           then Err (not_a_count field_name key)
           else Ok (dict_set key count counts)
       end.

(** [sorted(counts.items())]: the keys are distinct. *)
Definition sort_counts : list (string * Z) → list (string * Z) :=
  py_sort (λ a b, String.ltb a.1 b.1).

Definition normalize_resource_counts (values : items) (field_name : string) : res (list (string * Z)) :=
  counts ← rfold (normalize_resource_count field_name) [] values;
  Ok (sort_counts counts).

(** The lane of a key, from its capacity and usage. *)
Definition mk_lane (capacity usage : Z) : resource_lane :=
  {| capacity := capacity; current_usage := usage; available_slots := Z.max 0 (capacity - usage);
     overcommitted_by := Z.max 0 (usage - capacity) |}.

(** [counts.get(key, 0)]. *)
Definition count_of (key : string) (counts : list (string * Z)) : Z := default 0%Z (dict_get key counts).

Definition resolve_resource_portfolio (capacities usage : items) : res portfolio :=
  normalized_capacities ← normalize_resource_counts capacities "resource_capacities";
  normalized_usage ← normalize_resource_counts usage "resource_usage";
  let unknown_usage := filter (λ key, dict_has key normalized_capacities = false) (dict_keys normalized_usage) in
  match unknown_usage with
  | _ :: _ => Err (ValueError ("resource_usage requires matching resource_capacities for: "
                               ++ join ", " unknown_usage))
  | [] =>
      let lanes := (λ kc, (kc.1, mk_lane kc.2 (count_of kc.1 normalized_usage))) <$> normalized_capacities in
      Ok {| rp_enabled := negb (match normalized_capacities with [] => true | _ => false end);
            rp_capacities := normalized_capacities;
            rp_usage := (λ kc, (kc.1, count_of kc.1 normalized_usage)) <$> normalized_capacities;
            rp_available_slot_count := zsum ((λ kl, available_slots kl.2) <$> lanes);
            rp_lanes := lanes |}
  end.

Definition add_resource_lane (lanes : list string) (capability : pyval) : res (list string) :=
  let text := stripped_lower E capability in
  if startswith RESOURCE_LANE_CAPABILITY_PREFIX text
  then let key := removeprefix RESOURCE_LANE_CAPABILITY_PREFIX text in
       if negb (is_empty key) && negb (bool_decide (key ∈ lanes))
       then lane ← normalize_resource_lane_key (PStr key); Ok (lanes ++ [lane])%list
       else Ok lanes
  else Ok lanes.

Definition resource_lane_from_capabilities (capabilities : list pyval) : res string :=
  lanes ← rfold add_resource_lane [] capabilities;
  match lanes with
  | [] => Ok ""
  | [lane] => Ok lane
  | _ => Err (ValueError "an advancement todo may declare only one resource_lane:<key> capability")
  end.

Definition resource_assignment (p : portfolio) (resource_lane : string) (selected_count : Z) : option items :=
  if negb (rp_enabled p) || is_empty resource_lane then None
  else lane ← dict_get resource_lane (rp_lanes p);
       Some (as_items [("resource_lane", PStr resource_lane);
                       ("slot_ordinal", PInt (current_usage lane + selected_count));
                       ("capacity", PInt (capacity lane));
                       ("current_usage", PInt (current_usage lane))]).

(** How many selected branches name the lane. *)
Definition in_lane (key : string) (branch : items) : bool := py_eq (pget "resource_lane" branch) (PStr key).

Definition lane_count (key : string) (selected : list items) : Z :=
  Z.of_nat (length (filter (λ b, in_lane key b = true) selected)).

Definition resource_portfolio_with_selection (p : portfolio) (selected : list items) : filled_portfolio :=
  let lanes :=
    (λ kl, (kl.1, {| fl_lane := kl.2; selected_slots := lane_count kl.1 selected;
                     remaining_slots := Z.max 0 (available_slots kl.2 - lane_count kl.1 selected) |}))
    <$> rp_lanes p in
  {| fp_portfolio := p; fp_lanes := lanes;
     fp_selected_slot_count := zsum ((λ kl, selected_slots kl.2) <$> lanes);
     fp_remaining_slot_count := zsum ((λ kl, remaining_slots kl.2) <$> lanes);
     fp_unassigned_selected_count :=
       Z.of_nat (length (filter (λ b, truthy (pget "resource_lane" b) = false) selected)) |}.
End Portfolio.
