(* ===== verification/HarnessGate.v ===== *)
(** The opt-in gate of the explore planners:
    [compact_orchestration_policy] of [loopx/orchestration.py] and
    [loopx/capabilities/explore/harness_gate.py].

    The label of the lane ceiling is neither of the two other labels. *)

From stdpp Require Import base strings list sets gmap.
From Stdlib Require Import ZArith Lia.
From S2P Require Import Prelude PyFloat PyValue PyConv TraceRuntime SpecScheduler TodoContract.

Definition DEFAULT_ORCHESTRATION_MODE : string := "default".
Definition MULTI_SUBAGENT_ORCHESTRATION_MODE : string := "multi_subagent".
Definition VALID_ORCHESTRATION_MODES : list string :=
  [DEFAULT_ORCHESTRATION_MODE; MULTI_SUBAGENT_ORCHESTRATION_MODE].

Definition SUBAGENT_REASONING_EFFORTS : list string :=
  ["none"; "minimal"; "low"; "medium"; "high"; "xhigh"; "max"; "ultra"].

Definition is_true (v : pyval) : bool := match v with PBool b => b | _ => false end.

Record harness_policy := {
  hp_enabled : bool;
  hp_profile : option string;
  hp_composition_mode : option pyval;
  hp_composition_scope_id : option pyval
}.

Record compact_policy := {
  cp_mode : string;
  cp_spawn_allowed : bool;
  cp_max_children : Z;
  cp_model_config : option (string * option string);
  cp_execution_config : option string;
  cp_allowed_domains : list string;
  cp_explore_harness : option harness_policy
}.

Inductive gate_state := GATE_STATE_DISABLED | GATE_STATE_ANALYSIS_ONLY | GATE_STATE_COMMANDS_SUGGESTED.

#[export] Instance gate_state_eq_dec : EqDecision gate_state.
Proof. solve_decision. Defined.

Record harness_gate := {
  hg_boundary_provided : bool;
  hg_enabled : bool;
  hg_spawn_allowed : bool;
  hg_max_children : Z;
  hg_requested_width : Z;
  hg_goal_pinned_profile : option string;
  hg_state : gate_state;
  hg_reason : string;
  hg_effective_width : Z;
  hg_width_cap_source : string
}.

(** [value[key]] on a [dict]: its items, or none for any other value. *)
Definition dict_items (v : pyval) : items := match v with PMap false d => d | _ => [] end.

(** [PurePosixPath(text).parts] of a relative path. *)
Definition path_parts (text : string) : list string :=
  filter (λ part, part ≠ "" ∧ part ≠ ".") (split_on slash "" text).

(** [path.suffix == ".json"] for a last part [name]. *)
Definition has_json_suffix (name : string) : bool :=
  (5 <? String.length name)%nat
  && bool_decide (String.substring (String.length name - 5) 5 name = ".json").

Definition backslash : Ascii.ascii := Ascii.ascii_of_N 92.

Section Gate.
Context (E : planner_env).

Definition validate_subagent_model_config (value : pyval) : res (string * option string) :=
  let wrong := ValueError "subagent model config requires model and optional reasoning_effort" in
  match value with
  | PMap false d =>
      if forallb (λ k, bool_decide (k ∈ [Some "model"; Some "reasoning_effort"])) d.*1
      then match pget "model" d with
           | PStr model =>
               if token alphanumeric (λ c, alphanumeric c || one_of "._:/-" c) 159 model
               then match pfind "reasoning_effort" d with
                    | None => Ok (model, None)
                    | Some (PStr effort) =>
                        if bool_decide (effort ∈ SUBAGENT_REASONING_EFFORTS) then Ok (model, Some effort)
                        else Err (ValueError "unsupported subagent reasoning effort")
                    | Some _ => Err (ValueError "unsupported subagent reasoning effort")
                    end
               else Err (ValueError "subagent model must be a non-empty model identifier")
           | _ => Err (ValueError "subagent model must be a non-empty model identifier")
           end
      else Err wrong
  | _ => Err wrong
  end.

Definition normalize_subagent_execution_config (value : pyval) : res string :=
  let text := replace_char backslash slash (py_strip (str_or_empty (str_of E) value)) in
  let parts := path_parts text in
  if is_empty text || startswith "/" text || bool_decide (".." ∈ parts)
     || (length parts <? 3)%nat || negb (bool_decide (take 2 parts = [".loopx"; "config"]))
     || negb (has_json_suffix (default "" (last parts)))
  then Err (ValueError "subagent execution config must be a repo-relative JSON path under .loopx/config/")
  else Ok (join "/" parts).

Definition _int_number (value : pyval) : Z :=
  match value with
  | PInt n => n
  | PFloat x => match truncate x with Ok n => n | Err _ => 0%Z end
  | PStr s => default 0%Z (int_of_text E (py_strip s))
  | _ => 0%Z
  end.

Definition _spawn_allowed (policy : items) : bool :=
  is_true (pget "allowed" policy) || is_true (pget "spawn_allowed" policy).

Definition orchestration_mode_from_spawn_policy (policy : items) : string :=
  let explicit_mode :=
    py_strip (str_or_empty (str_of E) (por (pget "mode" policy) (pget "orchestration_mode" policy))) in
  if bool_decide (explicit_mode ∈ VALID_ORCHESTRATION_MODES) then explicit_mode
  else if _spawn_allowed policy && (0 <? _int_number (pget "max_children" policy))%Z
  then MULTI_SUBAGENT_ORCHESTRATION_MODE else DEFAULT_ORCHESTRATION_MODE.

Definition compact_explore_harness_policy (harness : items) : res harness_policy :=
  let profile := text_or_none (py_strip (str_or_empty (str_of E) (pget "profile" harness))) in
  let plain := {| hp_enabled := is_true (pget "enabled" harness); hp_profile := profile;
                  hp_composition_mode := None; hp_composition_scope_id := None |} in
  if is_some (pfind "composition_mode" harness) || is_some (pfind "composition_scope_id" harness)
  then policy ← composition_policy E harness;
       Ok {| hp_enabled := hp_enabled plain; hp_profile := profile;
             hp_composition_mode := Some policy.1;
             hp_composition_scope_id := if is_none policy.2 then None else Some policy.2 |}
  else Ok plain.

Definition compact_orchestration_policy (spawn_policy : pyval) : res compact_policy :=
  let policy := dict_items spawn_policy in
  let max_children := Z.max 0 (_int_number (pget "max_children" policy)) in
  let allowed_domains := match pget "allowed_domains" policy with PSeq false l => l | _ => [] end in
  model_config ← (match pfind "model_config" policy with
                  | Some value => config ← validate_subagent_model_config value; Ok (Some config)
                  | None => Ok None
                  end);
  execution_config ← (if truthy (pget "execution_config" policy)
                      then config ← normalize_subagent_execution_config (pget "execution_config" policy);
                           Ok (Some config)
                      else Ok None);
  explore_harness ← (match pget "explore_harness" policy with
                     | PMap false harness => h ← compact_explore_harness_policy harness; Ok (Some h)
                     | _ => Ok None
                     end);
  Ok {| cp_mode := orchestration_mode_from_spawn_policy policy;
        cp_spawn_allowed := _spawn_allowed policy; cp_max_children := max_children;
        cp_model_config := model_config; cp_execution_config := execution_config;
        cp_allowed_domains := filter (λ s, is_empty (py_strip s) = false)
                                (py_str (str_of E) <$> allowed_domains);
        cp_explore_harness := explore_harness |}.

(** The smaller cap; on ties the one with the lower priority number. *)
Definition cap_ltb (a b : Z * (Z * string)) : bool :=
  (a.1 <? b.1)%Z || (a.1 =? b.1)%Z && (a.2.1 <? b.2.1)%Z.

Definition min_cap (first : Z * (Z * string)) (rest : list (Z * (Z * string))) : Z * (Z * string) :=
  fold_left (λ best cap, if cap_ltb cap best then cap else best) rest first.

Definition resolve_explore_harness_gate (orchestration : pyval) (requested_width max_lanes : Z)
    (max_lanes_label : string) : res harness_gate :=
  let boundary_provided := is_mapping orchestration && truthy orchestration in
  compact ← compact_orchestration_policy
              (match orchestration with
               | PMap _ d => if boundary_provided then PMap false d else PNone
               | _ => PNone
               end);
  let enabled := match cp_explore_harness compact with Some h => hp_enabled h | None => false end in
  let profile := match cp_explore_harness compact with Some h => hp_profile h | None => None end in
  let spawn_allowed := cp_spawn_allowed compact in
  let max_children := Z.max 0 (cp_max_children compact) in
  let requested := Z.max 1 (if (requested_width =? 0)%Z then 1 else requested_width) in
  let gate state reason width source :=
    {| hg_boundary_provided := boundary_provided; hg_enabled := enabled;
       hg_spawn_allowed := spawn_allowed; hg_max_children := max_children;
       hg_requested_width := requested; hg_goal_pinned_profile := profile;
       hg_state := state; hg_reason := reason; hg_effective_width := width;
       hg_width_cap_source := source |} in
  if negb enabled then
    Ok (gate GATE_STATE_DISABLED "explore_harness_opt_in_required" 0%Z "gate_disabled")
  else
    let width_caps :=
      ((Z.max 1 max_lanes, (1, max_lanes_label))
         :: (if (0 <? max_children)%Z then [(max_children, (0, "max_children"))] else []))%Z in
    let '(effective_width, (_, width_cap_source)) := min_cap (requested, (2%Z, "requested")) width_caps in
    let '(state, reason) :=
      if negb spawn_allowed then (GATE_STATE_ANALYSIS_ONLY, "spawn_not_allowed_by_goal_boundary")
      else if (max_children <=? 0)%Z
      then (GATE_STATE_ANALYSIS_ONLY, "spawn_allowed_without_child_capacity")
      else (GATE_STATE_COMMANDS_SUGGESTED, "goal_boundary_opt_in") in
    Ok (gate state reason (Z.max 1 effective_width) width_cap_source).
End Gate.
