(* ===== verification/TodoEvidence.v ===== *)
(** The evidence audit of a todo: [loopx/capabilities/explore/todo_evidence.py].
    It follows the explicit links of a todo to the nodes of an Explore
    projection, and is only shown. *)

From stdpp Require Import base strings list sets gmap.
From Stdlib Require Import ZArith Lia.
From S2P Require Import Prelude PyFloat PyValue PyConv PySort TraceRuntime TodoContract.

Definition MAX_AUDIT_FINDINGS : nat := 24.
Definition MAX_AUDIT_EDGES : nat := 24.
Definition RELEVANT_EDGE_TYPES : list string := ["supports"; "refutes"].

(** [Counter(l)]. *)
Definition counter (l : list string) : list (string * Z) :=
  fold_left (λ d k, dict_set k (default 0 (dict_get k d) + 1)%Z d) l [].

(** [dict(sorted(counter.items()))]. *)
Definition sorted_counter (d : list (string * Z)) : pyval :=
  PMap false ((λ kv, (Some kv.1, PInt kv.2)) <$> py_sort (λ a b, String.ltb a.1 b.1) d).

Definition texts (l : list string) : pyval := PSeq false (PStr <$> l).

Section Evidence.
Context (E : planner_env).

(** [str(mapping.get(key) or default)]. *)
Definition text_of (key default : string) (d : items) : string :=
  py_str (str_of E) (por (pget key d) (PStr default)).

Definition _compact_node (node : items) : res pyval :=
  count ← int_or_zero (int_of_text E) (pget "finding_count" node);
  Ok (PMap false (as_items [("node_id", PStr (text_of "node_id" "" node));
                            ("status", PStr (text_of "status" "open" node));
                            ("node_kind", PStr (text_of "node_kind" "area" node));
                            ("title", PStr (text_of "title" "" node)); ("finding_count", PInt count)])).

Definition _compact_finding (finding : items) : pyval :=
  PMap false (as_items [("finding_id", PStr (text_of "finding_id" "" finding));
                        ("node_id", PStr (text_of "node_id" "" finding));
                        ("status", PStr (text_of "status" "tentative" finding));
                        ("confidence", pget "confidence" finding);
                        ("finding", PStr (text_of "finding" "" finding))]).

Definition _compact_edge (edge : items) : pyval :=
  PMap false (as_items [("edge_id", PStr (text_of "edge_id" "" edge));
                        ("from_node", PStr (text_of "from_node" "" edge));
                        ("to_node", PStr (text_of "to_node" "" edge));
                        ("edge_type", PStr (text_of "edge_type" "" edge));
                        ("confidence", pget "confidence" edge)]).

(** The mappings among [d.get(key) or []]. *)
Definition mappings (key : string) (d : items) : res (list items) :=
  rows ← py_iter (iter_of E) (por (pget key d) (PSeq false []));
  Ok (omap (λ v, match v with PMap _ row => Some row | _ => None end) (rows : list pyval)).

Definition code_if (b : bool) (text : string) : list string := if b then [text] else [].

Definition build_todo_typed_evidence_audit (todo : items) (projection : pyval) : res (option pyval) :=
  match normalize_explore_result_node_refs E (pget "explore_result_node_refs" todo) with
  | [] => Ok None
  | requested_refs =>
      let projection := match projection with PMap _ d => d | _ => [] end in
      nodes ← mappings "nodes" projection;
      let nodes_by_id := dict_by (text_of "node_id" "") (filter (λ n, truthy (pget "node_id" n) = true) nodes) in
      let linked_nodes := omap (λ ref, dict_get ref nodes_by_id) requested_refs in
      let linked_ids := text_of "node_id" "" <$> linked_nodes in
      let unknown_refs := filter (λ ref, dict_has ref nodes_by_id = false) requested_refs in
      all_findings ← mappings "findings" projection;
      let findings := filter (λ f, text_of "node_id" "" f ∈ linked_ids) all_findings in
      all_edges ← mappings "edges" projection;
      let edges := filter (λ e, text_of "edge_type" "" e ∈ RELEVANT_EDGE_TYPES ∧
                                (text_of "from_node" "" e ∈ linked_ids ∨ text_of "to_node" "" e ∈ linked_ids))
                     all_edges in
      let node_statuses := counter (text_of "status" "open" <$> linked_nodes) in
      let finding_statuses := counter (text_of "status" "tentative" <$> findings) in
      let edge_types := counter (text_of "edge_type" "" <$> edges) in
      let present key d := match dict_get key d with Some n => negb (n =? 0)%Z | None => false end in
      let reason_codes :=
        ("explicit_result_node_link"
         :: code_if (negb (match linked_nodes with [] => true | _ => false end)) "linked_nodes_resolved"
         ++ code_if (present "confirmed" finding_statuses) "confirmed_finding_present"
         ++ code_if (present "supports" edge_types) "support_edge_present")%list in
      let unknown := negb (match unknown_refs with [] => true | _ => false end) in
      let hazards :=
        (code_if unknown "unknown_result_node_ref"
         ++ code_if (present "dead_end" node_statuses) "linked_node_dead_end"
         ++ code_if (present "refuted" finding_statuses) "linked_finding_refuted"
         ++ code_if (present "refutes" edge_types) "refute_edge_present")%list in
      compact_nodes ← rmap _compact_node linked_nodes;
      Ok (Some (PMap false (as_items
        [("schema_version", PStr "loopx_explore_todo_evidence_audit_v0");
         ("mode", PStr "diagnostic_only"); ("score_delta", PFloat f0);
         ("requested_node_refs", texts requested_refs);
         ("resolved_node_refs", texts linked_ids);
         ("unknown_node_refs", texts unknown_refs);
         ("nodes", PSeq false compact_nodes);
         ("findings", PSeq false (_compact_finding <$> take MAX_AUDIT_FINDINGS findings));
         ("relevant_edges", PSeq false (_compact_edge <$> take MAX_AUDIT_EDGES edges));
         ("status_counts", PMap false (as_items [("nodes", sorted_counter node_statuses);
                                                 ("findings", sorted_counter finding_statuses);
                                                 ("edges", sorted_counter edge_types)]));
         ("reason_codes", texts reason_codes); ("hazards", texts hazards);
         ("repair_hint", PStr (if unknown then "Replace unknown ids with existing Explore node ids, or run `loopx todo update --clear-explore-result-node-refs` to unlink this todo." else ""));
         ("boundary", PMap false ((λ k, (Some k, PBool false)) <$>
            ["changes_score"; "writes_state"; "claims_todos"; "acquires_leases"; "starts_agents";
             "changes_quota"]))])))
  end.
End Evidence.
