(* ===== verification/BranchPlan.v ===== *)
(** The todo branch planner:
    [loopx/capabilities/explore/todo_branch_plan.py] and
    [build_branch_plan_ab_result] of [speculative_scheduler.py].

    The planner ranks the open todos of a goal, asks the speculative scheduler
    how many branches to issue, and selects branches in rounds: a round admits
    candidates in order, and a round whose selection has a branch with an unmet
    dependency is repeated without that branch.  Candidates and branches are
    mappings, as in the code. *)

From stdpp Require Import base strings list sets gmap.
From Stdlib Require Import ZArith Lia.
From S2P Require Import Prelude PyFloat PyValue PyConv PySort TraceRuntime SpecScheduler.
From S2P Require Import TodoContract ResourcePortfolio HarnessGate TodoEvidence.

Definition DEFAULT_BRANCH_WIDTH : Z := 3.
Definition MAX_BRANCH_WIDTH : Z := 8.
Definition SHARED_DEPENDENCY_CAPABILITY_PREFIXES : list string := ["shared_artifact:"; "shared_implementation:"].

(** The characters of [TOKEN_PATTERN]. *)
Definition token_char (c : Ascii.ascii) : bool := alphanumeric c || one_of "_:-" c.

Section Tokens.
Context (E : planner_env).

(** The runs of at least three such characters, in lower case. *)
Definition _tokenize (value : pyval) : gset string :=
  list_to_set (py_lower <$> filter (λ w, (3 ≤ String.length w)%nat)
                 (split_any (λ c, negb (token_char c)) "" (str_or_empty (str_of E) value))).

(** [tokens.update(_tokenize(tag))] for every tag. *)
Definition tag_tokens (item : items) : res (gset string) :=
  tags ← py_iter (iter_of E) (por (pget "tags" item) (PSeq false []));
  Ok (union_list (_tokenize <$> (tags : list pyval))).

Definition item_tokens (tokens : gset string) (item : items) : res (gset string) :=
  tags ← tag_tokens item;
  Ok (tokens ∪ _tokenize (pget "node_id" item) ∪ _tokenize (pget "title" item)
      ∪ _tokenize (pget "summary" item) ∪ tags).

Definition _frontier_tokens (projection : pyval) : res (gset string) :=
  match projection with
  | PMap _ d =>
      rfold (λ tokens lane, rows ← mappings E lane d; rfold item_tokens tokens rows) ∅ ["frontier"; "stuck"]
  | _ => Ok ∅
  end.

Definition _compact_text (value : pyval) (limit : nat) : string :=
  let text := join " " (py_split (py_strip (str_or_empty (str_of E) value))) in
  if (String.length text <=? limit)%nat then text
  else py_rstrip (String.substring 0 (limit - 1) text) ++ "...".

Definition _shared_dependency_capabilities (item : items) : list string :=
  filter (λ c, existsb (λ p, startswith p c) SHARED_DEPENDENCY_CAPABILITY_PREFIXES = true)
    (_required_capabilities E item).
End Tokens.

(** * Scores *)

Record branch_score := {
  bs_score : float;
  bs_reason_codes : list string;
  bs_hazards : list string
}.

(** [score += x] with a reason or a hazard. *)
Definition score_up (x : float) (codes : list string) (b : branch_score) : branch_score :=
  {| bs_score := fadd (bs_score b) x; bs_reason_codes := bs_reason_codes b ++ codes;
     bs_hazards := bs_hazards b |}.

Definition score_down (x : float) (hazard : string) (b : branch_score) : branch_score :=
  {| bs_score := fsub (bs_score b) x; bs_reason_codes := bs_reason_codes b;
     bs_hazards := bs_hazards b ++ [hazard] |}.

Definition note (code : string) (b : branch_score) : branch_score :=
  {| bs_score := bs_score b; bs_reason_codes := bs_reason_codes b ++ [code]; bs_hazards := bs_hazards b |}.

Section Scores.
Context (E : planner_env) (agent_id : option string).

Definition todo_status (item : items) : string :=
  match normalize_todo_status E (pget "status" item) with
  | Some status => status
  | None => if truthy (pget "done" item) then "done" else TODO_STATUS_OPEN
  end.

(** The owner and the planner's agent, in normal form. *)
Definition owner_of (item : items) : option string := normalize_todo_claimed_by E (pget "claimed_by" item).
Definition planner_agent : option string := normalize_todo_claimed_by E (opt_str agent_id).

(** [normalized_agent and claimed_by == normalized_agent]. *)
Definition claimed_by_agent (item : items) : bool :=
  match planner_agent with Some a => bool_decide (owner_of item = Some a) | None => false end.

Definition _branch_score (item : items) (frontier : gset string) : branch_score :=
  let status := todo_status item in
  if negb (bool_decide (status = TODO_STATUS_OPEN)) then
    {| bs_score := float_of_Z (-1000); bs_reason_codes := ["not_open"]; bs_hazards := ["status:" ++ status] |}
  else
    let b := {| bs_score := f0; bs_reason_codes := []; bs_hazards := [] |} in
    let b := if todo_item_is_actionable_open E item then note "actionable_open" b
             else score_down (float_of_Z 80) "not_actionable_open" b in
    let priority_rank := todo_priority_rank E item in
    let b := score_up (float_of_Z (Z.max 0 (80 - priority_rank * 12)))
               ["priority_rank:" ++ py_int priority_rank] b in
    let task_class := todo_item_task_class E item in
    let b := if bool_decide (task_class = TODO_TASK_CLASS_ADVANCEMENT)
             then score_up (float_of_Z 18) ["advancement_task"] b
             else if bool_decide (task_class = TODO_TASK_CLASS_MONITOR)
             then score_down (float_of_Z 20) "monitor_lane" b
             else score_down (float_of_Z 35) ("non_advancement:" ++ task_class) b in
    let b := if claimed_by_agent item then score_up (float_of_Z 15) ["claimed_by_current_agent"] b
             else match owner_of item with
                  | Some owner => score_down (float_of_Z 120) ("claimed_by_other:" ++ owner) b
                  | None => score_up (float_of_Z 8) ["unclaimed"] b
                  end in
    let b := match _required_write_scopes E item with
             | [] => note "unscoped_treat_as_speculative_read_or_coordination" b
             | _ => score_up (float_of_Z 5) ["declared_write_scope"] b
             end in
    let b := match _required_capabilities E item with [] => b | _ => note "declared_capabilities" b end in
    let overlap := size ((_tokenize E (pget "text" item) ∪ _tokenize E (pget "title" item)) ∩ frontier) in
    if (overlap =? 0)%nat then b
    else score_up (fmin (float_of_Z 12) (fmul (lit 25 10) (float_of_Z (Z.of_nat overlap))))
           ["explore_frontier_overlap"] b.

Definition _branch_confidence (score : float) (hazards : list string) : float :=
  let base := clamp (fdiv score (float_of_Z 120)) (lit 5 100) (lit 95 100) in
  let base := match hazards with [] => base | _ => fmul base (lit 82 100) end in
  round3 (clamp base (lit 5 100) (lit 95 100)).

Definition _branch_expected_evidence_units (task_class : string) (reason_codes hazards : list string)
  : float :=
  let bonus code x units := if bool_decide (code ∈ reason_codes) then fadd units x else units in
  let units := if bool_decide (task_class = TODO_TASK_CLASS_ADVANCEMENT) then fadd f1 (lit 35 100)
               else if bool_decide (task_class = TODO_TASK_CLASS_MONITOR) then fsub f1 (lit 45 100)
               else f1 in
  let units := bonus "claimed_by_current_agent" (lit 1 10) units in
  let units := bonus "declared_write_scope" (lit 1 10) units in
  let units := bonus "declared_capabilities" (lit 5 100) units in
  let units := bonus "explore_frontier_overlap" (lit 25 100) units in
  let units := match hazards with
               | [] => units
               | _ => fsub units (fmin (lit 45 100)
                                    (fmul (lit 12 100) (float_of_Z (Z.of_nat (length hazards)))))
               end in
  round3 (fmax (lit 1 10) units).

Definition _claim_bucket (item : items) : Z :=
  if claimed_by_agent item then 0 else match owner_of item with None => 1 | Some _ => 2 end.

(** * Candidates *)

Definition _candidate_readiness (item : items) : items :=
  (Some "actionable_open", PBool (todo_item_is_actionable_open E item))
  :: omap (λ key, v ← pfind key item; Some (Some key, v)) ["status"; "resume_when"; "resume_ready"].

Definition todo_candidate (item : items) (todo_id : string) (frontier : gset string) (projection : pyval)
  : res items :=
  let b := _branch_score item frontier in
  let required_write_scopes := _required_write_scopes E item in
  let task_class := todo_item_task_class E item in
  let required_capabilities := _required_capabilities E item in
  resource_lane ← resource_lane_from_capabilities E (PStr <$> required_capabilities);
  let candidate :=
    pupdate (_candidate_readiness item)
      [("todo_id", PStr todo_id);
       ("text", PStr (_compact_text E (por (pget "text" item) (pget "title" item)) 240));
       ("priority", pget "priority" item);
       ("task_class", PStr task_class);
       ("claimed_by", PStr (default "" (owner_of item)));
       ("required_write_scopes", texts required_write_scopes);
       ("required_capabilities", texts required_capabilities);
       ("shared_dependency_capabilities", texts (_shared_dependency_capabilities E item));
       ("resource_lane", PStr resource_lane);
       ("depends_on", por (pget "depends_on" item)
                        (por (pget "dependency_todo_ids" item)
                          (por (pget "blocked_by_todo_ids" item) (PSeq false []))));
       ("score", PFloat (py_round 2 (bs_score b)));
       ("confidence", PFloat (_branch_confidence (bs_score b) (bs_hazards b)));
       ("expected_evidence_units",
          PFloat (_branch_expected_evidence_units task_class (bs_reason_codes b) (bs_hazards b)));
       ("reason_codes", texts (bs_reason_codes b));
       ("hazards", texts (bs_hazards b));
       ("claim_bucket", PInt (_claim_bucket item));
       ("source_index", pget "index" item)] in
  typed_evidence_audit ← build_todo_typed_evidence_audit E item projection;
  Ok (match typed_evidence_audit with
      | Some audit => pset "typed_evidence_audit" audit candidate
      | None => candidate
      end).

(** The loop over the todos; a todo without a valid id is skipped. *)
Fixpoint build_candidates (frontier : gset string) (projection : pyval) (todos : list items)
  : res (list items) :=
  match todos with
  | [] => Ok []
  | item :: todos' =>
      match normalize_todo_id E (pget "todo_id" item) with
      | None => build_candidates frontier projection todos'
      | Some todo_id =>
          candidate ← todo_candidate item todo_id frontier projection;
          rest ← build_candidates frontier projection todos';
          Ok (candidate :: rest)
      end
  end.

(** * Order *)

Record candidate_sort_key := {
  sk_score : float;
  sk_bucket : Z;
  sk_priority : Z;
  sk_index : Z;
  sk_todo_id : string
}.

(** The tuple the candidates are sorted by: [... or 9] for the bucket. *)
Definition candidate_key (c : items) : res candidate_sort_key :=
  score ← float_or_zero (float_of_text E) (pget "score" c);
  bucket ← to_int (int_of_text E) (por (pget "claim_bucket" c) (PInt 9));
  projection ← todo_projection_sort_key E c;
  Ok {| sk_score := fopp score; sk_bucket := bucket; sk_priority := projection.1;
        sk_index := projection.2; sk_todo_id := str_or_empty (str_of E) (pget "todo_id" c) |}.

Definition key_ltb (a b : candidate_sort_key) : bool :=
  if negb (feqb (sk_score a) (sk_score b)) then fltb (sk_score a) (sk_score b)
  else if negb (sk_bucket a =? sk_bucket b)%Z then (sk_bucket a <? sk_bucket b)%Z
  else if negb (sk_priority a =? sk_priority b)%Z then (sk_priority a <? sk_priority b)%Z
  else if negb (sk_index a =? sk_index b)%Z then (sk_index a <? sk_index b)%Z
  else String.ltb (sk_todo_id a) (sk_todo_id b).

Definition sort_candidates (l : list items) : res (list items) :=
  keyed ← rmap (λ c, key ← candidate_key c; Ok (key, c)) l;
  Ok (py_sort (λ a b, key_ltb a.1 b.1) keyed).*2.
End Scores.

(** * Selection *)

Record plan_context := {
  pc_goal_id : string;
  pc_agent : option string;
  pc_portfolio : portfolio;
  pc_selection_budget : Z;
  pc_allow_unscoped_parallel : bool
}.

Record selection := {
  sel_selected : list items;
  sel_rejections : list items;
  sel_scopes : list (string * list string);
  sel_by_lane : list (string * Z)
}.

Definition no_selection : selection :=
  {| sel_selected := []; sel_rejections := []; sel_scopes := []; sel_by_lane := [] |}.

Definition _lane_id (todo_id : string) (index : nat) : string :=
  "branch_" ++ py_int (Z.of_nat index) ++ "_" ++ removeprefix "todo_" todo_id.

(** [{**candidate, "selection_status": status, **more}]. *)
Definition with_status (candidate : items) (status : string) (more : list (string * pyval)) : items :=
  pupdate (pset "selection_status" (PStr status) candidate) more.

Definition _execution_exclusion (candidate : items) : option items :=
  if py_eq (pget "task_class" candidate) (PStr TODO_TASK_CLASS_MONITOR) then
    Some (with_status candidate "excluded_non_exploration_lane"
            [("exclusion_reason", PStr "continuous_monitor_does_not_consume_exploration_budget")])
  else if truthy (pget "actionable_open" candidate) then None
  else Some (with_status candidate "not_actionable_open" []).

(** [candidate.get("claimed_by") and candidate.get("claimed_by") != normalized_agent]. *)
Definition claimed_by_other (agent : option string) (candidate : items) : bool :=
  let claimed_by := pget "claimed_by" candidate in
  truthy claimed_by && negb (py_eq claimed_by (opt_str agent)).

Definition commit_policy : string :=
  "verify and write back before keeping this branch; discard or convert to successor todo if evidence does not advance the exploration".

Section Selection.
Context (E : planner_env).

Definition _claim_command (goal_id todo_id : string) (agent_id : option string) : option string :=
  owner ← normalize_todo_claimed_by E (opt_str agent_id);
  Some ("loopx todo claim --goal-id " ++ goal_id ++ " --todo-id " ++ todo_id
        ++ " --claimed-by " ++ owner ++ " --agent-id " ++ owner).

(** The loop over [selected_scopes]: the first selected branch whose scopes
    overlap. *)
Fixpoint scope_conflict (scopes : list string) (selected : list (string * list string)) : res string :=
  match selected with
  | [] => Ok ""
  | (selected_todo_id, existing_scopes) :: selected' =>
      overlap ← _scopes_overlap E scopes existing_scopes;
      if (overlap : bool) then Ok selected_todo_id else scope_conflict scopes selected'
  end.

Section Round.
Context (C : plan_context).

(** The branch a candidate conflicts with, and the hazard to note. *)
Definition conflict_of (s : selection) (scopes : list string) : res (string * list string) :=
  match scopes with
  | _ :: _ =>
      conflict_with ← scope_conflict scopes (sel_scopes s);
      Ok (conflict_with, code_if (negb (is_empty conflict_with)) ("write_scope_conflict:" ++ conflict_with))
  | [] =>
      match sel_selected s with
      | first :: _ =>
          if pc_allow_unscoped_parallel C then Ok ("", [])
          else Ok (branch_id_of (str_of E) first, ["unscoped_parallel_disabled"])
      | [] => Ok ("", [])
      end
  end.

Definition add_rejection (s : selection) (row : items) : selection :=
  {| sel_selected := sel_selected s; sel_rejections := sel_rejections s ++ [row];
     sel_scopes := sel_scopes s; sel_by_lane := sel_by_lane s |}.

(** The row of a candidate that its resource lane cannot take. *)
Definition resource_refusal (s : selection) (candidate : items) (hazards : list pyval) (resource_lane : string)
  : option items :=
  if rp_enabled (pc_portfolio C) && negb (is_empty resource_lane) then
    match dict_get resource_lane (rp_lanes (pc_portfolio C)) with
    | None =>
        Some (with_status candidate "rejected_resource_lane"
                [("hazards", PSeq false
                    (hazards ++ [PStr ("resource_capacity_undeclared:" ++ resource_lane)]))])
    | Some lane =>
        if (available_slots lane <=? count_of resource_lane (sel_by_lane s))%Z then
          Some (with_status candidate "resource_lane_capacity_exhausted"
                  [("hazards", PSeq false
                      (hazards ++ [PStr ("resource_capacity_exhausted:" ++ resource_lane)]))])
        else None
    end
  else None.

Definition selected_branch (s : selection) (candidate : items) (todo_id resource_lane : string)
    (selected_in_lane : Z) : items :=
  let branch_index := length (sel_selected s) in
  let role := if (branch_index =? 0)%nat then "primary" else "speculative" in
  let branch :=
    with_status candidate "selected"
      [("branch_role", PStr role); ("branch_index", PInt (Z.of_nat branch_index));
       ("lane_id", PStr (_lane_id todo_id branch_index)); ("commit_policy", PStr commit_policy);
       ("suggested_commands",
          texts (match _claim_command (pc_goal_id C) todo_id (pc_agent C) with
                 | Some command => [command]
                 | None => []
                 end))] in
  match resource_assignment (pc_portfolio C) resource_lane selected_in_lane with
  | Some assignment => pset "resource_assignment" (PMap false assignment) branch
  | None => branch
  end.

Definition select (s : selection) (candidate : items) (todo_id : string) (scopes : list string)
    (resource_lane : string) : selection :=
  let selected_in_lane := (count_of resource_lane (sel_by_lane s) + 1)%Z in
  {| sel_selected := sel_selected s ++ [selected_branch s candidate todo_id resource_lane selected_in_lane];
     sel_rejections := sel_rejections s;
     sel_scopes := sel_scopes s ++ [(todo_id, scopes)];
     sel_by_lane := if is_empty resource_lane then sel_by_lane s
                    else dict_set resource_lane selected_in_lane (sel_by_lane s) |}.

(** The body of the loop over the candidates. *)
Definition consider (invalidated_ids : gset string) (s : selection) (candidate : items) : res selection :=
  let todo_id := branch_id_of (str_of E) candidate in
  if bool_decide (todo_id ∈ invalidated_ids) then Ok s
  else
    let hazards := match pget "hazards" candidate with PSeq _ l => l | _ => [] end in
    let scopes := _required_write_scopes E candidate in
    let resource_lane := str_or_empty (str_of E) (pget "resource_lane" candidate) in
    conflict ← conflict_of s scopes;
    let '(conflict_with, conflict_hazards) := conflict in
    let hazards := (hazards ++ (PStr <$> conflict_hazards))%list in
    Ok (if claimed_by_other (pc_agent C) candidate then
          add_rejection s (with_status candidate "blocked_claimed_by_other" [])
        else if negb (is_empty conflict_with) then
          add_rejection s (with_status candidate "rejected_hazard"
                      [("conflict_with", PStr conflict_with); ("hazards", PSeq false hazards)])
        else
          match resource_refusal s candidate hazards resource_lane with
          | Some row => add_rejection s row
          | None =>
              if (pc_selection_budget C <=? Z.of_nat (length (sel_selected s)))%Z then
                add_rejection s (with_status candidate "outside_verification_budget" [])
              else select s candidate todo_id scopes resource_lane
          end).

(** One round. *)
Definition admission_round (invalidated_ids : gset string) (ordered_candidates : list items) : res selection :=
  rfold (consider invalidated_ids) no_selection ordered_candidates.

Record outcome := {
  out_selected : list items;
  out_dependency_rejections : list items;
  out_selection_rejections : list items;
  out_dependency_events : list items
}.

(** The outer loop; [None] when the rounds are used up. *)
Fixpoint select_rounds (rounds : nat) (ordered_candidates : list items) (invalidated_ids : gset string)
    (dependency_rejections dependency_events : list items) : option (res outcome) :=
  match rounds with
  | O => None
  | S rounds =>
      match admission_round invalidated_ids ordered_candidates with
      | Err e => Some (Err e)
      | Ok s =>
          let '(valid_selected, invalidated, events) :=
            partition_invalidated_successors (str_of E) (sel_selected s)
              (branch_id_of (str_of E) <$> sel_selected s) [] [] "todo_branch_plan" in
          let finish rejections trace :=
            Some (Ok {| out_selected := valid_selected; out_dependency_rejections := rejections;
                        out_selection_rejections := sel_rejections s; out_dependency_events := trace |}) in
          match invalidated with
          | [] => finish dependency_rejections dependency_events
          | _ :: _ =>
              let new_invalidated_ids :=
                list_to_set (branch_id_of (str_of E) <$> invalidated) ∖ invalidated_ids in
              let rejections := (dependency_rejections ++ invalidated)%list in
              let trace := (dependency_events ++ events)%list in
              if bool_decide (new_invalidated_ids = ∅) then finish rejections trace
              else select_rounds rounds ordered_candidates (invalidated_ids ∪ new_invalidated_ids)
                     rejections trace
          end
      end
  end.
End Round.
End Selection.

(** * The plan *)

Record ab_result := {
  ab_baseline_serial_theta : float;
  ab_dspark_selected_theta : float;
  ab_estimated_speedup : float;
  ab_selected_expected_evidence_units : pyval;
  ab_predicted_prefix_length : nat;
  ab_actual_selected_count : nat;
  ab_hazard_rejected_count : nat
}.

Record branch_plan_request := {
  rq_goal_id : string;
  rq_todos : list items;
  rq_projection : pyval;
  rq_agent_id : pyval;
  rq_orchestration : pyval;
  rq_width : Z;
  rq_allow_unscoped_parallel : bool;
  rq_scheduler_load : float;
  rq_resource_capacities : items;
  rq_resource_usage : items
}.

Record plan_report := {
  bp_agent_id : string;
  bp_gate : harness_gate;
  bp_issue_width : Z;
  bp_requested_issue_width : Z;
  bp_verification_budget : Z;
  bp_selection_budget : Z;
  bp_scheduler : prefix_schedule;
  bp_accept_reject_trace : list items;
  bp_ab_result : ab_result;
  bp_source_todo_count : nat;
  bp_candidate_count : nat;
  bp_exploration_candidate_count : nat;
  bp_selected_count : nat;
  bp_selected_branches : list items;
  bp_rejected_candidate_count : nat;
  bp_rejected_candidates : list items;
  bp_resource_portfolio : filled_portfolio;
  bp_next_action : string
}.

Inductive todo_branch_plan :=
| DisabledPlan (agent_id : string) (gate : harness_gate)
| EnabledPlan (plan : plan_report).

(** [branch["suggested_commands"] = []] with the reason, in an analysis. *)
Definition suppress_commands (reason : string) (branch : items) : items :=
  if truthy (pget "suggested_commands" branch)
  then pset "commands_suppressed_reason" (PStr reason) (pset "suggested_commands" (PSeq false []) branch)
  else branch.

Definition next_action (state : gate_state) (selected : list items) : string :=
  match state, selected with
  | GATE_STATE_ANALYSIS_ONLY, _ =>
      "Read-only analysis: this goal's orchestration boundary does not permit spawning workers, so no claim/lease commands are suggested. Update the registered goal's spawn_policy (spawn_allowed, max_children) to receive suggested commands; execution stays in the normal LoopX lifecycle."
  | _, [] =>
      "No actionable branch was selected. Inspect rejected candidates and their resume conditions; replan when readiness changes."
  | _, _ :: _ :: _ =>
      "Run the primary branch normally; hand selected speculative branches to side agents only after claiming/lease commands are accepted and workspace guards pass."
  | _, [_] => "Only one safe branch was selected; keep normal single-todo execution."
  end.

(** What the schedulers read of a candidate. *)
Definition scheduler_view (c : items) : candidate :=
  let number v := match v with PFloat x => Some x | _ => None end in
  {| cd_todo_id := pget "todo_id" c; cd_confidence := number (pget "confidence" c);
     cd_expected_evidence_units := number (pget "expected_evidence_units" c) |}.

(** The stable sort that puts the candidates with a resource lane first. *)
Definition lanes_first : list items → list items :=
  py_sort (λ a b, truthy (pget "resource_lane" a) && negb (truthy (pget "resource_lane" b))).

Definition explored (candidate : items) : bool :=
  negb (py_eq (pget "task_class" candidate) (PStr TODO_TASK_CLASS_MONITOR))
  && truthy (pget "actionable_open" candidate).

Section Plan.
Context (E : planner_env).

Definition resolve_todo_branch_plan_gate (orchestration : pyval) (requested_width : Z) : res harness_gate :=
  resolve_explore_harness_gate E orchestration requested_width MAX_BRANCH_WIDTH "max_branch_width".

Definition build_branch_plan_ab_result (scheduler : prefix_schedule) (selected rejected : list items)
  : res ab_result :=
  let baseline_theta := fmax (lit 1 1000) (or_zero (pm_theta (sc_baseline scheduler))) in
  units ← rmap (λ b, float_or_zero (float_of_text E) (pget "expected_evidence_units" b)) selected;
  speedup ← py_div (or_zero (pm_theta (sc_selected scheduler))) baseline_theta;
  Ok {| ab_baseline_serial_theta := round3 baseline_theta;
        ab_dspark_selected_theta := pm_theta (sc_selected scheduler);
        ab_estimated_speedup := round3 speedup;
        ab_selected_expected_evidence_units := round_value 3 (sum_value (py_sum E) units);
        ab_predicted_prefix_length := sc_selected_prefix_length scheduler;
        ab_actual_selected_count := length selected;
        ab_hazard_rejected_count :=
          length (filter (λ b, str_or_empty (str_of E) (pget "selection_status" b)
                                 ∈ ["rejected_hazard"; "blocked_claimed_by_other"]) rejected) |}.

(** The candidates of a request in order, and how many branches to select. *)
Record ranking := {
  rk_candidates : list items;
  rk_excluded : list items;
  rk_exploration : list items;
  rk_scheduler : prefix_schedule;
  rk_verification_budget : Z;
  rk_context : plan_context;
  rk_ordered : list items
}.

Definition rank_todos (rq : branch_plan_request) (agent : option string) (p : portfolio) (width : Z) : res ranking :=
  frontier ← _frontier_tokens E (rq_projection rq);
  unsorted ← build_candidates E agent frontier (rq_projection rq) (rq_todos rq);
  candidates ← sort_candidates E unsorted;
  let exploration_candidates := filter (λ c, explored c = true) candidates in
  let schedulable := filter (λ c, claimed_by_other agent c = false) exploration_candidates in
  scheduler ← schedule_confidence_prefix (py_pow E) (scheduler_view <$> schedulable) width
                MAX_BRANCH_WIDTH (rq_scheduler_load rq);
  let verification_budget := Z.max 1 (Z.of_nat (sc_selected_prefix_length scheduler)) in
  Ok {| rk_candidates := candidates; rk_excluded := omap _execution_exclusion candidates;
        rk_exploration := exploration_candidates; rk_scheduler := scheduler;
        rk_verification_budget := verification_budget;
        rk_context :=
          {| pc_goal_id := rq_goal_id rq; pc_agent := agent; pc_portfolio := p;
             pc_selection_budget := if rp_enabled p then width else verification_budget;
             pc_allow_unscoped_parallel := rq_allow_unscoped_parallel rq |};
        rk_ordered := if rp_enabled p then lanes_first exploration_candidates else exploration_candidates |}.

(** A round drops at least one todo id, so one round more than there are
    candidates is enough. *)
Definition select_branches (r : ranking) : option (res outcome) :=
  select_rounds E (rk_context r) (S (length (rk_ordered r))) (rk_ordered r) ∅ [] [].

Definition finish_plan (rq : branch_plan_request) (agent : option string) (gate : harness_gate)
    (requested_width : Z) (r : ranking) (o : outcome) : res plan_report :=
  let rejected_rows := (rk_excluded r ++ out_dependency_rejections o ++ out_selection_rejections o)%list in
  let suppress := if bool_decide (hg_state gate = GATE_STATE_ANALYSIS_ONLY)
                  then suppress_commands (hg_reason gate) else id in
  let selected := suppress <$> out_selected o in
  let rejected := suppress <$> rejected_rows in
  ab ← build_branch_plan_ab_result (rk_scheduler r) selected rejected;
  Ok {| bp_agent_id := default "" agent; bp_gate := gate; bp_issue_width := hg_effective_width gate;
        bp_requested_issue_width := requested_width;
        bp_verification_budget := rk_verification_budget r;
        bp_selection_budget := pc_selection_budget (rk_context r);
        bp_scheduler := rk_scheduler r; bp_accept_reject_trace := out_dependency_events o;
        bp_ab_result := ab;
        bp_source_todo_count := length (rq_todos rq);
        bp_candidate_count := length (rk_candidates r);
        bp_exploration_candidate_count := length (rk_exploration r);
        bp_selected_count := length selected; bp_selected_branches := selected;
        bp_rejected_candidate_count := length rejected;
        bp_rejected_candidates := take (Z.to_nat (Z.max 0 (hg_effective_width gate * 3))) rejected;
        bp_resource_portfolio := resource_portfolio_with_selection (pc_portfolio (rk_context r)) selected;
        bp_next_action := next_action (hg_state gate) selected |}.

Definition build_explore_todo_branch_plan (rq : branch_plan_request) : option (res todo_branch_plan) :=
  let agent := normalize_todo_claimed_by E (rq_agent_id rq) in
  let requested_width := Z.max 1 (if (rq_width rq =? 0)%Z then DEFAULT_BRANCH_WIDTH else rq_width rq) in
  match (p ← resolve_resource_portfolio E (rq_resource_capacities rq) (rq_resource_usage rq);
         gate ← resolve_todo_branch_plan_gate (rq_orchestration rq) requested_width;
         Ok (p, gate)) with
  | Err e => Some (Err e)
  | Ok (p, gate) =>
      if bool_decide (hg_state gate = GATE_STATE_DISABLED)
      then Some (Ok (DisabledPlan (default "" (normalize_todo_claimed_by E (opt_str agent))) gate))
      else match rank_todos rq agent p (hg_effective_width gate) with
           | Err e => Some (Err e)
           | Ok r =>
               o ← select_branches r;
               Some (o ← o; plan ← finish_plan rq agent gate requested_width r o; Ok (EnabledPlan plan))
           end
  end.
End Plan.
