(* ===== verification/BranchFacts.v ===== *)
(** Lemmas on the branch planner: normal forms of write scopes, the rows derived
    from a candidate, and one round of admissions. *)

From stdpp Require Import base strings list sets gmap.
From Stdlib Require Import ZArith Lia.
From S2P Require Import Prelude ListLib PyFloat PyValue PyConv PySort TraceRuntime SpecScheduler.
From S2P Require Import TodoContract ResourcePortfolio HarnessGate TodoEvidence BranchPlan.

(** * Normal forms *)

Definition no_space (c : Ascii.ascii) : bool := negb (is_space c).

Lemma all_chars_impl (p q : Ascii.ascii → bool) s :
  (∀ c, p c = true → q c = true) → all_chars p s = true → all_chars q s = true.
Proof.
  intros Hpq. induction s as [|c s IH]; simpl; [done|].
  rewrite !andb_true_iff. intros [Hc Hs]. auto.
Qed.

Lemma strip_no_space s : all_chars no_space s = true → py_strip s = s.
Proof.
  assert (all_chars no_space s = true → py_rstrip s = s) as Hr.
  { induction s as [|c s IH]; simpl; [done|]. intros [Hc Hs]%andb_true_iff. rewrite IH by done.
    destruct s; [|done]. unfold no_space in Hc. by apply negb_true_iff in Hc as ->. }
  intros Hs. unfold py_strip. rewrite <- (Hr Hs) at 2. f_equal. destruct s as [|c s]; [done|].
  simpl in *. apply andb_true_iff in Hs as [Hc _]. unfold no_space in Hc.
  by apply negb_true_iff in Hc as ->.
Qed.

Lemma string_app_assoc (a b c : string) : (a ++ b) ++ c = a ++ (b ++ c).
Proof. induction a as [|x a IH]; [done|]. exact (f_equal (String x) IH). Qed.

Lemma string_app_nil (a : string) : a ++ "" = a.
Proof. induction a as [|x a IH]; [done|]. exact (f_equal (String x) IH). Qed.

Lemma split_no_space w s :
  all_chars no_space s = true → split_words w s = match w ++ s with "" => [] | t => [t] end.
Proof.
  revert w. induction s as [|c s IH]; intros w; simpl.
  - intros _. rewrite string_app_nil. by destruct w.
  - intros [Hc Hs]%andb_true_iff. unfold no_space in Hc. apply negb_true_iff in Hc as ->.
    rewrite IH by done. rewrite string_app_assoc. done.
Qed.

Section normal.
Context (E : planner_env).

Lemma str_of_text s : str_or_empty (str_of E) (PStr s) = s.
Proof. unfold str_or_empty. simpl. by destruct s. Qed.

Lemma compact_no_space s : all_chars no_space s = true → compact_todo_text E (PStr s) = s.
Proof.
  intros Hs. unfold compact_todo_text. rewrite str_of_text, strip_no_space by done.
  unfold py_split. rewrite split_no_space by done. by destruct s.
Qed.

Definition normal_scopes (l : list string) : Prop := NoDup l ∧ Forall (λ s, safe_scope s = true) l.

Lemma safe_no_space s : safe_scope s = true → all_chars no_space s = true.
Proof.
  unfold safe_scope. intros H. apply andb_true_iff in H as [_ H]. revert H. apply all_chars_impl.
  intros c. unfold no_space. rewrite !negb_true_iff, orb_false_iff. tauto.
Qed.

Lemma normalize_scopes_normal v : normal_scopes (normalize_required_write_scopes E v).
Proof.
  unfold normalize_required_write_scopes. split; [apply uniq_NoDup|].
  apply Forall_forall. intros s. rewrite elem_of_uniq, list_elem_of_filter. by intros [? _].
Qed.

Lemma raw_texts l : raw_values E (PSeq false (PStr <$> l)) = l.
Proof.
  simpl. rewrite <- list_fmap_compose. rewrite <- (list_fmap_id l) at 2. apply list_fmap_ext.
  intros i s _. simpl. apply str_of_text.
Qed.

(** Normalizing is the identity on normal forms. *)
Lemma normalize_scopes_id l :
  normal_scopes l → normalize_required_write_scopes E (PSeq false (PStr <$> l)) = l.
Proof.
  intros [Hnd Hs]. unfold normalize_required_write_scopes. rewrite raw_texts.
  assert ((λ raw, compact_todo_text E (PStr raw)) <$> l = l) as ->.
  { rewrite <- (list_fmap_id l) at 2. apply list_fmap_ext. intros i s Hi. simpl.
    apply compact_no_space, safe_no_space. by eapply Forall_lookup_1 in Hs. }
  rewrite filter_all by done. by apply uniq_id.
Qed.

Lemma roots_meet_comm l r : roots_meet l r = roots_meet r l.
Proof.
  apply eq_true_iff_eq. unfold roots_meet. rewrite !existsb_exists.
  setoid_rewrite existsb_exists. setoid_rewrite andb_true_iff. setoid_rewrite negb_true_iff.
  setoid_rewrite bool_decide_eq_true.
  split; intros (x & Hx & y & Hy & Hn & He); exists y; (split; [done|]); exists x; rewrite He in *; eauto.
Qed.

(** Two lists of scopes in normal form are separate: the runtime finds no
    overlap, and no two scopes have the same root. *)
Definition separate (l r : list string) : Prop :=
  core_write_scopes_overlap E l r = Ok false ∧ roots_meet l r = false.

Lemma scopes_overlap_false l r :
  normal_scopes l → normal_scopes r → _scopes_overlap E l r = Ok false ↔ separate l r.
Proof.
  intros Hl Hr. unfold _scopes_overlap, write_scopes_overlap, separate.
  rewrite !normalize_scopes_id by done. destruct (core_write_scopes_overlap E l r) as [[]|e]; simpl.
  - split; [done|]. by intros [? _].
  - split; [|by intros [_ ->]]. intros [= ->]. done.
  - split; [done|]. by intros [? _].
Qed.
End normal.

(** * Rows derived from a candidate *)

(** The keys that selecting, rejecting or invalidating a candidate may set. *)
Definition planner_keys : list string :=
  ["selection_status"; "exclusion_reason"; "conflict_with"; "hazards"; "branch_role"; "branch_index"; "lane_id";
   "commit_policy"; "suggested_commands"; "resource_assignment"; "invalidation_reason";
   "commands_suppressed_reason"].

Definition derived (row candidate : items) : Prop :=
  ∀ k, k ∉ planner_keys → pget k row = pget k candidate.

#[export] Instance derived_preorder : PreOrder derived.
Proof.
  split; [by intros c k|]. intros a b c Hab Hbc k Hk. rewrite Hab by done. by apply Hbc.
Qed.

Lemma derived_pset k v row c : k ∈ planner_keys → derived row c → derived (pset k v row) c.
Proof. intros Hk H k' Hk'. rewrite pget_pset_ne by (by intros ->). by apply H. Qed.

Lemma derived_pupdate l row c :
  Forall (λ kv, kv.1 ∈ planner_keys) l → derived row c → derived (pupdate row l) c.
Proof.
  unfold pupdate. revert row. induction l as [|[k v] l IH]; intros row Hl Hr; simpl; [done|].
  apply Forall_cons in Hl as [Hk Hl]. apply IH; [done|]. by apply derived_pset.
Qed.

Ltac planner_key := refine (bool_decide_eq_true_1 _ _); vm_compute; reflexivity.

Lemma derived_status c status more :
  Forall (λ kv, kv.1 ∈ planner_keys) more → derived (with_status c status more) c.
Proof. intros Hm. unfold with_status. apply derived_pupdate; [done|]. apply derived_pset; [planner_key|done]. Qed.

Ltac derive :=
  repeat first
    [ reflexivity
    | apply derived_status
    | apply derived_pset; [planner_key|]
    | apply derived_pupdate
    | apply Forall_nil_2
    | apply Forall_cons_2; [simpl; planner_key|] ].

Ltac pgets :=
  unfold with_status, pupdate; cbn [fold_left fst snd];
  repeat first [rewrite pget_pset_eq | rewrite pget_pset_ne by (by vm_compute)].

Lemma derived_get k row c : derived row c → bool_decide (k ∈ planner_keys) = false → pget k row = pget k c.
Proof. intros H Hk. apply H. by apply bool_decide_eq_false_1 in Hk. Qed.

Lemma Forall2_snoc_2 {A B} (R : A → B → Prop) l k a b :
  Forall2 R l k → R a b → Forall2 R (l ++ [a]) (k ++ [b]).
Proof. intros Hl Ha. apply Forall2_app; [done|]. by constructor. Qed.

(** * One round *)

Section round.
Context (E : planner_env) (C : plan_context).

Definition id_of (b : items) : string := branch_id_of (str_of E) b.
Definition scopes_of (b : items) : list string := _required_write_scopes E b.
Definition branch_lane (b : items) : string := str_or_empty (str_of E) (pget "resource_lane" b).

(** What a round relies on: a candidate has an id and names its lane by a text. *)
Definition shaped (c : items) : Prop := id_of c ≠ "" ∧ pget "resource_lane" c = PStr (branch_lane c).

Lemma derived_id row c : derived row c → id_of row = id_of c.
Proof. intros H. unfold id_of, branch_id_of. by rewrite (derived_get "todo_id" row c). Qed.

Lemma derived_scopes row c : derived row c → scopes_of row = scopes_of c.
Proof.
  intros H. unfold scopes_of, _required_write_scopes.
  by rewrite (derived_get "required_write_scopes" row c).
Qed.

Lemma derived_lane row c : derived row c → branch_lane row = branch_lane c.
Proof. intros H. unfold branch_lane. by rewrite (derived_get "resource_lane" row c). Qed.

Lemma derived_owner agent row c : derived row c → claimed_by_other agent row = claimed_by_other agent c.
Proof. intros H. unfold claimed_by_other. by rewrite (derived_get "claimed_by" row c). Qed.

Lemma derived_shaped row c : derived row c → shaped c → shaped row.
Proof.
  intros H [Hi Hl]. unfold shaped. rewrite (derived_id row c), (derived_lane row c) by done.
  by rewrite (derived_get "resource_lane" row c).
Qed.

Lemma in_lane_shaped key b : shaped b → in_lane key b = bool_decide (branch_lane b = key).
Proof. intros [_ Hl]. unfold in_lane. by rewrite Hl. Qed.

Lemma lane_count_snoc key l b :
  shaped b → lane_count key (l ++ [b]) = (lane_count key l + if bool_decide (branch_lane b = key) then 1 else 0)%Z.
Proof.
  intros Hb. unfold lane_count. rewrite filter_app, length_app, Nat2Z.inj_add. f_equal.
  rewrite filter_cons, filter_nil, (in_lane_shaped key b) by done.
  destruct (bool_decide _); [by rewrite decide_True|by rewrite decide_False].
Qed.

(** A selected branch, behind the branches selected before it. *)
Record fits (before : list items) (b : items) : Prop := {
  fit_shaped : shaped b;
  fit_owner : claimed_by_other (pc_agent C) b = false;
  fit_scopes : scopes_of b ≠ [] → Forall (λ a, separate E (scopes_of b) (scopes_of a)) before;
  fit_unscoped : scopes_of b = [] → pc_allow_unscoped_parallel C = false → before = [];
  fit_lane : rp_enabled (pc_portfolio C) = true → branch_lane b ≠ "" → ∃ lane,
    dict_get (branch_lane b) (rp_lanes (pc_portfolio C)) = Some lane ∧
    (lane_count (branch_lane b) before < available_slots lane)%Z ∧
    pget "resource_assignment" b =
      PMap false (as_items [("resource_lane", PStr (branch_lane b));
        ("slot_ordinal", PInt (current_usage lane + (lane_count (branch_lane b) before + 1)));
        ("capacity", PInt (capacity lane)); ("current_usage", PInt (current_usage lane))]);
  fit_budget : (Z.of_nat (length before) < pc_selection_budget C)%Z;
  fit_index : pget "branch_index" b = PInt (Z.of_nat (length before));
  fit_role : pget "branch_role" b = PStr (if (length before =? 0)%nat then "primary" else "speculative");
  fit_commands : pget "suggested_commands" b =
    texts (match _claim_command E (pc_goal_id C) (id_of b) (pc_agent C) with Some c => [c] | None => [] end)
}.

(** Branches selected one after the other. *)
Inductive admitted : list items → Prop :=
| admitted_nil : admitted []
| admitted_snoc l b : admitted l → fits l b → admitted (l ++ [b]).

(** Why a candidate was turned down, given what the round selected. *)
Inductive refused (selected : list items) (row : items) : Prop :=
| refused_owner :
    pget "selection_status" row = PStr "blocked_claimed_by_other" →
    claimed_by_other (pc_agent C) row = true → refused selected row
| refused_scopes a :
    pget "selection_status" row = PStr "rejected_hazard" → a ∈ selected →
    pget "conflict_with" row = PStr (id_of a) →
    _scopes_overlap E (scopes_of row) (scopes_of a) = Ok true → refused selected row
| refused_unscoped a :
    pget "selection_status" row = PStr "rejected_hazard" → selected !! 0%nat = Some a →
    pget "conflict_with" row = PStr (id_of a) →
    scopes_of row = [] → pc_allow_unscoped_parallel C = false → refused selected row
| refused_undeclared :
    pget "selection_status" row = PStr "rejected_resource_lane" →
    rp_enabled (pc_portfolio C) = true → branch_lane row ≠ "" →
    dict_get (branch_lane row) (rp_lanes (pc_portfolio C)) = None → refused selected row
| refused_full lane :
    pget "selection_status" row = PStr "resource_lane_capacity_exhausted" →
    rp_enabled (pc_portfolio C) = true → branch_lane row ≠ "" →
    dict_get (branch_lane row) (rp_lanes (pc_portfolio C)) = Some lane →
    (available_slots lane ≤ lane_count (branch_lane row) selected)%Z → refused selected row
| refused_budget :
    pget "selection_status" row = PStr "outside_verification_budget" →
    (pc_selection_budget C ≤ Z.of_nat (length selected))%Z → refused selected row.

Lemma lane_count_app key l k : (lane_count key l ≤ lane_count key (l ++ k))%Z.
Proof. unfold lane_count. rewrite filter_app, length_app. lia. Qed.

Lemma refused_app l k row : refused l row → refused (l ++ k) row.
Proof.
  intros [|a|a| |lane|].
  - by apply refused_owner.
  - eapply refused_scopes; [done| |done..]. apply elem_of_app. by left.
  - eapply refused_unscoped; [done| |done..]. by apply lookup_app_l_Some.
  - by apply refused_undeclared.
  - eapply refused_full; [done..|]. etrans; [done|apply lane_count_app].
  - apply refused_budget; [done|]. rewrite length_app. lia.
Qed.

(** The state of a round after the candidates [pre]. *)
Record round_ok (dropped : gset string) (pre : list items) (s : selection) : Prop := {
  ro_split : ∃ picked left,
    filter (λ c, id_of c ∉ dropped) pre ≡ₚ picked ++ left ∧
    Forall2 derived (sel_selected s) picked ∧ Forall2 derived (sel_rejections s) left;
  ro_admitted : admitted (sel_selected s);
  ro_refused : Forall (refused (sel_selected s)) (sel_rejections s);
  ro_scopes : sel_scopes s = (λ b, (id_of b, scopes_of b)) <$> sel_selected s;
  ro_lanes : ∀ lane, lane ≠ "" → count_of lane (sel_by_lane s) = lane_count lane (sel_selected s)
}.

Lemma admitted_shaped l : admitted l → Forall shaped l.
Proof.
  induction 1 as [|l b _ IH Hb]; [done|]. apply Forall_app_2; [done|]. apply Forall_singleton, Hb.
Qed.

Lemma round_start dropped : round_ok dropped [] no_selection.
Proof.
  split; simpl; [|constructor|done|done|done]. exists [], []. split_and!; [done|constructor..].
Qed.

Lemma round_skip dropped pre s c :
  id_of c ∈ dropped → round_ok dropped pre s → round_ok dropped (pre ++ [c]) s.
Proof.
  intros Hc [Hs ????]. split; [|done..]. rewrite filter_snoc, decide_False by tauto.
  by rewrite app_nil_r.
Qed.

Lemma round_reject dropped pre s c row :
  id_of c ∉ dropped → derived row c → refused (sel_selected s) row →
  round_ok dropped pre s → round_ok dropped (pre ++ [c]) (add_rejection s row).
Proof.
  intros Hc Hd Hr [(picked & left & Hp & H1 & H2) ????].
  split; simpl; [|done|apply Forall_app_2; [done|by apply Forall_singleton]|done..].
  exists picked, (left ++ [c])%list. split_and!; [|done|by apply Forall2_snoc_2].
  rewrite filter_snoc, decide_True by done. by rewrite Hp, <- app_assoc.
Qed.

Lemma round_select dropped pre s c b todo_id scopes lane :
  id_of c ∉ dropped → derived b c → todo_id = id_of b → scopes = scopes_of b → lane = branch_lane b →
  b = selected_branch E C s c todo_id lane (count_of lane (sel_by_lane s) + 1) →
  fits (sel_selected s) b →
  round_ok dropped pre s → round_ok dropped (pre ++ [c]) (select E C s c todo_id scopes lane).
Proof.
  intros Hc Hd -> -> -> Eb Hf [(picked & left & Hp & H1 & H2) Ha Hr Hs Hl].
  unfold select. rewrite <- Eb. split; simpl.
  - exists (picked ++ [c])%list, left. split_and!; [|by apply Forall2_snoc_2|done].
    rewrite filter_snoc, decide_True by done. rewrite Hp, <- !app_assoc.
    by apply Permutation_app_head, Permutation_app_comm.
  - by constructor.
  - apply (Forall_impl _ _ _ Hr). intros. by apply refused_app.
  - by rewrite Hs, fmap_app.
  - intros lane Hlane. rewrite lane_count_snoc by apply Hf. unfold count_of.
    destruct (is_empty (branch_lane b)) eqn:Ee.
    + apply is_empty_spec in Ee. rewrite bool_decide_eq_false_2 by congruence.
      rewrite Z.add_0_r. by apply Hl.
    + case_bool_decide as El; subst.
      * rewrite dict_get_set_eq. simpl. by rewrite <- Hl.
      * rewrite dict_get_set_ne by done. rewrite Z.add_0_r. by apply Hl.
Qed.

Lemma scope_conflict_none scopes l :
  Forall (λ x, x.1 ≠ "") l → scope_conflict E scopes l = Ok "" →
  Forall (λ x, _scopes_overlap E scopes x.2 = Ok false) l.
Proof.
  induction l as [|[i ex] l IH]; intros Hl; simpl; [done|]. apply Forall_cons in Hl as [Hi Hl].
  destruct (_scopes_overlap E scopes ex) as [[]|e] eqn:Eo; simpl; [by intros [= ->]| |done].
  intros H. constructor; [done|]. by apply IH.
Qed.

Lemma scope_conflict_some scopes l r :
  r ≠ "" → scope_conflict E scopes l = Ok r →
  ∃ x, x ∈ l ∧ x.1 = r ∧ _scopes_overlap E scopes x.2 = Ok true.
Proof.
  intros Hr. induction l as [|[i ex] l IH]; simpl; [by intros [= <-]|].
  destruct (_scopes_overlap E scopes ex) as [[]|e] eqn:Eo; simpl; [intros [= ->]|intros H|done].
  - eexists. split; [by left|done].
  - destruct (IH H) as (x & Hx & ?). exists x. split; [by right|done].
Qed.

Lemma selected_derived s c todo_id lane n : derived (selected_branch E C s c todo_id lane n) c.
Proof. unfold selected_branch. destruct (resource_assignment _ _ _); derive. Qed.

Lemma selected_get s c todo_id lane n k :
  k ≠ "resource_assignment" →
  pget k (selected_branch E C s c todo_id lane n) =
  pget k (with_status c "selected"
    [("branch_role", PStr (if (length (sel_selected s) =? 0)%nat then "primary" else "speculative"));
     ("branch_index", PInt (Z.of_nat (length (sel_selected s))));
     ("lane_id", PStr (_lane_id todo_id (length (sel_selected s)))); ("commit_policy", PStr commit_policy);
     ("suggested_commands", texts (match _claim_command E (pc_goal_id C) todo_id (pc_agent C) with
                                   | Some command => [command] | None => [] end))]).
Proof.
  intros Hk. unfold selected_branch. destruct (resource_assignment _ _ _); [|done].
  by rewrite pget_pset_ne.
Qed.

(** The candidate's conflict, as the state of the round shows it. *)
Lemma conflict_free dropped pre s c hz :
  shaped c → round_ok dropped pre s → conflict_of E C s (scopes_of c) = Ok ("", hz) →
  (scopes_of c ≠ [] → Forall (λ a, separate E (scopes_of c) (scopes_of a)) (sel_selected s)) ∧
  (scopes_of c = [] → pc_allow_unscoped_parallel C = false → sel_selected s = []).
Proof.
  intros Hc [_ Ha _ Hs _]. apply admitted_shaped in Ha. unfold conflict_of.
  destruct (scopes_of c) as [|sc scs] eqn:Esc.
  - destruct (sel_selected s) as [|b l]; [done|]. apply Forall_cons in Ha as [[Hb _] _].
    destruct (pc_allow_unscoped_parallel C); [done|]. by intros [= ? ?].
  - rewrite <- Esc. intros H. apply res_bind_Ok in H as (r & Hr & [= -> _]). rewrite Hs in Hr.
    split; [intros _|by rewrite Esc]. apply scope_conflict_none in Hr.
    + apply Forall_fmap in Hr. apply (Forall_impl _ _ _ Hr). intros a. simpl.
      by apply scopes_overlap_false; apply normalize_scopes_normal.
    + apply Forall_fmap, (Forall_impl _ _ _ Ha). by intros a [? _].
Qed.

Lemma conflict_found dropped pre s c r hz row :
  round_ok dropped pre s → conflict_of E C s (scopes_of c) = Ok (r, hz) → r ≠ "" →
  derived row c → pget "selection_status" row = PStr "rejected_hazard" →
  pget "conflict_with" row = PStr r → refused (sel_selected s) row.
Proof.
  intros [_ Ha _ Hs _] H Hr Hd Hst Hcw. unfold conflict_of in H.
  destruct (scopes_of c) as [|sc scs] eqn:Esc.
  - destruct (sel_selected s) as [|b l]; [by simplify_eq|].
    destruct (pc_allow_unscoped_parallel C) eqn:Eu; simplify_eq.
    apply (refused_unscoped _ _ b); [done..| |done]. by rewrite (derived_scopes row c).
  - rewrite <- Esc in H. apply res_bind_Ok in H as (r' & H & [= -> _]). rewrite Hs in H.
    apply scope_conflict_some in H as ([i ex] & Hx & <- & Ho); [|done].
    apply list_elem_of_fmap in Hx as (a & [= -> ->] & Hin).
    eapply refused_scopes; [done..|]. by rewrite (derived_scopes row c).
Qed.

Lemma lane_refused dropped pre s c hz row :
  round_ok dropped pre s → resource_refusal C s c hz (branch_lane c) = Some row →
  derived row c ∧ refused (sel_selected s) row.
Proof.
  intros [_ _ _ _ Hl]. unfold resource_refusal. destruct (rp_enabled (pc_portfolio C)) eqn:Ee; [|done].
  destruct (is_empty (branch_lane c)) eqn:Em; [done|]. apply is_empty_false in Em. simpl.
  destruct (dict_get _ _) as [lane|] eqn:Eg.
  - destruct (Z.leb_spec (available_slots lane) (count_of (branch_lane c) (sel_by_lane s))) as [Hle|]; [|done].
    intros [= <-]. split; [derive|]. rewrite Hl in Hle by done.
    eapply refused_full; [by pgets|done|..]; rewrite ?(derived_lane _ c) by derive; [done|exact Eg|done].
  - intros [= <-]. split; [derive|].
    apply refused_undeclared; [by pgets|done|..]; rewrite ?(derived_lane _ c) by derive; done.
Qed.

Lemma lane_taken dropped pre s c hz todo_id :
  round_ok dropped pre s → resource_refusal C s c hz (branch_lane c) = None →
  rp_enabled (pc_portfolio C) = true → branch_lane c ≠ "" → ∃ lane,
    dict_get (branch_lane c) (rp_lanes (pc_portfolio C)) = Some lane ∧
    (lane_count (branch_lane c) (sel_selected s) < available_slots lane)%Z ∧
    pget "resource_assignment"
      (selected_branch E C s c todo_id (branch_lane c) (count_of (branch_lane c) (sel_by_lane s) + 1)) =
      PMap false (as_items [("resource_lane", PStr (branch_lane c));
        ("slot_ordinal", PInt (current_usage lane + (lane_count (branch_lane c) (sel_selected s) + 1)));
        ("capacity", PInt (capacity lane)); ("current_usage", PInt (current_usage lane))]).
Proof.
  intros [_ _ _ _ Hl] H He Hne. unfold resource_refusal in H. rewrite He in H.
  assert (is_empty (branch_lane c) = false) as Em by (by apply is_empty_false). rewrite Em in H. simpl in H.
  destruct (dict_get _ _) as [lane|] eqn:Eg; [|done]. exists lane. split; [done|].
  rewrite Hl in * by done. destruct (Z.leb_spec (available_slots lane) (lane_count (branch_lane c) (sel_selected s)));
    [done|]. split; [lia|].
  unfold selected_branch, resource_assignment. rewrite He, Em, Eg. simpl. by rewrite pget_pset_eq.
Qed.

Lemma consider_ok dropped pre s c s' :
  shaped c → round_ok dropped pre s → consider E C dropped s c = Ok s' → round_ok dropped (pre ++ [c]) s'.
Proof.
  intros Hc Hs H. unfold consider in H. fold (id_of c) (scopes_of c) (branch_lane c) in H.
  destruct (bool_decide_reflect (id_of c ∈ dropped)); [simplify_eq; by apply round_skip|].
  apply res_bind_Ok in H as ([r hz] & Hr & [= <-]).
  destruct (claimed_by_other _ c) eqn:Eo.
  { apply round_reject; [done|derive| |done]. apply refused_owner; [by pgets|].
    by rewrite (derived_owner _ _ c) by derive. }
  destruct (is_empty r) eqn:Er; simpl; [apply is_empty_spec in Er as ->|apply is_empty_false in Er].
  2: { apply round_reject; [done|derive| |done]. eapply conflict_found; [done..|derive|by pgets|by pgets]. }
  destruct (resource_refusal _ _ _ _ _) as [row|] eqn:El.
  { apply (lane_refused dropped pre) in El as [Hd Hf]; [|done]. by apply round_reject. }
  destruct (Z.leb_spec (pc_selection_budget C) (Z.of_nat (length (sel_selected s)))) as [Hb|Hb].
  { apply round_reject; [done|derive| |done]. by apply refused_budget; [by pgets|]. }
  eapply conflict_free in Hr as [Hsc Hun]; [|done..].
  set (b := selected_branch E C s c (id_of c) (branch_lane c) (count_of (branch_lane c) (sel_by_lane s) + 1)).
  assert (derived b c) as Hd by apply selected_derived.
  apply (round_select dropped pre s c b); [done|done|..|done].
  1-3: symmetry; by (apply derived_id || apply derived_scopes || apply derived_lane).
  - done.
  - split; rewrite ?(derived_scopes b c), ?(derived_lane b c), ?(derived_id b c),
      ?(derived_owner _ b c) by done; try done.
    + by apply (derived_shaped b c).
    + by eapply lane_taken.
    + unfold b. rewrite selected_get by done. by pgets.
    + unfold b. rewrite selected_get by done. by pgets.
    + unfold b. rewrite selected_get by done. by pgets.
Qed.

(** A round that returns has sorted every candidate that was not dropped into
    the branches it selects, each of which fits, and those it refuses. *)
Lemma admission_round_ok dropped l s :
  Forall shaped l → admission_round E C dropped l = Ok s → round_ok dropped l s.
Proof.
  intros Hl H. unfold admission_round in H.
  apply (rfold_inv _ (round_ok dropped) l [] _ _) in H; [done| |apply round_start].
  intros pre x c x' Hc Hx. apply consider_ok; [|done]. by eapply Forall_forall in Hl.
Qed.
End round.
