(* ===== verification/BranchRounds.v ===== *)
(** The rounds of the branch planner: they end, and what their outcome promises. *)

From stdpp Require Import base strings list sets gmap.
From Stdlib Require Import ZArith Lia.
From S2P Require Import Prelude ListLib PyFloat PyValue PyConv PySort TraceRuntime SpecScheduler.
From S2P Require Import SchedulerTheorems TodoContract ResourcePortfolio HarnessGate TodoEvidence.
From S2P Require Import BranchPlan BranchFacts.

Section rounds.
Context (E : planner_env) (C : plan_context).
Notation id_of := (id_of E).
Notation shaped := (shaped E).
Notation deps := (dependencies (str_of E)).

Definition ids (l : list items) : list string := id_of <$> l.
Definition id_set (l : list items) : gset string := list_to_set (ids l).

#[export] Instance ids_perm : Proper ((≡ₚ) ==> (≡ₚ)) ids.
Proof. intros l k Hlk. by apply fmap_Permutation. Qed.

Lemma elem_of_id_set x l : x ∈ id_set l ↔ x ∈ ids l.
Proof. apply elem_of_list_to_set. Qed.

Lemma derived_ids rows cs : Forall2 derived rows cs → ids rows = ids cs.
Proof.
  induction 1 as [|row c rows cs H _ IH]; [done|]. unfold ids in *. rewrite !fmap_cons, IH.
  by rewrite (derived_id E row c).
Qed.

(** All dependencies of a branch are among the ids. *)
Definition met (S : gset string) (b : items) : Prop := Forall (λ d, d ∈ S) (deps b).

#[export] Instance met_dec S b : Decision (met S b).
Proof. apply _. Defined.

Lemma deps_met_selected (S : gset string) b : deps_met (str_of E) S S ∅ b ↔ met S b.
Proof.
  unfold deps_met, met. rewrite !Forall_forall. split; intros H d Hd; [by apply H|].
  split_and!; [by apply H..|set_solver].
Qed.

(** The dependency check of a round. *)
Definition dropped_row (S : gset string) (b : items) : items :=
  invalid_branch b (reason_of (str_of E) S S ∅ b).

Lemma partition_round l : ∃ events,
  partition_invalidated_successors (str_of E) l (branch_id_of (str_of E) <$> l) [] [] "todo_branch_plan" =
  (filter (met (id_set l)) l, dropped_row (id_set l) <$> filter (λ b, ¬ met (id_set l) b) l, events) ∧
  length events = length (filter (λ b, ¬ met (id_set l) b) l).
Proof.
  unfold partition_invalidated_successors.
  assert (effective_selected (str_of E) l (branch_id_of (str_of E) <$> l) = id_set l) as ->.
  { unfold effective_selected. case_bool_decide as He; [|done]. destruct l as [|b l]; [done|].
    set_solver. }
  assert (effective_accepted (id_set l) [] = id_set l) as -> by done.
  rewrite partition_fold. cbn zeta. rewrite !app_nil_l.
  rewrite (filter_ext_in (deps_met _ _ _ _) (met (id_set l)) l) by (intros; apply deps_met_selected).
  rewrite (filter_ext_in (λ b, ¬ deps_met _ _ _ _ b) (λ b, ¬ met (id_set l) b) l)
    by (intros; by rewrite deps_met_selected).
  eexists. split; [done|]. by rewrite length_fmap.
Qed.

Lemma dropped_derived S b : derived (dropped_row S b) b.
Proof. unfold dropped_row, invalid_branch. repeat (apply derived_pset; [planner_key|]). reflexivity. Qed.

Lemma derived_deps row c : derived row c → deps row = deps c.
Proof.
  intros H. unfold dependencies.
  by rewrite (derived_get "depends_on" row c), (derived_get "dependency_todo_ids" row c),
    (derived_get "blocked_by_todo_ids" row c).
Qed.

(** A row of a branch that some round dropped: its reason lists dependencies
    that were not selected. *)
Definition invalidated_row (row : items) : Prop :=
  pget "selection_status" row = PStr "invalidated_dependency" ∧
  ∃ missing, missing ≠ [] ∧ missing ⊆ deps row ∧
    pget "invalidation_reason" row = PStr ("dependency_not_selected:" ++ join "," missing).

Lemma dropped_invalidated S b : ¬ met S b → invalidated_row (dropped_row S b).
Proof.
  intros Hb. split; [unfold dropped_row, invalid_branch; by rewrite pget_pset_ne, pget_pset_eq|].
  exists (filter (λ d, d ∉ S) (deps b)). rewrite (derived_deps (dropped_row S b) b) by apply dropped_derived.
  assert (filter (λ d, d ∉ S) (deps b) ≠ []) as Hne.
  { intros He. apply Hb, Forall_forall. intros d Hd. destruct (decide (d ∈ S)); [done|]. exfalso.
    apply (not_elem_of_nil d). rewrite <- He. by apply list_elem_of_filter. }
  split_and!; [done|by intros d [_ ?]%list_elem_of_filter|].
  unfold dropped_row, invalid_branch. rewrite pget_pset_eq. unfold reason_of, invalidation.
  by destruct (filter (λ d, d ∉ S) (deps b)).
Qed.

(** What holds when a round begins. *)
Record loop_ok (ordered : list items) (dropped : gset string) (rejections : list items) : Prop := {
  lo_ids : dropped = id_set rejections;
  lo_from : Forall (λ row, ∃ c, c ∈ ordered ∧ derived row c) rejections;
  lo_rows : Forall invalidated_row rejections;
  lo_nodup : NoDup (ids ordered) → NoDup (ids rejections)
}.

(** What the loop promises of its outcome. *)
Record outcome_ok (ordered : list items) (o : outcome) : Prop := {
  oo_admitted : admitted E C (out_selected o);
  oo_deps : Forall (met (id_set (out_selected o))) (out_selected o);
  oo_refused : Forall (refused E C (out_selected o)) (out_selection_rejections o);
  oo_invalidated : Forall invalidated_row (out_dependency_rejections o);
  oo_from : Forall (λ row, ∃ c, c ∈ ordered ∧ derived row c)
    (out_selected o ++ out_dependency_rejections o ++ out_selection_rejections o);
  oo_cover : ∀ c, c ∈ ordered →
    id_of c ∈ ids (out_selected o ++ out_dependency_rejections o ++ out_selection_rejections o);
  oo_account : NoDup (ids ordered) →
    ids ordered ≡ₚ ids (out_selected o ++ out_dependency_rejections o ++ out_selection_rejections o)
}.

Lemma ids_app l k : ids (l ++ k) = (ids l ++ ids k)%list.
Proof. apply fmap_app. Qed.

(** The branches of a round are candidates with ids that were not dropped. *)
Lemma round_selected dropped ordered s :
  round_ok E C dropped ordered s →
  Forall (λ row, ∃ c, (c ∈ ordered ∧ id_of c ∉ dropped) ∧ derived row c) (sel_selected s ++ sel_rejections s).
Proof.
  intros [(picked & left & Hp & H1 & H2) _ _ _ _].
  assert (∀ c, c ∈ (picked ++ left)%list → c ∈ ordered ∧ id_of c ∉ dropped) as Hin.
  { intros c. rewrite <- Hp, list_elem_of_filter. tauto. }
  assert (Forall2 derived (sel_selected s ++ sel_rejections s) (picked ++ left)) as H by (by apply Forall2_app).
  apply Forall_lookup. intros i row Hi. eapply Forall2_lookup_l in H as (c & Hc & Hd); [|done].
  exists c. split; [|done]. by eapply Hin, list_elem_of_lookup_2.
Qed.

Lemma round_nodup dropped ordered s :
  round_ok E C dropped ordered s → NoDup (ids ordered) → NoDup (ids (sel_selected s)).
Proof.
  intros [(picked & left & Hp & H1 & _) _ _ _ _] Hnd. rewrite (derived_ids _ _ H1).
  assert (ids (filter (λ c, id_of c ∉ dropped) ordered) ≡ₚ ids picked ++ ids left)%list as Hids.
  { by rewrite <- ids_app, Hp. }
  assert (NoDup (ids (filter (λ c, id_of c ∉ dropped) ordered))) as Hf.
  { eapply sublist_NoDup; [exact Hnd|]. apply fmap_sublist, sublist_filter. }
  rewrite Hids in Hf. by apply NoDup_app in Hf as [? _].
Qed.

(** A round whose selection is closed ends the loop. *)
Lemma loop_done ordered dropped rejections events s :
  loop_ok ordered dropped rejections → round_ok E C dropped ordered s →
  Forall (met (id_set (sel_selected s))) (sel_selected s) →
  outcome_ok ordered
    {| out_selected := sel_selected s; out_dependency_rejections := rejections;
       out_selection_rejections := sel_rejections s; out_dependency_events := events |}.
Proof.
  intros [-> Hfrom Hrows Hnd] Hs Hmet. pose proof (round_selected _ _ _ Hs) as Hsel.
  destruct Hs as [(picked & left & Hp & H1 & H2) Ha Hr _ _].
  assert (ids (sel_selected s) ++ ids (sel_rejections s) ≡ₚ
          ids (filter (λ c, id_of c ∉ id_set rejections) ordered))%list as Hids.
  { rewrite (derived_ids _ _ H1), (derived_ids _ _ H2), <- ids_app. by rewrite Hp. }
  split; simpl; [done..| | |].
  - rewrite !Forall_app in *. destruct Hsel as [Hs1 Hs2].
    split_and!; [|done|]; (eapply Forall_impl; [done|]); intros row (c & [? _] & ?); eauto.
  - intros c Hc. rewrite !ids_app, !elem_of_app.
    destruct (decide (id_of c ∈ id_set rejections)) as [Hd|Hd]; [rewrite elem_of_id_set in Hd; tauto|].
    assert (id_of c ∈ ids (sel_selected s) ++ ids (sel_rejections s))%list as Hin; [|apply elem_of_app in Hin; tauto].
    rewrite Hids. apply list_elem_of_fmap. exists c. split; [done|]. by apply list_elem_of_filter.
  - intros Hno. rewrite !ids_app.
    rewrite (filter_split (λ c, id_of c ∉ id_set rejections) ordered), ids_app, <- Hids.
    rewrite <- app_assoc. apply Permutation_app_head. rewrite Permutation_app_comm.
    apply Permutation_app_tail, NoDup_Permutation; [|by apply Hnd|].
    + eapply sublist_NoDup; [exact Hno|]. apply fmap_sublist, sublist_filter.
    + intros x. unfold ids at 1. rewrite list_elem_of_fmap. setoid_rewrite list_elem_of_filter. split.
      * intros (c & -> & Hc & _). apply dec_stable in Hc. by apply elem_of_id_set.
      * intros Hx. pose proof Hx as Hx'. unfold ids in Hx'. apply list_elem_of_fmap in Hx' as (row & -> & Hrow).
        rewrite Forall_forall in Hfrom. destruct (Hfrom row Hrow) as (c & Hc & Hd). exists c.
        rewrite (derived_id E row c) in * by done. split; [done|]. split; [|done].
        intros Hn. apply Hn. by apply elem_of_id_set.
Qed.

(** The rows a round drops, and their ids. *)
Definition dropped_rows (s : selection) : list items :=
  dropped_row (id_set (sel_selected s)) <$> filter (λ b, ¬ met (id_set (sel_selected s)) b) (sel_selected s).

Lemma dropped_rows_from dropped ordered s :
  round_ok E C dropped ordered s →
  Forall (λ row, ∃ c, (c ∈ ordered ∧ id_of c ∉ dropped) ∧ derived row c) (dropped_rows s).
Proof.
  intros Hs. apply round_selected, Forall_app in Hs as [Hs _]. apply Forall_fmap, Forall_forall.
  intros b [_ Hb]%list_elem_of_filter. rewrite Forall_forall in Hs. destruct (Hs b Hb) as (c & Hc & Hd).
  exists c. split; [done|]. simpl. etrans; [apply dropped_derived|done].
Qed.

Lemma dropped_rows_new dropped ordered s :
  round_ok E C dropped ordered s →
  id_set (dropped_rows s) ∖ dropped = id_set (dropped_rows s) ∧
  id_set (dropped_rows s) ⊆ id_set ordered ∖ dropped.
Proof.
  intros Hs. assert (id_set (dropped_rows s) ⊆ id_set ordered ∖ dropped) as Hsub; [|set_solver].
  intros x. rewrite elem_of_id_set. unfold ids. rewrite list_elem_of_fmap. intros (row & -> & Hrow).
  apply dropped_rows_from in Hs. rewrite Forall_forall in Hs.
  destruct (Hs row Hrow) as (c & [Hc Hn] & Hd). rewrite (derived_id E row c) by done.
  apply elem_of_difference. split; [|done]. apply elem_of_id_set. by apply list_elem_of_fmap_2.
Qed.

Lemma dropped_rows_nodup dropped ordered s :
  round_ok E C dropped ordered s → NoDup (ids ordered) → NoDup (ids (dropped_rows s)).
Proof.
  intros Hs Hno. eapply round_nodup in Hno; [|done].
  assert (ids (dropped_rows s) = ids (filter (λ b, ¬ met (id_set (sel_selected s)) b) (sel_selected s))) as ->.
  { unfold ids, dropped_rows. rewrite <- list_fmap_compose. apply list_fmap_ext. intros i b _. simpl.
    apply derived_id, dropped_derived. }
  eapply sublist_NoDup; [exact Hno|]. apply fmap_sublist, sublist_filter.
Qed.

Lemma loop_next ordered dropped rejections s :
  loop_ok ordered dropped rejections → round_ok E C dropped ordered s →
  loop_ok ordered (dropped ∪ id_set (dropped_rows s)) (rejections ++ dropped_rows s).
Proof.
  intros [-> Hfrom Hrows Hnd] Hs. pose proof (dropped_rows_from _ _ _ Hs) as Hd. split.
  - unfold id_set. rewrite ids_app. by rewrite list_to_set_app_L.
  - apply Forall_app_2; [done|]. eapply Forall_impl; [exact Hd|]. intros row (c & [? _] & ?). eauto.
  - apply Forall_app_2; [done|]. apply Forall_fmap, Forall_forall.
    intros b [Hb _]%list_elem_of_filter. by apply dropped_invalidated.
  - intros Hno. rewrite ids_app. apply NoDup_app. split_and!; [by apply Hnd| |by eapply dropped_rows_nodup].
    intros x Hx Hx'. apply dropped_rows_new in Hs as [_ Hs].
    apply elem_of_id_set in Hx, Hx'. set_solver.
Qed.

(** The loop ends within as many rounds as there are ids left, and its outcome
    keeps its promises; only a round can raise. *)
Lemma select_rounds_ok rounds ordered dropped rejections events :
  Forall shaped ordered → loop_ok ordered dropped rejections →
  (size (id_set ordered ∖ dropped) < rounds)%nat → ∃ r,
    select_rounds E C rounds ordered dropped rejections events = Some r ∧
    ∀ o, r = Ok o → outcome_ok ordered o.
Proof.
  intros Hshaped. revert dropped rejections events.
  induction rounds as [|rounds IH]; intros dropped rejections events Hl Hn; [lia|].
  cbn [select_rounds]. destruct (admission_round E C dropped ordered) as [s|e] eqn:Er; [|by eexists].
  apply admission_round_ok in Er; [|done].
  destruct (partition_round (sel_selected s)) as (evs & -> & _). fold (dropped_rows s).
  pose proof (dropped_rows_new _ _ _ Er) as [Hnew Hsub].
  destruct (dropped_rows s) as [|row rows] eqn:Ed.
  - assert (Forall (met (id_set (sel_selected s))) (sel_selected s)) as Hmet.
    { apply Forall_forall. intros b Hb. destruct (decide (met (id_set (sel_selected s)) b)); [done|].
      exfalso. apply (not_elem_of_nil (dropped_row (id_set (sel_selected s)) b)). rewrite <- Ed.
      apply list_elem_of_fmap_2. by apply list_elem_of_filter. }
    eexists. split; [done|]. intros o [= <-]. rewrite filter_all by done. by apply loop_done with dropped.
  - rewrite <- Ed in Hnew, Hsub |- *. cbn zeta.
    change (list_to_set (branch_id_of (str_of E) <$> dropped_rows s)) with (id_set (dropped_rows s)).
    rewrite Hnew.
    assert (id_set (dropped_rows s) ≠ ∅) as Hne.
    { rewrite Ed. intros He. apply (not_elem_of_empty (C := gset string) (id_of row)). rewrite <- He.
      apply elem_of_id_set. by left. }
    rewrite bool_decide_eq_false_2 by done.
    apply IH; [by apply loop_next|].
    assert (size (id_set ordered ∖ (dropped ∪ id_set (dropped_rows s))) < size (id_set ordered ∖ dropped))%nat;
      [|lia].
    apply subset_size. apply set_choose_L in Hne as [x Hx]. split; [set_solver|]. intros Hs. set_solver.
Qed.

Lemma loop_start ordered : loop_ok ordered ∅ [].
Proof. split; [done..|]. intros _. constructor. Qed.

Lemma id_set_size l : (size (id_set l) ≤ length l)%nat.
Proof.
  unfold id_set, ids. induction l as [|b l IH]; [done|]. rewrite fmap_cons, list_to_set_cons. simpl.
  rewrite size_union_alt, size_singleton.
  assert (size (list_to_set (id_of <$> l) ∖ {[id_of b]} : gset string) ≤ size (list_to_set (id_of <$> l) : gset string))%nat;
    [apply subseteq_size; set_solver|lia].
Qed.
End rounds.
