(* ===== verification/BranchRanking.v ===== *)
(** The candidates of the branch planner and their ranking. *)

From stdpp Require Import base strings list sets gmap.
From Stdlib Require Import ZArith Lia.
From S2P Require Import Prelude ListLib PyFloat PyValue PyConv PySort TraceRuntime SpecScheduler.
From S2P Require Import SchedulerTheorems TodoContract ResourcePortfolio HarnessGate TodoEvidence.
From S2P Require Import BranchPlan BranchFacts BranchRounds.

Lemma Ok_eq {A} (x y : A) : Ok x = Ok y → x = y.
Proof. congruence. Qed.

Section ranking.
Context (E : planner_env).
Notation id_of := (id_of E).
Notation scopes_of := (scopes_of E).
Notation branch_lane := (branch_lane E).

(** What the planner keeps of a todo. *)
Record drawn (c todo : items) : Prop := {
  dr_id : ∃ id, normalize_todo_id E (pget "todo_id" todo) = Some id ∧ pget "todo_id" c = PStr id;
  dr_owner : pget "claimed_by" c = PStr (default "" (owner_of E todo));
  dr_scopes : pget "required_write_scopes" c = texts (_required_write_scopes E todo);
  dr_lane : ∃ lane, resource_lane_from_capabilities E (PStr <$> _required_capabilities E todo) = Ok lane ∧
              pget "resource_lane" c = PStr lane;
  dr_open : pget "actionable_open" c = PBool (todo_item_is_actionable_open E todo);
  dr_class : pget "task_class" c = PStr (todo_item_task_class E todo);
  dr_deps : pget "depends_on" c = por (pget "depends_on" todo) (por (pget "dependency_todo_ids" todo)
              (por (pget "blocked_by_todo_ids" todo) (PSeq false [])));
  dr_units : ∃ x, pget "expected_evidence_units" c = PFloat x;
  dr_score : ∃ x, pget "score" c = PFloat x;
  dr_bucket : ∃ n, pget "claim_bucket" c = PInt n;
  dr_commands : pget "suggested_commands" c = PNone;
  dr_index : pget "index" c = PNone
}.

Lemma readiness_get item k :
  k ∉ ["actionable_open"; "status"; "resume_when"; "resume_ready"] →
  pget k (_candidate_readiness E item) = PNone.
Proof.
  intros Hk. unfold _candidate_readiness. cbn [omap list_omap].
  destruct (pfind "status" item), (pfind "resume_when" item), (pfind "resume_ready" item); simpl;
    rewrite !decide_False by (intros [= <-]; apply Hk; planner_key); done.
Qed.

Lemma candidate_drawn agent todo id frontier projection c :
  normalize_todo_id E (pget "todo_id" todo) = Some id →
  todo_candidate E agent todo id frontier projection = Ok c → drawn c todo.
Proof.
  intros Hid H. unfold todo_candidate in H. apply res_bind_Ok in H as (lane & Hl & H).
  apply res_bind_Ok in H as (audit & _ & H). apply Ok_eq in H as <-.
  match goal with |- context [pupdate ?d ?l] => set (base := pupdate d l) end. assert (∀ k, k ≠ "typed_evidence_audit" →
    pget k (match audit with Some a => pset "typed_evidence_audit" a base | None => base end) = pget k base)
    as Hget by (intros k Hk; destruct audit; [by rewrite pget_pset_ne|done]).
  split; [exists id; split; [done|]|..]; try eexists; try (split; [done|]);
    rewrite Hget by (by vm_compute); unfold base; pgets; try done.
  all: apply readiness_get; refine (bool_decide_eq_true_1 _ _); vm_compute; reflexivity.
Qed.

(** The todos with a valid id. *)
Definition named_todos (todos : list items) : list items :=
  filter (λ t, is_some (normalize_todo_id E (pget "todo_id" t)) = true) todos.

Lemma build_candidates_drawn agent frontier projection todos cs :
  build_candidates E agent frontier projection todos = Ok cs → Forall2 drawn cs (named_todos todos).
Proof.
  revert cs. induction todos as [|t todos IH]; intros cs; simpl; [intros [= <-]; constructor|].
  unfold named_todos. rewrite filter_cons. destruct (normalize_todo_id E (pget "todo_id" t)) as [id|] eqn:Ei.
  - intros H. apply res_bind_Ok in H as (c & Hc & H). apply res_bind_Ok in H as (rest & Hr & [= <-]).
    simpl. constructor; [by eapply candidate_drawn|]. by apply IH.
  - intros H. simpl. by apply IH.
Qed.

Lemma normal_id_nonempty v id : normalize_todo_id E v = Some id → id ≠ "".
Proof.
  unfold normalize_todo_id. destruct (is_empty (stripped_lower E v)) eqn:Ee; [done|].
  destruct (TODO_ID_PATTERN _); [|done]. intros [= <-]. by apply is_empty_false.
Qed.

Lemma drawn_id c t : drawn c t → normalize_todo_id E (pget "todo_id" t) = Some (id_of c).
Proof.
  intros [(id & Hi & Hc) _ _ _ _ _ _ _ _ _ _ _]. rewrite Hi. f_equal.
  unfold id_of, branch_id_of. by rewrite Hc, str_of_text.
Qed.

Lemma drawn_shaped c t : drawn c t → shaped E c.
Proof.
  intros H. pose proof (normal_id_nonempty _ _ (drawn_id c t H)) as Hi. split; [done|].
  destruct (dr_lane _ _ H) as (lane & _ & Hl). unfold branch_lane. by rewrite Hl, str_of_text.
Qed.

Lemma drawn_scopes c t : drawn c t → scopes_of c = _required_write_scopes E t.
Proof.
  intros H. unfold scopes_of, _required_write_scopes at 1. rewrite (dr_scopes _ _ H).
  apply normalize_scopes_id, normalize_scopes_normal.
Qed.

(** A candidate can be sorted. *)
Lemma candidate_key_total c t : drawn c t → ∃ k, candidate_key E c = Ok k.
Proof.
  intros H. destruct (dr_score _ _ H) as [x Hx]. destruct (dr_bucket _ _ H) as [n Hn].
  unfold candidate_key, todo_projection_sort_key, todo_index_rank.
  rewrite Hx, Hn, (dr_index _ _ H), float_or_zero_float. simpl.
  unfold por. destruct (truthy (PInt n)); simpl; eauto.
Qed.

Lemma sort_candidates_ok l : Forall (λ c, ∃ t, drawn c t) l → ∃ l', sort_candidates E l = Ok l' ∧ l' ≡ₚ l.
Proof.
  intros Hl. assert (∃ ks, rmap (λ c, key ← candidate_key E c; Ok (key, c)) l = Ok ks ∧ ks.*2 = l)
    as (ks & Hk & Hs).
  { induction Hl as [|c l [t Hc] _ (ks & Hk & Hs)]; [by exists []|].
    destruct (candidate_key_total c t Hc) as [k Ek]. exists ((k, c) :: ks).
    split; [simpl; rewrite Ek; simpl; by rewrite Hk|by rewrite fmap_cons, Hs]. }
  unfold sort_candidates. rewrite Hk. eexists. split; [done|]. by rewrite py_sort_perm, Hs.
Qed.

Lemma schedule_loop_bound load i s bt bb l out :
  schedule_loop (py_pow E) load i s bt bb l = Ok out → (out.1.2 ≤ Nat.max bb (i + length l - 1))%nat.
Proof.
  revert i s bt bb out. induction l as [|c l IH]; intros i s bt bb out; simpl; [intros [= <-]; simpl; lia|].
  destruct (step_throughput _ _ _) as [x|e]; simpl; [|done].
  intros H. apply res_bind_Ok in H as (rest & Hr & [= <-]). apply IH in Hr. simpl.
  destruct (fltb bt _); lia.
Qed.

Lemma schedule_width candidates w bw load s :
  schedule_confidence_prefix (py_pow E) candidates w bw load = Ok s →
  (Z.of_nat (sc_selected_prefix_length s) ≤ Z.max 1 (Z.min bw (if (w =? 0)%Z then 1 else w)))%Z.
Proof.
  unfold schedule_confidence_prefix. intros H. apply res_bind_Ok in H as ([[bt bb] st] & Hl & H).
  apply schedule_loop_bound in Hl. simpl in Hl. rewrite length_take in Hl.
  apply res_bind_Ok in H as (m1 & _ & H). apply res_bind_Ok in H as (m2 & _ & H).
  apply res_bind_Ok in H as (sp & _ & [= <-]). simpl.
  destruct (take _ candidates); simpl in *; lia.
Qed.

(** What a ranking holds. *)
Record ranking_ok (rq : branch_plan_request) (agent : option string) (p : portfolio) (width : Z) (r : ranking)
  : Prop := {
  rg_drawn : ∃ cs, rk_candidates r ≡ₚ cs ∧ Forall2 drawn cs (named_todos (rq_todos rq));
  rg_excluded : rk_excluded r = omap _execution_exclusion (rk_candidates r);
  rg_exploration : rk_exploration r = filter (λ c, explored c = true) (rk_candidates r);
  rg_ordered : rk_ordered r ≡ₚ rk_exploration r;
  rg_agent : pc_agent (rk_context r) = agent;
  rg_goal : pc_goal_id (rk_context r) = rq_goal_id rq;
  rg_portfolio : pc_portfolio (rk_context r) = p;
  rg_unscoped : pc_allow_unscoped_parallel (rk_context r) = rq_allow_unscoped_parallel rq;
  rg_verification : (1 ≤ rk_verification_budget r ≤ Z.max 1 (Z.min MAX_BRANCH_WIDTH width))%Z;
  rg_budget : pc_selection_budget (rk_context r) = if rp_enabled p then width else rk_verification_budget r
}.

Lemma rank_todos_ok rq agent p width r :
  (1 ≤ width)%Z → rank_todos E rq agent p width = Ok r → ranking_ok rq agent p width r.
Proof.
  intros Hw H. unfold rank_todos in H. apply res_bind_Ok in H as (frontier & _ & H).
  apply res_bind_Ok in H as (unsorted & Hu & H). apply build_candidates_drawn in Hu.
  apply res_bind_Ok in H as (sorted & Hs & H). apply res_bind_Ok in H as (sch & Hsch & H).
  apply Ok_eq in H as <-. apply schedule_width in Hsch.
  destruct (sort_candidates_ok unsorted) as (l & Hl & Hp).
  { apply Forall_lookup. intros i c Hc. by eapply Forall2_lookup_l in Hu as (t & _ & ?); eauto. }
  rewrite Hs in Hl. simplify_eq.
  split; simpl; try done; [by exists unsorted| |].
  - destruct (rp_enabled p); [|done]. apply py_sort_perm.
  - destruct (Z.eqb_spec width 0); lia.
Qed.

Lemma ranking_from rq agent p width r c :
  ranking_ok rq agent p width r → c ∈ rk_candidates r → ∃ t, t ∈ rq_todos rq ∧ drawn c t.
Proof.
  intros [(cs & Hp & Hd) _ _ _ _ _ _ _ _ _] Hc. rewrite Hp in Hc.
  apply list_elem_of_lookup_1 in Hc as [i Hi]. eapply Forall2_lookup_l in Hd as (t & Ht & ?); [|done].
  exists t. split; [|done]. apply list_elem_of_lookup_2 in Ht. unfold named_todos in Ht.
  by apply list_elem_of_filter in Ht as [_ ?].
Qed.

Lemma ranking_ordered rq agent p width r c :
  ranking_ok rq agent p width r → c ∈ rk_ordered r ↔ c ∈ rk_candidates r ∧ explored c = true.
Proof.
  intros Hr. rewrite (rg_ordered _ _ _ _ _ Hr), (rg_exploration _ _ _ _ _ Hr), list_elem_of_filter. tauto.
Qed.

Lemma ranking_shaped rq agent p width r : ranking_ok rq agent p width r → Forall (shaped E) (rk_ordered r).
Proof.
  intros Hr. apply Forall_forall. intros c Hc. eapply ranking_ordered in Hc as [Hc _]; [|done].
  eapply ranking_from in Hc as (t & _ & Hd); [|done]. by eapply drawn_shaped.
Qed.

(** The excluded candidates are those that are not explored. *)
Lemma exclusion_spec c :
  match _execution_exclusion c with
  | Some row => explored c = false ∧ derived row c ∧
      pget "selection_status" row ∈ [PStr "excluded_non_exploration_lane"; PStr "not_actionable_open"]
  | None => explored c = true
  end.
Proof.
  unfold _execution_exclusion, explored. destruct (py_eq _ _); simpl.
  - split_and!; [done|derive|]. pgets. by left.
  - destruct (truthy _); [done|]. split_and!; [done|derive|]. pgets. right. by left.
Qed.
End ranking.
