(* ===== verification/BranchTheorems.v ===== *)
(** Properties of the branch planner: the gate, the plan it returns, its
    accounts, refusals and resource slots. *)

From stdpp Require Import base strings list sets gmap.
From Stdlib Require Import ZArith Lia.
From S2P Require Import Prelude ListLib PyFloat PyValue PyConv PySort TraceRuntime SpecScheduler.
From S2P Require Import SchedulerTheorems TodoContract ResourcePortfolio HarnessGate TodoEvidence.
From S2P Require Import BranchPlan BranchFacts BranchRounds BranchRanking.

(** * The gate *)

Section gate.
Context (E : planner_env).

(** The settings of a harness in a spawn policy. *)
Definition harness_of (orchestration : pyval) : items :=
  match orchestration with PMap _ d => dict_items (pget "explore_harness" d) | _ => [] end.

Definition policy_of (orchestration : pyval) : items :=
  match orchestration with PMap _ d => d | _ => [] end.

Lemma compact_policy_spec v c :
  compact_orchestration_policy E v = Ok c →
  cp_spawn_allowed c = _spawn_allowed (dict_items v) ∧
  cp_max_children c = Z.max 0 (_int_number E (pget "max_children" (dict_items v))) ∧
  (match cp_explore_harness c with Some h => hp_enabled h | None => false end) =
    is_true (pget "enabled" (dict_items (pget "explore_harness" (dict_items v)))).
Proof.
  unfold compact_orchestration_policy. intros H. apply res_bind_Ok in H as (m & _ & H).
  apply res_bind_Ok in H as (x & _ & H). apply res_bind_Ok in H as (h & Hh & H). apply Ok_eq in H as <-.
  simpl. split_and!; [done..|]. destruct (pget "explore_harness" (dict_items v)) as [| | | | | |[] d| |];
    simplify_eq; try done.
  apply res_bind_Ok in Hh as (h' & Hh & [= <-]). unfold compact_explore_harness_policy in Hh.
  destruct (_ || _); [|by simplify_eq]. by apply res_bind_Ok in Hh as (pol & _ & [= <-]).
Qed.

Lemma cap_ltb_le a b : cap_ltb a b = false → (b.1 ≤ a.1)%Z.
Proof. unfold cap_ltb. rewrite orb_false_iff. lia. Qed.

(** The width and its cap. *)
Lemma min_cap_spec first rest :
  let m := min_cap first rest in
  m ∈ first :: rest ∧ Forall (λ cap, cap_ltb cap m = false) (first :: rest).
Proof.
  unfold min_cap. induction rest as [|cap rest IH] using rev_ind; simpl.
  - split; [by left|]. repeat constructor. unfold cap_ltb. destruct (Z.ltb_spec first.1 first.1); [lia|].
    destruct (Z.ltb_spec first.2.1 first.2.1); [lia|]. by rewrite andb_false_r.
  - rewrite fold_left_app. simpl. set (m := fold_left _ rest first) in *. destruct IH as [Hin Hall].
    destruct (cap_ltb cap m) eqn:Ec.
    + split; [set_solver|]. rewrite app_comm_cons. apply Forall_app_2.
      * apply (Forall_impl _ _ _ Hall). intros x. unfold cap_ltb in *. rewrite !orb_false_iff, !andb_false_iff.
        rewrite orb_true_iff, andb_true_iff in Ec. lia.
      * apply Forall_singleton. unfold cap_ltb. rewrite orb_false_iff, andb_false_iff. lia.
    + split; [set_solver|]. rewrite app_comm_cons. apply Forall_app_2; [done|]. by apply Forall_singleton.
Qed.

(** The caps on the width of a plan. *)
Definition width_caps (orchestration : pyval) (requested_width max_lanes : Z) (label : string)
  : list (Z * string) :=
  let children := Z.max 0 (_int_number E (pget "max_children" (policy_of orchestration))) in
  (Z.max 1 (if (requested_width =? 0)%Z then 1 else requested_width), "requested")
  :: (Z.max 1 max_lanes, label) :: (if (0 <? children)%Z then [(children, "max_children")] else []).

(** The least cap, with the label that names it. *)
Definition least_cap (width : Z) (source : string) (caps : list (Z * string)) : Prop :=
  (width, source) ∈ caps ∧ Forall (λ cap, (width ≤ cap.1)%Z) caps ∧ (1 ≤ width)%Z.

Lemma min_cap_least orchestration requested_width max_lanes label w pr src :
  let children := Z.max 0 (_int_number E (pget "max_children" (policy_of orchestration))) in
  min_cap (Z.max 1 (if (requested_width =? 0)%Z then 1 else requested_width), (2%Z, "requested"))
    ((Z.max 1 max_lanes, (1%Z, label))
      :: (if (0 <? children)%Z then [(children, (0%Z, "max_children"))] else [])) = (w, (pr, src)) →
  least_cap w src (width_caps orchestration requested_width max_lanes label).
Proof.
  intros children. set (requested := Z.max 1 _). set (rest := _ :: _).
  assert (width_caps orchestration requested_width max_lanes label =
          (λ cap, (cap.1, cap.2.2)) <$> (requested, (2%Z, "requested")) :: rest) as Hcaps
    by (unfold width_caps, rest, requested; fold children; by destruct (0 <? children)%Z).
  intros Hm. pose proof (min_cap_spec (requested, (2%Z, "requested")) rest) as [Hin Hall].
  rewrite Hm in Hin, Hall. unfold least_cap. rewrite Hcaps. split_and!.
  - apply list_elem_of_fmap. by exists (w, (pr, src)).
  - apply Forall_fmap, (Forall_impl _ _ _ Hall). intros cap. apply cap_ltb_le.
  - unfold rest in Hin. clear -Hin. assert (1 ≤ requested)%Z by (unfold requested; lia).
    destruct (Z.ltb_spec 0 children); set_unfold; naive_solver lia.
Qed.

Lemma gate_cases orchestration requested_width max_lanes label g :
  resolve_explore_harness_gate E orchestration requested_width max_lanes label = Ok g →
  let policy := policy_of orchestration in
  let children := Z.max 0 (_int_number E (pget "max_children" policy)) in
  if is_true (pget "enabled" (harness_of orchestration)) then
    least_cap (hg_effective_width g) (hg_width_cap_source g)
      (width_caps orchestration requested_width max_lanes label) ∧
    hg_state g = if _spawn_allowed policy && (0 <? children)%Z then GATE_STATE_COMMANDS_SUGGESTED
                 else GATE_STATE_ANALYSIS_ONLY
  else hg_state g = GATE_STATE_DISABLED ∧ hg_effective_width g = 0%Z.
Proof.
  intros H policy children. unfold resolve_explore_harness_gate in H.
  apply res_bind_Ok in H as (c & Hc & H). apply compact_policy_spec in Hc as (Hs & Hm & He).
  assert (dict_items (match orchestration with
          | PMap _ d => if is_mapping orchestration && truthy orchestration then PMap false d else PNone
          | _ => PNone end) = policy) as Hv.
  { unfold policy, policy_of. destruct orchestration as [| | | | | |fz [|kv d]| |]; done. }
  rewrite Hv in Hs, Hm, He.
  assert (dict_items (pget "explore_harness" policy) = harness_of orchestration) as Hh
    by (unfold policy; by destruct orchestration).
  rewrite Hh in He. rewrite Hs, Hm, He in H. rewrite Z.max_r in H by lia. fold children in H.
  destruct (is_true _); simpl in H; [|by injection H as <-].
  destruct (min_cap _ _) as [w [pr src]] eqn:Ew. apply min_cap_least in Ew.
  assert (Z.max 1 w = w) as Hw by (destruct Ew as (_ & _ & ?); lia). rewrite Hw in H.
  destruct (_spawn_allowed policy); simpl in H; [|by injection H as <-].
  rewrite (Z.ltb_antisym children 0). by destruct (children <=? 0)%Z; injection H as <-.
Qed.

Lemma is_true_spec v : is_true v = true ↔ v = PBool true.
Proof. by destruct v as [|[]| | | | | | |]. Qed.

Lemma spawn_allowed_spec policy :
  _spawn_allowed policy = true ↔
  pget "allowed" policy = PBool true ∨ pget "spawn_allowed" policy = PBool true.
Proof. unfold _spawn_allowed. by rewrite orb_true_iff, !is_true_spec. Qed.

(** The gate fails closed and never widens a plan.  It is open exactly when
    the goal's policy is a mapping whose [explore_harness] is a dict with
    [enabled] the boolean true; commands are suggested exactly when, in
    addition, spawning is allowed by the boolean true and there is room for
    children.  An open gate gives the least of the requested width, the
    planner's ceiling and the number of children (when positive), and names a
    cap that gives it. *)
Theorem harness_gate_exact orchestration requested_width max_lanes label g :
  resolve_explore_harness_gate E orchestration requested_width max_lanes label = Ok g →
  let policy := policy_of orchestration in
  (hg_state g ≠ GATE_STATE_DISABLED ↔ pget "enabled" (harness_of orchestration) = PBool true) ∧
  (hg_state g = GATE_STATE_COMMANDS_SUGGESTED ↔
     hg_state g ≠ GATE_STATE_DISABLED ∧ (0 < _int_number E (pget "max_children" policy))%Z ∧
     (pget "allowed" policy = PBool true ∨ pget "spawn_allowed" policy = PBool true)) ∧
  (hg_state g = GATE_STATE_DISABLED → hg_effective_width g = 0%Z) ∧
  (hg_state g ≠ GATE_STATE_DISABLED →
     least_cap (hg_effective_width g) (hg_width_cap_source g)
       (width_caps orchestration requested_width max_lanes label)).
Proof.
  intros H policy. apply gate_cases in H. fold policy in H. rewrite <- is_true_spec, <- spawn_allowed_spec.
  destruct (is_true _).
  - destruct H as [Hl ->]. destruct (_spawn_allowed policy), (Z.ltb_spec 0 (Z.max 0 (_int_number E (pget "max_children" policy))));
      simpl; (split_and!; [done|split; [|intros; destruct_and?]|done|done]); done || lia || (intros _; split_and!; done || lia).
  - destruct H as [-> ->]. split_and!; [split; done|split; [done|by intros [? _]]|done|done].
Qed.
End gate.

(** * The plan *)

Section plan.
Context (E : planner_env).
Notation id_of := (id_of E).
Notation ids := (ids E).
Notation id_set := (id_set E).
Notation scopes_of := (scopes_of E).
Notation branch_lane := (branch_lane E).
Notation deps := (dependencies (str_of E)).

(** The width a request asks for. *)
Definition requested_width (rq : branch_plan_request) : Z :=
  Z.max 1 (if (rq_width rq =? 0)%Z then DEFAULT_BRANCH_WIDTH else rq_width rq).

(** A plan that is returned went through these steps. *)
Record planned (rq : branch_plan_request) (p : portfolio) (gate : harness_gate) (r : ranking) (o : outcome)
    (plan : plan_report) : Prop := {
  pl_portfolio : resolve_resource_portfolio E (rq_resource_capacities rq) (rq_resource_usage rq) = Ok p;
  pl_gate : resolve_todo_branch_plan_gate E (rq_orchestration rq)
    (requested_width rq) = Ok gate;
  pl_open : hg_state gate ≠ GATE_STATE_DISABLED;
  pl_ranking : ranking_ok E rq (normalize_todo_claimed_by E (rq_agent_id rq)) p (hg_effective_width gate) r;
  pl_outcome : outcome_ok E (rk_context r) (rk_ordered r) o;
  pl_finish : finish_plan E rq (normalize_todo_claimed_by E (rq_agent_id rq)) gate
    (requested_width rq) r o = Ok plan
}.

Lemma select_branches_ok rq agent p width r :
  ranking_ok E rq agent p width r → ∃ x, select_branches E r = Some x ∧
    ∀ o, x = Ok o → outcome_ok E (rk_context r) (rk_ordered r) o.
Proof.
  intros Hr. apply select_rounds_ok; [by eapply ranking_shaped|apply loop_start|].
  rewrite difference_empty_L. pose proof (id_set_size E (rk_ordered r)). lia.
Qed.

Lemma gate_width orchestration w g :
  resolve_todo_branch_plan_gate E orchestration w = Ok g → hg_state g ≠ GATE_STATE_DISABLED →
  (1 ≤ hg_effective_width g ≤ MAX_BRANCH_WIDTH)%Z ∧ (hg_effective_width g ≤ Z.max 1 w)%Z.
Proof.
  intros Hg Ho. apply gate_cases in Hg. destruct (is_true _); [|by destruct Hg].
  destruct Hg as [(_ & Hall & H1) _]. unfold width_caps in Hall.
  apply Forall_cons in Hall as [Hr Hall]. apply Forall_cons in Hall as [Hm _]. simpl in Hr, Hm.
  unfold MAX_BRANCH_WIDTH in *. destruct (Z.eqb_spec w 0); lia.
Qed.

(** Every request is answered: the loop of the planner ends. *)
Theorem branch_plan_ends rq : ∃ answer, build_explore_todo_branch_plan E rq = Some answer.
Proof.
  unfold build_explore_todo_branch_plan. fold (requested_width rq). destruct (_ ≫= _) as [[p gate]|e] eqn:Ep; [|by eexists].
  case_bool_decide as Hst; [by eexists|]. apply res_bind_Ok in Ep as (p' & Hp & Ep).
  apply res_bind_Ok in Ep as (g & Hg & Ep). simplify_eq. apply gate_width in Hg as [Hw _]; [|done].
  destruct (rank_todos E rq _ p _) as [r|e] eqn:Er; [|by eexists].
  apply rank_todos_ok in Er; [|lia]. destruct (select_branches_ok _ _ _ _ _ Er) as (x & -> & _).
  by eexists.
Qed.

Lemma plan_inv rq plan :
  build_explore_todo_branch_plan E rq = Some (Ok (EnabledPlan plan)) →
  ∃ p gate r o, planned rq p gate r o plan.
Proof.
  unfold build_explore_todo_branch_plan. fold (requested_width rq). intros H.
  destruct (_ ≫= _) as [[p gate]|e] eqn:Ep; [|done].
  apply res_bind_Ok in Ep as (p' & Hp & Ep). apply res_bind_Ok in Ep as (g & Hg & Ep).
  apply Ok_eq in Ep as [= -> ->]. case_bool_decide as Hst; [done|].
  destruct (rank_todos E rq _ p _) as [r|e] eqn:Er; [|done].
  pose proof (gate_width _ _ _ Hg Hst) as [Hw _]. apply rank_todos_ok in Er; [|lia].
  destruct (select_branches_ok _ _ _ _ _ Er) as (x & Hx & Ho). rewrite Hx in H. simpl in H.
  injection H as H. apply res_bind_Ok in H as (o & -> & H). apply res_bind_Ok in H as (plan' & Hf & H).
  apply Ok_eq in H as [= ->]. exists p, gate, r, o. split; try done. by apply Ho.
Qed.

(** Suppressing commands touches two keys. *)
Definition masks (f : items → items) : Prop :=
  ∀ k b, k ≠ "suggested_commands" → k ≠ "commands_suppressed_reason" → pget k (f b) = pget k b.

Lemma suppress_masks reason : masks (suppress_commands reason).
Proof.
  intros k b H1 H2. unfold suppress_commands. destruct (truthy _); [|done]. by rewrite !pget_pset_ne.
Qed.

Lemma masks_derived f b : masks f → derived (f b) b.
Proof. intros Hf k Hk. apply Hf; intros ->; apply Hk; planner_key. Qed.

Definition mask_of (gate : harness_gate) : items → items :=
  if bool_decide (hg_state gate = GATE_STATE_ANALYSIS_ONLY) then suppress_commands (hg_reason gate) else id.

Lemma mask_masks gate : masks (mask_of gate).
Proof. unfold mask_of. case_bool_decide; [apply suppress_masks|by intros k b]. Qed.

Definition all_rejected (r : ranking) (o : outcome) : list items :=
  (rk_excluded r ++ out_dependency_rejections o ++ out_selection_rejections o)%list.

Lemma finish_spec rq agent gate w r o plan :
  finish_plan E rq agent gate w r o = Ok plan →
  bp_gate plan = gate ∧ bp_issue_width plan = hg_effective_width gate ∧
  bp_selection_budget plan = pc_selection_budget (rk_context r) ∧
  bp_candidate_count plan = length (rk_candidates r) ∧
  bp_selected_branches plan = mask_of gate <$> out_selected o ∧
  bp_selected_count plan = length (out_selected o) ∧
  bp_rejected_candidate_count plan = length (all_rejected r o) ∧
  bp_rejected_candidates plan =
    take (Z.to_nat (Z.max 0 (hg_effective_width gate * 3))) (mask_of gate <$> all_rejected r o) ∧
  bp_resource_portfolio plan =
    resource_portfolio_with_selection (pc_portfolio (rk_context r)) (bp_selected_branches plan).
Proof.
  unfold finish_plan. fold (mask_of gate) (all_rejected r o). intros H.
  apply res_bind_Ok in H as (ab & _ & H). apply Ok_eq in H as <-. simpl. by rewrite !length_fmap.
Qed.

(** A selected branch is an open todo of the request that is no monitor and
    that nobody else owns. *)
Definition runnable (agent : option string) (todo : items) : Prop :=
  todo_item_is_actionable_open E todo = true ∧
  todo_item_task_class E todo ≠ TODO_TASK_CLASS_MONITOR ∧
  (owner_of E todo = None ∨ owner_of E todo = agent).

Lemma owner_nonempty v owner : normalize_todo_claimed_by E v = Some owner → owner ≠ "".
Proof.
  unfold normalize_todo_claimed_by. destruct (is_empty _) eqn:Ee; [done|].
  destruct (TODO_AGENT_CLAIM_PATTERN _); [|done]. intros [= <-]. by apply is_empty_false.
Qed.

Lemma drawn_runnable agent c t :
  drawn E c t → explored c = true → claimed_by_other agent c = false → runnable agent t.
Proof.
  intros Hd He Ho. unfold explored in He. rewrite (dr_open _ _ _ Hd), (dr_class _ _ _ Hd) in He.
  apply andb_true_iff in He as [Hm Ha]. simpl in Hm, Ha. split_and!; [done| |].
  - apply negb_true_iff, bool_decide_eq_false_1 in Hm. done.
  - unfold claimed_by_other in Ho. rewrite (dr_owner _ _ _ Hd) in Ho.
    destruct (owner_of E t) as [owner|] eqn:Eo; [|by left]. right. simpl in Ho.
    apply owner_nonempty, is_empty_false in Eo. rewrite Eo in Ho. simpl in Ho.
    apply negb_false_iff in Ho. destruct agent as [a|]; simpl in Ho; [|done].
    by apply bool_decide_eq_true_1 in Ho as ->.
Qed.

(** ** Selected branches *)

Lemma admitted_lookup C l i b : admitted E C l → l !! i = Some b → fits E C (take i l) b.
Proof.
  induction 1 as [|l x _ IH Hx]; [done|]. intros Hi. destruct (decide (i < length l)%nat) as [Hlt|Hge].
  - rewrite lookup_app_l in Hi by done. rewrite take_app_le by lia. by apply IH.
  - rewrite lookup_app_r in Hi by lia. apply list_lookup_singleton_Some in Hi as [Hi <-].
    replace i with (length l) by lia. by rewrite take_app_length.
Qed.

Lemma admitted_budget C l : admitted E C l → (Z.of_nat (length l) ≤ Z.max 0 (pc_selection_budget C))%Z.
Proof.
  destruct 1 as [|l b _ Hb]; [simpl; lia|]. pose proof (fit_budget _ _ _ _ Hb). rewrite length_app. simpl. lia.
Qed.

Lemma masked_lookup (f : items → items) (l : list items) i b : (f <$> l) !! i = Some b → ∃ a, l !! i = Some a ∧ b = f a.
Proof. intros H. apply list_lookup_fmap_Some in H as (a & -> & ?). eauto. Qed.

Lemma masked_ids f l : masks f → ids (f <$> l) = ids l.
Proof.
  intros Hf. unfold BranchRounds.ids. rewrite <- list_fmap_compose. apply list_fmap_ext. intros i b _. simpl.
  by apply derived_id, masks_derived.
Qed.

Section planned.
Context (rq : branch_plan_request) (p : portfolio) (gate : harness_gate) (r : ranking) (o : outcome).
Context (plan : plan_report) (Hplan : planned rq p gate r o plan).
Notation selected := (bp_selected_branches plan).

Lemma plan_selected : selected = mask_of gate <$> out_selected o.
Proof. destruct Hplan as [_ _ _ _ _ Hf]. by apply finish_spec in Hf as (_ & _ & _ & _ & ? & _). Qed.

Lemma plan_masked b : derived (mask_of gate b) b.
Proof. apply masks_derived, mask_masks. Qed.

(** A row of the outcome is a candidate that was explored, drawn from a todo. *)
Lemma plan_row_from row :
  row ∈ (out_selected o ++ out_dependency_rejections o ++ out_selection_rejections o)%list →
  ∃ c todo, derived row c ∧ explored c = true ∧ todo ∈ rq_todos rq ∧ drawn E c todo.
Proof.
  destruct Hplan as [_ _ _ Hr Ho _]. intros Hin. pose proof (oo_from _ _ _ _ Ho) as Hfrom.
  rewrite Forall_forall in Hfrom. destruct (Hfrom row Hin) as (c & Hc & Hd).
  apply (ranking_ordered E _ _ _ _ _ c Hr) in Hc as [Hc He].
  destruct (ranking_from E _ _ _ _ _ c Hr Hc) as (t & Ht & Hdr). by exists c, t.
Qed.

Lemma plan_fits i b :
  selected !! i = Some b → ∃ a, b = mask_of gate a ∧ out_selected o !! i = Some a ∧
    fits E (rk_context r) (take i (out_selected o)) a.
Proof.
  rewrite plan_selected. intros Hi. apply masked_lookup in Hi as (a & Hi & ->). exists a.
  split_and!; [done..|]. apply admitted_lookup; [|done]. by destruct Hplan as [_ _ _ _ [] _].
Qed.

Lemma plan_branch_todo b :
  b ∈ selected → ∃ todo, todo ∈ rq_todos rq ∧
    runnable (normalize_todo_claimed_by E (rq_agent_id rq)) todo ∧
    normalize_todo_id E (pget "todo_id" todo) = Some (id_of b) ∧ scopes_of b = _required_write_scopes E todo.
Proof.
  intros Hb. apply list_elem_of_lookup_1 in Hb as [i Hi]. apply plan_fits in Hi as (a & -> & Hi & Hfit).
  destruct (plan_row_from a) as (c & t & Hd & He & Ht & Hdr).
  { apply elem_of_app. left. by eapply list_elem_of_lookup_2. }
  apply fit_owner in Hfit. destruct Hplan as [_ _ _ Hr _ _].
  rewrite (derived_owner _ a c), (rg_agent _ _ _ _ _ _ Hr) in Hfit by done.
  assert (derived (mask_of gate a) c) as Hd' by (etrans; [apply plan_masked|done]).
  exists t. rewrite (derived_id _ _ _ Hd'), (derived_scopes _ _ _ Hd').
  split_and!; [done|by eapply drawn_runnable|by apply drawn_id|by apply drawn_scopes].
Qed.

Lemma plan_separate i j a b :
  (i < j)%nat → selected !! i = Some a → selected !! j = Some b → scopes_of b ≠ [] →
  separate E (scopes_of b) (scopes_of a).
Proof.
  intros Hij Hi Hj. apply plan_fits in Hi as (a' & -> & Hi & _), Hj as (b' & -> & _ & Hfit).
  rewrite !(derived_scopes E _ _ (plan_masked _)). intros Hne.
  pose proof (fit_scopes _ _ _ _ Hfit Hne) as Hall. rewrite Forall_forall in Hall.
  apply Hall, list_elem_of_lookup_2 with i. by rewrite lookup_take_lt.
Qed.

Lemma plan_unscoped i b :
  rq_allow_unscoped_parallel rq = false → selected !! i = Some b → scopes_of b = [] → i = 0%nat.
Proof.
  intros Hu Hi. apply plan_fits in Hi as (a & -> & Hi & Hfit).
  rewrite (derived_scopes E _ _ (plan_masked _)). intros He. destruct Hplan as [_ _ _ Hr _ _].
  rewrite <- (rg_unscoped _ _ _ _ _ _ Hr) in Hu.
  pose proof (fit_unscoped _ _ _ _ Hfit He Hu) as Ht. apply (f_equal length) in Ht.
  rewrite length_take in Ht. apply lookup_lt_Some in Hi. simpl in Ht. lia.
Qed.

Lemma plan_deps b d : b ∈ selected → d ∈ deps b → d ∈ ids selected.
Proof.
  rewrite plan_selected, masked_ids by apply mask_masks. intros Hin.
  apply list_elem_of_fmap in Hin as (a & -> & Hin). rewrite (derived_deps E _ _ (plan_masked _)). intros Hd.
  destruct Hplan as [_ _ _ _ Ho _]. pose proof (oo_deps _ _ _ _ Ho) as Hall.
  rewrite Forall_forall in Hall. pose proof (Hall a Hin) as Hmet. unfold met in Hmet.
  rewrite Forall_forall in Hmet. by apply elem_of_id_set, Hmet.
Qed.

Lemma plan_width :
  (Z.of_nat (length selected) ≤ bp_selection_budget plan ≤ bp_issue_width plan)%Z ∧
  ∃ source, least_cap (bp_issue_width plan) source
    (width_caps E (rq_orchestration rq) (requested_width rq) MAX_BRANCH_WIDTH "max_branch_width").
Proof.
  rewrite plan_selected, length_fmap. destruct Hplan as [_ Hg Hop Hr Ho Hf].
  apply finish_spec in Hf as (_ & -> & -> & _). pose proof (gate_width _ _ _ Hg Hop).
  apply gate_cases in Hg. destruct (is_true _); [|by destruct Hg]. destruct Hg as [Hcap _].
  pose proof (admitted_budget _ _ (oo_admitted _ _ _ _ Ho)). pose proof (rg_verification _ _ _ _ _ _ Hr).
  rewrite (rg_budget _ _ _ _ _ _ Hr) in *. split; [destruct (rp_enabled p); lia|]. by eexists.
Qed.
End planned.

(** C11: What a returned plan promises of the branches it selects.  Each is an open
    todo of the request, no monitor, not owned by another agent, with the
    scopes of that todo.  A branch with write scopes is separate from every
    branch selected before it: the runtime reports no overlap and no two of
    their scopes have the same root.  When unscoped work may not run in
    parallel, only the first branch can be unscoped.  The dependencies of a
    branch are selected too.  There are at most as many branches as the budget,
    which is at most the issue width: the least of the requested width, the
    ceiling of eight and the children the goal allows. *)
Theorem branch_plan_safe rq plan :
  build_explore_todo_branch_plan E rq = Some (Ok (EnabledPlan plan)) →
  let selected := bp_selected_branches plan in
  let agent := normalize_todo_claimed_by E (rq_agent_id rq) in
  (∀ b, b ∈ selected → ∃ todo, todo ∈ rq_todos rq ∧ runnable agent todo ∧
     normalize_todo_id E (pget "todo_id" todo) = Some (id_of b) ∧
     scopes_of b = _required_write_scopes E todo) ∧
  (∀ i j a b, (i < j)%nat → selected !! i = Some a → selected !! j = Some b → scopes_of b ≠ [] →
     separate E (scopes_of b) (scopes_of a)) ∧
  (rq_allow_unscoped_parallel rq = false → ∀ i b, selected !! i = Some b → scopes_of b = [] → i = 0%nat) ∧
  (∀ b d, b ∈ selected → d ∈ deps b → d ∈ ids selected) ∧
  (Z.of_nat (length selected) ≤ bp_selection_budget plan ≤ bp_issue_width plan)%Z ∧
  ∃ source, least_cap (bp_issue_width plan) source
    (width_caps E (rq_orchestration rq) (requested_width rq) MAX_BRANCH_WIDTH "max_branch_width").
Proof.
  intros H selected agent. apply plan_inv in H as (p & gate & r & o & H).
  split_and!; [by eapply plan_branch_todo|by eapply plan_separate| |by eapply plan_deps|
    by eapply plan_width..].
  intros Hu i b. by eapply plan_unscoped.
Qed.

(** ** Accounts *)

(** The ids of the todos, in normal form. *)
Definition todo_names (todos : list items) : list string :=
  omap (λ t, normalize_todo_id E (pget "todo_id" t)) todos.

Lemma drawn_names cs todos : Forall2 (drawn E) cs (named_todos E todos) → ids cs = todo_names todos.
Proof.
  revert cs. induction todos as [|t todos IH]; intros cs H; unfold named_todos in H; simpl in *.
  - by apply Forall2_nil_inv_r in H as ->.
  - rewrite filter_cons in H. destruct (normalize_todo_id E (pget "todo_id" t)) as [id|] eqn:Ei; simpl in H.
    + apply Forall2_cons_inv_r in H as (c & cs' & Hc & H & ->). apply drawn_id in Hc. simplify_eq.
      unfold BranchRounds.ids. rewrite fmap_cons. f_equal. by apply IH.
    + by apply IH.
Qed.

Lemma excluded_ids l : ids (omap _execution_exclusion l) = ids (filter (λ c, explored c ≠ true) l).
Proof.
  induction l as [|c l IH]; [done|]. rewrite filter_cons. pose proof (exclusion_spec c) as Hc.
  change (omap _execution_exclusion (c :: l)) with (match _execution_exclusion c with
    | Some row => row :: omap _execution_exclusion l | None => omap _execution_exclusion l end).
  destruct (_execution_exclusion c) as [row|].
  - destruct Hc as (He & Hd & _). rewrite decide_True by (by rewrite He).
    unfold BranchRounds.ids in *. rewrite !fmap_cons, IH. by rewrite (derived_id E row c).
  - rewrite decide_False by (intros Hn; by apply Hn). done.
Qed.

Lemma ranking_ids rq agent p width r :
  ranking_ok E rq agent p width r →
  ids (rk_candidates r) ≡ₚ todo_names (rq_todos rq) ∧
  ids (rk_candidates r) ≡ₚ (ids (rk_ordered r) ++ ids (rk_excluded r))%list.
Proof.
  intros Hr. split.
  - destruct (rg_drawn _ _ _ _ _ _ Hr) as (cs & Hp & Hd). by rewrite Hp, (drawn_names _ _ Hd).
  - rewrite (rg_ordered _ _ _ _ _ _ Hr), (rg_exploration _ _ _ _ _ _ Hr), (rg_excluded _ _ _ _ _ _ Hr).
    rewrite excluded_ids, <- ids_app. by rewrite <- filter_split.
Qed.

(** C19: No todo is lost.  The todos with a valid id are the candidates; as a set
    their ids are those of the selected and the rejected branches together, and
    when no two todos share an id every one of them is selected or rejected
    exactly once.  The rejected branches that are listed are the first ones, as
    many as three times the issue width; the counts are those of all. *)
Theorem branch_plan_accounts rq plan :
  build_explore_todo_branch_plan E rq = Some (Ok (EnabledPlan plan)) →
  let names := todo_names (rq_todos rq) in
  let selected := bp_selected_branches plan in
  ∃ rejected,
    bp_rejected_candidates plan = take (Z.to_nat (3 * bp_issue_width plan)) rejected ∧
    bp_rejected_candidate_count plan = length rejected ∧
    bp_selected_count plan = length selected ∧ bp_candidate_count plan = length names ∧
    (∀ x, x ∈ names ↔ x ∈ ids (selected ++ rejected)) ∧
    (NoDup names → names ≡ₚ ids (selected ++ rejected)).
Proof.
  intros H names selected. apply plan_inv in H as (p & gate & r & o & [Hp Hg Hop Hr Ho Hf]).
  pose proof (gate_width _ _ _ Hg Hop) as [Hw _].
  apply finish_spec in Hf as (_ & Hiw & _ & Hcc & Hsel & Hsc & Hrc & Hrj & _).
  destruct (ranking_ids _ _ _ _ _ Hr) as [Hn Hsplit]. rewrite Hn in Hsplit. fold names in Hsplit, Hn.
  exists (mask_of gate <$> all_rejected r o). unfold selected. rewrite Hsel, Hrj, Hrc, Hsc, Hcc, Hiw, !length_fmap.
  split_and!; [by rewrite Z.max_r, Z.mul_comm by lia|done|done| | |].
  - apply Permutation_length in Hn. unfold BranchRounds.ids in Hn. by rewrite length_fmap in Hn.
  - intros x. rewrite Hsplit, ids_app, !masked_ids by apply mask_masks. unfold all_rejected.
    rewrite !ids_app, !elem_of_app.
    assert (x ∈ ids (rk_ordered r) ↔ x ∈ ids (out_selected o ++ out_dependency_rejections o ++ out_selection_rejections o)) as ->.
    { split; intros Hx; apply list_elem_of_fmap in Hx as (c & -> & Hc); [by apply (oo_cover _ _ _ _ Ho)|].
      pose proof (oo_from _ _ _ _ Ho) as Hfrom. rewrite Forall_forall in Hfrom.
      destruct (Hfrom c Hc) as (c' & Hc' & Hd). rewrite (derived_id E c c') by done. by apply list_elem_of_fmap_2. }
    rewrite !ids_app, !elem_of_app. tauto.
  - intros Hnd. assert (NoDup (ids (rk_ordered r))) as Hno by (rewrite Hsplit in Hnd; by apply NoDup_app in Hnd as [? _]).
    rewrite Hsplit, ids_app, !masked_ids by apply mask_masks. rewrite (oo_account _ _ _ _ Ho Hno).
    unfold all_rejected. rewrite !ids_app. solve_Permutation.
Qed.

(** ** Refusals *)

Lemma masked_lane f b : masks f → branch_lane (f b) = branch_lane b.
Proof. intros Hf. by apply derived_lane, masks_derived. Qed.

Lemma masked_lane_count f key l : masks f → lane_count key (f <$> l) = lane_count key l.
Proof.
  intros Hf. unfold lane_count. f_equal. induction l as [|b l IH]; [done|].
  assert (in_lane key (f b) = in_lane key b) as Hb by (unfold in_lane; by rewrite Hf).
  rewrite fmap_cons, !filter_cons, Hb. destruct (decide _); simpl; by rewrite IH.
Qed.

Lemma masked_refused f C l row : masks f → refused E C l row → refused E C (f <$> l) (f row).
Proof.
  intros Hf. assert (derived (f row) row) as Hd by (by apply masks_derived).
  assert (∀ b, id_of (f b) = id_of b) as Hi by (intros; by apply derived_id, masks_derived).
  intros [Hs Ho|a Hs Ha Hc Hov|a Hs Ha Hc Hsc Hu|Hs He Hne Hg|lane Hs He Hne Hg Hle|Hs Hb];
    rewrite <- (Hf "selection_status" row) in Hs by (by vm_compute).
  - apply refused_owner; [done|]. by rewrite (derived_owner _ _ row).
  - apply (refused_scopes _ _ _ _ (f a)); [done|by apply list_elem_of_fmap_2| |].
    + rewrite Hf by (by vm_compute). by rewrite Hi.
    + by rewrite (derived_scopes E (f row) row), (derived_scopes E (f a) a) by (by apply masks_derived).
  - apply (refused_unscoped _ _ _ _ (f a)); [done|by rewrite list_lookup_fmap, Ha| | |done].
    + rewrite Hf by (by vm_compute). by rewrite Hi.
    + by rewrite (derived_scopes E _ row).
  - by apply refused_undeclared; rewrite ?masked_lane.
  - apply (refused_full _ _ _ _ lane); rewrite ?masked_lane, ?masked_lane_count by done; done.
  - apply refused_budget; [done|]. by rewrite length_fmap.
Qed.

(** A todo that is no exploration work. *)
Definition not_explored (row : items) (todo : items) : Prop :=
  normalize_todo_id E (pget "todo_id" todo) = Some (id_of row) ∧
  (todo_item_task_class E todo = TODO_TASK_CLASS_MONITOR ∨ todo_item_is_actionable_open E todo = false).

Lemma excluded_row rq agent p width r row :
  ranking_ok E rq agent p width r → row ∈ rk_excluded r →
  ∃ todo, todo ∈ rq_todos rq ∧ not_explored row todo.
Proof.
  intros Hr. rewrite (rg_excluded _ _ _ _ _ _ Hr), list_elem_of_omap. intros (c & Hc & Hx).
  pose proof (exclusion_spec c) as Hs. rewrite Hx in Hs. destruct Hs as (He & Hd & _).
  destruct (ranking_from E _ _ _ _ _ c Hr Hc) as (t & Ht & Hdr). exists t. split; [done|]. split.
  - rewrite (derived_id E row c) by done. by apply drawn_id.
  - unfold explored in He. rewrite (dr_open _ _ _ Hdr), (dr_class _ _ _ Hdr) in He. simpl in He.
    apply andb_false_iff in He as [He|He]; [left|by right].
    by apply negb_false_iff, bool_decide_eq_true_1 in He.
Qed.


(** ** Commands *)

Lemma suppressed_no_command reason b : truthy (pget "suggested_commands" (suppress_commands reason b)) = false.
Proof.
  unfold suppress_commands. destruct (truthy (pget "suggested_commands" b)) eqn:Et; [|done].
  by rewrite pget_pset_ne, pget_pset_eq.
Qed.

(** A branch of an analysis has no command. *)
Lemma plan_no_command rq p gate r o plan b :
  planned rq p gate r o plan → hg_state gate = GATE_STATE_ANALYSIS_ONLY →
  b ∈ (bp_selected_branches plan ++ bp_rejected_candidates plan)%list →
  truthy (pget "suggested_commands" b) = false.
Proof.
  intros [_ _ _ _ _ Hf] Hst Hb. apply finish_spec in Hf as (_ & _ & _ & _ & Hsel & _ & _ & Hrj & _).
  assert (∃ a, b = suppress_commands (hg_reason gate) a) as [a ->]; [|apply suppressed_no_command].
  rewrite Hsel, Hrj in Hb. unfold mask_of in Hb. rewrite bool_decide_eq_true_2 in Hb by done.
  apply elem_of_app in Hb as [Hb|Hb]; [apply list_elem_of_fmap in Hb as (a & -> & _); eauto|].
  apply elem_of_take in Hb as (i & Hb & _). apply masked_lookup in Hb as (a & _ & ->). eauto.
Qed.

(** C21: Commands leave the planner only through an open boundary.  When any listed
    branch, selected or rejected, has a suggested command, the goal's policy
    enables the harness and allows spawning with the boolean true and has room
    for children; then every selected branch has exactly the claim command of
    its todo for the planner's agent (none when the agent has no valid name). *)
Theorem branch_plan_commands rq plan :
  build_explore_todo_branch_plan E rq = Some (Ok (EnabledPlan plan)) →
  let policy := policy_of (rq_orchestration rq) in
  let agent := normalize_todo_claimed_by E (rq_agent_id rq) in
  ∀ b, b ∈ (bp_selected_branches plan ++ bp_rejected_candidates plan)%list →
    truthy (pget "suggested_commands" b) = true →
    pget "enabled" (harness_of (rq_orchestration rq)) = PBool true ∧
    (pget "allowed" policy = PBool true ∨ pget "spawn_allowed" policy = PBool true) ∧
    (0 < _int_number E (pget "max_children" policy))%Z ∧
    ∀ a, a ∈ bp_selected_branches plan → pget "suggested_commands" a =
      texts (match _claim_command E (rq_goal_id rq) (id_of a) agent with Some c => [c] | None => [] end).
Proof.
  intros H policy agent b Hb Ht. apply plan_inv in H as (p & gate & r & o & H).
  destruct (decide (hg_state gate = GATE_STATE_ANALYSIS_ONLY)) as [Hst|Hst].
  { by rewrite (plan_no_command rq p gate r o plan) in Ht. }
  pose proof H as [_ Hg Hop Hr _ _]. pose proof Hg as (He & Hs & _)%harness_gate_exact.
  apply He in Hop as Hen. assert (hg_state gate = GATE_STATE_COMMANDS_SUGGESTED) as Hc by (by destruct (hg_state gate)).
  apply Hs in Hc as (_ & Hch & Hal). split_and!; [done..|].
  intros a Ha. apply list_elem_of_lookup_1 in Ha as [i Hi]. eapply plan_fits in Hi as (a' & -> & _ & Hfit); [|done].
  assert (mask_of gate a' = a') as -> by (unfold mask_of; by rewrite bool_decide_eq_false_2).
  rewrite (fit_commands _ _ _ _ Hfit). by rewrite (rg_goal _ _ _ _ _ _ Hr), (rg_agent _ _ _ _ _ _ Hr).
Qed.

(** ** Plans are returned *)

Section total.
Hypothesis overlap_answers : ∀ l r, ∃ b, core_write_scopes_overlap E l r = Ok b.
Hypothesis pow_no_sign : ∀ n : nat, no_sign (py_pow E (float_of_Z (Z.of_nat n)) (lit 118 100)).

Lemma scope_conflict_total scopes l : ∃ x, scope_conflict E scopes l = Ok x.
Proof.
  induction l as [|[i ex] l IH]; simpl; [by eexists|].
  unfold _scopes_overlap, write_scopes_overlap. destruct (overlap_answers
    (normalize_required_write_scopes E (PSeq false (PStr <$> scopes)))
    (normalize_required_write_scopes E (PSeq false (PStr <$> ex)))) as [b ->]. simpl.
  destruct b; simpl; [by eexists|]. destruct (roots_meet _ _); [by eexists|done].
Qed.

Lemma consider_total C dropped s c : ∃ s', consider E C dropped s c = Ok s'.
Proof.
  unfold consider. case_bool_decide; [by eexists|].
  assert (∃ x, conflict_of E C s (_required_write_scopes E c) = Ok x) as [[r hz] Hx].
  { unfold conflict_of. destruct (_required_write_scopes E c) as [|sc scs].
    - destruct (sel_selected s); [by eexists|]. destruct (pc_allow_unscoped_parallel C); by eexists.
    - destruct (scope_conflict_total (sc :: scs) (sel_scopes s)) as [x ->]. simpl. by eexists. }
  rewrite Hx. simpl. by eexists.
Qed.

Lemma admission_total C dropped l : ∃ s, admission_round E C dropped l = Ok s.
Proof.
  unfold admission_round. generalize no_selection. induction l as [|c l IH]; intros s; simpl; [by eexists|].
  destruct (consider_total C dropped s c) as [s' ->]. simpl. apply IH.
Qed.

Lemma rounds_total C rounds ordered dropped rejections events r :
  select_rounds E C rounds ordered dropped rejections events = Some r → ∃ o, r = Ok o.
Proof.
  revert dropped rejections events. induction rounds as [|rounds IH]; intros dropped rejections events;
    simpl; [done|].
  destruct (admission_total C dropped ordered) as [s ->].
  destruct (partition_invalidated_successors _ _ _ _ _ _) as [[valid invalidated] evs].
  destruct invalidated; [intros [= <-]; by eexists|].
  case_bool_decide; [intros [= <-]; by eexists|]. apply IH.
Qed.

Lemma finish_total rq p gate r o agent w :
  ranking_ok E rq agent p (hg_effective_width gate) r → outcome_ok E (rk_context r) (rk_ordered r) o →
  ∃ plan, finish_plan E rq agent gate w r o = Ok plan.
Proof.
  intros Hr Ho. unfold finish_plan, build_branch_plan_ab_result. fold (mask_of gate) (all_rejected r o).
  assert (∃ units, rmap (λ b, float_or_zero (float_of_text E) (pget "expected_evidence_units" b))
            (mask_of gate <$> out_selected o) = Ok units) as [units ->].
  { eexists. apply rmap_ok with (g := λ b, match pget "expected_evidence_units" b with PFloat x => or_zero x | _ => f0 end).
    apply Forall_fmap, Forall_forall. intros b Hb. pose proof (oo_from _ _ _ _ Ho) as Hfrom.
    apply Forall_app in Hfrom as [Hfrom _]. rewrite Forall_forall in Hfrom. destruct (Hfrom b Hb) as (c & Hc & Hd).
    apply (ranking_ordered E _ _ _ _ _ c Hr) in Hc as [Hc _].
    destruct (ranking_from E _ _ _ _ _ c Hr Hc) as (t & _ & Hdr). destruct (dr_units _ _ _ Hdr) as [x Hx].
    simpl. rewrite (mask_masks gate) by (by vm_compute). rewrite (derived_get _ b c), Hx by done.
    apply float_or_zero_float. }
  simpl. rewrite py_div_ok by (apply fmax_nonzero; [by intros []|done]). simpl. by eexists.
Qed.

(** C29: A request is answered with a plan when its parts are valid: the resource
    counts, the goal's policy, the projection and the todos can be read, the
    runtime answers every question about overlapping scopes, and the builtin
    power of a non-negative float is no negative number or NaN. *)
Theorem branch_plan_total rq p gate frontier cs :
  resolve_resource_portfolio E (rq_resource_capacities rq) (rq_resource_usage rq) = Ok p →
  resolve_todo_branch_plan_gate E (rq_orchestration rq)
    (requested_width rq) = Ok gate →
  _frontier_tokens E (rq_projection rq) = Ok frontier →
  build_candidates E (normalize_todo_claimed_by E (rq_agent_id rq)) frontier (rq_projection rq) (rq_todos rq)
    = Ok cs →
  ∃ plan, build_explore_todo_branch_plan E rq = Some (Ok plan) ∧
    ((∃ agent, plan = DisabledPlan agent gate) ↔ hg_state gate = GATE_STATE_DISABLED).
Proof.
  intros Hp Hg Hf Hcs. unfold build_explore_todo_branch_plan. cbv zeta. fold (requested_width rq).
  rewrite Hp. cbn [mbind res_bind]. rewrite Hg. cbn [mbind res_bind].
  case_bool_decide as Hst; [eexists; split; [done|]; split; [done|by eexists]|].
  set (agent := normalize_todo_claimed_by E (rq_agent_id rq)) in *.
  assert (∃ r, rank_todos E rq agent p (hg_effective_width gate) = Ok r) as [r Hr].
  { unfold rank_todos. rewrite Hf. simpl. rewrite Hcs. simpl.
    destruct (sort_candidates_ok E cs) as (l & -> & _).
    { apply build_candidates_drawn in Hcs. apply Forall_lookup. intros i c Hc.
      by eapply Forall2_lookup_l in Hcs as (t & _ & ?); eauto. }
    simpl. destruct (schedule_ok (py_pow E) pow_no_sign
      (scheduler_view <$> filter (λ c, claimed_by_other agent c = false) (filter (λ c, explored c = true) l))
      (hg_effective_width gate) MAX_BRANCH_WIDTH (rq_scheduler_load rq)) as (s & -> & _). simpl. by eexists. }
  rewrite Hr. pose proof (gate_width _ _ _ Hg Hst) as [Hw _]. apply rank_todos_ok in Hr; [|lia].
  destruct (select_branches_ok _ _ _ _ _ Hr) as (x & Hx & Ho). rewrite Hx.
  destruct (rounds_total _ _ _ _ _ _ _ Hx) as [o ->]. simpl.
  destruct (finish_total rq p gate r o agent (requested_width rq) Hr (Ho o eq_refl)) as [plan ->]. simpl.
  eexists. split; [done|]. split; [by intros [? ?]|done].
Qed.
End total.
End plan.
