(* ===== verification/BranchSlots.v ===== *)
(** Resource slots of a branch plan: what a portfolio holds, and that a plan
    fills only free slots and accounts for them. *)

From stdpp Require Import base strings list sets gmap.
From Stdlib Require Import ZArith Lia.
From S2P Require Import Prelude ListLib PyFloat PyValue PyConv PySort TraceRuntime SpecScheduler.
From S2P Require Import SchedulerTheorems TodoContract ResourcePortfolio HarnessGate TodoEvidence.
From S2P Require Import BranchPlan BranchFacts BranchRounds BranchRanking BranchTheorems.

(** * Sums *)

Lemma zsum_app l k : zsum (l ++ k) = (zsum l + zsum k)%Z.
Proof. unfold zsum. induction l as [|x l IH]; simpl; [done|]. rewrite IH. lia. Qed.

Lemma zsum_add {A} (f g : A → Z) l :
  zsum ((λ x, (f x + g x)%Z) <$> l) = (zsum (f <$> l) + zsum (g <$> l))%Z.
Proof. induction l as [|x l IH]; [done|]. rewrite !fmap_cons. unfold zsum in *. simpl. lia. Qed.

Lemma zsum_indicator (x : string) l :
  NoDup l → zsum ((λ k, if bool_decide (x = k) then 1 else 0)%Z <$> l) = (if bool_decide (x ∈ l) then 1 else 0)%Z.
Proof.
  induction 1 as [|k l Hk _ IH]; [done|]. rewrite fmap_cons. unfold zsum in *. cbn [foldr]. rewrite IH.
  destruct (decide (x = k)) as [->|Hne].
  - rewrite (bool_decide_eq_true_2 (k = k)), (bool_decide_eq_true_2 (k ∈ k :: l)) by (done || by left).
    by rewrite bool_decide_eq_false_2.
  - rewrite (bool_decide_eq_false_2 (x = k)) by done.
    rewrite (bool_decide_ext (x ∈ k :: l) (x ∈ l)) by (rewrite elem_of_cons; tauto). done.
Qed.

(** * Portfolios *)

Section portfolio.
Context (E : planner_env).

Lemma lane_key_nonempty v key : normalize_resource_lane_key E v = Ok key → key ≠ "".
Proof.
  unfold normalize_resource_lane_key. destruct (RESOURCE_LANE_KEY_PATTERN _) eqn:Ek; [|done].
  intros [= <-] H. by rewrite H in Ek.
Qed.

(** Counts in normal form: distinct, non-empty keys, and no negative count. *)
Definition counts_ok (counts : list (string * Z)) : Prop :=
  NoDup (dict_keys counts) ∧ Forall (λ kc, kc.1 ≠ "" ∧ (0 ≤ kc.2)%Z) counts.

Lemma counts_ok_perm l k : l ≡ₚ k → counts_ok l → counts_ok k.
Proof. intros H [H1 H2]. split; [unfold dict_keys in *; by rewrite <- H|by rewrite <- H]. Qed.

Lemma normalize_counts_ok values field counts :
  normalize_resource_counts E values field = Ok counts → counts_ok counts.
Proof.
  unfold normalize_resource_counts. intros H. apply res_bind_Ok in H as (l & Hl & [= <-]).
  apply counts_ok_perm with l; [symmetry; apply py_sort_perm|].
  apply (rfold_inv _ (λ _ acc, counts_ok acc) values [] [] l) in Hl; [done| |split; constructor].
  intros _ acc [rk rc] acc' _ [Hn Hf] H. unfold normalize_resource_count in H. simpl in H.
  apply res_bind_Ok in H as (key & Hk & H). apply lane_key_nonempty in Hk.
  destruct (dict_has key acc) eqn:Eh; [done|].
  assert (dict_get key acc = None) as Hg by (unfold dict_has in Eh; by destruct (dict_get key acc)).
  destruct (to_int _ rc) as [n|c]; [|by case_bool_decide].
  destruct (_ || _ || _) eqn:Eb; [done|]. injection H as <-.
  rewrite !orb_false_iff in Eb. destruct Eb as [[_ Hneg] _].
  split; [by apply dict_keys_set_NoDup|]. rewrite dict_set_fresh by done.
  apply Forall_app_2; [done|]. apply Forall_singleton. simpl. split; [done|]. lia.
Qed.

(** A resolved portfolio: its lanes have distinct, non-empty keys, and each is
    computed from a capacity and a usage that are no negative numbers. *)
Record portfolio_ok (p : portfolio) : Prop := {
  po_nodup : NoDup (rp_lanes p).*1;
  po_named : "" ∉ (rp_lanes p).*1;
  po_lanes : ∀ key lane, dict_get key (rp_lanes p) = Some lane →
    ∃ c u, (0 ≤ c)%Z ∧ (0 ≤ u)%Z ∧ lane = mk_lane c u
}.

Lemma count_of_nonneg key counts : counts_ok counts → (0 ≤ count_of key counts)%Z.
Proof.
  intros [_ Hf]. unfold count_of. destruct (dict_get key counts) as [n|] eqn:Eg; simpl; [|lia].
  apply dict_get_Some_in in Eg. rewrite Forall_forall in Hf. by apply (Hf (key, n)).
Qed.

Lemma resolve_portfolio_ok capacities usage p :
  resolve_resource_portfolio E capacities usage = Ok p → portfolio_ok p.
Proof.
  unfold resolve_resource_portfolio. intros H. apply res_bind_Ok in H as (cs & Hc & H).
  apply res_bind_Ok in H as (us & Hu & H). apply normalize_counts_ok in Hc as [Hn Hf], Hu.
  destruct (filter _ _); [|done]. injection H as <-.
  assert (((λ kc, (kc.1, mk_lane kc.2 (count_of kc.1 us))) <$> cs).*1 = dict_keys cs) as Hk.
  { unfold dict_keys. rewrite <- list_fmap_compose. by apply list_fmap_ext. }
  split; simpl; rewrite ?Hk; [done| |].
  - intros Hin. unfold dict_keys in Hin. apply list_elem_of_fmap in Hin as (kc & He & Hin).
    rewrite Forall_forall in Hf. by destruct (Hf kc Hin).
  - intros key lane Hl. apply dict_get_Some_in, list_elem_of_fmap in Hl as (kc & [= -> ->] & Hin).
    rewrite Forall_forall in Hf. destruct (Hf kc Hin). exists kc.2, (count_of kc.1 us).
    split_and!; [done|by apply count_of_nonneg|done].
Qed.
End portfolio.

(** * Slots of a plan *)

Section slots.
Context (E : planner_env).
Notation branch_lane := (branch_lane E).

(** The slot a branch is assigned. *)
Definition slot_of (b : items) : option Z :=
  match pget "slot_ordinal" (dict_items (pget "resource_assignment" b)) with PInt n => Some n | _ => None end.

Definition unassigned (l : list items) : Z :=
  Z.of_nat (length (filter (λ b, truthy (pget "resource_lane" b) = false) l)).

Lemma shaped_truthy b : shaped E b → truthy (pget "resource_lane" b) = negb (is_empty (branch_lane b)).
Proof. intros [_ Hl]. by rewrite Hl. Qed.

Lemma slots_total keys l :
  NoDup keys → "" ∉ keys → Forall (λ b, shaped E b ∧ (branch_lane b ≠ "" → branch_lane b ∈ keys)) l →
  (zsum ((λ k, lane_count k l) <$> keys) + unassigned l = Z.of_nat (length l))%Z.
Proof.
  intros Hnd Hne. induction l as [|b l IH] using rev_ind; intros Hl.
  { unfold unassigned. simpl. rewrite Z.add_0_r. clear. induction keys as [|k keys IH]; [done|].
    rewrite fmap_cons. unfold zsum in *. simpl. by rewrite IH. }
  apply Forall_app in Hl as [Hl Hb]. apply Forall_singleton in Hb as [Hs Hin].
  assert (zsum ((λ k, lane_count k (l ++ [b])) <$> keys) =
          zsum ((λ k, lane_count k l) <$> keys) + (if bool_decide (branch_lane b ∈ keys) then 1 else 0))%Z as ->.
  { rewrite <- (zsum_indicator (branch_lane b) keys) by done. rewrite <- zsum_add. f_equal.
    apply list_fmap_ext. intros i k _. by apply (lane_count_snoc E). }
  specialize (IH Hl). unfold unassigned in *. rewrite filter_app, !length_app, filter_cons, filter_nil.
  rewrite (shaped_truthy b) by done. destruct (is_empty (branch_lane b)) eqn:Ee; simpl.
  - apply is_empty_spec in Ee. rewrite Ee, bool_decide_eq_false_2 by done. lia.
  - apply is_empty_false in Ee. rewrite bool_decide_eq_true_2 by auto. simpl. lia.
Qed.

Lemma lane_count_nonneg key l : (0 ≤ lane_count key l)%Z.
Proof. unfold lane_count. lia. Qed.

Lemma admitted_lane C l key lane :
  admitted E C l → rp_enabled (pc_portfolio C) = true → key ≠ "" →
  dict_get key (rp_lanes (pc_portfolio C)) = Some lane → (0 ≤ available_slots lane)%Z →
  (lane_count key l ≤ available_slots lane)%Z.
Proof.
  intros Ha He Hk Hg H0. induction Ha as [|l b _ IH Hb]; [done|].
  rewrite (lane_count_snoc E) by apply Hb. case_bool_decide as El; [|lia].
  destruct (fit_lane _ _ _ _ Hb He) as (lane' & Hg' & Hlt & _); [congruence|].
  rewrite El in Hg', Hlt. simplify_eq. lia.
Qed.

Lemma lane_count_take key l i j a :
  l !! i = Some a → shaped E a → branch_lane a = key → (i < j)%nat →
  (lane_count key (take i l) < lane_count key (take j l))%Z.
Proof.
  intros Hi Ha <- Hij. assert (take (S i) l = take i l ++ [a])%list as Ht by (by apply take_S_r).
  assert (lane_count (branch_lane a) (take (S i) l) ≤ lane_count (branch_lane a) (take j l))%Z as Hle.
  { replace (take (S i) l) with (take (S i) (take j l)) by (rewrite take_take; f_equal; lia).
    rewrite <- (take_drop (S i) (take j l)) at 2. apply lane_count_app. }
  rewrite Ht, (lane_count_snoc E), bool_decide_eq_true_2 in Hle by done. lia.
Qed.

Lemma fits_slot C before b :
  portfolio_ok (pc_portfolio C) → fits E C before b → rp_enabled (pc_portfolio C) = true → branch_lane b ≠ "" →
  ∃ lane, dict_get (branch_lane b) (rp_lanes (pc_portfolio C)) = Some lane ∧
    slot_of b = Some (current_usage lane + (lane_count (branch_lane b) before + 1))%Z ∧
    (current_usage lane + (lane_count (branch_lane b) before + 1) ≤ capacity lane)%Z.
Proof.
  intros Hp Hb He Hne. destruct (fit_lane _ _ _ _ Hb He Hne) as (lane & Hg & Hlt & Hra).
  exists lane. split; [done|]. split; [unfold slot_of; by rewrite Hra|].
  destruct (po_lanes _ Hp _ _ Hg) as (c & u & Hc & Hu & ->). simpl in *.
  pose proof (lane_count_nonneg (branch_lane b) before). lia.
Qed.

Lemma masked_slot f b : masks f → slot_of (f b) = slot_of b.
Proof. intros Hf. unfold slot_of. by rewrite Hf. Qed.

Section planned.
Context (rq : branch_plan_request) (p : portfolio) (gate : harness_gate) (r : ranking) (o : outcome).
Context (plan : plan_report) (Hplan : planned E rq p gate r o plan) (He : rp_enabled p = true).
Notation selected := (bp_selected_branches plan).

Lemma plan_portfolio_ok : portfolio_ok p.
Proof. destruct Hplan as [Hp _ _ _ _ _]. by eapply resolve_portfolio_ok. Qed.

Lemma plan_context_portfolio : pc_portfolio (rk_context r) = p.
Proof. by destruct Hplan as [_ _ _ [] _ _]. Qed.

Lemma plan_filled : bp_resource_portfolio plan = resource_portfolio_with_selection p selected.
Proof.
  rewrite <- plan_context_portfolio. destruct Hplan as [_ _ _ _ _ Hf].
  by apply finish_spec in Hf as (_ & _ & _ & _ & _ & _ & _ & _ & ?).
Qed.

Lemma plan_selected_shaped b : b ∈ selected → shaped E b.
Proof.
  intros Hb. apply list_elem_of_lookup_1 in Hb as [i Hi].
  eapply plan_fits in Hi as (a & -> & _ & Hfit); [|done].
  apply (derived_shaped E _ a); [apply plan_masked|apply Hfit].
Qed.

Lemma plan_lane_count key lane :
  dict_get key (rp_lanes p) = Some lane → (lane_count key selected ≤ available_slots lane)%Z.
Proof.
  intros Hg. rewrite (plan_selected E rq p gate r o plan) by done.
  rewrite masked_lane_count by apply mask_masks. pose proof plan_portfolio_ok as Hp.
  destruct Hplan as [_ _ _ _ Ho _]. pose proof plan_context_portfolio as Hc.
  apply (admitted_lane (rk_context r)); rewrite ?Hc; [by destruct Ho|done| |done|].
  - intros ->. apply (po_named _ Hp). apply dict_get_Some_in in Hg. by apply (list_elem_of_fmap_2 fst) in Hg.
  - destruct (po_lanes _ Hp _ _ Hg) as (c & u & _ & _ & ->). simpl. lia.
Qed.

Lemma filled_lane_spec key lane :
  dict_get key (fp_lanes (resource_portfolio_with_selection p selected)) = Some lane →
  selected_slots lane = lane_count key selected ∧ (0 ≤ remaining_slots lane)%Z ∧
  (selected_slots lane + remaining_slots lane = available_slots (fl_lane lane))%Z.
Proof.
  intros H. apply dict_get_Some_in in H. simpl in H. apply list_elem_of_fmap in H as ([k l] & [= -> ->] & Hin).
  simpl. apply dict_in_get in Hin; [|apply plan_portfolio_ok]. apply plan_lane_count in Hin. lia.
Qed.

Lemma plan_slot i b :
  selected !! i = Some b → branch_lane b ≠ "" → ∃ lane,
    dict_get (branch_lane b) (rp_lanes p) = Some lane ∧
    slot_of b = Some (current_usage lane + (lane_count (branch_lane b) (take i (out_selected o)) + 1))%Z ∧
    (current_usage lane + (lane_count (branch_lane b) (take i (out_selected o)) + 1) ≤ capacity lane)%Z.
Proof.
  intros Hi. eapply plan_fits in Hi as (a & -> & _ & Hfit); [|done].
  rewrite masked_lane, masked_slot by apply mask_masks. intros Hne.
  pose proof plan_context_portfolio as Hc. rewrite <- Hc.
  apply (fits_slot (rk_context r)); rewrite ?Hc; [apply plan_portfolio_ok|done..].
Qed.

Lemma plan_slot_order i j a b :
  (i < j)%nat → selected !! i = Some a → selected !! j = Some b → branch_lane a = branch_lane b → branch_lane b ≠ "" →
  ∃ m n, slot_of a = Some m ∧ slot_of b = Some n ∧ (m < n)%Z.
Proof.
  intros Hij Hi Hj Hab Hne. destruct (plan_slot j b Hj Hne) as (lane & Hg & Hs & _).
  destruct (plan_slot i a Hi) as (lane' & Hg' & Hs' & _); [congruence|]. rewrite Hab in Hg', Hs'. simplify_eq.
  eexists _, _. split_and!; [done..|]. eapply plan_fits in Hi as (a' & Ha & Hi & Hfit); [|done].
  rewrite Ha, (masked_lane E (mask_of gate) a') in Hab by apply mask_masks.
  pose proof (lane_count_take (branch_lane b) _ i j a' Hi (fit_shaped _ _ _ _ Hfit) Hab Hij). lia.
Qed.

Lemma plan_slots_total :
  (zsum ((λ kl, lane_count kl.1 selected) <$> rp_lanes p) + unassigned selected = Z.of_nat (length selected))%Z.
Proof.
  pose proof plan_portfolio_ok as Hp.
  assert (Forall (λ b, shaped E b ∧ (branch_lane b ≠ "" → branch_lane b ∈ (rp_lanes p).*1)) selected) as Hl.
  { apply Forall_forall. intros b Hb. split; [by apply plan_selected_shaped|]. intros Hne.
    apply list_elem_of_lookup_1 in Hb as [i Hi]. destruct (plan_slot i b Hi Hne) as (lane & Hg & _).
    apply dict_get_Some_in in Hg. by apply (list_elem_of_fmap_2 fst) in Hg. }
  rewrite <- (slots_total (rp_lanes p).*1 selected) by (done || apply Hp).
  by rewrite <- list_fmap_compose.
Qed.
End planned.

(** C20: A plan over declared resources fills free slots only, and accounts for
    every one.  In each lane the selected and the remaining slots are the
    available ones; a selected branch that names a lane has a slot beyond the
    current usage and within the capacity, and two branches of a lane have
    different slots, in the order of selection; the slots taken and the
    branches without a lane are all the selected branches. *)
Theorem branch_plan_slots rq plan p :
  build_explore_todo_branch_plan E rq = Some (Ok (EnabledPlan plan)) →
  resolve_resource_portfolio E (rq_resource_capacities rq) (rq_resource_usage rq) = Ok p →
  rp_enabled p = true →
  let selected := bp_selected_branches plan in
  let filled := bp_resource_portfolio plan in
  (∀ key lane, dict_get key (fp_lanes filled) = Some lane →
     selected_slots lane = lane_count key selected ∧ (0 ≤ remaining_slots lane)%Z ∧
     (selected_slots lane + remaining_slots lane = available_slots (fl_lane lane))%Z) ∧
  (∀ b, b ∈ selected → branch_lane b ≠ "" → ∃ lane n,
     dict_get (branch_lane b) (rp_lanes p) = Some lane ∧ slot_of b = Some n ∧
     (current_usage lane < n ≤ capacity lane)%Z) ∧
  (∀ i j a b, (i < j)%nat → selected !! i = Some a → selected !! j = Some b →
     branch_lane a = branch_lane b → branch_lane b ≠ "" →
     ∃ m n, slot_of a = Some m ∧ slot_of b = Some n ∧ (m < n)%Z) ∧
  (fp_selected_slot_count filled + fp_unassigned_selected_count filled = Z.of_nat (length selected))%Z.
Proof.
  intros H Hp' He selected filled. apply plan_inv in H as (p' & gate & r & o & H).
  assert (p' = p) as -> by (destruct H as [Hp _ _ _ _ _]; rewrite Hp' in Hp; by apply Ok_eq in Hp).
  unfold filled, selected. rewrite (plan_filled rq p gate r o plan) by done. split_and!.
  - intros key lane Hl. by eapply filled_lane_spec.
  - intros b Hb Hne. apply list_elem_of_lookup_1 in Hb as [i Hi].
    eapply plan_slot in Hi as (lane & Hg & Hs & Hle); [|done..]. eexists lane, _. split_and!; [done..| |done].
    pose proof (lane_count_nonneg (branch_lane b) (take i (out_selected o))). lia.
  - intros i j a b. by eapply plan_slot_order.
  - simpl. rewrite <- list_fmap_compose. by eapply plan_slots_total.
Qed.
End slots.
