(* ===== verification/BranchExamples.v ===== *)
(** Runs of the branch planner on concrete todos, and two behaviours of its
    ranking. *)

From stdpp Require Import base strings list sets gmap.
From Stdlib Require Import ZArith Lia SpecFloat.
From S2P Require Import Prelude PyFloat PyValue PyConv PySort TraceRuntime SpecScheduler.
From S2P Require Import SchedulerTheorems TodoContract ResourcePortfolio HarnessGate TodoEvidence.
From S2P Require Import BranchPlan BranchFacts BranchRounds BranchRanking BranchTheorems BranchSlots.

(** * The claim bucket *)

(** The order of candidates with equal scores reads the claim bucket as
    [bucket or 9]: the bucket of a todo that the planner's agent already owns is
    zero, so the todo is ordered behind those of every other bucket. *)
Theorem own_claim_ordered_last E agent todo id frontier projection c k :
  normalize_todo_id E (pget "todo_id" todo) = Some id →
  todo_candidate E agent todo id frontier projection = Ok c → candidate_key E c = Ok k →
  sk_bucket k = if claimed_by_agent E agent todo then 9%Z
                else match owner_of E todo with None => 1%Z | Some _ => 2%Z end.
Proof.
  intros Hid Hc Hk. assert (pget "claim_bucket" c = PInt (_claim_bucket E agent todo)) as Hb.
  { unfold todo_candidate in Hc. apply res_bind_Ok in Hc as (lane & _ & Hc).
    apply res_bind_Ok in Hc as (audit & _ & Hc). apply Ok_eq in Hc as <-.
    destruct audit; pgets; done. }
  unfold candidate_key in Hk. apply res_bind_Ok in Hk as (x & _ & Hk). apply res_bind_Ok in Hk as (n & Hn & Hk).
  apply res_bind_Ok in Hk as (pr & _ & Hk). apply Ok_eq in Hk as <-. simpl. rewrite Hb in Hn.
  unfold _claim_bucket in Hn. destruct (claimed_by_agent E agent todo); [by injection Hn|].
  destruct (owner_of E todo); by injection Hn.
Qed.

(** * A run *)

Module BranchExample.

(** A runtime that sees an overlap of equal scopes. *)
Definition env : planner_env :=
  {| str_of _ := ""; repr_of _ := ""; int_of_text _ := None; float_of_text _ := None; iter_of _ := Ok [];
     py_sum l := fold_left fadd l f0; py_pow x _ := x;
     normalize_todo_resume_when v := match v with PStr s => Some s | _ => None end;
     todo_task_class_for_text _ := TODO_TASK_CLASS_ADVANCEMENT;
     TODO_ACTION_KIND_ADVANCEMENT_VALUES := ["implement"]; TODO_ACTION_KIND_MONITOR_VALUES := ["watch"];
     core_write_scopes_overlap l r := Ok (existsb (λ s, bool_decide (s ∈ r)) l);
     composition_policy _ := Ok (PNone, PNone) |}.

Definition todo (id priority : string) (more : list (string * pyval)) : items :=
  as_items (("todo_id", PStr id) :: ("priority", PStr priority) :: ("text", PStr "Work") :: more).

Definition gpu : string * pyval := ("required_capabilities", PSeq false [PStr "resource_lane:gpu"]).

(** Four todos about one directory or one lane, a chain of dependencies, a todo
    of another agent, a monitor, and a todo that waits. *)
Definition todos : list items :=
  [todo "todo_aaa" "P0" [("required_write_scopes", PStr "src/core/*.py"); gpu];
   todo "todo_bbb" "P1" [("required_write_scopes", PStr "src/core/main.py")];
   todo "todo_ccc" "P1" [("depends_on", PStr "todo_ddd"); gpu];
   todo "todo_ddd" "P2" [("depends_on", PStr "todo_eee")];
   todo "todo_eee" "P2" [("claimed_by", PStr "Other Agent")];
   todo "todo_fff" "P2" [gpu];
   todo "todo_ggg" "P2" [("action_kind", PStr "watch")];
   todo "todo_hhh" "P2" [("resume_when", PStr "pr_merged:7")];
   todo "todo_iii" "P3" []].

Definition policy (spawn : bool) : pyval :=
  PMap false (as_items [("spawn_allowed", PBool spawn); ("max_children", PInt 4);
                        ("explore_harness", PMap false (as_items [("enabled", PBool true)]))]).

Definition request (spawn : bool) : branch_plan_request :=
  {| rq_goal_id := "goal"; rq_todos := todos; rq_projection := PNone; rq_agent_id := PStr "Agent";
     rq_orchestration := policy spawn; rq_width := 5; rq_allow_unscoped_parallel := true;
     rq_scheduler_load := lit 2 10; rq_resource_capacities := as_items [("gpu", PInt 3)];
     rq_resource_usage := as_items [("gpu", PInt 1)] |}.

Definition view (answer : option (res todo_branch_plan)) :=
  match answer with
  | Some (Ok (EnabledPlan p)) =>
      Some ((λ b, (pget "todo_id" b, slot_of b, pget "suggested_commands" b)) <$> bp_selected_branches p,
            (λ b, (pget "todo_id" b, pget "selection_status" b)) <$> bp_rejected_candidates p)
  | _ => None
  end.

Definition claim (id : string) : pyval :=
  texts ["loopx todo claim --goal-id goal --todo-id " ++ id ++ " --claimed-by agent --agent-id agent"].

(** Two rounds drop the chain of dependencies, and the lane's last slot goes to
    a later todo. *)
Example run_selects : view (build_explore_todo_branch_plan env (request true)) =
  Some ([(PStr "todo_aaa", Some 2%Z, claim "todo_aaa"); (PStr "todo_fff", Some 3%Z, claim "todo_fff");
         (PStr "todo_iii", None, claim "todo_iii")],
        [(PStr "todo_ggg", PStr "excluded_non_exploration_lane"); (PStr "todo_hhh", PStr "not_actionable_open");
         (PStr "todo_ddd", PStr "invalidated_dependency"); (PStr "todo_ccc", PStr "invalidated_dependency");
         (PStr "todo_bbb", PStr "rejected_hazard"); (PStr "todo_eee", PStr "blocked_claimed_by_other")]).
Proof. vm_compute. reflexivity. Qed.

(** A todo that the agent owns and an unclaimed one with the same score: the
    bucket of the own one is the smaller, and it is ordered last. *)
Definition own_and_unclaimed : res (list items) :=
  cs ← build_candidates env (Some "agent") ∅ PNone
         [todo "todo_own" "P1" [("claimed_by", PStr "agent"); ("required_write_scopes", PStr "src/own")];
          todo "todo_new" "P0" []];
  sort_candidates env cs.

Example own_claim_last :
  match own_and_unclaimed with
  | Ok cs => (λ c, (pget "todo_id" c, pget "claim_bucket" c, pget "score" c)) <$> cs
  | Err _ => []
  end = [(PStr "todo_new", PInt 1, PFloat (float_of_Z 106)); (PStr "todo_own", PInt 0, PFloat (float_of_Z 106))].
Proof. vm_compute. reflexivity. Qed.

Lemma overlap_answers l r : ∃ b, core_write_scopes_overlap env l r = Ok b.
Proof. by eexists. Qed.

Lemma env_pow_no_sign n : no_sign (py_pow env (float_of_Z (Z.of_nat n)) (lit 118 100)).
Proof. apply float_of_Z_no_sign. lia. Qed.

Lemma run_planned spawn : ∃ plan,
  build_explore_todo_branch_plan env (request spawn) = Some (Ok (EnabledPlan plan)).
Proof. destruct spawn; vm_compute; eexists; reflexivity. Qed.

Lemma run_ids spawn plan :
  build_explore_todo_branch_plan env (request spawn) = Some (Ok (EnabledPlan plan)) →
  (pget "todo_id" <$> bp_selected_branches plan) = [PStr "todo_aaa"; PStr "todo_fff"; PStr "todo_iii"].
Proof.
  intros H. assert (match build_explore_todo_branch_plan env (request spawn) with
    | Some (Ok (EnabledPlan p)) => pget "todo_id" <$> bp_selected_branches p | _ => [] end =
    [PStr "todo_aaa"; PStr "todo_fff"; PStr "todo_iii"]) as Hv by (destruct spawn; vm_compute; reflexivity).
  by rewrite H in Hv.
Qed.

Lemma branch_plan_safe_witness : ∃ plan,
  build_explore_todo_branch_plan env (request true) = Some (Ok (EnabledPlan plan)) ∧
  (pget "todo_id" <$> bp_selected_branches plan) = [PStr "todo_aaa"; PStr "todo_fff"; PStr "todo_iii"] ∧
  (Z.of_nat (length (bp_selected_branches plan)) ≤ bp_selection_budget plan ≤ bp_issue_width plan)%Z.
Proof.
  destruct (run_planned true) as [plan H]. exists plan. split; [exact H|]. split; [exact (run_ids true plan H)|].
  destruct (branch_plan_safe env (request true) plan H) as (_ & _ & _ & _ & Hw & _). exact Hw.
Defined.

Lemma branch_plan_accounts_witness : ∃ plan rejected,
  build_explore_todo_branch_plan env (request true) = Some (Ok (EnabledPlan plan)) ∧
  todo_names env todos ≡ₚ ids env (bp_selected_branches plan ++ rejected).
Proof.
  destruct (run_planned true) as [plan H]. exists plan.
  destruct (branch_plan_accounts env (request true) plan H) as (rejected & _ & _ & _ & _ & _ & Hp).
  exists rejected. split; [exact H|]. apply Hp. refine (bool_decide_eq_true_1 _ _). vm_compute. reflexivity.
Defined.


Lemma branch_plan_commands_witness : ∃ plan b,
  build_explore_todo_branch_plan env (request true) = Some (Ok (EnabledPlan plan)) ∧
  b ∈ bp_selected_branches plan ∧ truthy (pget "suggested_commands" b) = true ∧
  (0 < _int_number env (pget "max_children" (policy_of (policy true))))%Z.
Proof.
  destruct (run_planned true) as [plan H].
  assert (∃ b, bp_selected_branches plan !! 0%nat = Some b ∧ truthy (pget "suggested_commands" b) = true) as (b & Hb & Ht).
  { pose proof run_selects as Hv. rewrite H in Hv. simpl in Hv.
    destruct (bp_selected_branches plan) as [|b l]; [discriminate|]. exists b. split; [reflexivity|].
    injection Hv as _ _ Hc _ _. rewrite Hc. reflexivity. }
  apply list_elem_of_lookup_2 in Hb. exists plan, b. split; [exact H|]. split; [exact Hb|]. split; [exact Ht|].
  destruct (branch_plan_commands env (request true) plan H b) as (_ & _ & Hch & _);
    [apply elem_of_app; left; exact Hb|exact Ht|exact Hch].
Defined.

Lemma branch_plan_slots_witness : ∃ plan p,
  build_explore_todo_branch_plan env (request true) = Some (Ok (EnabledPlan plan)) ∧
  resolve_resource_portfolio env (rq_resource_capacities (request true)) (rq_resource_usage (request true)) = Ok p ∧
  (fp_selected_slot_count (bp_resource_portfolio plan)
   + fp_unassigned_selected_count (bp_resource_portfolio plan) = Z.of_nat (length (bp_selected_branches plan)))%Z.
Proof.
  destruct (run_planned true) as [plan H]. exists plan. eexists. split; [exact H|].
  split; [vm_compute; reflexivity|].
  eapply (branch_plan_slots env (request true) plan); [exact H|vm_compute; reflexivity|reflexivity].
Defined.

Lemma branch_plan_total_witness : ∃ plan,
  build_explore_todo_branch_plan env (request false) = Some (Ok plan).
Proof.
  destruct (branch_plan_total env overlap_answers env_pow_no_sign (request false)
    (match resolve_resource_portfolio env (rq_resource_capacities (request false)) (rq_resource_usage (request false))
     with Ok p => p | Err _ => {| rp_enabled := false; rp_capacities := []; rp_usage := [];
                                  rp_available_slot_count := 0; rp_lanes := [] |} end)
    (match resolve_todo_branch_plan_gate env (policy false) 5 with
     | Ok g => g
     | Err _ => {| hg_boundary_provided := false; hg_enabled := false; hg_spawn_allowed := false;
                   hg_max_children := 0; hg_requested_width := 0; hg_goal_pinned_profile := None;
                   hg_state := GATE_STATE_DISABLED; hg_reason := ""; hg_effective_width := 0;
                   hg_width_cap_source := "" |}
     end) ∅
    (match build_candidates env (Some "agent") ∅ PNone todos with Ok cs => cs | Err _ => [] end)) as (plan & Hp & _);
    [vm_compute; reflexivity..|]. exists plan. exact Hp.
Defined.
End BranchExample.
