(* ===== verification/TurnTransaction.v ===== *)
(** The Turn transaction contract:
    [loopx/control_plane/turn_driver/transaction.py], with the result kinds of
    [turn_contract_generated.py], the settlement vocabulary of
    [loopx/control_plane/effect_program.py], the phases of
    [turn_transaction_contract.json] and [loopx/turn_identity.py].

    Plans, results and executions are JSON-like mappings ([pyval]).  The SHA-256
    digest of canonical JSON, the text of values that are not [str], and the
    replies of the TypeScript effect runtime are parameters. *)

From stdpp Require Import base strings list sets gmap.
From Stdlib Require Import ZArith Lia.
From S2P Require Import Prelude PyFloat PyValue TraceRuntime.

(** * Vocabulary *)

Inductive LoopXTurnResultKind :=
| VALIDATED_PROGRESS | VALIDATED_COMPLETION | REPAIR_REQUIRED | REPLAN_REQUIRED
| USER_ACTION_REQUIRED | WAIT | ITERATION_FAILED | HOST_FAILURE | VALIDATION_FAILED
| WRITEBACK_FAILED | QUOTA_SPEND_FAILED | TERMINAL_CLOSEOUT_FAILED.

#[export] Instance LoopXTurnResultKind_eq_dec : EqDecision LoopXTurnResultKind.
Proof. solve_decision. Defined.

Definition LoopXTurnResultKind_value (k : LoopXTurnResultKind) : string :=
  match k with
  | VALIDATED_PROGRESS => "validated_progress"
  | VALIDATED_COMPLETION => "validated_completion"
  | REPAIR_REQUIRED => "repair_required"
  | REPLAN_REQUIRED => "replan_required"
  | USER_ACTION_REQUIRED => "user_action_required"
  | WAIT => "wait"
  | ITERATION_FAILED => "iteration_failed"
  | HOST_FAILURE => "host_failure"
  | VALIDATION_FAILED => "validation_failed"
  | WRITEBACK_FAILED => "writeback_failed"
  | QUOTA_SPEND_FAILED => "quota_spend_failed"
  | TERMINAL_CLOSEOUT_FAILED => "terminal_closeout_failed"
  end.

Definition ALL_KINDS : list LoopXTurnResultKind :=
  [VALIDATED_PROGRESS; VALIDATED_COMPLETION; REPAIR_REQUIRED; REPLAN_REQUIRED;
   USER_ACTION_REQUIRED; WAIT; ITERATION_FAILED; HOST_FAILURE; VALIDATION_FAILED;
   WRITEBACK_FAILED; QUOTA_SPEND_FAILED; TERMINAL_CLOSEOUT_FAILED].

Definition TRANSACTION_PHASES : list string :=
  ["host_execute"; "typed_result"; "validation"; "durable_writeback"; "quota_spend";
   "scheduler_apply"; "scheduler_ack"].

Definition MATERIAL_RESULT_KINDS : list LoopXTurnResultKind :=
  [VALIDATED_PROGRESS; VALIDATED_COMPLETION; REPAIR_REQUIRED; REPLAN_REQUIRED].
Definition NO_SPEND_RESULT_KINDS : list LoopXTurnResultKind :=
  [USER_ACTION_REQUIRED; WAIT; ITERATION_FAILED; HOST_FAILURE; VALIDATION_FAILED;
   WRITEBACK_FAILED; QUOTA_SPEND_FAILED].
Definition STOP_RESULT_KINDS : list LoopXTurnResultKind :=
  [USER_ACTION_REQUIRED; WAIT; ITERATION_FAILED].

Definition FAILURE_PHASES (k : LoopXTurnResultKind) : option string :=
  match k with
  | HOST_FAILURE => Some "host_execute"
  | VALIDATION_FAILED => Some "validation"
  | WRITEBACK_FAILED => Some "durable_writeback"
  | QUOTA_SPEND_FAILED => Some "quota_spend"
  | TERMINAL_CLOSEOUT_FAILED => Some "terminal_closeout"
  | _ => None
  end.

Definition PLAN_SCHEMA : string := "loopx_turn_transaction_plan_v0".
Definition RESULT_SCHEMA : string := "loopx_turn_result_v0".
Definition RECEIPT_SCHEMA : string := "loopx_turn_receipt_v0".
Definition VALIDATION_SCHEMA : string := "loopx_turn_receipt_validation_v0".
Definition IDENTITY_SCHEMA : string := "quota_settlement_identity_v0".
Definition SCOPED_IDENTITY_SCHEMA : string := "quota_settlement_identity_v1".

(** * Mappings *)

(** [_mapping]: [dict(value)] of a mapping, [{}] of anything else. *)
Definition mapping (v : pyval) : items := match v with PMap _ d => d | _ => [] end.

(** [value == text] for a [str] constant. *)
Definition is_text (text : string) (v : pyval) : bool :=
  match v with PStr s => String.eqb s text | _ => false end.
Definition in_texts (texts : list string) (v : pyval) : bool := existsb (λ t, is_text t v) texts.

(** [value is True]. *)
Definition is_true (v : pyval) : bool := match v with PBool true => true | _ => false end.

(** The type name of a value that has no hash, if any. *)
Fixpoint unhashable (v : pyval) : option string :=
  match v with
  | PMap frozen _ => Some (if frozen then "mappingproxy" else "dict")
  | PSeq false _ => Some "list"
  | PSeq true l =>
      (fix go (l : list pyval) : option string :=
         match l with
         | [] => None
         | x :: l' => match unhashable x with Some t => Some t | None => go l' end
         end) l
  | _ => None
  end.

(** [value in {texts}]: a set hashes the value first. *)
Definition in_set (texts : list string) (v : pyval) : res bool :=
  match unhashable v with
  | Some t => Err (TypeError ("unhashable type: '" ++ t ++ "'"))
  | None => Ok (in_texts texts v)
  end.

(** [a and b], [a or b] where the second operand may raise. *)
Definition and_then (a : bool) (b : res bool) : res bool := if a then b else Ok false.
Definition or_then (a : bool) (b : res bool) : res bool := if a then Ok true else b.

(** * Executions *)

Definition loopx_turn_execution_committed (execution : items) : res bool :=
  let validation := mapping (pget "validation" execution) in
  let receipt := mapping (pget "receipt" execution) in
  let effects := mapping (pget "effects" execution) in
  and_then (is_text "committed" (pget "status" execution)
            && is_text "committed" (pget "status" receipt))
    (passed ← in_set ["passed"; "progress"] (pget "status" validation);
     Ok (passed && is_true (pget "state_written" effects)
         && is_true (pget "quota_spent" effects))).

Definition loopx_turn_execution_recovery_required (execution : items) : res bool :=
  let validation := mapping (pget "validation" execution) in
  let receipt := mapping (pget "receipt" execution) in
  let recovery_kind := por (por (pget "recovery_kind" validation) (pget "result_kind" receipt))
                           (pget "result_kind" execution) in
  recovering ← in_set ["repair_required"; "replan_required"] recovery_kind;
  and_then recovering
    (or_then (is_text "failed" (pget "status" validation) || truthy (pget "failed_phase" receipt))
       (in_set ["failed"; "validation_failed"] (pget "status" execution))).

Definition loopx_turn_execution_has_durable_effects (execution : items) : bool :=
  let effects := mapping (pget "effects" execution) in
  is_true (pget "state_written" effects) || is_true (pget "quota_spent" effects).

(** * Turn identity *)

Definition is_id_start (c : Ascii.ascii) : bool :=
  let n := code c in
  ((65 <=? n) && (n <=? 90) || (97 <=? n) && (n <=? 122) || (48 <=? n) && (n <=? 57))%N.

(** [[A-Za-z0-9._:-]]. *)
Definition is_id_char (c : Ascii.ascii) : bool :=
  is_id_start c || (code c =? 46)%N || (code c =? 95)%N || (code c =? 58)%N || (code c =? 45)%N.

Fixpoint all_id_chars (s : string) : bool :=
  match s with EmptyString => true | String c s' => is_id_char c && all_id_chars s' end.

(** [TURN_INSTANCE_ID_RE.fullmatch]: one letter or digit, then up to 127
    characters. *)
Definition TURN_INSTANCE_ID_RE (s : string) : bool :=
  match s with
  | EmptyString => false
  | String c s' => is_id_start c && all_id_chars s' && (String.length s' <=? 127)%nat
  end.

Definition normalize_turn_instance_id (value : option string) : res (option string) :=
  match value with
  | None => Ok None
  | Some v =>
      let normalized := py_strip v in
      _ ← require (TURN_INSTANCE_ID_RE normalized)
            (ValueError "turn_instance_id must be 1-128 public-safe letters, numbers, or ._:-");
      Ok (Some normalized)
  end.

(** [token]: [secrets.token_hex(16)], 32 hexadecimal digits. *)
Definition mint_turn_instance_id (token prefix : string) : res string :=
  p ← normalize_turn_instance_id (Some prefix);
  let p := default "" p in
  _ ← require (negb (is_empty p)) (ValueError "turn_instance_id prefix must be non-empty");
  m ← normalize_turn_instance_id (Some (p ++ ":" ++ token));
  match m with
  | None => Err (RuntimeError "failed to mint turn_instance_id")
  | Some minted => Ok minted
  end.

(** * Receipts *)

(** [except RuntimeError] catches these classes. *)
Definition RUNTIME_ERRORS : list string :=
  ["RuntimeError"; "_RuntimeSourceChanged"; "EffectRuntimeRemoteError"; "EffectRuntimeRejected";
   "EffectRuntimeConflict"; "EffectRuntimeIOError"; "EffectRuntimeTransientIOError";
   "EffectRuntimePermanentIOError"; "EffectRuntimeLockTimeout"; "EffectRuntimeInternalError";
   "EffectRuntimeStartupError"; "EffectRuntimeHostPermissionError";
   "EffectRuntimeNodeProbeError"; "EffectRuntimeResponseAmbiguous"].

Definition is_runtime_error (e : exn) : bool := bool_decide (exn_class e ∈ RUNTIME_ERRORS).

(** A decoded settlement identity. *)
Record SettlementIdentity := {
  si_goal_id : string;
  si_agent_id : string;
  si_todo_id : option string;
  si_turn_instance_id : string;
  replan_obligation_id : option string;
  request_subject : bool;
  binding_id : string;
  effect_id : string
}.

(** A receipt validation; [ReceiptValidation_to_record] gives the mapping that
    the code returns. *)
Record ReceiptValidation := {
  rv_ok : bool;
  rv_turn_key : option string;
  rv_lineage : list (string * string);
  rv_settlement_effect_id : option string;
  rv_result_kind : option LoopXTurnResultKind;
  rv_completed_phases : list string;
  rv_failed_phase : option string;
  rv_status : string;
  rv_next_phase : option string;
  rv_writeback : bool;
  rv_quota_spend : bool;
  rv_scheduler_ack : bool;
  rv_errors : list string
}.

Definition str_items (d : list (string * string)) : pyval :=
  PMap false ((λ kv, (Some kv.1, PStr kv.2)) <$> d).

Definition ReceiptValidation_to_record (r : ReceiptValidation) : list (string * pyval) :=
  [("ok", PBool (rv_ok r)); ("schema_version", PStr VALIDATION_SCHEMA);
   ("turn_key", opt_str (rv_turn_key r)); ("lineage", str_items (rv_lineage r));
   ("settlement_effect_id", opt_str (rv_settlement_effect_id r));
   ("result_kind", opt_str (LoopXTurnResultKind_value <$> rv_result_kind r));
   ("completed_phases", PSeq false (PStr <$> rv_completed_phases r));
   ("failed_phase", opt_str (rv_failed_phase r)); ("status", PStr (rv_status r));
   ("next_phase", opt_str (rv_next_phase r));
   ("commit_eligibility", PMap false (as_items
      [("writeback", PBool (rv_writeback r)); ("quota_spend", PBool (rv_quota_spend r));
       ("scheduler_ack", PBool (rv_scheduler_ack r))]));
   ("errors", PSeq false (PStr <$> rv_errors r))].

(** [x or None] of a [str]. *)
Section receipts.
(** The text of a value that is not a [str], and the verification of an
    identity with a request subject, which the TypeScript runtime decides. *)
Variables (str_of : pyval → string) (request_identity : items → res SettlementIdentity).

Definition shape_mismatch : exn := RuntimeError "TypeScript settlement identity shape mismatch".

Definition is_nonblank_str (v : pyval) : bool :=
  match v with PStr s => negb (is_empty (py_strip s)) | _ => false end.

(** [SettlementIdentity.from_runtime_payload] of a mapping. *)
Definition from_runtime_payload (payload : items) : res SettlementIdentity :=
  known ← in_set [IDENTITY_SCHEMA; SCOPED_IDENTITY_SCHEMA] (pget "schema_version" payload);
  _ ← require known shape_mismatch;
  _ ← require (forallb (λ k, is_nonblank_str (pget k payload))
                 ["effect_id"; "goal_id"; "agent_id"; "turn_instance_id"]) shape_mismatch;
  let todo_id := text_or_none (py_strip (str_or_empty str_of (pget "todo_id" payload))) in
  let obligation := text_or_none (py_strip (str_or_empty str_of (pget "replan_obligation_id" payload))) in
  if negb (is_none (pget "request_subject" payload)) then request_identity payload
  else
    _ ← require (negb (Bool.eqb (is_some todo_id) (is_some obligation))) shape_mismatch;
    let kind := if is_some todo_id then "todo" else "autonomous_replan" in
    let binding := default (default "" obligation) todo_id in
    _ ← require (negb (is_text SCOPED_IDENTITY_SCHEMA (pget "schema_version" payload)
                       && (negb (is_text kind (pget "binding_kind" payload))
                           || negb (is_text binding (pget "binding_id" payload))))) shape_mismatch;
    Ok {| si_goal_id := py_str str_of (pget "goal_id" payload);
          si_agent_id := py_str str_of (pget "agent_id" payload); si_todo_id := todo_id;
          si_turn_instance_id := py_str str_of (pget "turn_instance_id" payload);
          replan_obligation_id := obligation; request_subject := false; binding_id := binding;
          effect_id := py_str str_of (pget "effect_id" payload) |}.

Definition MISSING_IDENTITY : string := "transaction plan is missing its typed settlement identity".

(** [_settlement_identity]: the normalized fields and the errors it appends. *)
Definition settlement_identity (transaction_plan : items)
  : res (list (string * string) * list string) :=
  let settlement_plan := mapping (pget "settlement_plan" transaction_plan) in
  let identity := mapping (pget "identity" settlement_plan) in
  let normalized := (λ k, (k, str_or_empty str_of (pget k identity))) <$>
                      ["goal_id"; "agent_id"; "todo_id"; "effect_id"] in
  if negb (is_none (pget "replan_obligation_id" identity))
     || negb (is_none (pget "request_subject" identity)) then
    match from_runtime_payload identity with
    | Ok parsed =>
        if request_subject parsed
        then Ok ((normalized ++ [("request_binding_id", binding_id parsed)])%list, [])
        else Ok ((normalized ++ [("replan_obligation_id",
                   default "None" (replan_obligation_id parsed))])%list, [])
    | Err e => if is_runtime_error e then Ok (normalized, [MISSING_IDENTITY]) else Err e
    end
  else Ok (normalized, if forallb (λ kv, negb (is_empty kv.2)) normalized then []
                       else [MISSING_IDENTITY]).

(** [_result_kind]. *)
Definition result_kind (v : pyval) : option LoopXTurnResultKind * list string :=
  match list_find (λ k, LoopXTurnResultKind_value k = str_or_empty str_of v) ALL_KINDS with
  | Some (_, k) => (Some k, [])
  | None => (None, ["unsupported execution result kind"])
  end.

(** [_completed_phases]. *)
Definition completed_phases (v : pyval) : list string * list string :=
  match v with
  | PSeq false l =>
      let phases := py_str str_of <$> l in
      (phases, if bool_decide (phases = take (length phases) TRANSACTION_PHASES) then []
               else ["completed_phases must be an ordered transaction prefix"])
  | _ => ([], ["completed_phases must be a list"])
  end.

Definition when (b : bool) (message : string) : list string := if b then [message] else [].

Definition kind_in (k : option LoopXTurnResultKind) (l : list LoopXTurnResultKind) : bool :=
  match k with Some k => bool_decide (k ∈ l) | None => false end.

Definition done (phase : string) (completed : list string) : bool :=
  bool_decide (phase ∈ completed).

(** [FAILURE_PHASES[kind]], when [kind in FAILURE_PHASES]. *)
Definition failure_phase (k : option LoopXTurnResultKind) : option string :=
  match k with Some k => FAILURE_PHASES k | None => None end.

Definition kind_text (k : option LoopXTurnResultKind) : string :=
  match k with Some k => LoopXTurnResultKind_value k | None => "" end.

(** [TRANSACTION_PHASES[next_index]], [None] past the end. *)
Definition expected_next (completed : list string) : option string :=
  TRANSACTION_PHASES !! length completed.

(** The checks on the result's kind, phases and failed phase. *)
Definition phase_errors (kind : option LoopXTurnResultKind) (completed : list string)
    (failed_phase : option string) : list string :=
  let terminal_closeout_failure :=
    bool_decide (failed_phase = Some "terminal_closeout")
    && bool_decide (kind = Some TERMINAL_CLOSEOUT_FAILED)
    && bool_decide (completed = take 5 TRANSACTION_PHASES) in
  (when (is_some failed_phase && negb (bool_decide (failed_phase = expected_next completed))
         && negb terminal_closeout_failure)
     "failed_phase must be the next uncompleted transaction phase"
   ++ when (is_some failed_phase && negb (is_some (failure_phase kind)))
     "failed_phase is only valid for a typed failure result"
   ++ when (is_some (failure_phase kind) && negb (bool_decide (failed_phase = failure_phase kind)))
     (kind_text kind ++ " must declare failed_phase=" ++ default "" (failure_phase kind))
   ++ when (kind_in kind MATERIAL_RESULT_KINDS && negb (done "validation" completed))
     "material result requires completed validation"
   ++ when (kind_in kind NO_SPEND_RESULT_KINDS && done "quota_spend" completed)
     (kind_text kind ++ " cannot spend quota"))%list.

Definition receipt_status (ok : bool) (kind : option LoopXTurnResultKind)
    (completed : list string) : string :=
  if negb ok then "invalid"
  else if is_some (failure_phase kind) then "failed"
  else if kind_in kind STOP_RESULT_KINDS then "stopped"
  else if bool_decide (completed = TRANSACTION_PHASES) then "committed"
  else if done "validation" completed then "validated"
  else "in_progress".

(** The checks on schemas, status and turn key. *)
Definition head_errors (plan result : items) : list string :=
  let turn_key := str_or_empty str_of (pget "turn_key" plan) in
  (when (negb (is_text PLAN_SCHEMA (pget "schema_version" plan)))
     "unsupported transaction plan schema"
   ++ when (negb (is_text "planned" (pget "status" plan))) "transaction plan is not executable"
   ++ when (negb (is_text RESULT_SCHEMA (pget "schema_version" result)))
     "unsupported execution result schema"
   ++ when (is_empty turn_key
            || negb (String.eqb (str_or_empty str_of (pget "turn_key" result)) turn_key))
     "execution result turn_key does not match the transaction plan")%list.

(** [validate_loopx_turn_receipt]. *)
Definition validate_loopx_turn_receipt (plan result : items) : res ReceiptValidation :=
  let turn_key := str_or_empty str_of (pget "turn_key" plan) in
  si ← settlement_identity plan;
  let '(identity, identity_errors) := si in
  let field k := default "" (dict_get k identity) in
  let optional k := match text_or_none (field k) with Some v => [(k, v)] | None => [] end in
  let '(kind, kind_errors) := result_kind (pget "result_kind" result) in
  let '(completed, completed_errors) := completed_phases (pget "completed_phases" result) in
  let failed_phase := text_or_none (str_or_empty str_of (pget "failed_phase" result)) in
  let errors := (head_errors plan result ++ identity_errors ++ kind_errors ++ completed_errors
                 ++ phase_errors kind completed failed_phase)%list in
  let ok := bool_decide (errors = []) in
  let fully_committed := bool_decide (completed = TRANSACTION_PHASES) in
  let stopped := kind_in kind STOP_RESULT_KINDS in
  Ok {| rv_ok := ok;
        rv_turn_key := text_or_none turn_key;
        rv_lineage := ([("goal_id", field "goal_id"); ("agent_id", field "agent_id");
                        ("todo_id", field "todo_id")] ++ optional "replan_obligation_id"
                       ++ optional "request_binding_id")%list;
        rv_settlement_effect_id := text_or_none (field "effect_id");
        rv_result_kind := kind;
        rv_completed_phases := completed;
        rv_failed_phase := failed_phase;
        rv_status := receipt_status ok kind completed;
        rv_next_phase :=
          (if fully_committed || (ok && stopped) then None
           else match failed_phase with Some p => Some p | None => expected_next completed end);
        rv_writeback := ok && kind_in kind MATERIAL_RESULT_KINDS && done "validation" completed;
        rv_quota_spend :=
          ok && kind_in kind MATERIAL_RESULT_KINDS && done "durable_writeback" completed;
        rv_scheduler_ack := ok && done "scheduler_apply" completed;
        rv_errors := errors |}.
End receipts.

(** * Completions *)

Definition is_nonempty_str (v : pyval) : bool :=
  match v with PStr s => negb (is_empty s) | _ => false end.

Definition require_loopx_turn_completion_outcome (str_of : pyval → string) (completion : pyval)
    (expected_todo_id : string) : res (list (string * pyval)) :=
  match completion with
  | PMap _ completion =>
      let todo_id := str_or_empty str_of (pget "todo_id" completion) in
      _ ← require (negb (is_empty expected_todo_id) && String.eqb todo_id expected_todo_id)
            (ValueError "validated completion is missing its durable Todo outcome");
      let continuation := str_or_empty str_of (pget "continuation" completion) in
      _ ← require (bool_decide (continuation ∈ ["successor"; "active_goal"; "no_followup"]))
            (ValueError "validated completion has an invalid continuation outcome");
      let outcome := [("todo_id", PStr todo_id); ("continuation", PStr continuation)] in
      if String.eqb continuation "successor" then
        match pget "successor_todo_ids" completion with
        | PSeq false ids =>
            _ ← require (negb (bool_decide (length ids = 0%nat)) && forallb is_nonempty_str ids)
                  (ValueError "successor completion requires successor Todo ids");
            Ok (outcome ++ [("successor_todo_ids", PSeq false ids)])%list
        | _ => Err (ValueError "successor completion requires successor Todo ids")
        end
      else Ok outcome
  | _ => Err (TypeError "validated completion is missing its durable Todo outcome")
  end.

(** * Plans *)

(** [SettlementStep.as_dict] of the steps that the plan builder makes: without
    command templates. *)
Definition step_record (kind owner precondition receipt : string) (conditional : bool) : pyval :=
  PMap false (as_items
    ([("kind", PStr kind); ("owner", PStr owner); ("precondition", PStr precondition);
      ("idempotency_key_ref", PStr "$.identity.effect_id"); ("expected_receipt", PStr receipt)]
     ++ (if conditional then [("conditional", PBool true)] else []))%list).

Definition settlement_steps : list pyval :=
  [step_record "validation" "turn_driver" "typed host result passed independent task validation"
     "validation_receipt" false;
   step_record "durable_writeback" "turn_driver_callback_adapter" "validation receipt exists"
     "durable_writeback_receipt" false;
   step_record "quota_spend" "turn_driver_callback_adapter"
     "matching durable writeback receipt exists" "quota_spend_receipt" false;
   step_record "terminal_closeout" "turn_driver_callback_adapter"
     ("validated completion durably declares no_followup and " ++
      "matching quota spend receipt exists")
     "terminal_closeout_receipt" true].

Section plans.
(** The SHA-256 digest of a value's canonical JSON; the TypeScript runtime's
    identity payload for a goal, agent, Todo and turn instance; and its
    rendering of a plan. *)
Variables (str_of : pyval → string) (json_sha256 : pyval → string)
  (new_identity : string → string → string → string → res pyval)
  (plan_payload : pyval → res pyval).

Record plan_request := {
  planned : bool;
  lineage : items;
  host : string;
  execution_mode : string;
  session_action : string;
  scheduler_owner : string;
  turn_instance_id : option string;
  goal_ref : option items;
  given_identity : option pyval
}.

(** [_canonical_hash]. *)
Definition canonical_hash (v : pyval) : string := "sha256:" ++ json_sha256 v.

Definition optional_item (k : string) (v : option pyval) : list (string * pyval) :=
  match v with Some v => [(k, v)] | None => [] end.

(** The mapping whose digest is the turn key. *)
Definition turn_identity (r : plan_request) (instance : option string) : pyval :=
  PMap false (as_items
    ([("lineage", PMap false (lineage r)); ("host", PStr (host r));
      ("execution_mode", PStr (execution_mode r)); ("scheduler_owner", PStr (scheduler_owner r));
      ("session_action", PStr (session_action r))]
     ++ optional_item "turn_instance_id" (PStr <$> instance)
     ++ optional_item "goal_ref" (PMap false <$> goal_ref r))%list).

Definition plan_document (identity : pyval) : pyval :=
  PMap false (as_items [("identity", identity); ("steps", PSeq false settlement_steps)]).

(** [SettlementPlan.as_dict]. *)
Definition SettlementPlan_as_dict (identity : pyval) : res items :=
  payload ← plan_payload (plan_document identity);
  match payload with
  | PMap _ d => Ok d
  | _ => Err (RuntimeError "TypeScript settlement plan shape mismatch")
  end.

Definition build_loopx_turn_transaction_plan (r : plan_request) : res items :=
  instance ← normalize_turn_instance_id (turn_instance_id r);
  let turn_key := canonical_hash (turn_identity r instance) in
  identity ← match given_identity r with
    | Some identity => Ok identity
    | None =>
        new_identity (str_or_empty str_of (pget "goal_id" (lineage r)))
          (str_or_empty str_of (pget "agent_id" (lineage r)))
          (str_or_empty str_of (pget "todo_id" (lineage r)))
          (default turn_key instance)
    end;
  let plan := as_items
    [("schema_version", PStr PLAN_SCHEMA);
     ("status", PStr (if planned r then "planned" else "not_applicable"));
     ("turn_key", PStr turn_key);
     ("phases", PSeq false (if planned r then PStr <$> TRANSACTION_PHASES else []));
     ("commit_policy", PStr "result<validate<writeback<spend;apply<ack;cadence:no-spend");
     ("receipt_seed", PMap false (as_items
        [("schema_version", PStr RECEIPT_SCHEMA); ("status", PStr "not_executed");
         ("next_phase", if planned r then opt_str (head TRANSACTION_PHASES) else PNone)]))] in
  settlement ← (if planned r then
      d ← SettlementPlan_as_dict identity;
      Ok [("settlement_plan", PMap false (match goal_ref r with
                                          | Some g => pset "goal_ref" (PMap false g) d
                                          | None => d
                                          end))]
    else Ok []);
  Ok (plan ++ as_items
        (settlement ++ optional_item "turn_instance_id" (PStr <$> instance)
         ++ optional_item "goal_ref" (PMap false <$> goal_ref r)))%list.
End plans.
