(* ===== verification/TurnTheorems.v ===== *)
(** The theorems about Turn transactions: which receipts are accepted, what
    their statuses and commit eligibilities mean, where a failed Turn resumes,
    and that plans and receipts fit together. *)

From stdpp Require Import base strings list sets gmap.
From Stdlib Require Import ZArith Lia.
From S2P Require Import Prelude PyFloat PyValue TraceRuntime TurnTransaction.

(** ** Phases *)

(** The number of phases before the one that a failure kind names; the
    conditional close-out follows the quota spend. *)
Definition failure_index (k : LoopXTurnResultKind) : nat :=
  match k with
  | HOST_FAILURE => 0 | VALIDATION_FAILED => 2 | WRITEBACK_FAILED => 3 | QUOTA_SPEND_FAILED => 4
  | TERMINAL_CLOSEOUT_FAILED => 5 | _ => 7
  end.

(** A coherent account of a Turn: a failure names its phase and stopped right
    before it; any other kind names no failed phase, is validated when it is
    material, and has not spent quota when it must not. *)
Definition coherent (k : LoopXTurnResultKind) (completed : list string)
    (failed : option string) : Prop :=
  match FAILURE_PHASES k with
  | Some p => failed = Some p ∧ completed = take (failure_index k) TRANSACTION_PHASES
  | None => failed = None ∧ (k ∈ MATERIAL_RESULT_KINDS → "validation" ∈ completed) ∧
            (k ∈ NO_SPEND_RESULT_KINDS → "quota_spend" ∉ completed)
  end.

Definition prefix_of_phases (completed : list string) : Prop :=
  completed = take (length completed) TRANSACTION_PHASES.

Lemma prefix_cases completed :
  prefix_of_phases completed → ∃ n, (n ≤ 7)%nat ∧ completed = take n TRANSACTION_PHASES.
Proof.
  intros H. exists (length completed). split; [|done].
  rewrite H, length_take. simpl. lia.
Qed.

Lemma when_nil b m : when b m = [] ↔ b = false.
Proof. by destruct b. Qed.

Lemma kind_in_Some k l : kind_in (Some k) l = true ↔ k ∈ l.
Proof. apply bool_decide_eq_true. Qed.

(** Closed cases of the phase checks, by evaluation. *)
Lemma failure_cases k p n :
  FAILURE_PHASES k = Some p → (n ≤ 7)%nat →
  bool_decide (phase_errors (Some k) (take n TRANSACTION_PHASES) (Some p) = [])
    = bool_decide (take n TRANSACTION_PHASES = take (failure_index k) TRANSACTION_PHASES).
Proof.
  intros Hk Hn. destruct k; try discriminate Hk; injection Hk as <-;
    do 8 (destruct n as [|n]; [vm_compute; reflexivity|]); lia.
Qed.

Lemma bool_decide_ext (P Q : Prop) `{Decision P, Decision Q} :
  bool_decide P = bool_decide Q → P ↔ Q.
Proof. intros E. by rewrite <- (bool_decide_eq_true P), E, bool_decide_eq_true. Qed.

Lemma phase_errors_failed k p completed failed :
  FAILURE_PHASES k = Some p → phase_errors (Some k) completed failed = [] → failed = Some p.
Proof.
  intros Hk. unfold phase_errors, failure_phase. rewrite Hk, !app_nil, !when_nil.
  intros (_ & _ & H & _). simpl in H. by apply negb_false_iff, bool_decide_eq_true in H.
Qed.

Lemma phase_errors_other k completed failed :
  FAILURE_PHASES k = None →
  phase_errors (Some k) completed failed = [] ↔ coherent k completed failed.
Proof.
  intros Hk. unfold phase_errors, coherent, failure_phase. rewrite Hk, !app_nil, !when_nil. simpl.
  rewrite andb_true_r. unfold done. split.
  - intros (_ & Hf & _ & Hm & Hs). destruct failed; [done|]. split; [done|]. split; intros Hin.
    + rewrite bool_decide_true in Hm by done. by apply negb_false_iff, bool_decide_eq_true in Hm.
    + rewrite bool_decide_true in Hs by done. by apply bool_decide_eq_false in Hs.
  - intros (-> & Hm & Hs). split_and!; try done.
    + destruct (decide (k ∈ MATERIAL_RESULT_KINDS)) as [Hin|?]; [|by rewrite bool_decide_false].
      rewrite (bool_decide_true ("validation" ∈ _)) by auto. by rewrite andb_false_r.
    + destruct (decide (k ∈ NO_SPEND_RESULT_KINDS)) as [Hin|?]; [|by rewrite bool_decide_false].
      rewrite (bool_decide_false ("quota_spend" ∈ _)) by auto. by rewrite andb_false_r.
Qed.

Lemma phase_errors_nil k completed failed :
  prefix_of_phases completed →
  phase_errors (Some k) completed failed = [] ↔ coherent k completed failed.
Proof.
  intros Hp. destruct (FAILURE_PHASES k) as [p|] eqn:Hk; [|by apply phase_errors_other].
  unfold coherent. rewrite Hk. destruct (prefix_cases _ Hp) as (n & Hn & ->).
  pose proof (bool_decide_ext _ _ (failure_cases k p n Hk Hn)) as Hiff. split.
  - intros H. pose proof (phase_errors_failed _ _ _ _ Hk H) as ->. split; [done|]. by apply Hiff.
  - intros [-> H]. by apply Hiff.
Qed.

(** A completed phase has all earlier ones before it. *)
Lemma done_prefix i p completed :
  TRANSACTION_PHASES !! i = Some p → prefix_of_phases completed → p ∈ completed →
  take (S i) TRANSACTION_PHASES `prefix_of` completed.
Proof.
  intros Hi (n & Hn & ->)%prefix_cases Hin.
  assert (i < 7)%nat as Hlt by (apply lookup_lt_Some in Hi; exact Hi).
  destruct (decide (i < n)%nat) as [Hin'|Hge].
  - exists (drop (S i) (take n TRANSACTION_PHASES)).
    rewrite <- (take_drop (S i) (take n TRANSACTION_PHASES)) at 1.
    rewrite take_take. by replace (S i `min` n)%nat with (S i) by lia.
  - exfalso. apply elem_of_take in Hin as (j & Hj & Hjn).
    assert (NoDup TRANSACTION_PHASES) as Hnd by (by apply (bool_decide_unpack _)).
    pose proof (NoDup_lookup _ _ _ _ Hnd Hi Hj). lia.
Qed.

Lemma failure_before_apply k p :
  FAILURE_PHASES k = Some p → "scheduler_apply" ∉ take (failure_index k) TRANSACTION_PHASES.
Proof.
  intros Hk. apply (bool_decide_eq_false ("scheduler_apply" ∈ _)).
  destruct k; try discriminate Hk; vm_compute; reflexivity.
Qed.

(** The kinds: material, without spend, or the failed close-out. *)
Lemma kind_partition k :
  k ∈ MATERIAL_RESULT_KINDS ∧ k ∉ NO_SPEND_RESULT_KINDS ∧ FAILURE_PHASES k = None ∧
    k ∉ STOP_RESULT_KINDS ∨
  k ∉ MATERIAL_RESULT_KINDS ∧ k ∈ NO_SPEND_RESULT_KINDS ∧
    (k ∈ STOP_RESULT_KINDS ∨ is_some (FAILURE_PHASES k) = true) ∨
  k = TERMINAL_CLOSEOUT_FAILED.
Proof.
  unfold MATERIAL_RESULT_KINDS, NO_SPEND_RESULT_KINDS, STOP_RESULT_KINDS.
  destruct k; set_solver.
Qed.

Lemma applied_material k completed failed :
  prefix_of_phases completed → coherent k completed failed → "scheduler_apply" ∈ completed →
  k ∈ MATERIAL_RESULT_KINDS.
Proof.
  intros Hp Hc Hin. unfold coherent in Hc. destruct (FAILURE_PHASES k) as [p|] eqn:Hk.
  { destruct Hc as [_ ->]. by destruct (failure_before_apply k p Hk). }
  destruct Hc as (_ & _ & Hs). destruct (kind_partition k) as [[? _]|[(_ & Hn & _)| ->]]; [done| |done].
  destruct (Hs Hn). pose proof (done_prefix 5 _ _ eq_refl Hp Hin) as [rest ->]. set_solver.
Qed.

Lemma committed_status k completed failed :
  prefix_of_phases completed → coherent k completed failed →
  receipt_status true (Some k) completed = "committed" ↔
  completed = TRANSACTION_PHASES ∧ k ∈ MATERIAL_RESULT_KINDS.
Proof.
  intros Hp Hc. unfold receipt_status. cbn [negb failure_phase kind_in]. split.
  - destruct (FAILURE_PHASES k) eqn:Hk; [done|]. cbn [is_some].
    destruct (bool_decide (k ∈ STOP_RESULT_KINDS)); [done|].
    case_bool_decide as Hd; [|by destruct (done _ _)]. intros _. split; [done|].
    eapply applied_material; [done|done|]. rewrite Hd. unfold TRANSACTION_PHASES. set_solver.
  - intros [-> Hm]. destruct (kind_partition k) as [(_ & _ & -> & Hs)|[(? & _)| ->]]; [|done|].
    + rewrite (bool_decide_false (k ∈ _)) by done. by rewrite bool_decide_true.
    + unfold MATERIAL_RESULT_KINDS in Hm. set_solver.
Qed.

(** A result that must not spend is eligible for no commit. *)
Lemma no_spend_ineligible k completed failed :
  prefix_of_phases completed → coherent k completed failed → k ∈ NO_SPEND_RESULT_KINDS →
  "quota_spend" ∉ completed ∧
  kind_in (Some k) MATERIAL_RESULT_KINDS && done "validation" completed = false ∧
  kind_in (Some k) MATERIAL_RESULT_KINDS && done "durable_writeback" completed = false ∧
  done "scheduler_apply" completed = false.
Proof.
  intros Hp Hc Hn. assert (k ∉ MATERIAL_RESULT_KINDS) as Hm.
  { destruct (kind_partition k) as [(_ & ? & _)|[(? & _)| ->]]; [done|done|].
    unfold MATERIAL_RESULT_KINDS. set_solver. }
  assert ("quota_spend" ∉ completed) as Hq.
  { unfold coherent in Hc. destruct (FAILURE_PHASES k) as [p|] eqn:Hk; [|by apply Hc].
    destruct Hc as [_ ->]. apply (bool_decide_eq_false ("quota_spend" ∈ _)).
    unfold NO_SPEND_RESULT_KINDS in Hn.
    destruct k; try discriminate Hk; try (vm_compute; reflexivity). set_solver. }
  cbn [kind_in]. rewrite (bool_decide_false (k ∈ _)) by done. split_and!; try done.
  apply bool_decide_eq_false. intros Hin. apply Hq.
  pose proof (done_prefix 5 _ _ eq_refl Hp Hin) as [rest ->]. set_solver.
Qed.

(** ** Receipts *)

Lemma is_text_spec t v : is_text t v = true ↔ v = PStr t.
Proof.
  destruct v as [| | | |s| | | |]; simpl; try done. rewrite String.eqb_eq. naive_solver.
Qed.

Lemma kind_value_inj k k' :
  LoopXTurnResultKind_value k = LoopXTurnResultKind_value k' → k = k'.
Proof. by destruct k, k'. Qed.

Lemma all_kinds k : k ∈ ALL_KINDS.
Proof. destruct k; unfold ALL_KINDS; set_solver. Qed.

Section receipts.
Context (str_of : pyval → string) (request_identity : items → res SettlementIdentity).

Notation text := (str_or_empty str_of).
Notation validate := (validate_loopx_turn_receipt str_of request_identity).
Notation identity_of := (settlement_identity str_of request_identity).

Lemma result_kind_spec v k errs :
  result_kind str_of v = (k, errs) →
  (errs = [] ↔ ∃ k', k = Some k' ∧ LoopXTurnResultKind_value k' = text v).
Proof.
  unfold result_kind. destruct (list_find _ ALL_KINDS) as [[i k']|] eqn:E; intros [= <- <-].
  - apply list_find_Some in E as (_ & E & _). naive_solver.
  - split; [done|]. by intros (k' & [=] & _).
Qed.

Lemma result_kind_total v k :
  LoopXTurnResultKind_value k = text v → result_kind str_of v = (Some k, []).
Proof.
  intros Hk. unfold result_kind. destruct (list_find _ ALL_KINDS) as [[i k']|] eqn:E.
  - apply list_find_Some in E as (_ & E & _). rewrite <- Hk in E. by apply kind_value_inj in E as ->.
  - apply list_find_None in E. rewrite Forall_forall in E. by destruct (E k (all_kinds k)).
Qed.

Lemma completed_phases_spec v c errs :
  completed_phases str_of v = (c, errs) →
  (errs = [] ↔ ∃ l, v = PSeq false l ∧ c = (py_str str_of <$> l) ∧ prefix_of_phases c).
Proof.
  unfold completed_phases, prefix_of_phases.
  destruct v as [| | | | | | |[] l|]; intros [= <- <-]; try (split; [done|naive_solver]).
  case_bool_decide; naive_solver.
Qed.

(** The result answers the plan. *)
Record addressed (plan result : items) : Prop := {
  ad_plan : pget "schema_version" plan = PStr PLAN_SCHEMA;
  ad_status : pget "status" plan = PStr "planned";
  ad_result : pget "schema_version" result = PStr RESULT_SCHEMA;
  ad_key : text (pget "turn_key" plan) ≠ "";
  ad_same : text (pget "turn_key" result) = text (pget "turn_key" plan)
}.

Lemma head_errors_nil plan result : head_errors str_of plan result = [] ↔ addressed plan result.
Proof.
  unfold head_errors. rewrite !app_nil, !when_nil, !negb_false_iff, orb_false_iff, negb_false_iff.
  rewrite !is_text_spec, String.eqb_eq, <- not_true_iff_false, is_empty_spec. split.
  - intros (? & ? & ? & ? & ?). done.
  - by intros [].
Qed.

(** The fields of a validation, from the parts of the result. *)
Lemma validate_fields plan result r :
  validate plan result = Ok r → ∃ id ie ke ce,
    identity_of plan = Ok (id, ie) ∧
    result_kind str_of (pget "result_kind" result) = (rv_result_kind r, ke) ∧
    completed_phases str_of (pget "completed_phases" result) = (rv_completed_phases r, ce) ∧
    rv_failed_phase r = text_or_none (text (pget "failed_phase" result)) ∧
    rv_errors r = (head_errors str_of plan result ++ ie ++ ke ++ ce
      ++ phase_errors (rv_result_kind r) (rv_completed_phases r) (rv_failed_phase r))%list ∧
    rv_ok r = bool_decide (rv_errors r = []) ∧
    rv_status r = receipt_status (rv_ok r) (rv_result_kind r) (rv_completed_phases r) ∧
    rv_next_phase r =
      (if bool_decide (rv_completed_phases r = TRANSACTION_PHASES)
          || (rv_ok r && kind_in (rv_result_kind r) STOP_RESULT_KINDS) then None
       else match rv_failed_phase r with
            | Some p => Some p | None => expected_next (rv_completed_phases r) end) ∧
    rv_writeback r = rv_ok r && kind_in (rv_result_kind r) MATERIAL_RESULT_KINDS
                     && done "validation" (rv_completed_phases r) ∧
    rv_quota_spend r = rv_ok r && kind_in (rv_result_kind r) MATERIAL_RESULT_KINDS
                       && done "durable_writeback" (rv_completed_phases r) ∧
    rv_scheduler_ack r = rv_ok r && done "scheduler_apply" (rv_completed_phases r).
Proof.
  unfold validate_loopx_turn_receipt. destruct (identity_of plan) as [[id ie]|]; [|done]. simpl.
  destruct (result_kind str_of _) as [k ke]. destruct (completed_phases str_of _) as [c ce].
  intros [= <-]. exists id, ie, ke, ce. done.
Qed.

(** What an accepted receipt says. *)
Definition accepted (plan result : items) (r : ReceiptValidation) : Prop :=
  addressed plan result ∧ (∃ id, identity_of plan = Ok (id, [])) ∧
  ∃ k l, rv_result_kind r = Some k ∧
    LoopXTurnResultKind_value k = text (pget "result_kind" result) ∧
    pget "completed_phases" result = PSeq false l ∧
    rv_completed_phases r = (py_str str_of <$> l) ∧ prefix_of_phases (rv_completed_phases r) ∧
    rv_failed_phase r = text_or_none (text (pget "failed_phase" result)) ∧
    coherent k (rv_completed_phases r) (rv_failed_phase r).

Lemma accepted_iff plan result r :
  validate plan result = Ok r → rv_ok r = true ↔ accepted plan result r.
Proof.
  intros (id & ie & ke & ce & Hid & Hk & Hc & Hf & He & Hok & _)%validate_fields.
  rewrite Hok, bool_decide_eq_true, He, !app_nil, head_errors_nil.
  rewrite (result_kind_spec _ _ _ Hk), (completed_phases_spec _ _ _ Hc). unfold accepted. split.
  - intros (Ha & -> & (k & Hk1 & Hk2) & (l & Hl1 & Hl2 & Hl3) & Hp). split; [done|].
    split; [eauto|]. exists k, l. split_and!; try done.
    apply phase_errors_nil; [done|]. by rewrite <- Hk1.
  - intros (Ha & (id' & Hid') & k & l & Hk1 & Hk2 & Hl1 & Hl2 & Hl3 & _ & Hp).
    rewrite Hid in Hid'. injection Hid' as -> ->. split_and!; eauto.
    rewrite Hk1. by apply phase_errors_nil.
Qed.

Lemma kind_in_inv k l : kind_in k l = true → ∃ k', k = Some k' ∧ k' ∈ l.
Proof. destruct k as [k|]; [|done]. intros H%kind_in_Some. eauto. Qed.


(** C9: an accepted receipt commits in order.  It counts as committed exactly
    when a material result completed every phase; quota may be spent only after
    execution, typing, validation and writeback of a material result; the
    scheduler may be acknowledged only after a material result also spent quota
    and was applied; and a result that must not spend has not completed the
    spend and is eligible for nothing. *)
Theorem receipt_commit_order plan result r :
  validate plan result = Ok r →
  (rv_status r = "committed" ↔ rv_ok r = true ∧ rv_completed_phases r = TRANSACTION_PHASES ∧
     ∃ k, rv_result_kind r = Some k ∧ k ∈ MATERIAL_RESULT_KINDS) ∧
  (rv_quota_spend r = true → take 4 TRANSACTION_PHASES `prefix_of` rv_completed_phases r ∧
     ∃ k, rv_result_kind r = Some k ∧ k ∈ MATERIAL_RESULT_KINDS) ∧
  (rv_scheduler_ack r = true → take 6 TRANSACTION_PHASES `prefix_of` rv_completed_phases r ∧
     ∃ k, rv_result_kind r = Some k ∧ k ∈ MATERIAL_RESULT_KINDS) ∧
  (∀ k, rv_ok r = true → rv_result_kind r = Some k → k ∈ NO_SPEND_RESULT_KINDS →
     "quota_spend" ∉ rv_completed_phases r ∧ rv_writeback r = false ∧ rv_quota_spend r = false ∧
     rv_scheduler_ack r = false).
Proof.
  intros Hv. pose proof (accepted_iff _ _ _ Hv) as Hacc.
  destruct (validate_fields _ _ _ Hv)
    as (id & ie & ke & ce & _ & _ & _ & _ & _ & _ & Hst & _ & Hw & Hq & Ha).
  assert (rv_ok r = true → ∃ k, rv_result_kind r = Some k ∧
    prefix_of_phases (rv_completed_phases r) ∧
    coherent k (rv_completed_phases r) (rv_failed_phase r)) as Hco.
  { intros Hok. apply Hacc in Hok as (_ & _ & k & l & Hk & _ & _ & _ & Hp & _ & Hc). eauto. }
  clear Hv Hacc. rewrite Hst, Hw, Hq, Ha. destruct (rv_ok r); simpl.
  2: { split; [by split; [|intros [? _]]|]. done. }
  destruct (Hco eq_refl) as (k & Hk & Hp & Hc). rewrite Hk.
  split_and!.
  - rewrite (committed_status _ _ _ Hp Hc). naive_solver.
  - intros [Hm Hd]%andb_true_iff. apply bool_decide_eq_true in Hd. split.
    + by eapply (done_prefix 3).
    + apply kind_in_Some in Hm. eauto.
  - intros Hd%bool_decide_eq_true. split; [by eapply (done_prefix 5)|].
    exists k. split; [done|]. by eapply applied_material.
  - intros k' _ [= <-] Hn. by eapply no_spend_ineligible.
Qed.

(** An accepted failure resumes where it stopped: it is reported as failed,
    it completed exactly the phases before the one its kind names, and that
    phase is the next one; an accepted stop has no next phase; any other
    accepted result that is not complete continues with the first phase it has
    not completed. *)
Theorem receipt_resumes plan result r k :
  validate plan result = Ok r → rv_ok r = true → rv_result_kind r = Some k →
  match FAILURE_PHASES k with
  | Some p => rv_status r = "failed" ∧ rv_failed_phase r = Some p ∧ rv_next_phase r = Some p ∧
      rv_completed_phases r = take (failure_index k) TRANSACTION_PHASES
  | None => rv_failed_phase r = None ∧
      rv_next_phase r = (if decide (k ∈ STOP_RESULT_KINDS) then None
                         else expected_next (rv_completed_phases r))
  end.
Proof.
  intros Hv Hok Hk. pose proof Hok as Hacc. apply (accepted_iff _ _ _ Hv) in Hacc.
  destruct Hacc as (_ & _ & k' & l & Hk' & _ & _ & _ & Hp & _ & Hc).
  rewrite Hk in Hk'. injection Hk' as <-.
  destruct (validate_fields _ _ _ Hv)
    as (id & ie & ke & ce & _ & _ & _ & _ & _ & _ & Hst & Hn & _).
  rewrite Hst, Hn, Hok, Hk. unfold coherent in Hc.
  destruct (FAILURE_PHASES k) as [p|] eqn:Hf; cbn [andb kind_in].
  - destruct Hc as [Hfp Hcp]. rewrite Hfp, Hcp. unfold receipt_status. cbn [negb failure_phase].
    rewrite Hf. split_and!; try done.
    by destruct k.
  - destruct Hc as [-> _]. split; [done|].
    destruct (decide (k ∈ STOP_RESULT_KINDS)) as [Hs|Hs].
    + rewrite (bool_decide_true (k ∈ _)) by done. by rewrite orb_true_r.
    + rewrite (bool_decide_false (k ∈ _)), orb_false_r by done.
      case_bool_decide as Hd; [|done]. by rewrite Hd.
Qed.

(** The identity that a plan carries. *)
Definition plan_identity (plan : items) : items :=
  mapping (pget "identity" (mapping (pget "settlement_plan" plan))).

(** Validating a receipt raises, instead of reporting errors, exactly when
    the plan's identity names a replan obligation or a request subject and
    decoding it raises something other than a runtime error, such as the
    [ValueError] of an identity that the runtime rejects or the [TypeError] of
    an unhashable schema version. *)
Theorem receipt_raises_iff plan result e :
  validate plan result = Err e ↔
  (is_none (pget "replan_obligation_id" (plan_identity plan)) = false ∨
   is_none (pget "request_subject" (plan_identity plan)) = false) ∧
  from_runtime_payload str_of request_identity (plan_identity plan) = Err e ∧
  is_runtime_error e = false.
Proof.
  unfold validate_loopx_turn_receipt, settlement_identity. fold (plan_identity plan).
  rewrite <- !negb_true_iff, <- orb_true_iff.
  destruct (negb _ || negb _).
  - destruct (from_runtime_payload str_of request_identity (plan_identity plan)) as [p|x]; simpl.
    + split; [|by intros (_ & [=] & _)].
      destruct (request_subject p), (result_kind _ _), (completed_phases _ _); discriminate.
    + destruct (is_runtime_error x) eqn:Ex; simpl.
      * split; [destruct (result_kind _ _), (completed_phases _ _); discriminate|].
        intros (_ & [= <-] & Hx). by rewrite Ex in Hx.
      * rewrite negb_true_iff. split; [by intros [= <-]|by intros (_ & [= ->] & _)].
  - split; [|by intros [? _]]. simpl. destruct (result_kind _ _), (completed_phases _ _); discriminate.
Qed.

Lemma in_set_text texts t : in_set texts (PStr t) = Ok (existsb (λ x, String.eqb t x) texts).
Proof. done. Qed.

(** A plan whose identity binds a Todo and carries a replan obligation that
    is an empty text, rather than a missing one, is accepted as bound to that
    Todo, and its lineage then names the replan obligation ["None"]. *)
Theorem blank_obligation_in_lineage plan result r :
  validate plan result = Ok r →
  let identity := plan_identity plan in
  pget "schema_version" identity = PStr IDENTITY_SCHEMA →
  pget "request_subject" identity = PNone → pget "replan_obligation_id" identity = PStr "" →
  Forall (λ k, is_nonblank_str (pget k identity) = true)
    ["effect_id"; "goal_id"; "agent_id"; "turn_instance_id"; "todo_id"] →
  ("replan_obligation_id", "None") ∈ rv_lineage r.
Proof.
  cbn zeta. intros Hv Hs Hr Ho Hne.
  assert (from_runtime_payload str_of request_identity (plan_identity plan) ≫= (λ p,
    Ok (request_subject p, replan_obligation_id p)) = Ok (false, None)) as Hp.
  { unfold from_runtime_payload. rewrite Hs, Hr, Ho, in_set_text. simpl.
    repeat (apply Forall_cons in Hne as [?Hk Hne]).
    rewrite Hk, Hk0, Hk1, Hk2. simpl.
    destruct (pget "todo_id" (plan_identity plan)) as [| | | |t| | | |]; try discriminate Hk3.
    simpl in Hk3. unfold str_or_empty, text_or_none. simpl.
    destruct (is_empty t) eqn:Et; [apply is_empty_spec in Et; by subst t|].
    simpl. destruct (is_empty (py_strip t)); [done|]. done. }
  destruct (from_runtime_payload _ _ _) as [p|] eqn:Ep; [|done]. simpl in Hp.
  injection Hp as Hp1 Hp2.
  unfold validate_loopx_turn_receipt, settlement_identity in Hv. fold (plan_identity plan) in Hv.
  rewrite Ho, Ep, Hp1, Hp2 in Hv. simpl in Hv.
  destruct (result_kind _ _), (completed_phases _ _). injection Hv as <-. simpl. set_solver.
Qed.
End receipts.

(** ** Completions and executions *)

(** A completion outcome is accepted exactly when it is a mapping for the
    expected, non-empty Todo with a known continuation, and a successor
    continuation lists non-empty successor ids; the outcome repeats the Todo
    and the continuation, and the successors only for a successor. *)
Theorem completion_outcome_iff str_of completion expected out :
  require_loopx_turn_completion_outcome str_of completion expected = Ok out ↔
  ∃ fz c k, completion = PMap fz c ∧ expected ≠ "" ∧
    str_or_empty str_of (pget "todo_id" c) = expected ∧
    str_or_empty str_of (pget "continuation" c) = k ∧
    k ∈ ["successor"; "active_goal"; "no_followup"] ∧
    if decide (k = "successor") then
      ∃ ids, pget "successor_todo_ids" c = PSeq false ids ∧ ids ≠ [] ∧
        Forall (λ v, ∃ s, v = PStr s ∧ s ≠ "") ids ∧
        out = [("todo_id", PStr expected); ("continuation", PStr k);
               ("successor_todo_ids", PSeq false ids)]
    else out = [("todo_id", PStr expected); ("continuation", PStr k)].
Proof.
  assert (∀ ids, forallb is_nonempty_str ids = true ↔ Forall (λ v, ∃ s, v = PStr s ∧ s ≠ "") ids)
    as Hids.
  { intros ids. induction ids as [|v ids IH]; simpl; [split; [constructor|done]|].
    rewrite andb_true_iff, IH, Forall_cons. apply and_iff_compat_r.
    destruct v as [| | | |s| | | |]; simpl; try (split; [done|by intros (? & ? & _)]).
    rewrite negb_true_iff, <- not_true_iff_false, is_empty_spec. naive_solver. }
  unfold require_loopx_turn_completion_outcome.
  destruct completion as [| | | | | |fz c| |]; try (split; [done|by intros (? & ? & ? & ? & _)]).
  split.
  - intros H. inv_res. apply andb_true_iff in H0 as [He Ht].
    apply negb_true_iff, not_true_iff_false in He. rewrite is_empty_spec in He.
    apply String.eqb_eq in Ht. rewrite Ht in H. apply bool_decide_eq_true in H1.
    exists fz, c, (str_or_empty str_of (pget "continuation" c)). split_and!; try done.
    case_decide as Hk.
    + rewrite Hk in H |- *. simpl in H.
      destruct (pget "successor_todo_ids" c) as [| | | | | | |[] ids|]; try done.
      destruct (negb _ && _) eqn:Hn; [|done]. simplify_eq/=.
      apply andb_true_iff in Hn as [Hn Hall]. apply Hids in Hall. exists ids. split_and!; try done.
      intros ->. done.
    + apply String.eqb_neq in Hk. rewrite Hk in H. by simplify_eq.
  - intros (fz' & c' & k & [= <- <-] & He & Ht & Hk & Hin & H).
    rewrite Ht, Hk, String.eqb_refl, (bool_decide_true _ Hin).
    destruct (is_empty expected) eqn:Ee; [by apply is_empty_spec in Ee|]. simpl.
    destruct (decide (k = "successor")) as [->|Hne].
    + destruct H as (ids & -> & Hn & Hall & ->). simpl. apply Hids in Hall. rewrite Hall.
      by destruct ids.
    + apply String.eqb_neq in Hne. by rewrite Hne, H.
Qed.

(** An execution that counts as committed wrote state and spent quota, so
    it has durable effects, and unless its receipt names a failed phase it does
    not ask for recovery. *)
Theorem committed_execution_durable execution :
  loopx_turn_execution_committed execution = Ok true →
  loopx_turn_execution_has_durable_effects execution = true ∧
  (truthy (pget "failed_phase" (mapping (pget "receipt" execution))) = false →
   is_ok (loopx_turn_execution_recovery_required execution) = true →
   loopx_turn_execution_recovery_required execution = Ok false).
Proof.
  unfold loopx_turn_execution_committed, loopx_turn_execution_has_durable_effects,
    loopx_turn_execution_recovery_required, and_then.
  destruct (is_text "committed" (pget "status" execution)) eqn:Es; [|done].
  destruct (is_text "committed" (pget "status" (mapping (pget "receipt" execution)))); [|done].
  cbn [andb]. unfold in_set at 1.
  destruct (unhashable (pget "status" (mapping (pget "validation" execution)))); [done|]. simpl.
  intros H. injection H as H. rewrite !andb_true_iff in H. destruct H as [[Hv Hw] _].
  split; [by rewrite Hw|]. intros Hf Hok. apply is_text_spec in Es. rewrite Es in *.
  destruct (in_set ["repair_required"; "replan_required"] _) as [[]|]; [|done|done]. simpl in *.
  rewrite Hf, orb_false_r. unfold or_then.
  destruct (pget "status" (mapping (pget "validation" execution))) as [| | | |t| | | |]; try done.
  unfold in_texts in Hv. simpl in *. destruct (String.eqb t "failed") eqn:Et; [|done].
  apply String.eqb_eq in Et as ->. done.
Qed.

(** ** Plans *)

(** The result of a Turn that ran the first [n] phases of a plan. *)
Definition answer (plan : items) (k : LoopXTurnResultKind) (n : nat) (failed : option string)
  : items :=
  as_items [("schema_version", PStr RESULT_SCHEMA); ("turn_key", pget "turn_key" plan);
            ("result_kind", PStr (LoopXTurnResultKind_value k));
            ("completed_phases", PSeq false (PStr <$> take n TRANSACTION_PHASES));
            ("failed_phase", opt_str failed)].

(** An identity that binds a Todo. *)
Record todo_identity (identity : pyval) : Prop := {
  ti_bound : Forall (λ k, is_nonempty_str (pget k (mapping identity)) = true)
               ["goal_id"; "agent_id"; "todo_id"; "effect_id"];
  ti_obligation : pget "replan_obligation_id" (mapping identity) = PNone;
  ti_request : pget "request_subject" (mapping identity) = PNone
}.

Lemma nonempty_str_text str_of v : is_nonempty_str v = true → str_or_empty str_of v ≠ "".
Proof.
  destruct v as [| | | |s| | | |]; try done. unfold str_or_empty. simpl. by destruct s.
Qed.

(** A plan that binds a Todo has no identity errors. *)
Lemma todo_identity_accepted str_of request_identity plan :
  todo_identity (pget "identity" (mapping (pget "settlement_plan" plan))) →
  ∃ id, settlement_identity str_of request_identity plan = Ok (id, []).
Proof.
  intros [Hb Ho Hr]. unfold settlement_identity. rewrite Ho, Hr. simpl.
  repeat (apply Forall_cons in Hb as [?Hk Hb]).
  assert (∀ v, is_nonempty_str v = true → is_empty (str_or_empty str_of v) = false) as He.
  { intros v Hv. apply not_true_iff_false. rewrite is_empty_spec. by apply nonempty_str_text. }
  rewrite (He _ Hk), (He _ Hk0), (He _ Hk1), (He _ Hk2).
  by eexists.
Qed.

Lemma py_str_phases str_of (l : list string) : py_str str_of <$> (PStr <$> l) = l.
Proof. induction l as [|s l IH]; simpl; [done|by f_equal]. Qed.

Lemma coherent_failed k c failed :
  coherent k c failed → ∀ str_of, text_or_none (str_or_empty str_of (opt_str failed)) = failed.
Proof.
  unfold coherent. destruct (FAILURE_PHASES k) as [p|] eqn:Hk.
  - intros [-> _] str_of. by destruct k; simplify_eq/=.
  - by intros [-> _] str_of.
Qed.

Lemma validate_returns str_of request_identity plan result id ie :
  settlement_identity str_of request_identity plan = Ok (id, ie) →
  ∃ r, validate_loopx_turn_receipt str_of request_identity plan result = Ok r.
Proof.
  intros H. unfold validate_loopx_turn_receipt. rewrite H.
  destruct (result_kind str_of (pget "result_kind" result)) as [k ke].
  destruct (completed_phases str_of (pget "completed_phases" result)) as [c ce].
  by eexists.
Qed.

(** An answer to an addressed plan with an identity is accepted. *)
Lemma answer_accepted str_of request_identity plan k n failed :
  pget "schema_version" plan = PStr PLAN_SCHEMA → pget "status" plan = PStr "planned" →
  str_or_empty str_of (pget "turn_key" plan) ≠ "" →
  (∃ id, settlement_identity str_of request_identity plan = Ok (id, [])) →
  (n ≤ 7)%nat → coherent k (take n TRANSACTION_PHASES) failed →
  ∃ r, validate_loopx_turn_receipt str_of request_identity plan (answer plan k n failed) = Ok r ∧
    rv_ok r = true ∧ rv_result_kind r = Some k ∧
    rv_completed_phases r = take n TRANSACTION_PHASES ∧ rv_failed_phase r = failed.
Proof.
  intros Hs Hst Hkey [id Hid] Hn Hco.
  destruct (validate_returns str_of request_identity plan (answer plan k n failed) id [] Hid)
    as [r Hv].
  exists r. split; [done|].
  assert (prefix_of_phases (take n TRANSACTION_PHASES)) as Hp.
  { unfold prefix_of_phases. rewrite length_take. simpl. by rewrite Nat.min_l. }
  destruct (validate_fields _ _ _ _ _ Hv) as (id' & ie & ke & ce & _ & Hk & Hc & Hf & _).
  assert (pget "result_kind" (answer plan k n failed) = PStr (LoopXTurnResultKind_value k)) as E1
    by reflexivity.
  assert (pget "completed_phases" (answer plan k n failed)
    = PSeq false (PStr <$> take n TRANSACTION_PHASES)) as E2 by reflexivity.
  assert (pget "failed_phase" (answer plan k n failed) = opt_str failed) as E3 by reflexivity.
  assert (LoopXTurnResultKind_value k = str_or_empty str_of (PStr (LoopXTurnResultKind_value k)))
    as E4 by by destruct k.
  rewrite E1, (result_kind_total _ _ _ E4) in Hk. injection Hk as Hk _.
  rewrite E2 in Hc. simpl in Hc. injection Hc as Hc _. rewrite py_str_phases in Hc.
  rewrite E3, (coherent_failed _ _ _ Hco) in Hf.
  split_and!; [|done|done|done]. apply (accepted_iff _ _ _ _ _ Hv).
  split; [by split|]. split; [eauto|].
  exists k, (PStr <$> take n TRANSACTION_PHASES). rewrite <- Hc, py_str_phases, Hf.
  split_and!; try done. by rewrite E3, (coherent_failed _ _ _ Hco).
Qed.

Section plans.
Context (str_of : pyval → string) (request_identity : items → res SettlementIdentity)
  (json_sha256 : pyval → string)
  (new_identity : string → string → string → string → res pyval)
  (plan_payload : pyval → res pyval).

Notation build := (build_loopx_turn_transaction_plan str_of json_sha256 new_identity plan_payload).
Notation key_of_turn := (λ r i, canonical_hash json_sha256 (turn_identity r i)).

(** The fields of a built plan that a receipt is checked against. *)
Lemma build_fields r plan :
  build r = Ok plan → planned r = true →
  (∀ identity fz d, plan_payload (plan_document identity) = Ok (PMap fz d) →
     pget "identity" d = identity) →
  ∃ instance identity, normalize_turn_instance_id (turn_instance_id r) = Ok instance ∧
    match given_identity r with
    | Some i => i = identity
    | None => new_identity (str_or_empty str_of (pget "goal_id" (lineage r)))
                (str_or_empty str_of (pget "agent_id" (lineage r)))
                (str_or_empty str_of (pget "todo_id" (lineage r)))
                (default (key_of_turn r instance) instance) = Ok identity
    end ∧
    pget "schema_version" plan = PStr PLAN_SCHEMA ∧ pget "status" plan = PStr "planned" ∧
    pget "turn_key" plan = PStr (key_of_turn r instance) ∧
    pget "phases" plan = PSeq false (PStr <$> TRANSACTION_PHASES) ∧
    pget "identity" (mapping (pget "settlement_plan" plan)) = identity.
Proof.
  intros H Hp Hrender. unfold build_loopx_turn_transaction_plan in H. rewrite Hp in H.
  destruct (normalize_turn_instance_id (turn_instance_id r)) as [instance|]; [|done]. simpl in H.
  exists instance. destruct (match given_identity r with Some i => Ok i | None => _ end)
    as [identity|] eqn:Hi; [|done]. simpl in H. unfold SettlementPlan_as_dict in H.
  destruct (plan_payload (plan_document identity)) as [pl|] eqn:Hpl; [|done]. simpl in H.
  destruct pl as [| | | | | |fz d| |]; try done. simpl in H. injection H as <-.
  exists identity. split; [done|]. split; [destruct (given_identity r); congruence|].
  split_and!; try reflexivity.
  change (pget "identity" (match goal_ref r with
    | Some g => pset "goal_ref" (PMap false g) d | None => d end) = identity).
  destruct (goal_ref r); [rewrite pget_pset_ne by done|]; by eapply Hrender.
Qed.

End plans.

(** ** The hypotheses hold on a concrete Turn *)

Definition text0 : pyval → string := λ _, "?".
Definition reject0 : items → res SettlementIdentity := λ _, Err (ValueError "rejected").

(** A runtime that renders identities and plans as the TypeScript owner does. *)
Definition identity0 (goal agent todo turn : string) : res pyval :=
  Ok (PMap false (as_items
    [("schema_version", PStr IDENTITY_SCHEMA); ("goal_id", PStr goal); ("agent_id", PStr agent);
     ("todo_id", PStr todo); ("turn_instance_id", PStr turn);
     ("effect_id", PStr (goal ++ ":" ++ agent ++ ":" ++ todo ++ ":" ++ turn))])).
Definition payload0 (v : pyval) : res pyval :=
  Ok (PMap false (as_items [("schema_version", PStr "quota_settlement_plan_v1");
                            ("identity", pget "identity" (mapping v));
                            ("ordered_steps", pget "steps" (mapping v))])).

Definition request0 : plan_request :=
  {| planned := true;
     lineage := as_items [("goal_id", PStr "g"); ("agent_id", PStr "a"); ("todo_id", PStr "t")];
     host := "h"; execution_mode := "m"; session_action := "s"; scheduler_owner := "none";
     turn_instance_id := Some "turn-1"; goal_ref := None; given_identity := None |}.

Definition plan0 : items :=
  match build_loopx_turn_transaction_plan text0 (λ _, "0") identity0 payload0 request0 with
  | Ok p => p | Err _ => []
  end.

Definition result0 : items := answer plan0 VALIDATED_PROGRESS 7 None.
Definition failed0 : items := answer plan0 WRITEBACK_FAILED 3 (Some "durable_writeback").

Definition no_receipt : ReceiptValidation :=
  {| rv_ok := false; rv_turn_key := None; rv_lineage := []; rv_settlement_effect_id := None;
     rv_result_kind := None; rv_completed_phases := []; rv_failed_phase := None; rv_status := "";
     rv_next_phase := None; rv_writeback := false; rv_quota_spend := false;
     rv_scheduler_ack := false; rv_errors := [] |}.

Definition receipt0 (plan result : items) : ReceiptValidation :=
  match validate_loopx_turn_receipt text0 reject0 plan result with
  | Ok r => r | Err _ => no_receipt
  end.



Lemma receipt_commit_order_witness :
  rv_status (receipt0 plan0 result0) = "committed" ∧
  take 6 TRANSACTION_PHASES `prefix_of` rv_completed_phases (receipt0 plan0 result0).
Proof.
  destruct (receipt_commit_order text0 reject0 plan0 result0 (receipt0 plan0 result0))
    as (_ & _ & H & _); [vm_compute; reflexivity|].
  split; [vm_compute; reflexivity|]. refine (proj1 (H _)). vm_compute. reflexivity.
Defined.

Lemma receipt_resumes_witness :
  rv_next_phase (receipt0 plan0 failed0) = Some "durable_writeback".
Proof.
  pose proof (receipt_resumes text0 reject0 plan0 failed0 (receipt0 plan0 failed0) WRITEBACK_FAILED)
    as H. cbn [FAILURE_PHASES] in H.
  refine (proj1 (proj2 (proj2 (H _ _ _)))); vm_compute; reflexivity.
Defined.

(** A plan whose identity has an empty replan obligation. *)
Definition blank_plan : items :=
  as_items
    [("schema_version", PStr PLAN_SCHEMA); ("status", PStr "planned"); ("turn_key", PStr "k");
     ("settlement_plan", PMap false (as_items
        [("identity", PMap false (as_items
            [("schema_version", PStr IDENTITY_SCHEMA); ("goal_id", PStr "g");
             ("agent_id", PStr "a"); ("todo_id", PStr "t"); ("turn_instance_id", PStr "i");
             ("effect_id", PStr "e"); ("replan_obligation_id", PStr "")]))]))].
Definition blank_result : items := answer blank_plan VALIDATED_PROGRESS 7 None.

Lemma blank_obligation_in_lineage_witness :
  rv_ok (receipt0 blank_plan blank_result) = true ∧
  ("replan_obligation_id", "None") ∈ rv_lineage (receipt0 blank_plan blank_result).
Proof.
  split; [vm_compute; reflexivity|].
  apply (blank_obligation_in_lineage text0 reject0 blank_plan blank_result
    (receipt0 blank_plan blank_result));
    [vm_compute; reflexivity|reflexivity|reflexivity|reflexivity|].
  repeat constructor.
Defined.

Definition execution0 : items :=
  as_items
    [("status", PStr "committed"); ("validation", PMap false (as_items [("status", PStr "passed")]));
     ("receipt", PMap false (as_items [("status", PStr "committed")]));
     ("effects", PMap false (as_items
        [("state_written", PBool true); ("quota_spent", PBool true)]))].

Lemma committed_execution_durable_witness :
  loopx_turn_execution_has_durable_effects execution0 = true.
Proof.
  refine (proj1 (committed_execution_durable execution0 _)). vm_compute. reflexivity.
Defined.
