(* ===== verification/FileLock.v ===== *)
(** The cross-runtime mutation lock of [loopx/file_lock.py]: the marker file
    of a target, created with [O_EXCL], its token claims, the reclaiming of the
    marker of a dead owner, and the release.

    Several threads of several processes run the protocol on one directory and
    meet only there, so a program is a tree of file-system calls ([prog]): a
    thread may be interrupted, or its process killed, between any two calls.
    [exec] is what one call does to the [world]; every call may fail with
    [OSError].  Times are nanoseconds.  The model is that of a POSIX host.  The
    records fit one write: the text of a file is empty or complete. *)

From stdpp Require Import base strings list sets gmap.
From Stdlib Require Import ZArith Lia.
From S2P Require Import Prelude PyFloat PyValue.

Open Scope Z_scope.

(** * Calls and programs *)

(** The fields of [os.stat_result] that identify a file; 0: not exposed. *)
Record identity := { st_dev : Z; st_ino : Z; st_birthtime_ns : Z; st_ctime_ns : Z }.

Inductive read_result := Missing | ReadError | NotUtf8 | NotJson | Parsed (v : pyval).
Inductive open_result := Opened (fd : nat) | FileExists | OpenError.
Inductive replace_result := Replaced | SourceMissing | ReplaceError.
Inductive kill_result := KillOk | NoProcess | NotPermitted | BadPid.

Inductive op : Type → Type :=
| Stat (p : string) : op (option (identity * Z))
| Read (p : string) : op read_result
| OpenExcl (p : string) : op open_result
| Fstat (fd : nat) : op identity
| WriteRecord (fd : nat) (v : pyval) : op bool
| Unlink (p : string) : op bool
| Replace (p q : string) : op replace_result
| Kill (pid : Z) : op kill_result
| Time : op Z
| Monotonic : op Z
| Uuid : op string
| Sleep : op unit
| Enter : op unit
| Leave : op unit.

Inductive prog (A : Type) : Type :=
| Ret (r : res A)
| Call {R : Type} (o : op R) (k : R → prog A).
Arguments Ret {A} r.
Arguments Call {A R} o k.

Fixpoint handle {A B} (p : prog A) (f : res A → prog B) : prog B :=
  match p with
  | Ret r => f r
  | Call o k => Call o (λ x, handle (k x) f)
  end.

#[export] Instance prog_ret : MRet prog := λ A a, Ret (Ok a).
#[export] Instance prog_bind : MBind prog := λ A B f p,
  handle p (λ r, match r with Ok a => f a | Err e => Ret (Err e) end).

Definition throw {A} (e : exn) : prog A := Ret (Err e).

Definition os_error := mk_exn "OSError".
Definition file_not_found := mk_exn "FileNotFoundError".
Definition is_os_error (e : exn) : bool :=
  String.eqb (exn_class e) "OSError" || String.eqb (exn_class e) "FileNotFoundError".
Definition is_file_not_found (e : exn) : bool := String.eqb (exn_class e) "FileNotFoundError".

(** [try: p except C: h]. *)
Definition catch {A} (c : exn → bool) (p : prog A) (h : prog A) : prog A :=
  handle p (λ r, match r with Err e => if c e then h else Ret r | Ok _ => Ret r end).

(** [try: p except BaseException: h; raise]. *)
Definition on_error {A} (p : prog A) (h : prog unit) : prog A :=
  handle p (λ r, match r with Err _ => h ≫= (λ _, Ret r) | Ok _ => Ret r end).

(** [try: p finally: f]. *)
Definition finally {A} (p : prog A) (f : prog unit) : prog A :=
  handle p (λ r, f ≫= (λ _, Ret r)).

Definition call {R} (o : op R) : prog R := Call o mret.
Definition unlink (p : string) : prog unit :=
  ok ← call (Unlink p); if (ok : bool) then mret tt else throw (os_error "unlink").
Definition replace (p q : string) : prog unit :=
  r ← call (Replace p q);
  match r with
  | Replaced => mret tt
  | SourceMissing => throw (file_not_found "replace")
  | ReplaceError => throw (os_error "replace")
  end.
Definition open_excl (p : string) : prog (option nat) :=
  r ← call (OpenExcl p);
  match r with
  | Opened fd => mret (Some fd)
  | FileExists => mret None
  | OpenError => throw (os_error "open")
  end.
Definition write_record (fd : nat) (v : pyval) : prog unit :=
  ok ← call (WriteRecord fd v); if (ok : bool) then mret tt else throw (os_error "write").

(** [path.stat().st_mtime]. *)
Definition st_mtime (p : string) : prog Z :=
  s ← call (Stat p);
  match s with Some (_, m) => mret m | None => throw (os_error "stat") end.

(** * The protocol *)

Definition EFFECT_MUTATION_LOCK_SUFFIX : string := ".ts-effect.lock".
(** 10.0 seconds. *)
Definition EFFECT_MUTATION_INVALID_STALE_SECONDS : Z := 10000000000.
Definition EFFECT_MUTATION_TOKEN_MAX_LENGTH : nat := 256.
Definition _EFFECT_MUTATION_INVALID_CLAIM_TOKEN : string := "__invalid_lock_reclaim__".

Definition _effect_mutation_lock_path (path : string) : string := path ++ EFFECT_MUTATION_LOCK_SUFFIX.

Record owner_record := { owner_pid : Z; owner_token : string }.

(** A token the protocol accepts. *)
Definition usable_token (token : string) : bool :=
  negb (is_empty token)
  && (String.length token <=? EFFECT_MUTATION_TOKEN_MAX_LENGTH)%nat
  && negb (is_empty (py_strip token)).

(** What [_read_effect_mutation_owner] makes of a JSON value. *)
Definition owner_of_json (v : pyval) : option owner_record :=
  match v with
  | PMap _ d =>
      match pget "pid" d, pget "token" d with
      | PInt pid, PStr token =>
          if (pid <=? 0) || negb (usable_token token) then None
          else Some {| owner_pid := pid; owner_token := token |}
      | _, _ => None
      end
  | _ => None
  end.

Definition _read_effect_mutation_owner (path : string) : prog (option owner_record) :=
  r ← call (Read path);
  match r with
  | Missing | ReadError | NotJson => mret None
  | NotUtf8 => throw (mk_exn "UnicodeDecodeError" "utf-8")
  | Parsed v => mret (owner_of_json v)
  end.

Definition process_is_alive (pid : pyval) : prog bool :=
  match pid with
  | PInt n =>
      if n <=? 0 then mret false
      else
        r ← call (Kill n);
        match r with
        | KillOk | NotPermitted => mret true
        | NoProcess => mret false
        | BadPid => throw (mk_exn "OverflowError" "signed integer is greater than maximum")
        end
  | _ => mret false
  end.

Definition _effect_file_identity_from_fd (fd : nat) : prog identity := call (Fstat fd).

Definition _effect_file_identity (path : string) : prog (option identity) :=
  s ← call (Stat path); mret (option_map fst s).

Definition _same_effect_file_identity (left right : option identity) : bool :=
  match left, right with
  | Some l, Some r =>
      let device i := negb ((st_dev i =? 0) && (st_ino i =? 0)) in
      let birth := negb (st_birthtime_ns l =? 0) && negb (st_birthtime_ns r =? 0)
                   && (st_birthtime_ns l =? st_birthtime_ns r) in
      let has_birth := negb (st_birthtime_ns l =? 0) || negb (st_birthtime_ns r =? 0) in
      if negb (Bool.eqb (device l) (device r)) then false
      else if device l then
        if negb ((st_dev l =? st_dev r) && (st_ino l =? st_ino r)) then false
        else if has_birth then birth else true
      else if has_birth then birth
      else negb (st_ctime_ns l =? 0) && negb (st_ctime_ns r =? 0) && (st_ctime_ns l =? st_ctime_ns r)
  | _, _ => false
  end.

#[global] Arguments _same_effect_file_identity : simpl never.

Definition _remove_created_effect_file (path : string) (id : option identity) : prog unit :=
  match id with
  | None => mret tt
  | Some _ =>
      catch is_os_error
        (now ← _effect_file_identity path;
         if _same_effect_file_identity id now then unlink path else mret tt)
        (mret tt)
  end.

(** [time.time() - path.stat().st_mtime < EFFECT_MUTATION_INVALID_STALE_SECONDS],
    true also when the call of [stat] fails: in both cases the caller gives up. *)
Definition too_young (path : string) : prog bool :=
  catch is_os_error
    (now ← call Time; m ← st_mtime path;
     mret (now - m <? EFFECT_MUTATION_INVALID_STALE_SECONDS))
    (mret true).

(** The shared test of reclaiming and of the removal of claims: an owner that
    was read is dead, or the file has no owner and is old. *)
Definition not_abandoned (path : string) (owner : option owner_record) : prog bool :=
  match owner with
  | Some o => process_is_alive (PInt (owner_pid o))
  | None => too_young path
  end.

Definition _remove_dead_effect_mutation_claim (path : string) : prog bool :=
  id ← _effect_file_identity path;
  match id with
  | None => mret false
  | Some _ =>
      owner ← _read_effect_mutation_owner path;
      keep ← not_abandoned path owner;
      if (keep : bool) then mret false
      else
        now ← _effect_file_identity path;
        if negb (_same_effect_file_identity id now) then mret false
        else
          _ ← _remove_created_effect_file path id;
          last ← _effect_file_identity path;
          mret (negb (is_some last))
  end.

Record _EffectMutationClaim := { claim_path : string; claim_token : string; claim_identity : identity }.

(** [hashlib.sha256(text.encode("utf-8")).hexdigest()]. *)
Section Protocol.
Variable sha256_hexdigest : string → string.
(** [os.getpid()] of the calling process. *)
Variable getpid : Z.

Definition _effect_mutation_claim_path (path token : string) : string :=
  path ++ ".claim." ++ sha256_hexdigest token.

Definition record_json (token : string) : pyval :=
  PMap false [(Some "pid", PInt getpid); (Some "token", PStr token)].

Definition _claim_attempt (path token : string) (fd : nat) : prog _EffectMutationClaim :=
  id ← _effect_file_identity_from_fd fd;
  _ ← on_error (write_record fd (record_json token)) (_remove_created_effect_file path (Some id));
  mret {| claim_path := path; claim_token := token; claim_identity := id |}.

(** [for _attempt in range(n)]. *)
Fixpoint _claim_attempts (n : nat) (path token : string) : prog (option _EffectMutationClaim) :=
  match n with
  | O => mret None
  | S n' =>
      fd ← open_excl path;
      match fd with
      | None =>
          removed ← _remove_dead_effect_mutation_claim path;
          if (removed : bool) then _claim_attempts n' path token else mret None
      | Some fd => claim ← _claim_attempt path token fd; mret (Some claim)
      end
  end.

Definition _claim_effect_mutation_lock (path token : string) : prog (option _EffectMutationClaim) :=
  if negb (usable_token token) then mret None
  else _claim_attempts 2 (_effect_mutation_claim_path path token) token.

Definition owned_by_caller (owner : option owner_record) (token : string) : bool :=
  match owner with
  | None => false
  | Some o => (owner_pid o =? getpid) && String.eqb (owner_token o) token
  end.

(** With a claim object: a record that is not the caller's makes no difference,
    the captured identity decides. *)
Definition _release_effect_mutation_claim (claim : _EffectMutationClaim) : prog unit :=
  if is_empty (claim_token claim) then mret tt
  else
    owner ← _read_effect_mutation_owner (claim_path claim);
    if negb (owned_by_caller owner (claim_token claim))
    then _remove_created_effect_file (claim_path claim) (Some (claim_identity claim))
    else _remove_created_effect_file (claim_path claim) (Some (claim_identity claim)).

(** With a path and a token. *)
Definition _release_claim_at (path token : string) : prog unit :=
  id ← _effect_file_identity path;
  if is_empty token then mret tt
  else
    owner ← _read_effect_mutation_owner path;
    if negb (owned_by_caller owner token) then mret tt
    else _remove_created_effect_file path id.

Definition has_token (owner : option owner_record) (token : string) : bool :=
  match owner with None => false | Some o => String.eqb (owner_token o) token end.

(** The [try] of [_reclaim_stale_effect_mutation_lock], up to [path.replace]:
    whether the lock was moved to [stale_path]. *)
Definition _retire_stale (path stale_path : string) (id : option identity)
    (owner : option owner_record) : prog bool :=
  current ← _read_effect_mutation_owner path;
  if (match owner with Some o => negb (has_token current (owner_token o)) | None => false end)
  then mret false
  else
    keep ← not_abandoned path current;
    if (keep : bool) then mret false
    else
      now ← _effect_file_identity path;
      if negb (_same_effect_file_identity id now) then mret false
      else _ ← replace path stale_path; mret true.

Definition _reclaim_stale_effect_mutation_lock (path : string) : prog bool :=
  id ← _effect_file_identity path;
  match id with
  | None => mret false
  | Some _ =>
      owner ← _read_effect_mutation_owner path;
      keep ← not_abandoned path owner;
      if (keep : bool) then mret false
      else
        claim ← _claim_effect_mutation_lock path
          (match owner with Some o => owner_token o | None => _EFFECT_MUTATION_INVALID_CLAIM_TOKEN end);
        match claim with
        | None => mret false
        | Some claim =>
            uuid ← call Uuid;
            let stale_path := path ++ ".stale." ++ uuid in
            moved ← finally
              (catch is_file_not_found (_retire_stale path stale_path id owner) (mret false))
              (_release_effect_mutation_claim claim);
            if (moved : bool) then _ ← unlink stale_path; mret true else mret false
        end
  end.

(** The inner [try] of [_release_effect_mutation_lock], without its [finally]. *)
Definition _retire_own (path retired_path token : string) (id : option identity) : prog bool :=
  current ← _read_effect_mutation_owner path;
  if negb (has_token current token) then mret false
  else
    now ← _effect_file_identity path;
    if negb (_same_effect_file_identity id now) then mret false
    else
      moved ← catch is_file_not_found (_ ← replace path retired_path; mret true) (mret false);
      if negb moved then mret false
      else _ ← catch is_os_error (unlink retired_path) (mret tt); mret true.

(** [None]: the function has returned [False] before it has a claim. *)
Definition _claim_own (path token : string)
    : prog (option (_EffectMutationClaim * option identity)) :=
  id ← _effect_file_identity path;
  match id with
  | None => mret None
  | Some _ =>
      owner ← _read_effect_mutation_owner path;
      if negb (has_token owner token)
      then _ ← _release_claim_at (_effect_mutation_claim_path path token) token; mret None
      else
        claim ← _claim_effect_mutation_lock path token;
        mret (option_map (λ c, (c, id)) claim)
  end.

(** The outer [try] has the handler of [OSError] before its [finally], and
    [claim] is set only by the last call of [_claim_own]: the handler covers
    both parts, the [finally] the second. *)
Definition _release_effect_mutation_lock (path token : string) (suppress_errors : bool) : prog bool :=
  let guarded {A} (p : prog A) (a : A) :=
    catch (λ e, is_os_error e && suppress_errors) p (mret a) in
  claimed ← guarded (_claim_own path token) None;
  match claimed with
  | None => mret false
  | Some (claim, id) =>
      finally
        (guarded
           (uuid ← call Uuid;
            let retired_path := path ++ ".released." ++ uuid in
            finally (_retire_own path retired_path token id)
              (_ ← _release_effect_mutation_claim claim;
               catch is_os_error (unlink retired_path) (mret tt)))
           false)
        (_release_effect_mutation_claim claim)
  end.

Definition release_cross_runtime_mutation_lock (path token : string) : prog bool :=
  _release_effect_mutation_lock (_effect_mutation_lock_path path) token true.

(** [path.resolve()] is [resolved]. *)
Definition cross_runtime_lock_witness (path resolved : string) : prog (string * owner_record) :=
  owner ← _read_effect_mutation_owner (_effect_mutation_lock_path path);
  match owner with
  | Some o =>
      if owner_pid o =? getpid then mret (resolved, o)
      else throw (RuntimeError "checkpoint handoff requires the caller's held mutation lock")
  | None => throw (RuntimeError "checkpoint handoff requires the caller's held mutation lock")
  end.

(** * The context manager *)

Definition lock_acquire_timeout := mk_exn "LockAcquireTimeoutError" "lock_acquire_timeout".

Definition _publish (path token : string) (fd : nat) : prog unit :=
  id ← _effect_file_identity_from_fd fd;
  on_error (write_record fd (record_json token)) (_remove_created_effect_file path (Some id)).

(** The loop of [exclusive_mutation_file_lock]; [n] bounds its rounds, a thread
    that has used them stops waiting. *)
Fixpoint _acquire (n : nat) (path token : string) (deadline : Z) (retried : bool) : prog unit :=
  match n with
  | O => throw (mk_exn "Waiting" "")
  | S n' =>
      fd ← open_excl path;
      match fd with
      | Some fd => _publish path token fd
      | None =>
          reclaimed ← _reclaim_stale_effect_mutation_lock path;
          if reclaimed && negb retried then _acquire n' path token deadline true
          else
            now ← call Monotonic;
            if deadline <=? now then throw lock_acquire_timeout
            else _ ← call Sleep; _acquire n' path token deadline retried
      end
  end.

(** [with exclusive_mutation_file_lock(path): body]; the body of the [with] is
    between [Enter] and [Leave] and has the outcome [body]. *)
Definition exclusive_mutation_file_lock (n : nat) (path token : string) (timeout : Z)
    (body : res unit) : prog unit :=
  let effect_lock_path := _effect_mutation_lock_path path in
  started ← call Monotonic;
  _ ← _acquire n effect_lock_path token (started + timeout) false;
  finally (_ ← call Enter; _ ← call Leave; Ret body)
    (_ ← _release_effect_mutation_lock effect_lock_path token true; mret tt).

End Protocol.
