(* ===== verification/LockWorld.v ===== *)
(** What threads of several processes do to one directory when they run the
    programs of [FileLock]: the calls, and runs of any interleaving with
    crashes, failing calls and the passing of time. *)

From stdpp Require Import base strings list sets gmap.
From Stdlib Require Import ZArith Lia.
From S2P Require Import Prelude PyFloat PyValue FileLock.

Open Scope Z_scope.

(** A file that was ever created: its text, its time of modification, and the
    thread that created it ([None]: it was there before the run). *)
Record file := File { content : read_result; mtime : Z; creator : option nat }.

(** [dir]: the names and the numbers of their files; [live]: the threads that
    have not ended and whose process runs; [inside]: the threads between
    [Enter] and [Leave]; [awake]: when a thread made its last call, unless it
    sleeps or is inside. *)
Record world := World {
  dir : gmap string nat;
  inodes : gmap nat file;
  next : nat;
  clock : Z;
  dead : gset Z;
  live : gset nat;
  inside : gset nat;
  awake : gmap nat Z
}.

Definition set_dir (d : gmap string nat) (w : world) : world :=
  World d (inodes w) (next w) (clock w) (dead w) (live w) (inside w) (awake w).
Definition set_file (f : nat) (x : file) (w : world) : world :=
  World (dir w) (<[f := x]> (inodes w)) (next w) (clock w) (dead w) (live w) (inside w) (awake w).
Definition set_inside (s : gset nat) (w : world) : world :=
  World (dir w) (inodes w) (next w) (clock w) (dead w) (live w) s (awake w).
Definition set_live (s : gset nat) (w : world) : world :=
  World (dir w) (inodes w) (next w) (clock w) (dead w) s (inside w) (awake w).
Definition set_awake (a : gmap nat Z) (w : world) : world :=
  World (dir w) (inodes w) (next w) (clock w) (dead w) (live w) (inside w) a.
Definition set_clock (c : Z) (w : world) : world :=
  World (dir w) (inodes w) (next w) c (dead w) (live w) (inside w) (awake w).
Definition create (p : string) (t : nat) (w : world) : world :=
  World (<[p := next w]> (dir w)) (<[next w := File NotJson (clock w) (Some t)]> (inodes w))
    (S (next w)) (clock w) (dead w) (live w) (inside w) (awake w).

(** What [stat] says of the file with a number. *)
Record filesystem := { dev_of : nat → Z; ino_of : nat → Z; birth_of : nat → Z }.

Definition ident (fs : filesystem) (f : nat) (x : file) : identity :=
  {| st_dev := dev_of fs f; st_ino := ino_of fs f;
     st_birthtime_ns := birth_of fs f; st_ctime_ns := mtime x |}.

(** How a call turns out where the world does not decide it: it fails, a read
    fails, a failing write has written its text, the pid of a dead process was
    given to a new one, and the random name. *)
Record choice := {
  ch_fail : bool; ch_read_fail : bool; ch_written : bool; ch_reused : bool; ch_uuid : string
}.

Definition pid_max : Z := 2147483647.

Definition file_at (w : world) (p : string) : option (nat * file) :=
  f ← dir w !! p; x ← inodes w !! f; Some (f, x).

Definition exec_kill (pid : Z) (ch : choice) (w : world) : kill_result :=
  if pid_max <? pid then BadPid
  else if bool_decide (pid ∈ dead w) then if ch_reused ch then KillOk else NoProcess
  else if ch_fail ch then NotPermitted else KillOk.

Definition exec_write (f : nat) (v : pyval) (ch : choice) (w : world) : bool * world :=
  match inodes w !! f with
  | None => (false, w)
  | Some x =>
      if ch_fail ch && negb (ch_written ch) then (false, w)
      else (negb (ch_fail ch), set_file f (File (Parsed v) (clock w) (creator x)) w)
  end.

Definition exec_op (fs : filesystem) (t : nat) {R} (o : op R) (ch : choice) (w : world) : R * world :=
  match o in op R return R * world with
  | Stat p =>
      (if ch_fail ch then None else '(f, x) ← file_at w p; Some (ident fs f x, mtime x), w)
  | Read p =>
      (if ch_read_fail ch then ReadError
       else match file_at w p with Some (_, x) => content x | None => Missing end, w)
  | OpenExcl p =>
      if ch_fail ch then (OpenError, w)
      else match dir w !! p with
           | Some _ => (FileExists, w)
           | None => (Opened (next w), create p t w)
           end
  | Fstat f => (ident fs f (default (File NotJson 0 None) (inodes w !! f)), w)
  | WriteRecord f v => exec_write f v ch w
  | Unlink p => if ch_fail ch then (false, w) else (true, set_dir (delete p (dir w)) w)
  | Replace p q =>
      match dir w !! p with
      | None => (SourceMissing, w)
      | Some f =>
          if ch_fail ch then (ReplaceError, w)
          else (Replaced, set_dir (<[q := f]> (delete p (dir w))) w)
      end
  | Kill pid => (exec_kill pid ch w, w)
  | Time | Monotonic => (clock w, w)
  | Uuid => (ch_uuid ch, w)
  | Sleep => (tt, w)
  | Enter => (tt, set_inside ({[t]} ∪ inside w) w)
  | Leave => (tt, set_inside (inside w ∖ {[t]}) w)
  end.

Definition rests {R} (o : op R) : bool := match o with Sleep | Enter => true | _ => false end.

Definition exec (fs : filesystem) (t : nat) {R} (o : op R) (ch : choice) (w : world) : R * world :=
  let '(r, w') := exec_op fs t o ch w in
  (r, set_awake (if rests o then delete t (awake w') else <[t := clock w']> (awake w')) w').

(** * Runs *)

(** A call of a thread, the passing of [d] nanoseconds, the end of a process. *)
Inductive label := Act (t : nat) (ch : choice) | Tick (d : N) | Crash (pid : Z).

Record config := Config { wd : world; pool : gmap nat (prog unit) }.

Section Runs.
Variable fs : filesystem.
(** The process of a thread. *)
Variable pid_of : nat → Z.

Definition finish (t : nat) (p : prog unit) (w : world) : world :=
  match p with Ret _ => set_live (live w ∖ {[t]}) w | Call _ _ => w end.

Definition crash (pid : Z) (w : world) : world :=
  World (dir w) (inodes w) (next w) (clock w) ({[pid]} ∪ dead w)
    (filter (λ t, pid_of t ≠ pid) (live w)) (inside w) (awake w).

Definition step (l : label) (c : config) : option config :=
  match l with
  | Act t ch =>
      if bool_decide (t ∈ live (wd c)) then
        match pool c !! t with
        | Some (Call o k) =>
            let '(r, w) := exec fs t o ch (wd c) in
            Some (Config (finish t (k r) w) (<[t := k r]> (pool c)))
        | _ => None
        end
      else None
  | Tick d => Some (Config (set_clock (clock (wd c) + Z.of_N d) (wd c)) (pool c))
  | Crash pid => Some (Config (crash pid (wd c)) (pool c))
  end.

Definition run (ls : list label) (c : config) : option config :=
  foldl (λ oc l, c ← oc; step l c) (Some c) ls.

(** * Assumptions on a run *)

(** 2 seconds. *)
Definition PAUSE : Z := 2000000000.

(** No thread that is awake pauses for two seconds between two calls. *)
Definition brisk (w : world) : Prop :=
  map_Forall (λ t l, t ∈ live w → clock w < l + PAUSE) (awake w).

Definition by_live_thread (w : world) (f : nat) : bool :=
  match x ← inodes w !! f; creator x with
  | Some t => bool_decide (t ∈ live w)
  | None => false
  end.

(** No claim outlives the thread that took it. *)
Definition claims_attended (lock : string) (w : world) : Prop :=
  map_Forall (λ p f, startswith (lock ++ ".claim.") p = true → by_live_thread w f = true) (dir w).

(** Reading an existing file succeeds. *)
Definition reads_succeed (l : label) : Prop :=
  match l with Act _ ch => ch_read_fail ch = false | _ => True end.

(** Every state of a run, the first one included. *)
Fixpoint along (P : world → Prop) (ls : list label) (c : config) : Prop :=
  P (wd c) ∧
  match ls with
  | [] => True
  | l :: ls' => match step l c with Some c' => along P ls' c' | None => True end
  end.

#[export] Instance along_dec P `{!∀ w, Decision (P w)} ls c : Decision (along P ls c).
Proof.
  revert c. induction ls as [|l ls IH]; intros c; simpl; [apply _|].
  apply and_dec; [apply _|]. destruct (step l c); [apply IH|apply _].
Defined.

End Runs.

#[export] Instance brisk_dec w : Decision (brisk w).
Proof. unfold brisk. apply _. Defined.

#[export] Instance claims_attended_dec lock w : Decision (claims_attended lock w).
Proof. unfold claims_attended. apply _. Defined.

#[export] Instance reads_succeed_dec l : Decision (reads_succeed l).
Proof. destruct l; simpl; apply _. Defined.
