(* ===== verification/LockLogic.v ===== *)
(** A rely-guarantee logic for the threads of [LockWorld]: the invariant of the
    shared directory, what a thread promises of its calls and may expect of the
    others, and a weakest precondition for programs, with its soundness. *)

From stdpp Require Import base strings list sets gmap.
From Stdlib Require Import ZArith Lia.
From S2P Require Import Prelude PyFloat PyValue FileLock LockWorld.

Open Scope Z_scope.

Definition owner_in (x : file) : option owner_record :=
  match content x with Parsed v => owner_of_json v | _ => None end.

(** The token that a reclaimer of the file claims. *)
Definition key (x : file) : string :=
  match owner_in x with Some o => owner_token o | None => _EFFECT_MUTATION_INVALID_CLAIM_TOKEN end.

Definition tracked (lock p : string) : Prop := p = lock ∨ startswith (lock ++ ".claim.") p = true.

(** The thread that created the file has ended. *)
Definition condemned (w : world) (x : file) : Prop := ∀ u, creator x = Some u → u ∉ live w.

Section Logic.
Variable fs : filesystem.
Variable sha256_hexdigest : string → string.
Variables (pid_of : nat → Z) (token_of : nat → string).
Variable lock : string.

Notation claim_at := (_effect_mutation_claim_path sha256_hexdigest lock).

(** The file [f] with state [x] is called [p]. *)
Definition linked (w : world) (p : string) (f : nat) (x : file) : Prop :=
  dir w !! p = Some f ∧ inodes w !! f = Some x.

(** An unpublished file of a live thread is young. *)
Definition budget (k : Z) (t : nat) (w : world) : Prop :=
  ∀ p f x, tracked lock p → linked w p f x → creator x = Some t → owner_in x = None →
  ∃ l, awake w !! t = Some l ∧ l - mtime x ≤ k * PAUSE.

(** Every file of the thread has its record. *)
Definition settled (t : nat) (w : world) : Prop :=
  ∀ p f x, tracked lock p → linked w p f x → creator x = Some t → owner_in x ≠ None.

Definition quiet (t : nat) (w : world) : Prop := settled t w ∧ t ∉ inside w.

Record base (w : world) : Prop := {
  i_fresh : ∀ f, (next w ≤ f)%nat → inodes w !! f = None;
  i_linked : ∀ p f, dir w !! p = Some f → is_Some (inodes w !! f);
  i_truth : ∀ f x u o, inodes w !! f = Some x → creator x = Some u → owner_in x = Some o →
    owner_pid o = pid_of u;
  i_tokens : ∀ t u, t ∈ live w → u ∈ live w → token_of t = token_of u → t = u;
  i_lock : ∀ f x o t, t ∈ live w → linked w lock f x → owner_in x = Some o → owner_token o = token_of t →
    creator x = Some t;
  i_live : ∀ t, t ∈ live w → pid_of t ∉ dead w;
  i_inside : ∀ t, t ∈ inside w → t ∈ live w → ∃ f x, linked w lock f x ∧ creator x = Some t
}.

Record inv (w : world) : Prop := {
  i_base :> base w;
  i_time : ∀ t, t ∈ live w → budget 4 t w
}.

(** ** Guarantee and rely *)

Record guar (t : nat) (w w' : world) : Prop := {
  g_clock : clock w' = clock w;
  g_dead : dead w' = dead w;
  g_live : live w' = live w;
  g_old : ∀ f x, inodes w !! f = Some x → ∃ x', inodes w' !! f = Some x' ∧ creator x' = creator x ∧
    (x' = x ∨ (creator x = Some t ∧ owner_in x = None ∧ mtime x' = clock w));
  g_new : ∀ f x, inodes w' !! f = Some x → inodes w !! f = None → creator x = Some t;
  g_names : ∀ p f, tracked lock p → dir w' !! p = Some f → dir w !! p = Some f ∨ inodes w !! f = None;
  g_removed : ∀ p f x, tracked lock p → linked w p f x → dir w' !! p = Some f ∨ creator x = Some t ∨
    (p = lock ∧ condemned w x ∧ ∃ c y, linked w (claim_at (key x)) c y ∧ creator y = Some t);
  g_inside : ∀ u, u ≠ t → u ∈ inside w' ↔ u ∈ inside w;
  g_awake : ∀ u, u ≠ t → awake w' !! u = awake w !! u
}.

Record rely (t : nat) (w w' : world) : Prop := {
  r_clock : clock w ≤ clock w';
  r_dead : dead w ⊆ dead w';
  r_live : live w' ⊆ live w;
  r_awake : awake w' !! t = awake w !! t;
  r_inside : t ∈ inside w' ↔ t ∈ inside w;
  r_old : ∀ f x, inodes w !! f = Some x → ∃ x', inodes w' !! f = Some x' ∧ creator x' = creator x ∧
    (x' = x ∨ (creator x ≠ Some t ∧ owner_in x = None ∧ clock w ≤ mtime x' ∧ ¬ condemned w x));
  r_new : ∀ f x, inodes w' !! f = Some x → inodes w !! f = None → creator x ≠ Some t;
  r_names : ∀ p f, tracked lock p → is_Some (inodes w !! f) → dir w' !! p = Some f →
    dir w !! p = Some f;
  r_mine : ∀ p f x, tracked lock p → linked w p f x → creator x = Some t → dir w' !! p = Some f;
  r_claimed : ∀ f x c y, linked w lock f x → condemned w x → linked w (claim_at (key x)) c y →
    creator y = Some t → dir w' !! lock = Some f
}.

Lemma claim_tracked token : tracked lock (claim_at token).
Proof.
  right. unfold _effect_mutation_claim_path.
  assert (∀ a b c, startswith (a ++ b) (a ++ c) = startswith b c) as E.
  { intros a b c. induction a as [|z a IH]; simpl; [done|]. by rewrite bool_decide_true. }
  by rewrite E.
Qed.

Lemma lock_tracked : tracked lock lock.
Proof. by left. Qed.

Lemma rely_refl t w : rely t w w.
Proof.
  constructor; try done.
  - intros f x H. exists x. auto.
  - congruence.
  - by intros p f x _ [? _].
  - by intros f x c y [? _].
Qed.

Lemma condemned_mono w w' x : live w' ⊆ live w → condemned w x → condemned w' x.
Proof. intros S C u E Hu. exact (C u E (S u Hu)). Qed.

Lemma rely_condemned t w w' f x :
  rely t w w' → inodes w !! f = Some x → condemned w x →
  inodes w' !! f = Some x ∧ condemned w' x.
Proof.
  intros R H C. destruct (r_old _ _ _ R f x H) as (x' & H' & _ & [->|(_ & _ & _ & N)]); [|done].
  split; [done|]. eapply condemned_mono, C. apply (r_live _ _ _ R).
Qed.

Lemma rely_published t w w' f x :
  rely t w w' → inodes w !! f = Some x → owner_in x ≠ None → inodes w' !! f = Some x.
Proof. intros R H O. by destruct (r_old _ _ _ R f x H) as (x' & H' & _ & [->|(_ & ? & _)]). Qed.

Lemma rely_mine t w w' f x :
  rely t w w' → inodes w !! f = Some x → creator x = Some t → inodes w' !! f = Some x.
Proof. intros R H O. by destruct (r_old _ _ _ R f x H) as (x' & H' & _ & [->|(? & _)]). Qed.

Lemma rely_trans t w1 w2 w3 : rely t w1 w2 → rely t w2 w3 → rely t w1 w3.
Proof.
  intros R S. constructor.
  - etrans; [apply (r_clock _ _ _ R)|apply (r_clock _ _ _ S)].
  - etrans; [apply (r_dead _ _ _ R)|apply (r_dead _ _ _ S)].
  - etrans; [apply (r_live _ _ _ S)|apply (r_live _ _ _ R)].
  - rewrite (r_awake _ _ _ S). apply (r_awake _ _ _ R).
  - rewrite (r_inside _ _ _ S). apply (r_inside _ _ _ R).
  - intros f x H. destruct (r_old _ _ _ R f x H) as (x' & H' & C' & D').
    destruct (r_old _ _ _ S f x' H') as (x'' & H'' & C'' & D'').
    exists x''. split; [done|]. split; [by rewrite C''|].
    pose proof (r_clock _ _ _ R). pose proof (r_clock _ _ _ S).
    destruct D'' as [->|(A & B & C & D)]; destruct D' as [->|(A' & B' & E' & F')]; auto.
    + right. split; [done|]. split; [done|]. split; [lia|].
      intros N. apply D. eapply condemned_mono, N. apply (r_live _ _ _ R).
    + right. split; [done|]. split; [done|]. split; [lia|done].
  - intros f x H N. destruct (inodes w2 !! f) as [x2|] eqn:E.
    + destruct (r_old _ _ _ S f x2 E) as (x' & H' & C' & _).
      pose proof (r_new _ _ _ R f x2 E N). congruence.
    + exact (r_new _ _ _ S f x H E).
  - intros p f T A H. apply (r_names _ _ _ R p f T A), (r_names _ _ _ S p f T); [|done].
    destruct A as [x A]. destruct (r_old _ _ _ R f x A) as (x' & H' & _). eauto.
  - intros p f x T [A B] C. pose proof (r_mine _ _ _ R p f x T (conj A B) C) as A'.
    apply (r_mine _ _ _ S p f x T); [split; [done|]|done]. eapply rely_mine; eauto.
  - intros f x c y [A B] C D E. pose proof (r_claimed _ _ _ R f x c y (conj A B) C D E) as A'.
    destruct (rely_condemned _ _ _ _ _ R B C) as [B' C'].
    destruct D as [D1 D2].
    apply (r_claimed _ _ _ S f x c y); [by split|done| |done]. split.
    + apply (r_mine _ _ _ R _ c y); [apply claim_tracked|by split|done].
    + eapply rely_mine; eauto.
Qed.

(** What others see of a thread's call, of its end, and of the environment. *)
Lemma guar_rely t u w w' : t ≠ u → t ∈ live w → u ∈ live w → guar t w w' → rely u w w'.
Proof.
  intros N Lt Lu G. constructor.
  - rewrite (g_clock _ _ _ G). lia.
  - by rewrite (g_dead _ _ _ G).
  - by rewrite (g_live _ _ _ G).
  - by apply (g_awake _ _ _ G).
  - apply (g_inside _ _ _ G). done.
  - intros f x H. destruct (g_old _ _ _ G f x H) as (x' & H' & C & D). exists x'.
    split; [done|]. split; [done|]. destruct D as [->|(A & B & M)]; [by left|right].
    split; [rewrite A; congruence|]. split; [done|]. split; [lia|].
    intros C'. exact (C' t A Lt).
  - intros f x H E. rewrite (g_new _ _ _ G f x H E). congruence.
  - intros p f T [x A] H. destruct (g_names _ _ _ G p f T H) as [?|E]; [done|congruence].
  - intros p f x T H C.
    destruct (g_removed _ _ _ G p f x T H) as [?|[?|(_ & C' & _)]]; [done|congruence|].
    exfalso. exact (C' u C Lu).
  - intros f x c y H C [D1 D2] E.
    destruct (g_removed _ _ _ G lock f x lock_tracked H) as [?|[F|(_ & _ & c' & y' & [A1 A2] & A3)]]; [done|..].
    + exfalso. exact (C t F Lt).
    + simplify_eq.
Qed.

Lemma env_rely u w w' :
  clock w ≤ clock w' → dead w ⊆ dead w' → live w' ⊆ live w →
  awake w' = awake w → inside w' = inside w → inodes w' = inodes w → dir w' = dir w → rely u w w'.
Proof.
  intros C D L A I F N. constructor; rewrite ?A, ?I, ?F, ?N; try done.
  - intros f x H. exists x. auto.
  - congruence.
  - by intros p f x _ [? _].
  - by intros f x c y [? _].
Qed.

Lemma env_inv w w' :
  live w' ⊆ live w → (∀ t, t ∈ live w' → pid_of t ∉ dead w') →
  awake w' = awake w → inside w' = inside w → inodes w' = inodes w → dir w' = dir w →
  next w' = next w → inv w → inv w'.
Proof.
  intros L D A I F N X [[J1 J2 J3 J8 J4 J5 J6] J7].
  assert (∀ p f x, linked w' p f x ↔ linked w p f x) as E by (intros; unfold linked; by rewrite F, N).
  constructor; [constructor|]; rewrite ?F, ?N, ?X, ?I; try done.
  - intros t u Ht Hu. apply J8; by apply L.
  - intros f x o t Hl H. apply E in H. eapply J4; [by apply L|done].
  - intros t Ht Hl. destruct (J6 t Ht (L t Hl)) as (f & x & H & C). exists f, x.
    split; [by apply E|done].
  - intros t Hl p f x T H. rewrite A. apply E in H. exact (J7 t (L t Hl) p f x T H).
Qed.

(** ** Programs *)

Definition calm (w : world) : Prop := brisk w ∧ claims_attended lock w.

Record good (t : nat) (w : world) : Prop := {
  good_inv : inv w;
  good_brisk : brisk w;
  good_claims : claims_attended lock w;
  good_live : t ∈ live w
}.

Fixpoint rg (t : nat) {A} (p : prog A) (Q : res A → world → Prop) (w : world) : Prop :=
  match p with
  | Ret r => Q r w
  | Call o k =>
      ∀ w1, rely t w w1 → good t w1 → ∀ ch, ch_read_fail ch = false →
      guar t w1 (exec fs t o ch w1).2 ∧ inv (exec fs t o ch w1).2 ∧
      rg t (k (exec fs t o ch w1).1) Q (exec fs t o ch w1).2
  end.

Lemma rg_handle t {A B} (p : prog A) (f : res A → prog B) Q w :
  rg t p (λ r w', rg t (f r) Q w') w → rg t (handle p f) Q w.
Proof.
  revert w. induction p as [r|R o k IH]; intros w; simpl; [done|].
  intros H w1 R1 G1 ch Hc. destruct (H w1 R1 G1 ch Hc) as (? & ? & ?). eauto.
Qed.

Lemma rg_mono t {A} (p : prog A) (Q Q' : res A → world → Prop) w :
  (∀ r w', Q r w' → Q' r w') → rg t p Q w → rg t p Q' w.
Proof.
  intros M. revert w. induction p as [r|R o k IH]; intros w; simpl; [apply M|].
  intros H w1 R1 G1 ch Hc. destruct (H w1 R1 G1 ch Hc) as (? & ? & ?). eauto.
Qed.

(** A fact that neither the others nor the thread itself can destroy is kept
    by every program. *)
Lemma rg_frame t {A} (p : prog A) (Q : res A → world → Prop) (F : world → Prop) w :
  (∀ w w', F w → rely t w w' → good t w' → F w') →
  (∀ w w', F w → good t w → guar t w w' → F w') →
  F w → rg t p Q w → rg t p (λ r w', Q r w' ∧ F w') w.
Proof.
  intros SR SG. revert w. induction p as [r|R o k IH]; intros w HF; simpl; [done|].
  intros H w1 R1 G1 ch Hc. destruct (H w1 R1 G1 ch Hc) as (G & I & K).
  split; [done|]. split; [done|]. apply IH; [|done]. eauto.
Qed.

Lemma rg_bind t {A B} (p : prog A) (f : A → prog B) Q w :
  rg t p (λ r w', match r with Ok a => rg t (f a) Q w' | Err e => Q (Err e) w' end) w →
  rg t (p ≫= f) Q w.
Proof. intros H. apply rg_handle. eapply rg_mono, H. intros [a|e] w'; simpl; done. Qed.

(** ** Soundness *)

Definition covered (c : config) : Prop :=
  inv (wd c) ∧
  ∀ t, t ∈ live (wd c) →
    ∃ o, (pool c !! t) = Some o ∧ ∃ w0, rely t w0 (wd c) ∧ rg t o (λ _ _, True) w0.

Lemma covered_step l c c' :
  calm (wd c) → reads_succeed l → step fs pid_of l c = Some c' → covered c → covered c'.
Proof.
  intros [HB HC] Hr Hs [I P]. destruct l as [t ch|d|pid]; simpl in Hs, Hr.
  - case_bool_decide as Hl; [|done]. destruct (P t Hl) as (o & Ho & w0 & R0 & W). rewrite Ho in Hs.
    destruct o as [?|R o k]; [done|]. simpl in W.
    destruct (W (wd c) R0 (Build_good t _ I HB HC Hl) ch Hr) as (G & I' & K).
    destruct (exec fs t o ch (wd c)) as [r w] eqn:E. simpl in *. simplify_eq.
    assert (live w = live (wd c)) as EL by apply (g_live _ _ _ G).
    assert (∀ u, u ∈ live (finish t (k r) w) → u ∈ live w) as Sub.
    { unfold finish. intros u. destruct (k r); simpl; [set_solver|done]. }
    assert (∀ u, rely u w (finish t (k r) w)) as Rf.
    { intros u. apply env_rely; try (by unfold finish; destruct (k r)). }
    split; simpl.
    + eapply env_inv; [exact Sub| |..|exact I']; try (by unfold finish; destruct (k r)).
      intros u Hu. replace (dead (finish t (k r) w)) with (dead w) by (by unfold finish; destruct (k r)).
      apply (i_live _ I'), Sub, Hu.
    + intros u Hu. destruct (decide (u = t)) as [->|N].
      * rewrite lookup_insert_eq. eexists; split; [done|]. exists w. split; [apply Rf|done].
      * rewrite lookup_insert_ne by done. apply Sub in Hu. rewrite EL in Hu.
        destruct (P u Hu) as (o' & Ho' & w0' & R0' & W'). exists o'. split; [done|]. exists w0'.
        split; [|done]. eapply rely_trans, Rf. eapply rely_trans; [exact R0'|].
        eapply guar_rely, G; auto.
  - simplify_eq. split; simpl.
    + eapply env_inv, I; try done. apply (i_live _ I).
    + intros u Hu. destruct (P u Hu) as (o & Ho & w0 & R0 & W). exists o. split; [done|]. exists w0.
      split; [|done]. eapply rely_trans; [exact R0|]. apply env_rely; try done. simpl. lia.
  - simplify_eq. split; simpl.
    + eapply env_inv, I; try done; simpl.
      * intros u. by rewrite elem_of_filter; intros [_ ?].
      * intros u. rewrite elem_of_filter, elem_of_union, elem_of_singleton.
        intros [N Hu] [E|D]; [done|]. exact (i_live _ I u Hu D).
    + intros u Hu. apply elem_of_filter in Hu as [N Hu].
      destruct (P u Hu) as (o & Ho & w0 & R0 & W). exists o. split; [done|]. exists w0.
      split; [|done]. eapply rely_trans; [exact R0|]. apply env_rely; try done; simpl.
      * set_solver.
      * intros v. by rewrite elem_of_filter; intros [_ ?].
Qed.

Lemma covered_run ls c c' :
  along fs pid_of calm ls c → Forall reads_succeed ls → run fs pid_of ls c = Some c' →
  covered c → covered c'.
Proof.
  revert c. induction ls as [|l ls IH]; intros c; simpl.
  - intros _ _ [= ->]. done.
  - intros [Hc Ha] Hf Hr Hcov. apply Forall_cons in Hf as [Hl Hf]. unfold run in Hr. simpl in Hr.
    destruct (step fs pid_of l c) as [c1|] eqn:E; simpl in Hr.
    + apply (IH c1); [done|done|done|]. eapply covered_step; eauto.
    + exfalso. clear -Hr. induction ls; simpl in Hr; done.
Qed.

Lemma inv_exclusive w t u :
  inv w → t ∈ inside w → t ∈ live w → u ∈ inside w → u ∈ live w → t = u.
Proof.
  intros I Ht Lt Hu Lu.
  destruct (i_inside _ I t Ht Lt) as (f & x & [A B] & C).
  destruct (i_inside _ I u Hu Lu) as (g & y & [D E] & F). congruence.
Qed.

End Logic.

#[global] Arguments rg : simpl never.
