(* ===== verification/LockCalls.v ===== *)
(** The calls in the logic of [LockLogic]: what a thread has to know to make a
    call, and what it knows afterwards. *)

From stdpp Require Import base strings list sets gmap.
From Stdlib Require Import ZArith Lia.
From S2P Require Import Prelude PyFloat PyValue FileLock LockWorld LockLogic.

Open Scope Z_scope.

Section Calls.
Context (fs : filesystem) (sha256_hexdigest : string → string).
Context (pid_of : nat → Z) (token_of : nat → string) (lock : string) (t : nat).

Notation claim_at := (_effect_mutation_claim_path sha256_hexdigest lock).
Notation guar := (guar sha256_hexdigest lock t).
Notation rely := (rely sha256_hexdigest lock t).
Notation base := (base pid_of token_of lock).
Notation inv := (inv pid_of token_of lock).
Notation good := (good pid_of token_of lock t).
Notation rg := (rg fs sha256_hexdigest pid_of token_of lock t).
Notation tracked := (tracked lock).
Notation settled := (settled lock t).
Notation quiet := (quiet lock t).
Notation budget := (budget lock).

(** * Facts that last *)

(** The file no longer has the name. *)
Definition gone (p : string) (f : nat) (w : world) : Prop :=
  is_Some (inodes w !! f) ∧ dir w !! p ≠ Some f.

(** The only file of the thread without a record is [f]. *)
Definition pending (f : nat) (w : world) : Prop :=
  ∀ p g x, tracked p → linked w p g x → creator x = Some t → owner_in x = None → g = f.

Lemma rely_is_some w w' f : rely w w' → is_Some (inodes w !! f) → is_Some (inodes w' !! f).
Proof. intros R [x H]. destruct (r_old _ _ _ _ _ R f x H) as (x' & H' & _). eauto. Qed.

Lemma gone_rely p f w w' : tracked p → gone p f w → rely w w' → gone p f w'.
Proof.
  intros T [A B] R. split; [by eapply rely_is_some|]. intros H. apply B.
  exact (r_names _ _ _ _ _ R p f T A H).
Qed.

Lemma gone_guar p f w w' : tracked p → gone p f w → guar w w' → gone p f w'.
Proof.
  intros T [[x A] B] G. destruct (g_old _ _ _ _ _ G f x A) as (x' & A' & _).
  split; [by exists x'|]. intros H. destruct (g_names _ _ _ _ _ G p f T H); congruence.
Qed.

(** The thread's own files change only by its own calls. *)
Lemma rely_own w w' p f x :
  rely w w' → tracked p → linked w' p f x → creator x = Some t → linked w p f x.
Proof.
  intros R T [A B] C. destruct (inodes w !! f) as [y|] eqn:E.
  - destruct (r_old _ _ _ _ _ R f y E) as (y' & H & D & F).
    assert (y' = y) as -> by (destruct F as [?|(N & _)]; [done|congruence]).
    split; [|congruence]. apply (r_names _ _ _ _ _ R p f T); eauto.
  - by destruct (r_new _ _ _ _ _ R f x B E).
Qed.

Lemma rely_keeps w w' p f x :
  rely w w' → tracked p → linked w p f x → creator x = Some t → linked w' p f x.
Proof.
  intros R T [A B] C. split.
  - exact (r_mine _ _ _ _ _ R p f x T (conj A B) C).
  - by eapply rely_mine.
Qed.

Lemma settled_rely w w' : settled w → rely w w' → settled w'.
Proof. intros Q R p f x T H C. eapply Q; eauto using rely_own. Qed.

Lemma outside_rely w w' : t ∉ inside w → rely w w' → t ∉ inside w'.
Proof. intros N R. by rewrite (r_inside _ _ _ _ _ R). Qed.

Lemma quiet_rely w w' : quiet w → rely w w' → quiet w'.
Proof. intros [Q N] R. split; [by eapply settled_rely|by eapply outside_rely]. Qed.

Lemma budget_rely k w w' : budget k t w → rely w w' → budget k t w'.
Proof.
  intros B R p f x T H C O. rewrite (r_awake _ _ _ _ _ R). eapply B; eauto using rely_own.
Qed.

Lemma pending_rely f w w' : pending f w → rely w w' → pending f w'.
Proof. intros Q R p g x T H C. eapply Q; eauto using rely_own. Qed.

Lemma settled_budget k w : settled w → budget k t w.
Proof. intros Q p f x T H C O. by destruct (Q p f x T H C). Qed.

(** * The invariant after a call *)

Definition wake {R} (o : op R) (w : world) : world :=
  set_awake (if rests o then delete t (awake w) else <[t := clock w]> (awake w)) w.

Lemma exec_wake {R} (o : op R) ch w :
  exec fs t o ch w = ((exec_op fs t o ch w).1, wake o (exec_op fs t o ch w).2).
Proof. unfold exec. by destruct (exec_op fs t o ch w). Qed.

Lemma guar_wake {R} (o : op R) w w' : guar w w' → awake w' = awake w → guar w (wake o w').
Proof.
  intros G A. destruct G. constructor; try done. intros u N. simpl. rewrite A.
  destruct (rests o); by rewrite ?lookup_delete_ne, ?lookup_insert_ne.
Qed.

Lemma base_wake {R} (o : op R) w : base w → base (wake o w).
Proof. intros B. destruct B. constructor; done. Qed.

Lemma inv_call w w' : inv w → t ∈ live w → guar w w' → base w' → budget 4 t w' → inv w'.
Proof.
  intros I L G B T. constructor; [done|]. intros u Hu.
  destruct (decide (u = t)) as [->|N]; [done|]. intros p f x Tp [A H] C O.
  rewrite (g_awake _ _ _ _ _ G u N). rewrite (g_live _ _ _ _ _ G) in Hu.
  destruct (inodes w !! f) as [y|] eqn:E.
  - destruct (g_old _ _ _ _ _ G f y E) as (y' & H' & D & F).
    assert (y' = y) as -> by (destruct F as [?|(M & _)]; [done|congruence]).
    destruct (g_names _ _ _ _ _ G p f Tp A) as [A'|?]; [|congruence].
    eapply (i_time _ _ _ _ I u Hu p f x Tp); [split|..]; congruence.
  - rewrite (g_new _ _ _ _ _ G f x H E) in C. congruence.
Qed.

Lemma guar_refl w : guar w w.
Proof.
  constructor; try done.
  - intros f x H. exists x. auto.
  - congruence.
  - by left.
  - intros p f x _ [H _]. by left.
Qed.

(** * Calls that change no file *)

Definition looks {R} (o : op R) : bool :=
  match o with
  | OpenExcl _ | WriteRecord _ _ | Unlink _ | Replace _ _ | Enter | Leave => false
  | _ => true
  end.

Lemma looks_exec {R} (o : op R) ch w : looks o = true → (exec_op fs t o ch w).2 = w.
Proof. by destruct o. Qed.

Lemma rg_look {A R} (o : op R) (k : R → prog A) Q w :
  looks o = true →
  (∀ w1, rely w w1 → good w1 →
     budget 4 t (wake o w1) ∧
     ∀ ch, ch_read_fail ch = false → rg (k (exec_op fs t o ch w1).1) Q (wake o w1)) →
  rg (Call o k) Q w.
Proof.
  intros L H w1 R1 G1 ch Hc. rewrite exec_wake. simpl. rewrite looks_exec by done.
  destruct (H w1 R1 G1) as [B K].
  assert (guar w1 (wake o w1)) as G by (apply guar_wake; [apply guar_refl|done]).
  split; [done|]. split; [|by apply K].
  eapply inv_call; [apply G1|apply G1|done| |done]. apply base_wake, G1.
Qed.

Lemma wake_budget {R} (o : op R) k w :
  rests o = false → brisk w → t ∈ live w → budget k t w → budget (k + 1) t (wake o w).
Proof.
  intros Hr HB HL B p f x T H C O. simpl. rewrite Hr, lookup_insert_eq. eexists; split; [done|].
  destruct (B p f x T H C O) as (l & E & ?). pose proof (HB t l E HL). simpl in *. lia.
Qed.

Lemma rg_look_quiet {A R} (o : op R) (k : R → prog A) Q w :
  looks o = true → quiet w →
  (∀ w1 ch, rely w w1 → good w1 → quiet (wake o w1) → ch_read_fail ch = false →
     rg (k (exec_op fs t o ch w1).1) Q (wake o w1)) →
  rg (Call o k) Q w.
Proof.
  intros L HQ H. apply rg_look; [done|]. intros w1 Rw G.
  assert (quiet (wake o w1)) as HQ' by exact (quiet_rely _ _ HQ Rw).
  split; [by apply settled_budget, HQ'|]. intros ch Hc. by apply H.
Qed.

Lemma rg_look_budget {A R} (o : op R) (k : R → prog A) Q w n :
  looks o = true → rests o = false → n ≤ 3 → budget n t w →
  (∀ w1 ch, rely w w1 → good w1 → budget (n + 1) t (wake o w1) → ch_read_fail ch = false →
     rg (k (exec_op fs t o ch w1).1) Q (wake o w1)) →
  rg (Call o k) Q w.
Proof.
  intros L Hr Hn HB H. apply rg_look; [done|]. intros w1 Rw G.
  assert (budget (n + 1) t (wake o w1)).
  { apply wake_budget; [done|apply G|apply G|by eapply budget_rely]. }
  split; [|by intros; apply H]. intros p f x T Hl C O.
  match goal with B : budget (n + 1) _ _ |- _ => destruct (B p f x T Hl C O) as (l & E & ?) end.
  exists l. split; [done|]. assert (0 < PAUSE) by done. nia.
Qed.

(** * Creating a file *)

(** The thread has created [f] at [p] and not yet written its record. *)
Definition newborn (p : string) (f : nat) (w : world) : Prop :=
  (∃ m, linked w p f (File NotJson m (Some t))) ∧ pending f w ∧ t ∉ inside w ∧
  (p ≠ lock → gone lock f w).

Lemma newborn_rely p f w w' : tracked p → newborn p f w → rely w w' → newborn p f w'.
Proof.
  intros T ([m H] & P & O & N) R. split; [|split; [|split]].
  - exists m. eapply rely_keeps; eauto.
  - by eapply pending_rely.
  - by eapply outside_rely.
  - intros Hp. eapply gone_rely; [apply lock_tracked|by apply N|done].
Qed.

Lemma create_linked p w q f x :
  base w → linked (create p t w) q f x →
  (q = p ∧ f = next w ∧ x = File NotJson (clock w) (Some t)) ∨ (linked w q f x ∧ f ≠ next w).
Proof.
  intros B [A H]. simpl in *. destruct (decide (q = p)) as [->|N].
  - rewrite lookup_insert_eq in A. simplify_eq. rewrite lookup_insert_eq in H. simplify_eq. by left.
  - rewrite lookup_insert_ne in A by done. right.
    assert (f ≠ next w) as F.
    { intros ->. destruct (i_linked _ _ _ _ B q _ A) as [y E].
      rewrite (i_fresh _ _ _ _ B) in E; [done|lia]. }
    split; [|done]. split; [done|]. by rewrite lookup_insert_ne in H.
Qed.

Lemma create_old p w f x : base w → inodes w !! f = Some x → inodes (create p t w) !! f = Some x.
Proof.
  intros B H. simpl. rewrite lookup_insert_ne; [done|]. intros <-.
  rewrite (i_fresh _ _ _ _ B) in H; [done|lia].
Qed.

Lemma guar_create p w : base w → dir w !! p = None → guar w (create p t w).
Proof.
  intros B E. constructor; try done.
  - intros f x H. exists x. split; [by apply create_old|auto].
  - simpl. intros f x H N. destruct (decide (f = next w)) as [->|?].
    + rewrite lookup_insert_eq in H. by simplify_eq.
    + rewrite lookup_insert_ne in H by done. congruence.
  - simpl. intros q f T H. destruct (decide (q = p)) as [->|N].
    + rewrite lookup_insert_eq in H. simplify_eq. right. apply (i_fresh _ _ _ _ B). lia.
    + rewrite lookup_insert_ne in H by done. by left.
  - intros q f x T [H _]. left. simpl. rewrite lookup_insert_ne; [done|]. intros ->. congruence.
Qed.

Lemma base_create p w : base w → dir w !! p = None → base (create p t w).
Proof.
  intros B E. constructor; simpl.
  - intros f Hf. rewrite lookup_insert_ne by lia. apply (i_fresh _ _ _ _ B). lia.
  - intros q f H. destruct (decide (f = next w)) as [->|N]; [rewrite lookup_insert_eq; eauto|].
    rewrite lookup_insert_ne by done. destruct (decide (q = p)) as [->|M].
    + rewrite lookup_insert_eq in H. congruence.
    + rewrite lookup_insert_ne in H by done. exact (i_linked _ _ _ _ B q f H).
  - intros f x u o H. destruct (decide (f = next w)) as [->|N].
    + rewrite lookup_insert_eq in H. by simplify_eq.
    + rewrite lookup_insert_ne in H by done. by apply (i_truth _ _ _ _ B f).
  - apply (i_tokens _ _ _ _ B).
  - intros f x o u Hu H. destruct (create_linked p w lock f x B H) as [(_ & _ & ->)|[H' _]]; [done|].
    by apply (i_lock _ _ _ _ B f).
  - apply (i_live _ _ _ _ B).
  - intros u Hu Hl. destruct (i_inside _ _ _ _ B u Hu Hl) as (f & x & [H1 H2] & C).
    exists f, x. split; [|done]. split; [|by apply create_old]. simpl.
    rewrite lookup_insert_ne; [done|]. intros ->. congruence.
Qed.

Lemma newborn_create p w :
  base w → quiet w → dir w !! p = None → newborn p (next w) (create p t w).
Proof.
  intros B [S O] E. split; [|split; [|split]].
  - exists (clock w). split; simpl; by rewrite lookup_insert_eq.
  - intros q f x T H C N. destruct (create_linked p w q f x B H) as [(_ & -> & _)|[H' _]]; [done|].
    by destruct (S q f x T H' C).
  - done.
  - intros Hp. split; [simpl; rewrite lookup_insert_eq; eauto|]. simpl.
    rewrite lookup_insert_ne by done. intros H. destruct (i_linked _ _ _ _ B lock _ H) as [y F].
    rewrite (i_fresh _ _ _ _ B) in F; [done|lia].
Qed.

Lemma rg_open {A} p (k : open_result → prog A) Q w :
  quiet w → tracked p →
  (∀ w1, quiet w1 → rg (k OpenError) Q w1) →
  (∀ w1, quiet w1 → rg (k FileExists) Q w1) →
  (∀ f w1, newborn p f w1 → budget 0 t w1 → rg (k (Opened f)) Q w1) →
  rg (Call (OpenExcl p) k) Q w.
Proof.
  intros HQ T KE KX KO w1 Rw G ch Hc. rewrite exec_wake. simpl.
  pose proof (quiet_rely _ _ HQ Rw) as HQ1.
  assert (∀ o : op open_result, guar w1 (wake o w1) ∧ (rests o = false → inv (wake o w1))) as Same.
  { intros o. split; [apply guar_wake; [apply guar_refl|done]|]. intros _.
    eapply inv_call; [apply G|apply G| | |]; [|apply base_wake, G|by apply settled_budget, HQ1].
    apply guar_wake; [apply guar_refl|done]. }
  destruct (ch_fail ch); simpl; [destruct (Same (OpenExcl p)); split; auto|].
  destruct (dir w1 !! p) eqn:E; simpl; [destruct (Same (OpenExcl p)); split; auto|].
  assert (base w1) as B by apply G.
  assert (guar w1 (wake (OpenExcl p) (create p t w1))) as G1 by (apply guar_wake; [by apply guar_create|done]).
  pose proof (newborn_create p w1 B HQ1 E) as NB.
  assert (budget 0 t (wake (OpenExcl p) (create p t w1))) as BU.
  { intros q f x Tq H C N. simpl. rewrite lookup_insert_eq. eexists; split; [done|].
    destruct (create_linked p w1 q f x B H) as [(_ & _ & ->)|[H' _]]; [simpl; lia|].
    by destruct HQ1 as [S _]; destruct (S q f x Tq H' C). }
  split; [done|]. split; [|apply KO; done].
  eapply inv_call; [apply G|apply G|done|by apply base_wake, base_create|].
  intros q f x Tq H C N. destruct (BU q f x Tq H C N) as (l & ? & ?). exists l. split; [done|].
  assert (0 < PAUSE) by done. lia.
Qed.

(** * Writing the record *)

(** The thread's file [f] at [p] has a record with its pid and [token]. *)
Definition published (p : string) (f : nat) (token : string) (w : world) : Prop :=
  ∃ x, linked w p f x ∧ creator x = Some t ∧
       owner_in x = Some {| owner_pid := pid_of t; owner_token := token |}.

Lemma published_rely p f token w w' :
  tracked p → published p f token w → rely w w' → published p f token w'.
Proof. intros T (x & H & C & O) R. exists x. split; [by eapply rely_keeps|done]. Qed.

Lemma set_file_linked f y w p g x :
  linked (set_file f y w) p g x → (g = f ∧ x = y ∧ dir w !! p = Some f) ∨ (g ≠ f ∧ linked w p g x).
Proof.
  intros [A H]. simpl in *. destruct (decide (g = f)) as [->|N].
  - rewrite lookup_insert_eq in H. simplify_eq. by left.
  - rewrite lookup_insert_ne in H by done. by right.
Qed.

Section write.
Context (p : string) (f : nat) (v : pyval) (token : string).
Hypothesis (Hv : owner_of_json v = Some {| owner_pid := pid_of t; owner_token := token |}).
Hypothesis (Hlock : p = lock → token = token_of t).
Hypothesis (Hp : tracked p).

Notation written w := (set_file f (File (Parsed v) (clock w) (Some t)) w).

Lemma guar_write m w : linked w p f (File NotJson m (Some t)) → guar w (written w).
Proof.
  intros [A B]. constructor; try done; simpl.
  - intros g x H. destruct (decide (g = f)) as [->|N].
    + rewrite lookup_insert_eq. eexists; split; [done|]. simplify_eq. auto.
    + rewrite lookup_insert_ne by done. exists x. auto.
  - intros g x H N. rewrite lookup_insert_ne in H; congruence.
  - by left.
  - intros q g x T [H _]. by left.
Qed.

Lemma base_write w : t ∈ live w → newborn p f w → base w → base (written w).
Proof.
  intros Hl ([m' [A B0]] & _ & _ & NL) B. constructor; simpl.
  - intros g Hg. rewrite lookup_insert_ne; [by apply (i_fresh _ _ _ _ B)|]. intros <-.
    rewrite (i_fresh _ _ _ _ B) in B0; done.
  - intros q g H. destruct (decide (g = f)) as [->|N]; [rewrite lookup_insert_eq; eauto|].
    rewrite lookup_insert_ne by done. exact (i_linked _ _ _ _ B q g H).
  - intros g x u o H C O. destruct (decide (g = f)) as [->|N].
    + rewrite lookup_insert_eq in H. simplify_eq. unfold owner_in in O. simpl in *. rewrite Hv in O. by simplify_eq/=.
    + rewrite lookup_insert_ne in H by done. by apply (i_truth _ _ _ _ B g x).
  - apply (i_tokens _ _ _ _ B).
  - intros g x o u Hu H O E. destruct (set_file_linked _ _ _ _ _ _ H) as [(-> & -> & D)|[_ H']].
    + simpl. unfold owner_in in O. simpl in O. rewrite Hv in O. simplify_eq. simpl in E.
      destruct (decide (p = lock)) as [->|Np]; [|by destruct (NL Np)].
      rewrite Hlock in E by done. apply (i_tokens _ _ _ _ B) in E; by subst.
    + by apply (i_lock _ _ _ _ B g x o).
  - apply (i_live _ _ _ _ B).
  - intros u Hu Hw. destruct (i_inside _ _ _ _ B u Hu Hw) as (g & x & [H1 H2] & C).
    destruct (decide (g = f)) as [->|N].
    + eexists f, _. split; [split; [done|simpl; by rewrite lookup_insert_eq]|]. by simplify_eq/=.
    + exists g, x. split; [|done]. split; [done|]. simpl. by rewrite lookup_insert_ne.
Qed.

Lemma quiet_write w : newborn p f w → quiet (written w).
Proof.
  intros (_ & P & O & _). split; [|done]. intros q g x T H C E.
  destruct (set_file_linked _ _ _ _ _ _ H) as [(-> & -> & D)|[N H']].
  - unfold owner_in in E. simpl in E. congruence.
  - by destruct (N (P q g x T H' C E)).
Qed.

Lemma rg_write {A} (k : bool → prog A) Q w :
  newborn p f w → budget 1 t w →
  (∀ w1 ok, published p f token w1 → quiet w1 → rg (k ok) Q w1) →
  (∀ w1, newborn p f w1 → budget 2 t w1 → rg (k false) Q w1) →
  rg (Call (WriteRecord f v) k) Q w.
Proof.
  intros NB BU KP KN w1 Rw G ch Hc. rewrite exec_wake. simpl. unfold exec_write.
  pose proof (newborn_rely p f w w1 Hp NB Rw) as NB1.
  pose proof (budget_rely 1 w w1 BU Rw) as BU1.
  destruct NB1 as ([m1 L1] & NB2).
  assert (newborn p f w1) as NB1 by (split; [by exists m1|done]).
  rewrite (proj2 L1). simpl. destruct (ch_fail ch && negb (ch_written ch)) eqn:E; simpl.
  - assert (budget 2 t (wake (WriteRecord f v) w1)) as B2.
    { apply (wake_budget (WriteRecord f v) 1); [done|apply G|apply G|done]. }
    assert (guar w1 (wake (WriteRecord f v) w1)) as Gw by (apply guar_wake; [apply guar_refl|done]).
    split; [done|]. split; [|by apply KN].
    eapply inv_call; [apply G|apply G|done|apply base_wake, G|].
    intros q g x T H C O. destruct (B2 q g x T H C O) as (l & ? & ?). exists l. split; [done|].
    assert (0 < PAUSE) by done. lia.
  - pose proof (quiet_write w1 NB1) as Q1.
    assert (guar w1 (wake (WriteRecord f v) (written w1))) as G1.
    { apply guar_wake; [by eapply guar_write|done]. }
    split; [done|]. split.
    + eapply inv_call; [apply G|apply G|done| |by apply settled_budget, Q1].
      apply base_wake, base_write; [apply G|done|apply G].
    + apply KP; [|done]. eexists. split; [split; [apply L1|simpl; by rewrite lookup_insert_eq]|]. done.
Qed.
End write.

(** * Removing a name *)

Definition removable (p : string) (w : world) : Prop :=
  ∀ f x, linked w p f x → tracked p →
  (creator x = Some t ∧ t ∉ inside w) ∨
  (p = lock ∧ condemned w x ∧ ∃ c y, linked w (claim_at (key x)) c y ∧ creator y = Some t).

(** The directory [d] is that of [w] without [p], up to names that are not
    tracked. *)
Definition dropped (p : string) (w : world) (d : gmap string nat) : Prop :=
  (∀ q, tracked q → d !! q = if decide (q = p) then None else dir w !! q) ∧
  (∀ q f, d !! q = Some f → ∃ q', dir w !! q' = Some f).

Lemma dropped_delete p w : dropped p w (delete p (dir w)).
Proof.
  split.
  - intros q _. case_decide as E; [subst; by rewrite lookup_delete_eq|by rewrite lookup_delete_ne].
  - intros q f H. apply lookup_delete_Some in H as [_ H]. eauto.
Qed.

Lemma dropped_rename p q f w :
  ¬ tracked q → dir w !! p = Some f → dropped p w (<[q := f]> (delete p (dir w))).
Proof.
  intros N H. split.
  - intros r T. rewrite lookup_insert_ne by (by intros ->).
    case_decide as E; [subst; by rewrite lookup_delete_eq|by rewrite lookup_delete_ne].
  - intros r g Hr. destruct (decide (r = q)) as [->|?].
    + rewrite lookup_insert_eq in Hr. simplify_eq. eauto.
    + rewrite lookup_insert_ne in Hr by done. apply lookup_delete_Some in Hr as [_ Hr]. eauto.
Qed.

Lemma dropped_linked p w d q f x :
  dropped p w d → tracked q → linked (set_dir d w) q f x → linked w q f x.
Proof. intros [D _] T [A H]. simpl in *. rewrite D in A by done. case_decide; [done|]. by split. Qed.

Lemma guar_drop p w d : dropped p w d → removable p w → guar w (set_dir d w).
Proof.
  intros D Rm. constructor; try done; simpl.
  - intros f x H. exists x. auto.
  - congruence.
  - intros q f T H. destruct D as [D _]. rewrite D in H by done. case_decide; [done|]. by left.
  - intros q f x T H. destruct D as [D _]. rewrite D by done. case_decide as E; [|left; apply H].
    subst. right. destruct (Rm f x H T) as [[? _]|?]; auto.
Qed.

Lemma base_drop p w d : dropped p w d → removable p w → base w → base (set_dir d w).
Proof.
  intros D Rm B. constructor; simpl; try apply B.
  - intros q f H. destruct D as [_ D]. destruct (D q f H) as [q' H']. exact (i_linked _ _ _ _ B q' f H').
  - intros f x o u Hu H. eapply (i_lock _ _ _ _ B); [done|]. eapply dropped_linked; eauto using lock_tracked.
  - intros u Hu Hl. destruct (i_inside _ _ _ _ B u Hu Hl) as (f & x & H & C).
    exists f, x. split; [|done]. split; [|apply H]. simpl. destruct D as [D _].
    rewrite D by apply lock_tracked. case_decide as E; [|apply H]. subst.
    destruct (Rm f x H (lock_tracked lock)) as [[C' O]|(_ & C' & _)].
    + rewrite C in C'. simplify_eq. by destruct (O Hu).
    + by destruct (C' u C).
Qed.

Lemma settled_drop p w d : dropped p w d → settled w → settled (set_dir d w).
Proof. intros D S q f x T H. eapply S, dropped_linked; eauto. Qed.

Lemma budget_drop n p w d : dropped p w d → budget n t w → budget n t (set_dir d w).
Proof. intros D S q f x T H. eapply S, dropped_linked; eauto. Qed.

(** A call that may drop the name [p], in states that allow it. *)
Lemma rg_drop {A R} (o : op R) p (k : R → prog A) Q w n :
  rests o = false → n ≤ 3 → budget n t w →
  (∀ w1, rely w w1 → good w1 → removable p w1) →
  (∀ ch w1, (exec_op fs t o ch w1).2 = w1 ∨
     ∃ d, dropped p w1 d ∧ (exec_op fs t o ch w1).2 = set_dir d w1) →
  (∀ w1 w2 ch, rely w w1 → good w1 → budget (n + 1) t w2 → (quiet w → quiet w2) →
     w2 = wake o (exec_op fs t o ch w1).2 → rg (k (exec_op fs t o ch w1).1) Q w2) →
  rg (Call o k) Q w.
Proof.
  intros Hr Hn BU Rm Ex K w1 Rw G ch Hc. rewrite exec_wake. simpl.
  pose proof (budget_rely n w w1 BU Rw) as BU1.
  pose proof (wake_budget o n w1 Hr (good_brisk _ _ _ _ _ G) (good_live _ _ _ _ _ G) BU1) as BU2.
  assert (∃ d, (exec_op fs t o ch w1).2 = set_dir d w1 ∧ guar w1 (set_dir d w1) ∧ base (set_dir d w1) ∧
    budget (n + 1) t (wake o (set_dir d w1)) ∧ (quiet w → quiet (set_dir d w1))) as (d & E & Gd & Bd & Ud & Qd).
  { destruct (Ex ch w1) as [E|(d & D & E)].
    - exists (dir w1). replace (set_dir (dir w1) w1) with w1 by (by destruct w1).
      split; [done|]. split; [apply guar_refl|]. split; [apply G|]. split; [done|].
      intros HQ. by eapply quiet_rely.
    - exists d. split; [done|]. specialize (Rm w1 Rw G). split; [by eapply guar_drop|].
      split; [eapply base_drop; eauto; apply G|]. split.
      + exact (budget_drop (n + 1) p (wake o w1) d D BU2).
      + intros HQ. destruct (quiet_rely _ _ HQ Rw) as [S O]. split; [by eapply settled_drop|done]. }
  specialize (K w1 (wake o (exec_op fs t o ch w1).2) ch Rw G). rewrite E in *.
  assert (guar w1 (wake o (set_dir d w1))) as Gw by (apply guar_wake; done).
  split; [done|]. split; [|by apply K].
  eapply inv_call; [apply G|apply G|done|by apply base_wake|].
  intros q f x T H C O. destruct (Ud q f x T H C O) as (l & ? & ?). exists l. split; [done|].
  assert (0 < PAUSE) by done. nia.
Qed.

(** * Entering and leaving *)

Lemma rg_enter {A} (k : unit → prog A) Q w f token :
  published lock f token w → settled w →
  (∀ w1, published lock f token w1 → settled w1 → rg (k tt) Q w1) →
  rg (Call Enter k) Q w.
Proof.
  intros P S K w1 Rw G ch Hc. rewrite exec_wake. simpl.
  pose proof (published_rely lock f token w w1 (lock_tracked lock) P Rw) as P1.
  pose proof (settled_rely w w1 S Rw) as S1.
  set (w2 := set_inside ({[t]} ∪ inside w1) w1).
  assert (guar w1 (wake Enter w2)) as G2.
  { apply guar_wake; [|done]. destruct (guar_refl w1). constructor; try done. simpl. set_solver. }
  split; [done|]. split; [|by apply K].
  eapply inv_call; [apply G|apply G|done| |by apply settled_budget].
  apply base_wake. destruct (good_inv _ _ _ _ _ G) as [B _]. destruct B. constructor; try done.
  simpl. intros u Hu Hl. apply elem_of_union in Hu as [Hu|Hu]; [|eauto].
  apply elem_of_singleton in Hu as ->. destruct P1 as (x & H & C & _). eauto.
Qed.

Lemma rg_leave {A} (k : unit → prog A) Q w f token :
  published lock f token w → settled w →
  (∀ w1, published lock f token w1 → quiet w1 → rg (k tt) Q w1) →
  rg (Call Leave k) Q w.
Proof.
  intros P S K w1 Rw G ch Hc. rewrite exec_wake. simpl.
  pose proof (published_rely lock f token w w1 (lock_tracked lock) P Rw) as P1.
  pose proof (settled_rely w w1 S Rw) as S1.
  set (w2 := set_inside (inside w1 ∖ {[t]}) w1).
  assert (guar w1 (wake Leave w2)) as G2.
  { apply guar_wake; [|done]. destruct (guar_refl w1). constructor; try done. simpl. set_solver. }
  split; [done|]. split.
  - eapply inv_call; [apply G|apply G|done| |by apply settled_budget].
    apply base_wake. destruct (good_inv _ _ _ _ _ G) as [B _]. destruct B. constructor; try done.
    simpl. intros u Hu Hl. apply elem_of_difference in Hu as [Hu _]. eauto.
  - apply K; [done|]. split; [done|]. simpl. set_solver.
Qed.

End Calls.
