(* ===== verification/LockProtocol.v ===== *)
(** The programs of [FileLock] in the logic of [LockLogic]: what each function
    finds out about the files it looks at, and that no thread removes a file it
    has no right to. *)

From stdpp Require Import base strings list sets gmap.
From Stdlib Require Import ZArith Lia.
From S2P Require Import Prelude PyFloat PyValue FileLock LockWorld LockLogic LockCalls.

Open Scope Z_scope.

Lemma app_self_nil (a b : string) : a ++ b = a → b = "".
Proof. induction a as [|c a IH]; simpl; [done|]. intros [= E]. by apply IH. Qed.

(** The identity of a file differs from that of every other file. *)
Definition replacement_resistant (fs : filesystem) : Prop :=
  ∀ f g x y, _same_effect_file_identity (Some (ident fs f x)) (Some (ident fs g y)) = true → f = g.

Section Protocol.
Context (fs : filesystem) (sha256_hexdigest : string → string).
Context (pid_of : nat → Z) (token_of : nat → string) (lock : string) (t : nat).
Context (Hres : replacement_resistant fs) (Hpid : 0 < pid_of t).
Context (Htok : usable_token (token_of t) = true).

Notation claim_at := (_effect_mutation_claim_path sha256_hexdigest lock).
Notation guar := (guar sha256_hexdigest lock t).
Notation rely := (rely sha256_hexdigest lock t).
Notation inv := (inv pid_of token_of lock).
Notation good := (good pid_of token_of lock t).
Notation rg := (rg fs sha256_hexdigest pid_of token_of lock t).
Notation tracked := (tracked lock).
Notation quiet := (quiet lock t).
Notation budget := (budget lock).
Notation gone := gone.
Notation wake := (wake t).
Notation published := (published pid_of t).

(** * Time passes, and the thread looks *)

Definition later (w w' : world) : Prop := rely w (set_awake (awake w) w').

Lemma later_trans w1 w2 w3 : later w1 w2 → later w2 w3 → later w1 w3.
Proof.
  intros R S. apply (rely_trans _ _ _ _ _ _ R). destruct S. by constructor.
Qed.

Lemma later_wake {R} (o : op R) w w1 : rely w w1 → later w (wake o w1).
Proof. intros Rw. destruct Rw. by constructor. Qed.

Lemma quiet_later w w' : quiet w → later w w' → quiet w'.
Proof. intros Q R. exact (quiet_rely _ _ _ _ _ Q R). Qed.

Lemma gone_later p f w w' : tracked p → gone p f w → later w w' → gone p f w'.
Proof. intros T G R. exact (gone_rely _ _ _ _ _ _ _ T G R). Qed.

Lemma published_later p f token w w' :
  tracked p → published p f token w → later w w' → published p f token w'.
Proof. intros T P R. exact (published_rely _ _ _ _ _ _ _ _ _ T P R). Qed.

Lemma rg_ok {A} (a : A) (Q : res A → world → Prop) w : Q (Ok a) w → rg (mret a) Q w.
Proof. done. Qed.

(** A call that only looks, by a quiet thread. *)
Lemma rg_see {A R} (o : op R) (k : R → prog A) Q w :
  looks o = true → quiet w →
  (∀ w1 ch, later w (wake o w1) → rely w w1 → good w1 → quiet (wake o w1) → ch_read_fail ch = false →
     rg (k (exec_op fs t o ch w1).1) Q (wake o w1)) →
  rg (Call o k) Q w.
Proof.
  intros L HQ H. apply rg_look_quiet; [done|done|]. intros w1 ch Rw G Q1 Hc.
  apply H; auto using later_wake.
Qed.

(** What a program that only looks may do. *)
Definition sees {A} (w : world) (P : res A → world → Prop) (r : res A) (w' : world) : Prop :=
  later w w' ∧ quiet w' ∧ P r w'.

Lemma identity_spec p w :
  quiet w →
  rg (_effect_file_identity p) (sees w (λ r w', ∃ i, r = Ok i ∧
    ∀ j, i = Some j → ∃ f x, linked w' p f x ∧ j = ident fs f x)) w.
Proof.
  intros HQ. apply rg_see; [done|done|]. intros w1 ch Lw Rw G Q1 _. simpl.
  split; [done|]. split; [done|]. eexists; split; [done|].
  destruct (ch_fail ch); [done|]. unfold file_at. simpl. intros j.
  destruct (dir w1 !! p) as [f|] eqn:E; simpl; [|done].
  destruct (inodes w1 !! f) as [x|] eqn:F; simpl; [|done].
  intros [= <-]. exists f, x. split; [by split|done].
Qed.

Lemma read_spec p w :
  quiet w →
  rg (_read_effect_mutation_owner p) (sees w (λ r w', ∀ owner, r = Ok owner →
    awake w' !! t = Some (clock w') ∧ (inv w' ∧ t ∈ live w') ∧
    (∀ f x, linked w' p f x → owner_in x = owner) ∧
    (is_Some owner → ∃ f x, linked w' p f x))) w.
Proof.
  intros HQ. apply rg_see; [done|done|]. intros w1 ch Lw Rw G Q1 Hc. simpl. rewrite Hc.
  assert (inv (wake (Read p) w1)) as I.
  { assert (guar w1 (wake (Read p) w1)) as Gw by (apply guar_wake; [apply guar_refl|done]).
    eapply inv_call; [apply G|apply G|exact Gw|apply base_wake, G|by apply settled_budget, Q1]. }
  set (r := match file_at w1 p with Some (_, x) => content x | None => Missing end).
  assert (∀ owner, match r with Missing | ReadError | NotJson => mret None | NotUtf8 => throw (mk_exn "UnicodeDecodeError" "utf-8")
     | Parsed v => mret (owner_of_json v) end = Ret (Ok owner) →
    (∀ f x, linked (wake (Read p) w1) p f x → owner_in x = owner) ∧
    (is_Some owner → ∃ f x, linked (wake (Read p) w1) p f x)) as E.
  { intros owner. unfold r, file_at. simpl.
    destruct (dir w1 !! p) as [f|] eqn:D; simpl.
    2:{ intros [= <-]. split; [|by intros []]. intros f x [H _]. simpl in H. congruence. }
    destruct (inodes w1 !! f) as [x|] eqn:F; simpl.
    2:{ intros [= <-]. split; [|by intros []]. intros g x [H H']. simpl in *. congruence. }
    intros H. split; [|intros _; exists f, x; by split].
    intros g y [Hg Hy]. simpl in *. simplify_eq. unfold owner_in.
    destruct (content x); unfold mret, prog_ret, throw in H; congruence. }
  destruct r; simpl; (split; [done|]; split; [done|]); intros owner [= <-];
    (split; [apply lookup_insert_eq|]; split; [split; [done|apply G]|]; by apply E).
Qed.

(** * Judging a file *)

(** The file [f] has lost its name [p], or its thread has ended and its record
    is [owner] for good. *)
Definition doomed (p : string) (f : nat) (owner : option owner_record) (w : world) : Prop :=
  gone p f w ∨ ∃ x, inodes w !! f = Some x ∧ owner_in x = owner ∧ condemned w x.

Lemma doomed_rely p f owner w w' : tracked p → doomed p f owner w → rely w w' → doomed p f owner w'.
Proof.
  intros T [G|(x & H & O & C)] R; [left; by eapply gone_rely|right].
  destruct (rely_condemned _ _ _ _ _ _ _ R H C) as [H' C']. eauto.
Qed.

Lemma doomed_later p f owner w w' : tracked p → doomed p f owner w → later w w' → doomed p f owner w'.
Proof. intros T D R. exact (doomed_rely _ _ _ _ _ T D R). Qed.

Lemma doomed_guar p f owner w w' :
  tracked p → doomed p f owner w → good w → guar w w' → doomed p f owner w'.
Proof.
  intros T [G|(x & H & O & C)] Gd Gu; [left; by eapply gone_guar|right].
  destruct (g_old _ _ _ _ _ Gu f x H) as (x' & H' & Cr & [->|(Ct & _)]).
  - exists x. split; [done|]. split; [done|]. intros u Hu. rewrite (g_live _ _ _ _ _ Gu). by apply C.
  - destruct (C t Ct (good_live _ _ _ _ _ Gd)).
Qed.

(** What a reader of the record at [p] knows of the file [f] that was there. *)
Lemma read_file p f owner w :
  is_Some (inodes w !! f) → (∀ g x, linked w p g x → owner_in x = owner) →
  gone p f w ∨ ∃ x, inodes w !! f = Some x ∧ owner_in x = owner.
Proof.
  intros [x Hx] H. destruct (decide (dir w !! p = Some f)) as [E|E].
  - right. exists x. split; [done|]. apply (H f x). by split.
  - left. split; [by exists x|done].
Qed.

Lemma alive_spec o p f w :
  tracked p → quiet w → 0 < owner_pid o →
  (gone p f w ∨ ∃ x, inodes w !! f = Some x ∧ owner_in x = Some o) →
  rg (process_is_alive (PInt (owner_pid o)))
    (sees w (λ r w', r = Ok false → doomed p f (Some o) w')) w.
Proof.
  intros T HQ Hn H. unfold process_is_alive. rewrite (proj2 (Z.leb_gt _ 0)) by done.
  apply rg_see; [done|done|]. intros w1 ch Lw Rw G Q1 _. simpl.
  assert (exec_kill (owner_pid o) ch w1 = NoProcess → doomed p f (Some o) (wake (Kill (owner_pid o)) w1)) as K.
  { unfold exec_kill. destruct (pid_max <? owner_pid o); [done|].
    case_bool_decide as D; [|by destruct (ch_fail ch)].
    destruct (ch_reused ch); [done|]. intros _. destruct H as [H|(x & Hx & Ho)].
    - left. exact (gone_rely _ _ _ _ _ _ _ T H Rw).
    - right. exists x.
      assert (inodes w1 !! f = Some x) as Hx1 by (eapply rely_published; [exact Rw|done|congruence]).
      split; [done|]. split; [done|]. intros u Hu Hl.
      apply (i_live _ _ _ _ (good_inv _ _ _ _ _ G) u Hl).
      by rewrite <- (i_truth _ _ _ _ (good_inv _ _ _ _ _ G) f x u o Hx1 Hu Ho). }
  destruct (exec_kill (owner_pid o) ch w1) eqn:E; simpl; (split; [done|]; split; [done|]); try done.
  intros _. by apply K.
Qed.

Lemma young_spec p f w :
  tracked p → quiet w → awake w !! t = Some (clock w) →
  (gone p f w ∨ ∃ x, inodes w !! f = Some x ∧ owner_in x = None) →
  rg (too_young p) (sees w (λ r w', ∃ b, r = Ok b ∧ (b = false → doomed p f None w'))) w.
Proof.
  intros T HQ Aw H. unfold too_young, catch. apply rg_handle, rg_see; [done|done|].
  intros w1 ch Lw Rw G Q1 _. simpl.
  assert (clock w1 < clock w + PAUSE) as Hb.
  { apply (good_brisk _ _ _ _ _ G t (clock w)); [|apply G]. by rewrite (r_awake _ _ _ _ _ Rw). }
  apply rg_see; [done|done|]. intros w2 ch2 Lw2 Rw2 G2 Q2 _. simpl.
  assert (later w (wake (Stat p) w2)) as L2 by (by eapply later_trans).
  set (s := if ch_fail ch2 then None else _).
  assert (∀ i m, s = Some (i, m) → EFFECT_MUTATION_INVALID_STALE_SECONDS ≤ clock w1 - m →
    doomed p f None (wake (Stat p) w2)) as K.
  { intros i m. unfold s, file_at. destruct (ch_fail ch2); [done|]. simpl.
    destruct (dir w2 !! p) as [g|] eqn:D; simpl; [|done].
    destruct (inodes w2 !! g) as [y|] eqn:E; simpl; [|done]. intros [= <- <-] Hs.
    unfold EFFECT_MUTATION_INVALID_STALE_SECONDS in Hs. unfold PAUSE in Hb.
    pose proof (r_clock _ _ _ _ _ Rw) as C1. pose proof (r_clock _ _ _ _ _ Rw2) as C2. simpl in C2.
    destruct H as [H|(x & Hx & Ho)].
    - left. exact (gone_later _ _ _ _ T H L2).
    - assert (is_Some (inodes w2 !! f)) as Hf.
      { destruct (r_old _ _ _ _ _ L2 f x Hx) as (x' & Hx' & _). simpl in Hx'. eauto. }
      destruct (decide (g = f)) as [->|N].
      2:{ left. split; [done|]. simpl. congruence. }
      right. exists y. destruct (r_old _ _ _ _ _ L2 f x Hx) as (x' & Hx' & Cr & Dx). simpl in Hx'.
      assert (x' = y) as -> by congruence.
      destruct Dx as [->|(_ & _ & Hm & _)]; [|exfalso; lia].
      split; [done|]. split; [done|]. intros u Hu Hl.
      destruct (i_time _ _ _ _ (good_inv _ _ _ _ _ G2) u Hl p f x T) as (l & Al & Bl); [by split|done|done|].
      pose proof (good_brisk _ _ _ _ _ G2 u l Al Hl). simpl in *. unfold PAUSE in *. lia. }
  destruct s as [[i m]|]; simpl; (split; [done|]; split; [done|]); eexists; (split; [done|]); [|done].
  intros Hb'. apply Z.ltb_ge in Hb'. by eapply K.
Qed.

Lemma judge_spec p f owner w :
  tracked p → quiet w → awake w !! t = Some (clock w) →
  (∀ o, owner = Some o → 0 < owner_pid o) →
  (gone p f w ∨ ∃ x, inodes w !! f = Some x ∧ owner_in x = owner) →
  rg (not_abandoned p owner) (sees w (λ r w', r = Ok false → doomed p f owner w')) w.
Proof.
  intros T HQ Aw Hp H. destruct owner as [o|]; simpl.
  - apply alive_spec; auto.
  - eapply rg_mono, young_spec; [|done..].
    intros r w' (L & Q & b & -> & K). split; [done|]. split; [done|]. intros [= ->]. by apply K.
Qed.

Lemma owner_pid_pos x o : owner_in x = Some o → 0 < owner_pid o.
Proof.
  unfold owner_in, owner_of_json. destruct (content x) as [| | | |v]; try done.
  destruct v; try done. destruct (pget "pid" items); try done. destruct (pget "token" items); try done.
  destruct (n <=? 0) eqn:E; simpl; [done|]. destruct (negb _); [done|]. intros [= <-]. simpl.
  apply Z.leb_gt in E. lia.
Qed.

(** Reading a record, with what it says of a file that was seen there. *)
Lemma rg_read {A} p f (k : option owner_record → prog A) Q w :
  tracked p → quiet w → is_Some (inodes w !! f) →
  (∀ owner w', later w w' → quiet w' → inv w' → awake w' !! t = Some (clock w') →
     (∀ g x, linked w' p g x → owner_in x = owner) → (is_Some owner → ∃ g x, linked w' p g x) →
     (gone p f w' ∨ ∃ x, inodes w' !! f = Some x ∧ owner_in x = owner) → rg (k owner) Q w') →
  (∀ e w', later w w' → quiet w' → Q (Err e) w') →
  rg (_read_effect_mutation_owner p ≫= k) Q w.
Proof.
  intros T HQ Hf K E. apply rg_bind. eapply rg_mono, read_spec; [|done].
  intros [owner|e] w' (L & Q' & H); [|by apply E].
  destruct (H owner eq_refl) as (Aw & [I _] & H1 & H2). apply K; try done.
  apply read_file; [|done]. destruct Hf as [x Hx].
  destruct (r_old _ _ _ _ _ L f x Hx) as (x' & Hx' & _). simpl in Hx'. eauto.
Qed.

Lemma rg_judge {A} p f owner (k : bool → prog A) Q w :
  tracked p → quiet w → awake w !! t = Some (clock w) →
  (∀ g x, linked w p g x → owner_in x = owner) → (is_Some owner → ∃ g x, linked w p g x) →
  (gone p f w ∨ ∃ x, inodes w !! f = Some x ∧ owner_in x = owner) →
  (∀ keep w', later w w' → quiet w' → (keep = false → doomed p f owner w') → rg (k keep) Q w') →
  (∀ e w', later w w' → quiet w' → Q (Err e) w') →
  rg (not_abandoned p owner ≫= k) Q w.
Proof.
  intros T HQ Aw H1 H2 H K E. apply rg_bind. eapply rg_mono, judge_spec; [|done..| |done].
  - intros [keep|e] w' (L & Q' & D); [|by apply E]. apply K; [done|done|]. intros ->. by apply D.
  - intros o ->. destruct H2 as (g & x & Hx); [done|]. eapply owner_pid_pos. exact (H1 g x Hx).
Qed.

Lemma rg_identity {A} p (k : option identity → prog A) Q w :
  quiet w →
  (∀ i w', later w w' → quiet w' →
     (∀ j, i = Some j → ∃ f x, linked w' p f x ∧ j = ident fs f x) → rg (k i) Q w') →
  rg (_effect_file_identity p ≫= k) Q w.
Proof.
  intros HQ K. apply rg_bind. eapply rg_mono, identity_spec; [|done].
  intros r w' (L & Q' & i & -> & H). by apply K.
Qed.

(** * Removing files the thread created *)

(** The thread created [f] and its record is written. *)
Definition minted (f : nat) (w : world) : Prop :=
  ∃ x, inodes w !! f = Some x ∧ creator x = Some t ∧ owner_in x ≠ None.

Lemma minted_rely f w w' : minted f w → rely w w' → minted f w'.
Proof. intros (x & H & C & O) R. exists x. split; [by eapply rely_published|done]. Qed.

Lemma minted_guar f w w' : minted f w → guar w w' → minted f w'.
Proof.
  intros (x & H & C & O) G. destruct (g_old _ _ _ _ _ G f x H) as (x' & H' & _ & [->|(_ & ? & _)]); [|done].
  by exists x.
Qed.

(** [_remove_created_effect_file] for a file [f] of the thread removes at most
    that file, and raises nothing. *)
Lemma remove_created_spec n p f x0 y w :
  tracked p → n ≤ 2 → budget n t w → t ∉ inside w →
  inodes w !! f = Some y → creator y = Some t →
  rg (_remove_created_effect_file p (Some (ident fs f x0)))
    (λ r w', r = Ok tt ∧ (quiet w → quiet w')) w.
Proof.
  intros T Hn BU O Hy C. unfold _remove_created_effect_file, catch. apply rg_handle.
  apply rg_look_budget with (n := n); [done|done|lia|done|].
  intros w1 ch Rw G BU1 _. simpl.
  set (s := if ch_fail ch then None else _). set (w1' := wake (Stat p) w1) in *.
  assert (t ∉ inside w1') as O1 by (unfold w1'; simpl; by eapply outside_rely).
  assert (inodes w1' !! f = Some y) as Hy1 by (unfold w1'; simpl; by eapply rely_mine).
  assert (quiet w → quiet w1') as HQ1 by (intros HQ; exact (quiet_rely _ _ _ _ _ HQ Rw)).
  destruct (_same_effect_file_identity _ _) eqn:E; [|by split].
  assert (dir w1' !! p = Some f) as D1.
  { unfold s, file_at in E. destruct (ch_fail ch); [done|]. unfold w1'. simpl in *.
    destruct (dir w1 !! p) as [g|]; simpl in E; [|done].
    destruct (inodes w1 !! g) as [z|]; simpl in E; [|done].
    by apply Hres in E as <-. }
  eapply rg_drop with (p := p) (n := n + 1); [done|lia|done|..].
  - intros w2 Rw2 G2 g z Hl _. left. split; [|by eapply outside_rely].
    assert (linked w2 p f y) as [Hl1 Hl2] by (eapply rely_keeps; [exact Rw2|done|by split|done]).
    destruct Hl as [Hg Hz]. congruence.
  - intros ch2 w2. simpl. destruct (ch_fail ch2); [by left|right].
    eexists. split; [apply dropped_delete|done].
  - intros w2 w3 ch2 Rw2 G2 B3 HQ3 _. simpl.
    destruct (ch_fail ch2); simpl; (split; [done|]); intros HQ; apply HQ3, HQ1, HQ.
Qed.

Lemma remove_minted p f x0 w :
  tracked p → quiet w → minted f w →
  rg (_remove_created_effect_file p (Some (ident fs f x0))) (λ r w', r = Ok tt ∧ quiet w') w.
Proof.
  intros T HQ (x & H & C & O). eapply rg_mono, (remove_created_spec 0 p f x0 x); [|done|done| |apply HQ|done|done].
  - intros r w' [-> K]. auto.
  - by apply settled_budget, HQ.
Qed.

(** * Claims *)

Notation rj := (record_json (pid_of t)).

Lemma record_json_owner token :
  usable_token token = true →
  owner_of_json (rj token) = Some {| owner_pid := pid_of t; owner_token := token |}.
Proof.
  intros U. unfold owner_of_json, record_json. simpl. rewrite U.
  destruct (pid_of t <=? 0) eqn:E; [|done]. apply Z.leb_le in E. lia.
Qed.

(** As no claim outlives its thread, a claim that is in the way stays. *)
Lemma remove_dead_spec p w :
  startswith (lock ++ ".claim.") p = true → quiet w →
  rg (_remove_dead_effect_mutation_claim p) (λ r w', quiet w' ∧ r ≠ Ok true) w.
Proof.
  intros Hp HQ. assert (tracked p) as T by (by right).
  apply rg_identity; [done|]. intros [i|] w1 L1 Q1 H1; [|by split].
  destruct (H1 i eq_refl) as (f & x0 & [D0 F0] & ->).
  apply (rg_read p f); [done|done|by eexists| |by split].
  intros owner w2 L2 Q2 _ Aw Hr Hs Hf.
  apply (rg_judge p f owner); try done.
  intros [|] w3 L3 Q3 D; [by split|].
  specialize (D eq_refl). unfold _effect_file_identity, call. apply rg_bind, rg_bind.
  apply rg_see; [done|done|]. intros w4 ch L4 Rw4 G4 Q4 _. apply rg_ok. simpl. apply rg_ok. simpl.
  set (s := if ch_fail ch then None else _).
  assert (_same_effect_file_identity (Some (ident fs f x0)) (option_map fst s) = false) as ->.
  2: by split.
  apply not_true_iff_false. intros E. unfold s, file_at in E. destruct (ch_fail ch); [done|].
  destruct (dir w4 !! p) as [g|] eqn:Dg; simpl in E; [|done].
  destruct (inodes w4 !! g) as [z|] eqn:Fg; simpl in E; [|done]. apply Hres in E as <-.
  destruct (doomed_rely _ _ _ _ _ T D Rw4) as [[_ N]|(x & Hx & _ & C)]; [done|].
  pose proof (good_claims _ _ _ _ _ G4 p f Dg Hp) as A. unfold by_live_thread in A. rewrite Hx in A. simpl in A.
  destruct (creator x) as [u|] eqn:Cr; [|done]. apply bool_decide_eq_true in A. by apply (C u).
Qed.

Lemma claim_not_lock token : claim_at token ≠ lock.
Proof.
  unfold _effect_mutation_claim_path. intros E. by apply app_self_nil in E.
Qed.

(** A claim object that the thread has taken with the file [f]. *)
Definition held (c : _EffectMutationClaim) (token : string) (f : nat) : Prop :=
  claim_path c = claim_at token ∧ ∃ y, claim_identity c = ident fs f y.

(** Writing the record of a new file, or giving the file up. *)
Lemma publish_spec p f x0 token w :
  tracked p → usable_token token = true → (p = lock → token = token_of t) →
  newborn lock t p f w → budget 1 t w →
  rg (on_error (write_record f (rj token)) (_remove_created_effect_file p (Some (ident fs f x0))))
    (λ r w', r = Ok tt → published p f token w' ∧ quiet w') w.
Proof.
  intros T U HL NB BU. unfold on_error, write_record. apply rg_handle, rg_bind.
  eapply rg_write; try done.
  - by apply record_json_owner.
  - intros w1 [] P Q; [done|]. simpl. destruct P as (x & Hx & C & O).
    apply rg_bind. eapply rg_mono, (remove_created_spec 0 p f x0 x); [by intros [[]|e] w' [? _]|done|done| |apply Q|apply Hx|done].
    by apply settled_budget, Q.
  - intros w1 ([m Hm] & _ & O & _) B1. simpl.
    apply rg_bind. eapply rg_mono, (remove_created_spec 2 p f x0 (File NotJson m (Some t)));
      [by intros [[]|e] w' [? _]|done|done|done|done|apply Hm|done].
Qed.

Lemma claim_attempt_spec token f w :
  usable_token token = true → newborn lock t (claim_at token) f w → budget 0 t w →
  rg (_claim_attempt (pid_of t) (claim_at token) token f)
    (λ r w', ∀ c, r = Ok c → quiet w' ∧ published (claim_at token) f token w' ∧ held c token f) w.
Proof.
  intros U NB BU. unfold _claim_attempt, _effect_file_identity_from_fd, call. apply rg_bind.
  apply rg_look_budget with (n := 0); [done|done|lia|done|]. intros w1 ch Rw G BU1 _. simpl.
  assert (newborn lock t (claim_at token) f w1) as NB1.
  { eapply newborn_rely; [apply claim_tracked|exact NB|exact Rw]. }
  apply rg_bind. eapply rg_mono, publish_spec; [|apply claim_tracked|done| |exact NB1|done].
  - intros [[]|e] w2 H; [|done]. destruct (H eq_refl). intros c [= <-].
    split; [done|]. split; [done|]. split; [done|]. by eexists.
  - intros E. by apply claim_not_lock in E.
Qed.

Lemma claim_attempts_spec n token w :
  usable_token token = true → quiet w →
  rg (_claim_attempts (pid_of t) n (claim_at token) token)
    (λ r w', ∀ oc, r = Ok oc → quiet w' ∧
       ∀ c, oc = Some c → ∃ f, published (claim_at token) f token w' ∧ held c token f) w.
Proof.
  intros U. revert w. induction n as [|n IH]; intros w HQ; cbn [_claim_attempts].
  { apply rg_ok. intros oc [= <-]. by split. }
  unfold open_excl. apply rg_bind, rg_bind. apply rg_open; [done|apply claim_tracked|..].
  - by intros w1 Q1 oc.
  - intros w1 Q1. apply rg_ok. cbn beta iota. apply rg_ok, rg_bind. eapply rg_mono, remove_dead_spec; [| |done].
    + intros [[]|e] w2 [Q2 H2]; [done| |by intros oc]. by intros oc [= <-].
    + destruct (claim_tracked sha256_hexdigest lock token) as [E|E]; [by apply claim_not_lock in E|done].
  - intros f w1 NB BU. apply rg_ok. cbn beta iota. apply rg_ok, rg_bind. eapply rg_mono, claim_attempt_spec; [|done..].
    intros [c|e] w2 H; [|done]. destruct (H c eq_refl) as (Q2 & P2 & H2).
    intros oc [= <-]. split; [done|]. intros c' [= <-]. eauto.
Qed.

Lemma claim_spec token w :
  quiet w →
  rg (_claim_effect_mutation_lock sha256_hexdigest (pid_of t) lock token)
    (λ r w', ∀ oc, r = Ok oc → quiet w' ∧
       ∀ c, oc = Some c → ∃ f, published (claim_at token) f token w' ∧ held c token f) w.
Proof.
  intros HQ. unfold _claim_effect_mutation_lock. destruct (usable_token token) eqn:U.
  - by apply claim_attempts_spec.
  - apply rg_ok. by intros oc [= <-].
Qed.

Lemma release_claim_spec c token f w :
  quiet w → minted f w → held c token f →
  rg (_release_effect_mutation_claim (pid_of t) c) (λ r w', quiet w') w.
Proof.
  intros HQ M [Hc [y Hy]]. unfold _release_effect_mutation_claim.
  destruct (is_empty (claim_token c)); [done|]. rewrite Hc, Hy.
  assert (is_Some (inodes w !! f)) as Hf by (destruct M as (x & H & _); by exists x).
  apply (rg_read (claim_at token) f); [apply claim_tracked|done|done| |done].
  intros owner w1 L1 Q1 _ _ _ _ _.
  assert (minted f w1) as M1 by exact (minted_rely f _ _ M L1).
  destruct (negb _); (eapply rg_mono, remove_minted; [by intros r w' [_ ?]|apply claim_tracked|done|done]).
Qed.

(** * Reclaiming *)

Lemma untracked (suffix : string) :
  suffix ≠ "" → startswith ".claim." suffix = false → ¬ tracked (lock ++ suffix).
Proof.
  intros N S [E|E].
  - by apply app_self_nil in E.
  - assert (∀ a b c, startswith (a ++ b) (a ++ c) = startswith b c) as P.
    { intros a b c. induction a as [|z a IH]; simpl; [done|]. by rewrite bool_decide_true. }
    rewrite P in E. congruence.
Qed.

(** Moving the lock away. *)
Lemma rg_replace {A} q (k : replace_result → prog A) (Q : res A → world → Prop) w :
  ¬ tracked q → quiet w → (∀ w1, rely w w1 → good w1 → removable sha256_hexdigest lock t lock w1) →
  (∀ r w1, quiet w1 → rg (k r) Q w1) →
  rg (Call (Replace lock q) k) Q w.
Proof.
  intros N HQ Rm K. eapply rg_drop with (p := lock) (n := 0); [done|lia| |done|..].
  - by apply settled_budget, HQ.
  - intros ch w1. simpl. destruct (dir w1 !! lock) as [f|] eqn:E; [|by left].
    destruct (ch_fail ch); [by left|right]. eexists. split; [by apply dropped_rename|done].
  - intros w1 w2 ch Rw G B2 Q2 _. apply K. by apply Q2.
Qed.

(** Removing a name that is not tracked. *)
Lemma rg_unlink_other q w :
  ¬ tracked q → quiet w → rg (unlink q) (λ r w', quiet w') w.
Proof.
  intros N HQ. unfold unlink. apply rg_bind. eapply rg_drop with (p := q) (n := 0); [done|lia|..].
  - by apply settled_budget, HQ.
  - intros w1 _ _ f x _ T. by destruct (N T).
  - intros ch w1. simpl. destruct (ch_fail ch); [by left|right]. eexists. split; [apply dropped_delete|done].
  - intros w1 w2 ch Rw G B2 Q2 _. apply rg_ok. destruct (exec_op _ _ _ _ _).1; apply Q2; done.
Qed.

(** Every way out of a program that keeps the thread quiet gives its claim back. *)
Lemma rg_finally_release {A} (p : prog A) c token fc w :
  minted fc w → held c token fc → rg p (λ r w', quiet w') w →
  rg (finally p (_release_effect_mutation_claim (pid_of t) c)) (λ r w', quiet w' ∧ minted fc w') w.
Proof.
  intros M H P. unfold finally. apply rg_handle.
  eapply rg_mono, (rg_frame _ _ _ _ _ _ _ _ (minted fc));
    [|by intros; eapply minted_rely|by intros; eapply minted_guar|done|exact P].
  intros r w1 [Q1 M1]. apply rg_bind.
  eapply rg_mono, (rg_frame _ _ _ _ _ _ _ _ (minted fc));
    [|by intros; eapply minted_rely|by intros; eapply minted_guar|done|by eapply release_claim_spec].
  by intros [[]|e] w2 HQ.
Qed.

Lemma rg_catch_quiet {A} c (p : prog A) a w :
  rg p (λ r w', quiet w') w → rg (catch c p (mret a)) (λ r w', quiet w') w.
Proof.
  intros P. unfold catch. apply rg_handle. eapply rg_mono, P. intros [x|e] w1 Q1; [done|].
  by destruct (c e).
Qed.

Lemma retire_stale_spec q f x0 owner token c w :
  ¬ tracked q → quiet w → is_Some (inodes w !! f) → doomed lock f owner w →
  token = match owner with Some o => owner_token o | None => _EFFECT_MUTATION_INVALID_CLAIM_TOKEN end →
  published (claim_at token) c token w →
  rg (_retire_stale lock q (Some (ident fs f x0)) owner) (λ r w', quiet w') w.
Proof.
  intros N HQ Hf D0 Htk Hc. unfold _retire_stale.
  apply (rg_read lock f); [apply lock_tracked|done|done| |done].
  intros current w1 L1 Q1 _ Aw Hr Hs Hcur.
  destruct (match owner with Some o => _ | None => false end) eqn:Same; [done|].
  apply (rg_judge lock f current); try done; [apply lock_tracked|].
  intros [|] w2 L2 Q2 D2; [done|]. specialize (D2 eq_refl).
  pose proof (later_trans _ _ _ L1 L2) as L02.
  apply rg_identity; [done|]. intros i w3 L3 Q3 Hi.
  pose proof (later_trans _ _ _ L02 L3) as L03.
  destruct (_same_effect_file_identity _ i) eqn:Ei; cbn [negb]; [|done].
  destruct i as [j|]; [|done]. destruct (Hi j eq_refl) as (g & y & Hl & ->). apply Hres in Ei as <-.
  destruct (doomed_later _ _ _ _ _ (lock_tracked lock) D2 L3) as [[_ ?]|(x & Hx & Ho & Cx)];
    [by destruct Hl|].
  destruct (doomed_later _ _ _ _ _ (lock_tracked lock) D0 L03) as [[_ ?]|(x' & Hx' & Ho' & _)];
    [by destruct Hl|].
  assert (x' = x) as -> by congruence. assert (y = x) as -> by (destruct Hl; congruence).
  assert (key x = token) as Hk.
  { unfold key. rewrite Htk. destruct owner as [o|].
    - rewrite Ho'. done.
    - rewrite Ho'. done. }
  pose proof (published_later _ _ _ _ _ (claim_tracked _ _ token) Hc L03) as (yc & Hyc & Cyc & _).
  apply rg_bind. unfold replace. apply rg_bind. apply rg_replace; [done|done|..].
  - intros w4 Rw4 G4 f' x'' Hl' _. right. split; [done|].
    assert (dir w4 !! lock = Some f) as D4.
    { eapply (r_claimed _ _ _ _ _ Rw4 f x c yc); [done|done| |done]. by rewrite Hk. }
    destruct (rely_condemned _ _ _ _ _ _ _ Rw4 Hx Cx) as [Hx4 C4].
    assert (x'' = x) as -> by (destruct Hl'; congruence). split; [done|].
    exists c, yc. rewrite Hk. split; [|done]. eapply rely_keeps; [exact Rw4|apply claim_tracked|done|done].
  - intros r w4 Q4. apply rg_ok. destruct r; apply Q4.
Qed.

Lemma reclaim_spec w :
  quiet w →
  rg (_reclaim_stale_effect_mutation_lock sha256_hexdigest (pid_of t) lock)
    (λ r w', ∀ b, r = Ok b → quiet w') w.
Proof.
  intros HQ. unfold _reclaim_stale_effect_mutation_lock.
  apply rg_identity; [done|]. intros [i|] w1 L1 Q1 Hi; [|by intros b _].
  destruct (Hi i eq_refl) as (f & x0 & [D0 F0] & ->).
  apply (rg_read lock f); [apply lock_tracked|done|by eexists| |by intros e w' _ _ b].
  intros owner w2 L2 Q2 _ Aw Hr Hs Hf.
  apply (rg_judge lock f owner); try done; [apply lock_tracked|].
  intros [|] w3 L3 Q3 D; [by intros b _|]. specialize (D eq_refl).
  set (token := match owner with Some o => _ | None => _ end).
  assert (is_Some (inodes w3 !! f)) as Hf3.
  { destruct D as [[? _]|(x & ? & _)]; eauto. }
  apply rg_bind. eapply rg_mono, (rg_frame _ _ _ _ _ _ _ _ (λ w', doomed lock f owner w' ∧ is_Some (inodes w' !! f))).
  2:{ intros w4 w5 [D4 S4] R4 _. split; [eapply doomed_rely; eauto using lock_tracked|by eapply rely_is_some]. }
  2:{ intros w4 w5 [D4 [x Hx]] G4 Gu. split; [eapply doomed_guar; eauto using lock_tracked|].
      destruct (g_old _ _ _ _ _ Gu f x Hx) as (x' & ? & _). eauto. }
  2: done.
  2: by apply claim_spec.
  intros [[c|]|e] w4 [H4 [D4 F4]]; [| |done].
  2:{ destruct (H4 None eq_refl) as [Q4 _]. by intros b _. }
  destruct (H4 (Some c) eq_refl) as [Q4 Hc]. destruct (Hc c eq_refl) as (fc & Pc & Hh).
  apply rg_bind, rg_see; [done|done|]. intros w5 ch L5 _ _ Q5 _. apply rg_ok. cbn beta iota zeta.
  assert (minted fc (wake Uuid w5)) as M5.
  { destruct (published_later _ _ _ _ _ (claim_tracked _ _ token) Pc L5) as (y & [? Hy] & ? & Oy).
    exists y. split; [done|]. split; [done|]. congruence. }
  apply rg_bind. eapply rg_mono, rg_finally_release; [|exact M5|exact Hh|].
  - intros [[|]|e] w6 [Q6 _]; [|by intros b|done]. apply rg_bind.
    eapply rg_mono, rg_unlink_other; [|by apply untracked|done]. by intros [[]|e] w7 Q7 b.
  - apply rg_catch_quiet, (retire_stale_spec _ f x0 owner token fc); [|done| | |done|].
    + by apply untracked.
    + destruct F4 as [x4 E4]. destruct (r_old _ _ _ _ _ L5 f x4 E4) as (x5 & E5 & _). by exists x5.
    + eapply doomed_later; eauto using lock_tracked.
    + eapply published_later; eauto using claim_tracked.
Qed.

(** * A whole session *)

Lemma publish_lock_spec f w :
  newborn lock t lock f w → budget 0 t w →
  rg (_publish (pid_of t) lock (token_of t) f)
    (λ r w', r = Ok tt → published lock f (token_of t) w' ∧ quiet w') w.
Proof.
  intros NB BU. unfold _publish, _effect_file_identity_from_fd, call. apply rg_bind.
  apply rg_look_budget with (n := 0); [done|done|lia|done|]. intros w1 ch Rw G BU1 _. apply rg_ok.
  assert (newborn lock t lock f w1) as NB1 by (eapply newborn_rely; [apply lock_tracked|exact NB|exact Rw]).
  apply publish_spec; [apply lock_tracked|done|done|exact NB1|done].
Qed.

Lemma acquire_spec n deadline retried w :
  quiet w →
  rg (_acquire sha256_hexdigest (pid_of t) n lock (token_of t) deadline retried)
    (λ r w', r = Ok tt → ∃ f, published lock f (token_of t) w' ∧ quiet w') w.
Proof.
  revert retried w. induction n as [|n IH]; intros retried w HQ; cbn [_acquire]; [done|].
  unfold open_excl. apply rg_bind, rg_bind. apply rg_open; [done|apply lock_tracked|done|..].
  - intros w1 Q1. apply rg_ok. cbn beta iota. apply rg_ok, rg_bind.
    eapply rg_mono, reclaim_spec; [|done]. intros [b|e] w2 H2; [|done].
    specialize (H2 b eq_refl). destruct (b && negb retried); [by apply IH|].
    apply rg_bind, rg_see; [done|done|]. intros w3 ch _ _ _ Q3 _. apply rg_ok. simpl.
    destruct (deadline <=? clock w3); [done|].
    apply rg_bind, rg_see; [done|done|]. intros w4 ch4 _ _ _ Q4 _. apply rg_ok. by apply IH.
  - intros f w1 NB BU. apply rg_ok. cbn beta iota. apply rg_ok.
    eapply rg_mono, publish_lock_spec; [|done|done]. intros r w2 H ->. exists f. by apply H.
Qed.

Lemma claim_own_spec f w :
  quiet w → published lock f (token_of t) w →
  rg (_claim_own sha256_hexdigest (pid_of t) lock (token_of t))
    (λ r w', ∀ c i, r = Ok (Some (c, i)) → quiet w' ∧
       ∃ fc, published (claim_at (token_of t)) fc (token_of t) w' ∧ held c (token_of t) fc) w.
Proof.
  intros HQ P. unfold _claim_own. apply rg_identity; [done|]. intros [i|] w1 L1 Q1 _; [|by intros c i].
  pose proof (published_later _ _ _ _ _ (lock_tracked lock) P L1) as P1.
  assert (is_Some (inodes w1 !! f)) as Hf by (destruct P1 as (x & [_ H] & _); by eexists).
  apply (rg_read lock f); [apply lock_tracked|done|done| |by intros e w' _ _ c j].
  intros owner w2 L2 Q2 _ _ Hr _ _.
  destruct (published_later _ _ _ _ _ (lock_tracked lock) P1 L2) as (x & Hx & _ & Ho).
  rewrite (Hr f x Hx) in Ho. subst owner. unfold has_token. cbn [owner_token]. rewrite String.eqb_refl.
  cbn [negb]. apply rg_bind. eapply rg_mono, claim_spec; [|done].
  intros [[c|]|e] w3 H3; [|by intros c j|by intros c j]. destruct (H3 _ eq_refl) as [Q3 Hc].
  intros c' j [= <- <-]. split; [done|]. by apply Hc.
Qed.

Lemma retire_own_spec q id w :
  ¬ tracked q → quiet w → rg (_retire_own lock q (token_of t) id) (λ r w', quiet w') w.
Proof.
  intros N HQ. unfold _retire_own. apply rg_bind. eapply rg_mono, read_spec; [|done].
  intros [current|e] w1 (L1 & Q1 & H1); [|done].
  destruct (H1 current eq_refl) as (_ & [I1 Lt] & Hr & Hs).
  destruct (has_token current (token_of t)) eqn:Ht; cbn [negb]; [|done].
  destruct current as [o|]; [|done]. simpl in Ht. apply String.eqb_eq in Ht.
  destruct (Hs (mk_is_Some _ _ eq_refl)) as (f & x & Hx).
  pose proof (i_lock _ _ _ _ I1 f x o t Lt Hx (Hr f x Hx) Ht) as Cx.
  apply rg_identity; [done|]. intros i w2 L2 Q2 _.
  destruct (_same_effect_file_identity id i); cbn [negb]; [|done].
  assert (linked w2 lock f x) as Hx2 by exact (rely_keeps _ _ _ _ _ _ _ _ L2 (lock_tracked lock) Hx Cx).
  apply rg_bind. eapply rg_mono; [|apply rg_catch_quiet].
  2:{ apply rg_bind. unfold replace. apply rg_bind, rg_replace; [done|done|..].
      - intros w3 Rw3 G3 g y Hy _. left. split; [|by eapply outside_rely; [apply Q2|exact Rw3]].
        pose proof (rely_keeps _ _ _ _ _ _ _ _ Rw3 (lock_tracked lock) Hx2 Cx) as [A B].
        destruct Hy as [A' B']. congruence.
      - intros r w3 Q3. apply rg_ok. destruct r; apply Q3. }
  intros [[|]|e] w3 Q3; [|done|done]. apply rg_bind.
  eapply rg_mono; [|apply rg_catch_quiet, rg_unlink_other; done]. by intros [[]|e] w4 Q4.
Qed.

Lemma lock_release_spec f w :
  quiet w → published lock f (token_of t) w →
  rg (_release_effect_mutation_lock sha256_hexdigest (pid_of t) lock (token_of t) true) (λ _ _, True) w.
Proof.
  intros HQ P. unfold _release_effect_mutation_lock, catch at 1. apply rg_bind, rg_handle.
  eapply rg_mono, claim_own_spec; [|done|done].
  intros [[[c i]|]|e] w1 H1; [|done|by destruct (is_os_error e && true)].
  destruct (H1 c i eq_refl) as (Q1 & fc & Pc & Hh). apply rg_ok.
  assert (minted fc w1) as M1.
  { destruct Pc as (y & [_ Hy] & ? & Oy). exists y. split; [done|]. split; [done|]. congruence. }
  eapply rg_mono, rg_finally_release; [done|exact M1|exact Hh|]. apply rg_catch_quiet.
  apply rg_bind, rg_see; [done|done|]. intros w2 ch L2 _ _ Q2 _. apply rg_ok. cbn beta zeta iota.
  assert (minted fc (wake Uuid w2)) as M2 by exact (minted_rely _ _ _ M1 L2).
  unfold finally. apply rg_handle.
  eapply rg_mono, (rg_frame _ _ _ _ _ _ _ _ (minted fc));
    [|by intros; eapply minted_rely|by intros; eapply minted_guar|done|apply retire_own_spec; [by apply untracked|done]].
  intros r w3 [Q3 M3]. apply rg_bind, rg_bind. eapply rg_mono, release_claim_spec; [|done|exact M3|exact Hh].
  intros [[]|e] w4 Q4; [|done]. eapply rg_mono; [|apply rg_catch_quiet, rg_unlink_other; [by apply untracked|done]].
  by intros [[]|e] w5 Q5.
Qed.

End Protocol.

(** The program of a thread obeys the rules of the logic, from a state in which
    it owns nothing. *)
Lemma session_spec fs sha256_hexdigest pid_of token_of path t n timeout body w :
  replacement_resistant fs → 0 < pid_of t → usable_token (token_of t) = true →
  quiet (_effect_mutation_lock_path path) t w →
  rg fs sha256_hexdigest pid_of token_of (_effect_mutation_lock_path path) t
    (exclusive_mutation_file_lock sha256_hexdigest (pid_of t) n path (token_of t) timeout body)
    (λ _ _, True) w.
Proof.
  intros Hres Hpid Htok HQ. unfold exclusive_mutation_file_lock.
  apply rg_bind, rg_see; [done|done|]. intros w1 ch _ _ _ Q1 _. apply rg_ok.
  apply rg_bind. eapply rg_mono, acquire_spec; [|done..]. intros [[]|e] w2 H2; [|done].
  destruct (H2 eq_refl) as (f & P2 & Q2). unfold finally. apply rg_handle, rg_bind.
  eapply rg_enter; [done|apply Q2|]. intros w3 P3 S3. apply rg_ok, rg_bind.
  eapply rg_leave; [done|done|]. intros w4 P4 Q4. apply rg_ok.
  apply rg_bind, rg_bind. eapply rg_mono, lock_release_spec; [|done..]. by intros [b|e] w5 _.
Qed.
