(* ===== verification/LockSolo.v ===== *)
(** A thread that runs alone, whose calls all succeed: the outcome of the
    functions of [FileLock] on every branch, and the directory they leave. *)

From stdpp Require Import base strings list sets gmap.
From Stdlib Require Import ZArith Lia.
From S2P Require Import Prelude PyFloat PyValue FileLock LockWorld LockLogic LockCalls LockProtocol.

Open Scope Z_scope.

(** Every call succeeds; random names are [uuid]. *)
Definition fair (uuid : string) : choice :=
  {| ch_fail := false; ch_read_fail := false; ch_written := false; ch_reused := false; ch_uuid := uuid |}.

Fixpoint solo (fs : filesystem) (t : nat) (uuid : string) {A} (p : prog A) (w : world) : res A * world :=
  match p with
  | Ret r => (r, w)
  | Call o k =>
      solo fs t uuid (k (exec fs t o (fair uuid) w).1) (exec fs t o (fair uuid) w).2
  end.

(** What of a world decides the calls. *)
Record view := View {
  v_dir : gmap string nat; v_inodes : gmap nat file; v_next : nat;
  v_clock : Z; v_dead : gset Z; v_inside : gset nat
}.

Definition view_of (w : world) : view :=
  View (dir w) (inodes w) (next w) (clock w) (dead w) (inside w).

Definition with_dir (d : gmap string nat) (v : view) : view :=
  View d (v_inodes v) (v_next v) (v_clock v) (v_dead v) (v_inside v).
Definition with_file (f : nat) (x : file) (v : view) : view :=
  View (v_dir v) (<[f := x]> (v_inodes v)) (v_next v) (v_clock v) (v_dead v) (v_inside v).
Definition with_inside (s : gset nat) (v : view) : view :=
  View (v_dir v) (v_inodes v) (v_next v) (v_clock v) (v_dead v) s.
Definition with_new (p : string) (t : nat) (v : view) : view :=
  View (<[p := v_next v]> (v_dir v)) (<[v_next v := File NotJson (v_clock v) (Some t)]> (v_inodes v))
    (S (v_next v)) (v_clock v) (v_dead v) (v_inside v).

Section Solo.
Context (fs : filesystem) (t : nat) (uuid : string).
(** A file has the same identity every time it is looked at. *)
Hypothesis Hsame : ∀ f x y,
  _same_effect_file_identity (Some (ident fs f x)) (Some (ident fs f y)) = true.

(** From a world with the view [v], alone, the program ends as [Q] says. *)
Definition ends {A} (p : prog A) (Q : res A → view → Prop) (v : view) : Prop :=
  ∀ w, view_of w = v → Q (solo fs t uuid p w).1 (view_of (solo fs t uuid p w).2).

Lemma ends_ret {A} (r : res A) (Q : res A → view → Prop) v : Q r v → ends (Ret r) Q v.
Proof. intros H w <-. exact H. Qed.

Lemma ends_ok {A} (a : A) (Q : res A → view → Prop) v : Q (Ok a) v → ends (mret a) Q v.
Proof. apply ends_ret. Qed.

Lemma solo_handle {A B} (p : prog A) (f : res A → prog B) w :
  solo fs t uuid (handle p f) w = solo fs t uuid (f (solo fs t uuid p w).1) (solo fs t uuid p w).2.
Proof. revert w. induction p as [r|R o k IH]; intros w; simpl; [done|apply IH]. Qed.

Lemma ends_handle {A B} (p : prog A) (f : res A → prog B) Q v :
  ends p (λ r v', ends (f r) Q v') v → ends (handle p f) Q v.
Proof. intros H w E. rewrite solo_handle. by apply (H w E). Qed.

Lemma ends_mono {A} (p : prog A) (Q Q' : res A → view → Prop) v :
  (∀ r v', Q r v' → Q' r v') → ends p Q v → ends p Q' v.
Proof. intros M H w E. apply M, H, E. Qed.

Lemma ends_bind {A B} (p : prog A) (f : A → prog B) Q v :
  ends p (λ r v', match r with Ok a => ends (f a) Q v' | Err e => Q (Err e) v' end) v →
  ends (p ≫= f) Q v.
Proof.
  intros H. apply ends_handle. eapply ends_mono, H. intros [a|e] v'; simpl; [done|]. apply ends_ret.
Qed.

Lemma ends_assoc {A B C} (p : prog A) (f : A → prog B) (g : B → prog C) Q v :
  ends (p ≫= (λ a, f a ≫= g)) Q v → ends ((p ≫= f) ≫= g) Q v.
Proof.
  intros H w E. specialize (H w E). revert H. unfold mbind, prog_bind. rewrite !solo_handle.
  by destruct (solo fs t uuid p w) as [[a|e] w']; simpl; rewrite ?solo_handle.
Qed.

Lemma ends_call {A R} (o : op R) (k : R → prog A) (Q : res A → view → Prop) v r v' :
  (∀ w, view_of w = v → (exec_op fs t o (fair uuid) w).1 = r ∧ view_of (exec_op fs t o (fair uuid) w).2 = v') →
  ends (k r) Q v' → ends (Call o k) Q v.
Proof.
  intros E H w Ew. destruct (E w Ew) as [<- E2]. simpl. rewrite exec_wake. simpl.
  apply H. rewrite <- E2. done.
Qed.

Definition v_file (v : view) (p : string) : option (nat * file) :=
  match v_dir v !! p with
  | Some f => match v_inodes v !! f with Some x => Some (f, x) | None => None end
  | None => None
  end.

Lemma file_at_view w p : file_at w p = v_file (view_of w) p.
Proof.
  unfold file_at, v_file. simpl. destruct (dir w !! p); simpl; [|done]. by destruct (inodes w !! _).
Qed.

Lemma ends_stat {A} p (k : _ → prog A) Q v :
  ends (k (match v_file v p with Some (f, x) => Some (ident fs f x, mtime x) | None => None end)) Q v →
  ends (Call (Stat p) k) Q v.
Proof.
  intros H. eapply ends_call, H. intros w <-. simpl. rewrite file_at_view. split; [|done].
  by destruct (v_file (view_of w) p) as [[f x]|].
Qed.

Lemma ends_read {A} p (k : _ → prog A) Q v :
  ends (k (match v_file v p with Some (_, x) => content x | None => Missing end)) Q v →
  ends (Call (Read p) k) Q v.
Proof. intros H. eapply ends_call, H. intros w <-. simpl. by rewrite file_at_view. Qed.

Lemma ends_open_free {A} p (k : _ → prog A) Q v :
  v_dir v !! p = None → ends (k (Opened (v_next v))) Q (with_new p t v) → ends (Call (OpenExcl p) k) Q v.
Proof. intros E H. eapply ends_call, H. intros w <-. simpl in *. by rewrite E. Qed.

Lemma ends_open_exists {A} p (k : _ → prog A) Q v :
  is_Some (v_dir v !! p) → ends (k FileExists) Q v → ends (Call (OpenExcl p) k) Q v.
Proof. intros [f E] H. eapply ends_call, H. intros w <-. simpl in *. by rewrite E. Qed.

Lemma ends_fstat {A} f (k : _ → prog A) Q v x :
  v_inodes v !! f = Some x → ends (k (ident fs f x)) Q v → ends (Call (Fstat f) k) Q v.
Proof. intros E H. eapply ends_call, H. intros w <-. simpl in *. by rewrite E. Qed.

Lemma ends_write {A} f c (k : _ → prog A) Q v x :
  v_inodes v !! f = Some x →
  ends (k true) Q (with_file f (File (Parsed c) (v_clock v) (creator x)) v) →
  ends (Call (WriteRecord f c) k) Q v.
Proof. intros E H. eapply ends_call, H. intros w <-. simpl in *. unfold exec_write. by rewrite E. Qed.

Lemma ends_unlink {A} p (k : _ → prog A) Q v :
  ends (k true) Q (with_dir (delete p (v_dir v)) v) → ends (Call (Unlink p) k) Q v.
Proof. intros H. eapply ends_call, H. by intros w <-. Qed.

Lemma ends_replace {A} p q (k : _ → prog A) Q v f :
  v_dir v !! p = Some f →
  ends (k Replaced) Q (with_dir (<[q := f]> (delete p (v_dir v))) v) → ends (Call (Replace p q) k) Q v.
Proof. intros E H. eapply ends_call, H. intros w <-. simpl in *. by rewrite E. Qed.

Lemma ends_kill {A} n (k : _ → prog A) Q v :
  n ≤ pid_max → ends (k (if bool_decide (n ∈ v_dead v) then NoProcess else KillOk)) Q v →
  ends (Call (Kill n) k) Q v.
Proof.
  intros E H. eapply ends_call, H. intros w <-. simpl in *. unfold exec_kill.
  rewrite (proj2 (Z.ltb_ge pid_max n)) by done. split; [|done]. simpl. by case_bool_decide.
Qed.

Lemma ends_time {A} (k : _ → prog A) Q v : ends (k (v_clock v)) Q v → ends (Call Time k) Q v.
Proof. intros H. eapply ends_call, H. by intros w <-. Qed.

Lemma ends_monotonic {A} (k : _ → prog A) Q v : ends (k (v_clock v)) Q v → ends (Call Monotonic k) Q v.
Proof. intros H. eapply ends_call, H. by intros w <-. Qed.

Lemma ends_uuid {A} (k : _ → prog A) Q v : ends (k uuid) Q v → ends (Call Uuid k) Q v.
Proof. intros H. eapply ends_call, H. by intros w <-. Qed.

Lemma ends_enter {A} (k : _ → prog A) Q v :
  ends (k tt) Q (with_inside ({[t]} ∪ v_inside v) v) → ends (Call Enter k) Q v.
Proof. intros H. eapply ends_call, H. by intros w <-. Qed.

Lemma ends_leave {A} (k : _ → prog A) Q v :
  ends (k tt) Q (with_inside (v_inside v ∖ {[t]}) v) → ends (Call Leave k) Q v.
Proof. intros H. eapply ends_call, H. by intros w <-. Qed.


(** * Functions *)

Ltac rets := repeat (first [apply ends_ok|apply ends_ret]; cbn beta iota).

Lemma ends_identity {A} p (k : _ → prog A) Q v :
  ends (k (match v_file v p with Some (f, x) => Some (ident fs f x) | None => None end)) Q v →
  ends (_effect_file_identity p ≫= k) Q v.
Proof.
  intros H. apply ends_bind, ends_stat, ends_ok. by destruct (v_file v p) as [[f x]|].
Qed.

(** The texts under [p] are UTF-8. *)
Definition decodable (v : view) (p : string) : Prop :=
  ∀ f x, v_file v p = Some (f, x) → content x ≠ NotUtf8.

Lemma ends_owner {A} p (k : _ → prog A) Q v :
  decodable v p →
  ends (k (match v_file v p with Some (_, x) => owner_in x | None => None end)) Q v →
  ends (_read_effect_mutation_owner p ≫= k) Q v.
Proof.
  intros D H. apply ends_bind, ends_read. unfold owner_in in H.
  destruct (v_file v p) as [[f x]|] eqn:E; [|by apply ends_ok].
  specialize (D f x E). destruct (content x); try done; by apply ends_ok.
Qed.

Lemma remove_created_ends p f x (Q : res unit → view → Prop) v :
  match v_file v p with Some (g, _) => g = f | None => True end →
  Q (Ok tt) (match v_file v p with Some _ => with_dir (delete p (v_dir v)) v | None => v end) →
  ends (_remove_created_effect_file p (Some (ident fs f x))) Q v.
Proof.
  intros E H. unfold _remove_created_effect_file, catch. apply ends_handle.
  apply ends_identity. destruct (v_file v p) as [[g y]|]; [subst|].
  - rewrite Hsame. unfold unlink. apply ends_bind, ends_unlink. by rets.
  - by rets.
Qed.

(** By the code's own test, the owner of the file is gone. *)
Definition abandoned (v : view) (x : file) : bool :=
  match owner_in x with
  | Some o => bool_decide (owner_pid o ∈ v_dead v)
  | None => negb (v_clock v - mtime x <? EFFECT_MUTATION_INVALID_STALE_SECONDS)
  end.

(** The pid of the record fits the C type. *)
Definition probeable (x : file) : Prop := ∀ o, owner_in x = Some o → owner_pid o ≤ pid_max.

Lemma judge_ends {A} p f x (k : bool → prog A) Q v :
  v_file v p = Some (f, x) → probeable x →
  ends (k (negb (abandoned v x))) Q v → ends (not_abandoned p (owner_in x) ≫= k) Q v.
Proof.
  intros E P H. apply ends_bind. unfold abandoned in H. destruct (owner_in x) as [o|] eqn:O; simpl.
  - unfold process_is_alive. rewrite (proj2 (Z.leb_gt _ 0)) by (by eapply owner_pid_pos).
    apply ends_bind, ends_kill; [by apply P|]. revert H. by destruct (bool_decide _); intros H; rets.
  - unfold too_young, catch. apply ends_handle, ends_bind, ends_time, ends_ok.
    unfold st_mtime. apply ends_bind, ends_bind, ends_stat. rewrite E. rets. by rewrite negb_involutive in H.
Qed.

Context (sha256_hexdigest : string → string) (getpid : Z) (lock : string).
Hypothesis (Hpid : 0 < getpid).
Notation claim_at := (_effect_mutation_claim_path sha256_hexdigest lock).
Notation rj := (record_json getpid).

Lemma rj_owner token m c :
  usable_token token = true →
  owner_in (File (Parsed (rj token)) m c) = Some {| owner_pid := getpid; owner_token := token |}.
Proof.
  intros U. unfold owner_in, record_json. simpl. rewrite U.
  destruct (getpid <=? 0) eqn:E; [|done]. apply Z.leb_le in E. lia.
Qed.

(** Creating a file and writing a record into it. *)
Definition with_record (p token : string) (v : view) : view :=
  with_file (v_next v) (File (Parsed (rj token)) (v_clock v) (Some t)) (with_new p t v).

Lemma with_record_file p token v :
  v_file (with_record p token v) p = Some (v_next v, File (Parsed (rj token)) (v_clock v) (Some t)).
Proof. unfold v_file. simpl. by rewrite !lookup_insert_eq. Qed.

Lemma with_record_other p q token v :
  q ≠ p → (∀ f, v_dir v !! q = Some f → f ≠ v_next v) → v_file (with_record p token v) q = v_file v q.
Proof.
  intros N F. unfold v_file. simpl. rewrite lookup_insert_ne by done.
  destruct (v_dir v !! q) as [f|] eqn:E; [|done]. specialize (F f eq_refl).
  by rewrite !lookup_insert_ne.
Qed.

Lemma publish_ends {A} p token (k : unit → prog A) Q v :
  ends (k tt) Q (with_record p token v) →
  ends (_publish getpid p token (v_next v) ≫= k) Q (with_new p t v).
Proof.
  intros H. apply ends_bind. unfold _publish, _effect_file_identity_from_fd, call.
  apply ends_bind. eapply ends_fstat; [simpl; apply lookup_insert_eq|]. apply ends_ok.
  unfold on_error, write_record. apply ends_handle, ends_bind.
  eapply ends_write; [simpl; apply lookup_insert_eq|]. by do 3 apply ends_ok.
Qed.

Lemma claim_ends {A} token (k : _ → prog A) Q v :
  usable_token token = true → v_dir v !! claim_at token = None →
  (∀ c, claim_path c = claim_at token → claim_token c = token →
     (∃ y, claim_identity c = ident fs (v_next v) y) → ends (k (Some c)) Q (with_record (claim_at token) token v)) →
  ends (_claim_effect_mutation_lock sha256_hexdigest getpid lock token ≫= k) Q v.
Proof.
  intros U E H. apply ends_bind. unfold _claim_effect_mutation_lock. rewrite U. cbn [negb _claim_attempts].
  unfold open_excl. apply ends_bind, ends_bind, ends_open_free; [done|]. do 2 apply ends_ok.
  apply ends_bind. unfold _claim_attempt, _effect_file_identity_from_fd, call.
  apply ends_bind. eapply ends_fstat; [simpl; apply lookup_insert_eq|]. apply ends_ok, ends_bind.
  unfold on_error, write_record. apply ends_handle, ends_bind.
  eapply ends_write; [simpl; apply lookup_insert_eq|]. do 2 apply ends_ok. apply ends_ret, ends_ok, ends_ok.
  apply H; [done|done|]. by eexists.
Qed.

Lemma release_claim_ends token c f (Q : res unit → view → Prop) v :
  usable_token token = true → claim_path c = claim_at token → claim_token c = token →
  (∃ y, claim_identity c = ident fs f y) →
  match v_file v (claim_at token) with Some (g, x) => g = f ∧ content x = Parsed (rj token) | None => True end →
  Q (Ok tt) (match v_file v (claim_at token) with
             | Some _ => with_dir (delete (claim_at token) (v_dir v)) v | None => v end) →
  ends (_release_effect_mutation_claim getpid c) Q v.
Proof.
  intros U Ep Et [y Ei] F H. unfold _release_effect_mutation_claim. rewrite Et, Ep, Ei.
  destruct (is_empty token) eqn:Em; [by unfold usable_token in U; rewrite Em in U|].
  apply ends_owner.
  { intros g x E. rewrite E in F. by destruct F as [_ ->]. }
  assert (match v_file v (claim_at token) with Some (g, _) => g = f | None => True end) as F'.
  { destruct (v_file v (claim_at token)) as [[g x]|]; [apply F|done]. }
  by destruct (negb _); apply remove_created_ends.
Qed.

Lemma ne_other suffix token :
  suffix ≠ "" → startswith ".claim." suffix = false → lock ++ suffix ≠ claim_at token.
Proof.
  intros N S E. apply (untracked lock suffix N S). rewrite E. apply claim_tracked.
Qed.

Lemma ne_lock suffix : suffix ≠ "" → lock ++ suffix ≠ lock.
Proof. intros N E. by apply app_self_nil in E. Qed.

Notation stale_path := (lock ++ ".stale." ++ uuid).
Notation released_path := (lock ++ ".released." ++ uuid).

Lemma unlink_ends p (Q : res unit → view → Prop) v :
  Q (Ok tt) (with_dir (delete p (v_dir v)) v) → ends (unlink p) Q v.
Proof. intros H. unfold unlink. apply ends_bind, ends_unlink. by rets. Qed.

Lemma replace_ends p q f (Q : res unit → view → Prop) v :
  v_dir v !! p = Some f → Q (Ok tt) (with_dir (<[q := f]> (delete p (v_dir v))) v) →
  ends (replace p q) Q v.
Proof. intros E H. unfold replace. eapply ends_bind, ends_replace; [done|]. by rets. Qed.

Lemma v_file_dir v p f x : v_file v p = Some (f, x) → v_dir v !! p = Some f ∧ v_inodes v !! f = Some x.
Proof.
  unfold v_file. destruct (v_dir v !! p) as [g|]; [|done]. destruct (v_inodes v !! g) eqn:E; [|done].
  intros [= <- <-]. done.
Qed.

(** The views with the same directory: what a caller can tell afterwards. *)
Record left_as (d : gmap string nat) (v v' : view) : Prop := {
  la_dir : v_dir v' = d;
  la_clock : v_clock v' = v_clock v;
  la_inside : v_inside v' = v_inside v
}.

Section Marker.
Context (v : view) (f : nat) (x : file).
Hypothesis (Hx : v_file v lock = Some (f, x)) (Hu : content x ≠ NotUtf8) (Hpr : probeable x).

Lemma lock_decodable : decodable v lock.
Proof. intros g y E. rewrite Hx in E. by simplify_eq. Qed.

(** A marker whose owner is not gone is left alone. *)
Lemma reclaim_refused {A} (k : bool → prog A) Q :
  abandoned v x = false → ends (k false) Q v →
  ends (_reclaim_stale_effect_mutation_lock sha256_hexdigest getpid lock ≫= k) Q v.
Proof.
  intros N H. apply ends_bind. unfold _reclaim_stale_effect_mutation_lock. apply ends_identity.
  rewrite Hx. apply ends_owner; [apply lock_decodable|]. rewrite Hx.
  eapply judge_ends; [exact Hx|done|]. rewrite N. by rets.
Qed.

Hypothesis (Hab : abandoned v x = true) (Hfresh : f ≠ v_next v).
Hypothesis (Hclaim : v_dir v !! claim_at (key x) = None) (Hstale : v_dir v !! stale_path = None).

(** The marker after the claim was taken. *)
Notation v1 := (with_record (claim_at (key x)) (key x) v).

Lemma marker_claimed : v_file v1 lock = Some (f, x).
Proof.
  rewrite with_record_other; [done|by apply not_eq_sym, claim_not_lock|].
  destruct (v_file_dir _ _ _ _ Hx) as [E _]. intros g Eg. congruence.
Qed.

Lemma key_usable : usable_token (key x) = true.
Proof.
  unfold key. destruct (owner_in x) as [o|] eqn:O; [|done]. unfold owner_in, owner_of_json in O.
  destruct (content x) as [| | | |c]; try done. destruct c; try done.
  destruct (pget "pid" items); try done. destruct (pget "token" items); try done.
  destruct (usable_token s) eqn:U; [|by rewrite orb_true_r in O].
  destruct (n <=? 0); [done|]. simpl in O. by simplify_eq.
Qed.

Lemma retire_stale_ends (Q : res bool → view → Prop) y :
  Q (Ok true) (with_dir (<[stale_path := f]> (delete lock (v_dir v1))) v1) →
  ends (_retire_stale lock stale_path (Some (ident fs f y)) (owner_in x)) Q v1.
Proof.
  intros H. unfold _retire_stale. apply ends_owner.
  { intros g z E. rewrite marker_claimed in E. by simplify_eq. }
  rewrite marker_claimed.
  assert (match owner_in x with Some o => negb (has_token (owner_in x) (owner_token o)) | None => false end = false) as ->.
  { destruct (owner_in x) as [o|]; [|done]. simpl. by rewrite String.eqb_refl. }
  eapply judge_ends; [apply marker_claimed|done|]. replace (abandoned v1 x) with (abandoned v x) by done.
  rewrite Hab. cbn [negb]. apply ends_identity. rewrite marker_claimed, Hsame. cbn [negb].
  apply ends_bind. eapply replace_ends; [apply (v_file_dir _ _ _ _ marker_claimed)|]. by rets.
Qed.

Lemma reclaim_ends {A} (k : bool → prog A) Q :
  (∀ v', left_as (delete lock (v_dir v)) v v' → ends (k true) Q v') →
  ends (_reclaim_stale_effect_mutation_lock sha256_hexdigest getpid lock ≫= k) Q v.
Proof.
  intros H. apply ends_bind. unfold _reclaim_stale_effect_mutation_lock. apply ends_identity.
  rewrite Hx. apply ends_owner; [apply lock_decodable|]. rewrite Hx.
  eapply judge_ends; [exact Hx|done|]. rewrite Hab. cbn [negb].
  change (match owner_in x with Some o => owner_token o | None => _ end) with (key x).
  apply claim_ends; [apply key_usable|done|]. intros c Ep Et Ei.
  apply ends_bind, ends_uuid, ends_ok. cbn beta zeta. apply ends_bind.
  unfold finally, catch. apply ends_handle, ends_handle. apply retire_stale_ends. apply ends_ret.
  apply ends_bind. set (v2 := with_dir _ _).
  assert (v_file v2 (claim_at (key x)) = Some (v_next v, File (Parsed (rj (key x))) (v_clock v) (Some t))) as E2.
  { unfold v_file, v2. simpl. rewrite lookup_insert_ne by (by apply ne_other).
    rewrite lookup_delete_ne by (by apply not_eq_sym, claim_not_lock). by rewrite !lookup_insert_eq. }
  eapply release_claim_ends; [apply key_usable|done|done|done| |]; rewrite E2; [done|].
  rets. apply ends_bind, unlink_ends. rets. apply H. constructor; [|done|done]. simpl.
  apply map_eq. intros q. destruct (decide (q = stale_path)) as [->|N1].
  { rewrite lookup_delete_eq, lookup_delete_ne by (by apply not_eq_sym, ne_lock). done. }
  rewrite lookup_delete_ne by done. destruct (decide (q = claim_at (key x))) as [->|N2].
  { rewrite lookup_delete_eq, lookup_delete_ne by (by apply not_eq_sym, claim_not_lock). done. }
  rewrite lookup_delete_ne, lookup_insert_ne by done. destruct (decide (q = lock)) as [->|N3].
  { by rewrite !lookup_delete_eq. }
  by rewrite !lookup_delete_ne, lookup_insert_ne by done.
Qed.
End Marker.

(** * Release and session *)

Section Own.
Context (v : view) (f : nat) (m : Z) (token : string) (Htok : usable_token token = true).
Hypothesis (Hx : v_file v lock = Some (f, File (Parsed (rj token)) m (Some t))) (Hfresh : f ≠ v_next v).
Hypothesis (Hclaim : v_dir v !! claim_at token = None) (Hreleased : v_dir v !! released_path = None).

Notation v1 := (with_record (claim_at token) token v).

Lemma own_claimed : v_file v1 lock = Some (f, File (Parsed (rj token)) m (Some t)).
Proof.
  rewrite with_record_other; [done|by apply not_eq_sym, claim_not_lock|].
  destruct (v_file_dir _ _ _ _ Hx) as [E _]. intros g Eg. congruence.
Qed.

Lemma own_token : has_token (owner_in (File (Parsed (rj token)) m (Some t))) token = true.
Proof. rewrite rj_owner by done. simpl. apply String.eqb_refl. Qed.

Lemma retire_own_ends (Q : res bool → view → Prop) y :
  Q (Ok true) (with_dir (delete released_path (<[released_path := f]> (delete lock (v_dir v1)))) v1) →
  ends (_retire_own lock released_path token (Some (ident fs f y))) Q v1.
Proof.
  intros H. unfold _retire_own. apply ends_owner.
  { intros g z E. rewrite own_claimed in E. by simplify_eq. }
  rewrite own_claimed, own_token. cbn [negb]. apply ends_identity. rewrite own_claimed, Hsame. cbn [negb].
  apply ends_bind. unfold catch at 1. apply ends_handle, ends_bind.
  eapply replace_ends; [apply (v_file_dir _ _ _ _ own_claimed)|]. rets. cbn [negb].
  apply ends_bind. unfold catch. apply ends_handle, unlink_ends. by rets.
Qed.

Lemma release_ends (Q : res bool → view → Prop) :
  (∀ v', left_as (delete lock (v_dir v)) v v' → Q (Ok true) v') →
  ends (_release_effect_mutation_lock sha256_hexdigest getpid lock token true) Q v.
Proof.
  intros H. unfold _release_effect_mutation_lock. apply ends_bind. unfold catch at 1. apply ends_handle.
  unfold _claim_own. apply ends_identity. rewrite Hx. apply ends_owner.
  { intros g z E. rewrite Hx in E. by simplify_eq. }
  rewrite Hx, own_token. cbn [negb]. apply claim_ends; [done|done|]. intros c Ep Et Ei. rets.
  unfold finally at 1. apply ends_handle. unfold catch at 1. apply ends_handle, ends_bind, ends_uuid. rets.
  cbn zeta. unfold finally. apply ends_handle, retire_own_ends. apply ends_bind, ends_bind.
  set (v2 := with_dir _ _).
  assert (v_file v2 (claim_at token) = Some (v_next v, File (Parsed (rj token)) (v_clock v) (Some t))) as E2.
  { unfold v_file, v2. simpl. rewrite lookup_delete_ne, lookup_insert_ne by (by apply ne_other).
    rewrite lookup_delete_ne by (by apply not_eq_sym, claim_not_lock). by rewrite !lookup_insert_eq. }
  eapply release_claim_ends; [done|done|done|done| |]; rewrite E2; [done|].
  unfold catch. apply ends_handle, unlink_ends. rets. apply ends_bind. set (v3 := with_dir _ _).
  assert (v_file v3 (claim_at token) = None) as E3.
  { unfold v_file, v3. simpl. rewrite lookup_delete_ne by (by apply ne_other). by rewrite lookup_delete_eq. }
  eapply release_claim_ends; [done|done|done|exact Ei| |]; rewrite E3; [done|].
  rets. apply H. constructor; [|done|done]. simpl.
  apply map_eq. intros q. destruct (decide (q = released_path)) as [->|N1].
  { rewrite lookup_delete_eq, lookup_delete_ne by (by apply not_eq_sym, ne_lock). done. }
  rewrite lookup_delete_ne by done. destruct (decide (q = claim_at token)) as [->|N2].
  { rewrite lookup_delete_eq, lookup_delete_ne by (by apply not_eq_sym, claim_not_lock). done. }
  rewrite lookup_delete_ne, lookup_delete_ne, lookup_insert_ne by done. destruct (decide (q = lock)) as [->|N3].
  { by rewrite !lookup_delete_eq. }
  by rewrite !lookup_delete_ne, lookup_insert_ne by done.
Qed.
End Own.

(** From a directory without the marker. *)
Lemma acquired_ends token body (Q : res unit → view → Prop) v :
  usable_token token = true → t ∉ v_inside v →
  v_dir v !! lock = None → v_dir v !! claim_at token = None → v_dir v !! released_path = None →
  (∀ v', left_as (v_dir v) v v' → Q body v') →
  ends (_publish getpid lock token (v_next v) ≫= (λ _,
    finally (_ ← call Enter; _ ← call Leave; Ret body)
      (_ ← _release_effect_mutation_lock sha256_hexdigest getpid lock token true; mret tt)))
    Q (with_new lock t v).
Proof.
  intros U O L C R H. apply publish_ends. unfold finally. apply ends_handle, ends_bind, ends_enter. rets.
  apply ends_bind, ends_leave. rets. apply ends_bind, ends_bind.
  set (v1 := with_inside _ _). assert (v_inside v1 = v_inside v) as Ei by (simpl; set_solver).
  eapply (release_ends v1 (v_next v) (v_clock v) token); [done| | | | |].
  - unfold v_file, v1. simpl. by rewrite !lookup_insert_eq.
  - simpl. lia.
  - simpl. by rewrite lookup_insert_ne by (by apply not_eq_sym, claim_not_lock).
  - simpl. by rewrite lookup_insert_ne by (by apply not_eq_sym, ne_lock).
  - intros v2 [D K I]. rets. apply H. constructor; [|done|congruence]. rewrite D. simpl.
    by rewrite delete_insert_id.
Qed.
End Solo.
