(* ===== verification/LockTheorems.v ===== *)
(** Properties of the cross-runtime mutation lock. *)

From stdpp Require Import base strings list sets gmap pretty.
From Stdlib Require Import ZArith Lia.
From S2P Require Import Prelude PyFloat PyValue FileLock LockWorld LockLogic LockCalls LockProtocol.
From S2P Require Import LockSolo.

Open Scope Z_scope.

(** * Exclusion *)

(** A directory as the threads [live w] find it: every file was there before
    them, the record of a marker names none of their tokens, and none of them
    is inside. *)
Record found (pid_of : nat → Z) (token_of : nat → string) (lock : string) (w : world) : Prop := {
  found_fresh : ∀ f, (next w ≤ f)%nat → inodes w !! f = None;
  found_linked : ∀ p f, dir w !! p = Some f → is_Some (inodes w !! f);
  found_old : ∀ f x, inodes w !! f = Some x → creator x = None;
  found_token : ∀ f x o t, t ∈ live w → linked w lock f x → owner_in x = Some o →
    owner_token o ≠ token_of t;
  found_distinct : ∀ t u, t ∈ live w → u ∈ live w → token_of t = token_of u → t = u;
  found_usable : ∀ t, t ∈ live w → usable_token (token_of t) = true ∧ 0 < pid_of t;
  found_alive : ∀ t, t ∈ live w → pid_of t ∉ dead w;
  found_outside : inside w = ∅
}.

Section Exclusion.
Context (fs : filesystem) (sha256_hexdigest : string → string).
Context (pid_of : nat → Z) (token_of : nat → string) (path : string).
Context (rounds : nat → nat) (timeout : nat → Z) (body : nat → res unit).
Notation lock := (_effect_mutation_lock_path path).

(** Every live thread is about to run [with exclusive_mutation_file_lock(path)]
    with its own token. *)
Definition sessions (c : config) : Prop :=
  ∀ t, t ∈ live (wd c) → pool c !! t =
    Some (exclusive_mutation_file_lock sha256_hexdigest (pid_of t) (rounds t) path (token_of t)
            (timeout t) (body t)).

Context (Hres : replacement_resistant fs).

Lemma found_inv w : found pid_of token_of lock w → inv pid_of token_of lock w.
Proof.
  intros [F1 F2 F3 F4 F7 F8 F5 F6]. constructor; [constructor; try done|].
  - intros f x u o H C. rewrite (F3 f x H) in C. done.
  - intros f x o t Ht H O E. by destruct (F4 f x o t Ht H O).
  - rewrite F6. set_solver.
  - intros t _ p f x _ [_ H] C. rewrite (F3 f x H) in C. done.
Qed.

Lemma sessions_covered c :
  found pid_of token_of lock (wd c) → sessions c →
  covered fs sha256_hexdigest pid_of token_of lock c.
Proof.
  intros F S. split; [by apply found_inv|]. intros t Ht. eexists. split; [by apply S|].
  exists (wd c). split; [apply rely_refl|]. destruct (found_usable _ _ _ _ F t Ht) as [Hu Hp]. apply session_spec; try done. split.
  - intros p f x _ [_ H] C. rewrite (found_old _ _ _ _ F f x H) in C. done.
  - rewrite (found_outside _ _ _ _ F). set_solver.
Qed.

Lemma along_calm ls c :
  along fs pid_of brisk ls c → along fs pid_of (claims_attended lock) ls c →
  along fs pid_of (calm lock) ls c.
Proof.
  revert c. induction ls as [|l ls IH]; intros c; simpl; [by intros [? _] [? _]|].
  intros [A1 A2] [B1 B2]. split; [done|]. destruct (step fs pid_of l c); auto.
Qed.

Lemma along_last P ls c c' : along fs pid_of P ls c → run fs pid_of ls c = Some c' → P (wd c').
Proof.
  unfold run. revert c. induction ls as [|l ls IH]; intros c; simpl.
  - by intros [? _] [= ->].
  - intros [_ A] Hr. destruct (step fs pid_of l c) as [c1|]; simpl in Hr; [by eapply IH|].
    exfalso. clear -Hr. induction ls; simpl in Hr; done.
Qed.

(** C2: mutual exclusion.  Threads of any processes find any directory and run
    [with exclusive_mutation_file_lock(path)] with tokens of their own.  They
    interleave between any two calls; processes crash anywhere but with a claim
    in their hands; calls fail; pids are reused; time passes.  If files have
    identities of their own, reads of existing files succeed, no thread that is
    awake pauses for two seconds between two calls, and no claim outlives its
    thread, then at most one live thread is inside the body. *)
Theorem mutation_lock_exclusive ls c c' t u :
  found pid_of token_of lock (wd c) → sessions c →
  Forall reads_succeed ls → along fs pid_of brisk ls c → along fs pid_of (claims_attended lock) ls c →
  run fs pid_of ls c = Some c' →
  t ∈ inside (wd c') → t ∈ live (wd c') → u ∈ inside (wd c') → u ∈ live (wd c') → t = u.
Proof.
  intros F S R B A Hr Ht Lt Hu Lu.
  destruct (covered_run _ _ _ _ _ _ _ _ (along_calm _ _ B A) R Hr (sessions_covered c F S)) as [I _].
  by eapply inv_exclusive.
Qed.

(** C12: nobody loses its marker.  Under the assumptions of the exclusion
    theorem, a marker disappears only by a call of the thread that created it,
    or when that thread has ended: neither the release nor the reclaiming of
    any other thread removes the marker of a running one. *)
Theorem mutation_lock_removal ls c c1 l c2 f x :
  found pid_of token_of lock (wd c) → sessions c →
  Forall reads_succeed ls → reads_succeed l →
  along fs pid_of brisk ls c → along fs pid_of (claims_attended lock) ls c →
  run fs pid_of ls c = Some c1 → step fs pid_of l c1 = Some c2 →
  file_at (wd c1) lock = Some (f, x) → dir (wd c2) !! lock ≠ Some f →
  ∃ t ch, l = Act t ch ∧ (creator x = Some t ∨ ∀ u, creator x = Some u → u ∉ live (wd c1)).
Proof.
  intros F S R Rl B A Hr Hs Hx Hd. pose proof (along_calm _ _ B A) as C.
  destruct (covered_run _ _ _ _ _ _ _ _ C R Hr (sessions_covered c F S)) as [I P].
  destruct (along_last _ _ _ _ C Hr) as [HB HC].
  assert (linked (wd c1) lock f x) as Hl.
  { unfold file_at in Hx. destruct (dir (wd c1) !! lock) as [g|] eqn:E; simpl in Hx; [|done].
    destruct (inodes (wd c1) !! g) as [y|] eqn:E'; simpl in Hx; [|done]. by simplify_eq. }
  destruct l as [t ch|d|pid]; simpl in Hs; [|simplify_eq/=; by destruct Hl|simplify_eq/=; by destruct Hl].
  case_bool_decide as Lt; [|done]. destruct (P t Lt) as (o & Ho & w0 & R0 & W). rewrite Ho in Hs.
  destruct o as [?|T o k]; [done|].
  destruct (W (wd c1) R0 (Build_good _ _ _ _ _ I HB HC Lt) ch Rl) as (G & _ & _).
  destruct (exec fs t o ch (wd c1)) as [r w] eqn:E. simplify_eq/=.
  assert (dir (finish t (k r) w) = dir w) as Ed by (by unfold finish; destruct (k r)). rewrite Ed in Hd.
  exists t, ch. split; [done|].
  destruct (g_removed _ _ _ _ _ G lock f x (lock_tracked lock) Hl) as [?|[?|(_ & Cx & _)]]; [done|by left|by right].
Qed.

End Exclusion.

(** * One session *)


(** A zero-wait session never takes a marker whose owner is not gone (a
    running process, or no record yet and younger than ten seconds): it raises
    the timeout error, and no file, name or time of change is different. *)
Theorem mutation_lock_refusal fs sha256_hexdigest getpid path token t uuid n timeout body w f x :
  let lock := _effect_mutation_lock_path path in
  let out := solo fs t uuid
    (exclusive_mutation_file_lock sha256_hexdigest getpid (S n) path token timeout body) w in
  file_at w lock = Some (f, x) → content x ≠ NotUtf8 → probeable x →
  abandoned (view_of w) x = false → timeout ≤ 0 →
  out.1 = Err lock_acquire_timeout ∧ view_of out.2 = view_of w.
Proof.
  intros lock out Hx Hd Hpr Hab Ht.
  enough (ends fs t uuid
    (exclusive_mutation_file_lock sha256_hexdigest getpid (S n) path token timeout body)
    (λ r v', r = Err lock_acquire_timeout ∧ v' = view_of w) (view_of w)) as E by exact (E w eq_refl).
  rewrite file_at_view in Hx. destruct (v_file_dir _ _ _ _ Hx) as [Hx1 _].
  unfold exclusive_mutation_file_lock. apply ends_bind, ends_monotonic, ends_ok.
  cbn [_acquire]. apply ends_assoc. unfold open_excl.
  apply ends_bind, ends_bind, ends_open_exists; [by eexists|]. do 2 apply ends_ok.
  apply ends_assoc. eapply reclaim_refused; try done.
  cbn [andb]. apply ends_assoc, ends_bind, ends_monotonic, ends_ok.
  rewrite (proj2 (Z.leb_le _ _)) by (simpl; lia). apply ends_bind. by apply ends_ret.
Qed.

(** C26: markers that nobody can recover from.  A marker that is not UTF-8, or
    whose record has a pid beyond the C type of [os.kill], makes every session
    raise [UnicodeDecodeError] or [OverflowError], whatever its timeout and
    however old the marker is; the ten-second rule for invalid markers does not
    apply, and the marker stays. *)
Theorem mutation_lock_corrupt fs sha256_hexdigest getpid path token t uuid n timeout body w f x :
  let lock := _effect_mutation_lock_path path in
  let out := solo fs t uuid
    (exclusive_mutation_file_lock sha256_hexdigest getpid (S n) path token timeout body) w in
  file_at w lock = Some (f, x) →
  (content x = NotUtf8 →
     out.1 = Err (mk_exn "UnicodeDecodeError" "utf-8") ∧ view_of out.2 = view_of w) ∧
  (∀ o, owner_in x = Some o → pid_max < owner_pid o →
     out.1 = Err (mk_exn "OverflowError" "signed integer is greater than maximum") ∧
     view_of out.2 = view_of w).
Proof.
  intros lock out Hx. rewrite file_at_view in Hx. destruct (v_file_dir _ _ _ _ Hx) as [Hx1 _].
  assert (∀ e, ends fs t uuid (_reclaim_stale_effect_mutation_lock sha256_hexdigest getpid lock)
    (λ r v', r = Err e ∧ v' = view_of w) (view_of w) → out.1 = Err e ∧ view_of out.2 = view_of w) as K.
  { intros e E.
    enough (ends fs t uuid
      (exclusive_mutation_file_lock sha256_hexdigest getpid (S n) path token timeout body)
      (λ r v', r = Err e ∧ v' = view_of w) (view_of w)) as E' by exact (E' w eq_refl).
    unfold exclusive_mutation_file_lock. apply ends_bind, ends_monotonic, ends_ok.
    cbn [_acquire]. apply ends_assoc. unfold open_excl.
    apply ends_bind, ends_bind, ends_open_exists; [by eexists|]. do 2 apply ends_ok.
    apply ends_assoc, ends_bind. eapply ends_mono, E. by intros [b|e'] v' [E1 ->]; simplify_eq. }
  split.
  - intros Hc. apply K. unfold _reclaim_stale_effect_mutation_lock. apply ends_identity. rewrite Hx.
    apply ends_bind, ends_bind, ends_read. rewrite Hx, Hc. by do 2 apply ends_ret.
  - intros o Ho Hp. apply K. unfold _reclaim_stale_effect_mutation_lock. apply ends_identity. rewrite Hx.
    apply ends_owner.
    { intros g y Hy. rewrite Hx in Hy. simplify_eq. intros E. unfold owner_in in Ho. by rewrite E in Ho. }
    rewrite Hx, Ho. apply ends_bind. cbn [not_abandoned]. unfold process_is_alive.
    rewrite (proj2 (Z.leb_gt _ 0)) by (by eapply owner_pid_pos). apply ends_bind.
    eapply ends_call with (r := BadPid) (v' := view_of w).
    + intros w1 E1. simpl. unfold exec_kill. by rewrite (proj2 (Z.ltb_lt _ _)).
    + by do 2 apply ends_ret.
Qed.

(** * Identities *)

(** The comparison of identities is symmetric, fails for a file that could not
    be looked at and for two files without any marker, and, where a device and
    an inode are exposed, does not depend on the times of change. *)
Theorem same_identity_laws l r :
  _same_effect_file_identity l r = _same_effect_file_identity r l ∧
  _same_effect_file_identity None r = false ∧
  (∀ i j, l = Some i → r = Some j →
     (st_dev i, st_ino i, st_birthtime_ns i, st_ctime_ns i) = (0, 0, 0, 0) →
     _same_effect_file_identity l r = false) ∧
  (∀ i j c, l = Some i → r = Some j → (st_dev i, st_ino i) ≠ (0, 0) →
     _same_effect_file_identity l r =
     _same_effect_file_identity l (Some {| st_dev := st_dev j; st_ino := st_ino j;
       st_birthtime_ns := st_birthtime_ns j; st_ctime_ns := c |})).
Proof.
  unfold _same_effect_file_identity. split; [|split; [done|split]].
  - destruct l as [[a b c d]|], r as [[a' b' c' d']|]; try done. simpl.
    rewrite (Z.eqb_sym a' a), (Z.eqb_sym b' b), (Z.eqb_sym c' c), (Z.eqb_sym d' d), (Bool.orb_comm (negb (c' =? 0))).
    rewrite (Bool.andb_comm (negb (c' =? 0))), (Bool.andb_comm (negb (d' =? 0))).
    by destruct ((a =? 0) && (b =? 0)), ((a' =? 0) && (b' =? 0)).
  - intros i j -> -> [= E1 E2 E3 E4]. rewrite E1, E2, E3, E4. simpl.
    by repeat case_match.
  - intros i j c -> -> N. simpl.
    assert ((st_dev i =? 0) && (st_ino i =? 0) = false) as ->.
    { apply andb_false_iff. destruct (Z.eqb_spec (st_dev i) 0), (Z.eqb_spec (st_ino i) 0); try tauto. congruence. }
    done.
Qed.
