(* ===== verification/LockExamples.v ===== *)
(** Concrete runs of the mutation lock: examples of the theorems of
    [LockTheorems], and one run for each assumption of the exclusion theorem
    that shows two holders when that assumption alone fails. *)

From stdpp Require Import base strings list sets gmap pretty.
From Stdlib Require Import ZArith Lia.
From S2P Require Import Prelude PyFloat PyValue FileLock LockWorld LockLogic LockCalls LockProtocol.
From S2P Require Import LockSolo LockTheorems.

Open Scope Z_scope.

(** * A small system *)

(** Every file has an inode and a birth time of its own. *)
Definition distinct_inodes : filesystem :=
  {| dev_of := λ _, 1; ino_of := λ f, Z.of_nat f + 1; birth_of := λ f, Z.of_nat f + 1 |}.

(** No birth times, and the file 3 has got the inode of the file 0. *)
Definition reused_inode : filesystem :=
  {| dev_of := λ _, 1; ino_of := λ f, if decide (f = 3%nat) then 1 else Z.of_nat f + 1;
     birth_of := λ _, 0 |}.

Definition target : string := "state.json".
Definition marker : string := _effect_mutation_lock_path target.
Definition thread_pid (t : nat) : Z := 100 + Z.of_nat t.
Definition thread_token (t : nat) : string := "token-" ++ pretty t.
Definition digest (s : string) : string := s.

Definition thread (t : nat) : prog unit :=
  exclusive_mutation_file_lock digest (thread_pid t) 3 target (thread_token t) 0 (Ok tt).

Definition record (pid : Z) (token : string) : read_result :=
  Parsed (PMap false [(Some "pid", PInt pid); (Some "token", PStr token)]).

(** The directory at the time of 20 seconds; the process 7 has ended. *)
Definition system (lk cl : option read_result) (threads : list nat) : config :=
  Config
    (World
       (match cl with Some _ => <[marker ++ ".claim.dead" := 1%nat]> | None => id end
          (match lk with Some _ => {[marker := 0%nat]} | None => ∅ end))
       (match cl with Some c => <[1%nat := File c 0 None]> | None => id end
          (match lk with Some c => {[0%nat := File c 0 None]} | None => ∅ end))
       2 20000000000 {[7]} (list_to_set threads) ∅ ∅)
    (list_to_map ((λ t, (t, thread t)) <$> threads)).

(** [n] ordinary calls of a thread; a call whose read fails; 12 seconds. *)
Definition calls (t n : nat) : list label := replicate n (Act t (fair "u")).
Definition failing_read (t : nat) : list label :=
  [Act t {| ch_fail := false; ch_read_fail := true; ch_written := false; ch_reused := false; ch_uuid := "u" |}].
Definition long_pause : list label := [Tick 12000000000].

Lemma system_found lk cl threads :
  Forall (λ t, (t < 3)%nat) threads →
  match lk with Some c => ∀ o, owner_in (File c 0 None) = Some o → owner_token o = "dead" | None => True end →
  found thread_pid thread_token marker (wd (system lk cl threads)).
Proof.
  intros Ht Ho. rewrite Forall_forall in Ht.
  assert (∀ t, t ∈ live (wd (system lk cl threads)) → t = 0%nat ∨ t = 1%nat ∨ t = 2%nat) as Hl.
  { intros t. simpl. rewrite elem_of_list_to_set. intros H. specialize (Ht t H). lia. }
  constructor; simpl.
  - intros f Hf. destruct cl, lk; simpl; rewrite ?lookup_insert_ne, ?lookup_singleton_ne by lia; done.
  - intros p f H. assert (f = 0%nat ∧ is_Some lk ∨ f = 1%nat ∧ is_Some cl) as [[-> [c ->]]|[-> [c ->]]].
    { destruct cl as [c|]; simpl in H; [apply lookup_insert_Some in H as [[_ <-]|[_ H]]; [by right|]|];
        (destruct lk as [c'|]; [apply lookup_singleton_Some in H as [_ <-]; by left|done]). }
    + destruct cl; simpl; rewrite ?lookup_insert_ne by lia; rewrite lookup_singleton_eq; eauto.
    + simpl. rewrite lookup_insert_eq. eauto.
  - intros f x H. destruct cl as [c|]; simpl in H; [apply lookup_insert_Some in H as [[_ <-]|[_ H]]; [done|]|];
      (destruct lk as [c'|]; [by apply lookup_singleton_Some in H as [_ <-]|done]).
  - intros f x o t Hlt [H1 H2] O. simpl in *.
    assert (∃ c, lk = Some c ∧ x = File c 0 None) as (c & -> & ->).
    { destruct lk as [c|].
      - exists c. split; [done|].
        assert (f = 0%nat) as ->.
        { destruct cl; simpl in H1; rewrite ?lookup_insert_ne in H1 by done;
            rewrite lookup_singleton_eq in H1; by simplify_eq. }
        destruct cl; simpl in H2; rewrite ?lookup_insert_ne in H2 by done;
          rewrite lookup_singleton_eq in H2; by simplify_eq.
      - exfalso. destruct cl; simpl in H1; [rewrite lookup_insert_ne in H1 by done|]; done. }
    rewrite (Ho o O). destruct (Hl t Hlt) as [->|[->| ->]]; vm_compute; congruence.
  - intros t u Htl Hul E.
    destruct (Hl t Htl) as [->|[->| ->]], (Hl u Hul) as [->|[->| ->]]; vm_compute in E; congruence.
  - intros t Htl. destruct (Hl t Htl) as [->|[->| ->]]; vm_compute; done.
  - intros t Htl. destruct (Hl t Htl) as [->|[->| ->]]; rewrite elem_of_singleton; vm_compute; congruence.
  - done.
Qed.

Lemma system_sessions lk cl threads :
  NoDup threads →
  sessions digest thread_pid thread_token target (λ _, 3%nat) (λ _, 0) (λ _, Ok tt)
    (system lk cl threads).
Proof.
  intros N t. simpl. rewrite elem_of_list_to_set. intros H.
  apply elem_of_list_to_map_1.
  - rewrite <- list_fmap_compose. replace (fst ∘ _ <$> threads) with threads; [done|].
    clear. induction threads as [|t l IH]; [done|]. exact (f_equal (cons t) IH).
  - apply list_elem_of_fmap. by exists t.
Qed.

Lemma distinct_inodes_resist : replacement_resistant distinct_inodes.
Proof.
  intros f g x y. unfold _same_effect_file_identity, ident. simpl.
  destruct (Z.eqb_spec (Z.of_nat f + 1) (Z.of_nat g + 1)) as [E|E]; [intros _; lia|done].
Qed.

Ltac by_evaluation := refine (bool_decide_eq_true_1 _ _); vm_compute; reflexivity.

(** * Two holders when an assumption fails *)

(** After the run [ls], both threads are inside and alive. *)
Definition overlap (fs : filesystem) (ls : list label) (c : config) (t u : nat) : Prop :=
  match run fs thread_pid ls c with
  | Some c' => t ∈ inside (wd c') ∧ t ∈ live (wd c') ∧ u ∈ inside (wd c') ∧ u ∈ live (wd c')
  | None => False
  end.

#[local] Instance overlap_dec fs ls c t u : Decision (overlap fs ls c t u).
Proof. unfold overlap. destruct (run fs thread_pid ls c); apply _. Defined.

Definition dead_record : read_result := record 7 "dead".

(** A marker and a claim of ended processes: both reclaimers pass the identity
    check of the old claim before either removes it, so the second removes the
    new claim of the first. *)
Definition orphan_claim : config := system (Some dead_record) (Some dead_record) [0; 1]%nat.
Definition orphan_claim_run : list label :=
  (calls 0 11 ++ calls 1 11 ++ calls 0 9 ++ calls 1 9 ++ calls 0 8 ++ calls 1 9)%list.

(** A holder pauses between creating its marker and writing its record. *)
Definition late_record : config := system None None [0; 1]%nat.
Definition late_record_run : list label := (calls 0 2 ++ long_pause ++ calls 1 23 ++ calls 0 3)%list.

(** Reads of the marker fail while its holder works. *)
Definition unread_marker_run : list label :=
  (calls 0 5 ++ long_pause ++ calls 1 3 ++ failing_read 1 ++ calls 1 6 ++ failing_read 1 ++ calls 1 12)%list.

(** An old marker without a record, whose inode is given to a later marker. *)
Definition inode_reuse : config := system (Some NotJson) None [0; 1; 2]%nat.
Definition inode_reuse_run : list label :=
  (calls 0 6 ++ calls 1 23 ++ [Crash 101] ++ calls 0 7 ++ calls 2 21 ++ calls 0 9)%list.


(** * Examples *)

Definition takeover : config := system (Some dead_record) None [0; 1]%nat.
Definition takeover_run : list label := (calls 1 4 ++ calls 0 21 ++ calls 1 1)%list.

Definition ended_in (ls : list label) (c : config) (P : world → Prop) : Prop :=
  match run distinct_inodes thread_pid ls c with Some c' => P (wd c') | None => False end.

#[local] Typeclasses Opaque ended_in.

#[local] Instance ended_in_dec ls c P `{!∀ w, Decision (P w)} : Decision (ended_in ls c P).
Proof. unfold ended_in. destruct (run distinct_inodes thread_pid ls c); apply _. Defined.

Lemma ended_in_run ls c P : ended_in ls c P → ∃ c', run distinct_inodes thread_pid ls c = Some c' ∧ P (wd c').
Proof. unfold ended_in. destruct (run distinct_inodes thread_pid ls c); [eauto|done]. Qed.

Lemma run_ended_in ls c c' (P : world → Prop) :
  run distinct_inodes thread_pid ls c = Some c' → P (wd c') → ended_in ls c P.
Proof. unfold ended_in. by intros ->. Qed.

(** The thread 0 takes the marker of a dead process over while the thread 1
    looks at it. *)
Lemma mutation_lock_exclusive_witness :
  ended_in takeover_run takeover (λ w, 0%nat ∈ inside w ∧ 0%nat ∈ live w ∧ 1%nat ∈ live w ∧
    ∀ t u, t ∈ inside w → t ∈ live w → u ∈ inside w → u ∈ live w → t = u).
Proof.
  assert (ended_in takeover_run takeover (λ w, 0%nat ∈ inside w ∧ 0%nat ∈ live w ∧ 1%nat ∈ live w)) as H
    by by_evaluation.
  apply ended_in_run in H as (c' & E & H1 & H2 & H3).
  apply (run_ended_in takeover_run takeover c'); [exact E|]. refine (conj H1 (conj H2 (conj H3 _))). intros t u.
  apply (mutation_lock_exclusive distinct_inodes digest thread_pid thread_token target
    (λ _, 3%nat) (λ _, 0) (λ _, Ok tt) distinct_inodes_resist takeover_run takeover c').
  - clear E. apply system_found; [repeat constructor|]. intros o O. vm_compute in O. by simplify_eq.
  - apply system_sessions. by_evaluation.
  - by_evaluation.
  - by_evaluation.
  - by_evaluation.
  - exact E.
Defined.

(** What the next call changes after a run. *)
Definition stepped_in (ls : list label) (l : label) (c : config) (P : world → world → Prop) : Prop :=
  match run distinct_inodes thread_pid ls c with
  | Some c1 =>
      match step distinct_inodes thread_pid l c1 with Some c2 => P (wd c1) (wd c2) | None => False end
  | None => False
  end.

#[local] Typeclasses Opaque stepped_in.

#[local] Instance stepped_in_dec ls l c P `{!∀ w w', Decision (P w w')} : Decision (stepped_in ls l c P).
Proof.
  unfold stepped_in. destruct (run _ _ ls c) as [c1|]; [|apply _]. destruct (step _ _ l c1); apply _.
Defined.

Lemma stepped_in_run ls l c P :
  stepped_in ls l c P → ∃ c1 c2, run distinct_inodes thread_pid ls c = Some c1 ∧
    step distinct_inodes thread_pid l c1 = Some c2 ∧ P (wd c1) (wd c2).
Proof.
  unfold stepped_in. destruct (run _ _ ls c) as [c1|]; [|done].
  destruct (step _ _ l c1) as [c2|] eqn:E; [|done]. eauto.
Qed.

Lemma run_stepped_in ls l c c1 c2 (P : world → world → Prop) :
  run distinct_inodes thread_pid ls c = Some c1 → step distinct_inodes thread_pid l c1 = Some c2 →
  P (wd c1) (wd c2) → stepped_in ls l c P.
Proof. unfold stepped_in. by intros -> ->. Qed.

(** The thread 0 moves the marker of the dead process away. *)
Lemma mutation_lock_removal_witness :
  stepped_in (calls 0 12) (Act 0 (fair "u")) takeover (λ w w', ∃ f x,
    file_at w marker = Some (f, x) ∧ dir w' !! marker ≠ Some f ∧
    ∃ t ch, Act 0 (fair "u") = Act t ch ∧ (creator x = Some t ∨ ∀ u, creator x = Some u → u ∉ live w)).
Proof.
  assert (stepped_in (calls 0 12) (Act 0 (fair "u")) takeover (λ w w',
    option_map fst (file_at w marker) = Some 0%nat ∧ dir w' !! marker = None)) as H by by_evaluation.
  apply stepped_in_run in H as (c1 & c2 & E1 & E2 & H1 & H2).
  apply (run_stepped_in _ _ _ c1 c2); [exact E1|exact E2|].
  destruct (file_at (wd c1) marker) as [[f x]|] eqn:Hx; [|discriminate H1]. exists f, x.
  assert (dir (wd c2) !! marker ≠ Some f) as Hd by (rewrite H2; discriminate).
  refine (conj eq_refl (conj Hd _)).
  apply (mutation_lock_removal distinct_inodes digest thread_pid thread_token target
    (λ _, 3%nat) (λ _, 0) (λ _, Ok tt) distinct_inodes_resist (calls 0 12) takeover c1
    (Act 0 (fair "u")) c2 f x).
  - clear. apply system_found; [repeat constructor|]. intros o O. vm_compute in O. by simplify_eq.
  - apply system_sessions. by_evaluation.
  - by_evaluation.
  - by_evaluation.
  - by_evaluation.
  - by_evaluation.
  - exact E1.
  - exact E2.
  - exact Hx.
  - exact Hd.
Defined.

Lemma distinct_inodes_same f x y :
  _same_effect_file_identity (Some (ident distinct_inodes f x)) (Some (ident distinct_inodes f y)) = true.
Proof.
  unfold _same_effect_file_identity, ident. simpl. rewrite !Z.eqb_refl.
  by rewrite (proj2 (Z.eqb_neq (Z.of_nat f + 1) 0)) by lia.
Qed.


(** The marker of a live process. *)
Definition busy : config := system (Some (record 8 "dead")) None [0%nat].

Lemma mutation_lock_refusal_witness :
  let out := solo distinct_inodes 0 "u"
    (exclusive_mutation_file_lock digest 100 3 target "token-0" 0 (Ok tt)) (wd busy) in
  out.1 = Err lock_acquire_timeout ∧ view_of out.2 = view_of (wd busy).
Proof.
  apply (mutation_lock_refusal distinct_inodes digest 100 target "token-0" 0 "u" 2 0 (Ok tt) (wd busy)
    0 (File (record 8 "dead") 0 None)).
  - reflexivity.
  - done.
  - intros o O. vm_compute in O. by simplify_eq.
  - by_evaluation.
  - done.
Defined.

(** A marker that is not UTF-8. *)
Definition garbled : config := system (Some NotUtf8) None [0%nat].

Lemma mutation_lock_corrupt_witness :
  let out := solo distinct_inodes 0 "u"
    (exclusive_mutation_file_lock digest 100 3 target "token-0" 0 (Ok tt)) (wd garbled) in
  out.1 = Err (mk_exn "UnicodeDecodeError" "utf-8") ∧ view_of out.2 = view_of (wd garbled).
Proof.
  apply (mutation_lock_corrupt distinct_inodes digest 100 target "token-0" 0 "u" 2 0 (Ok tt) (wd garbled)
    0 (File NotUtf8 0 None) ltac:(reflexivity)).
  reflexivity.
Defined.
