(* ===== verification/LaneFence.v ===== *)
(** Kernel locks with holder records ([try_exclusive_file_lock] and the holder
    records of [loopx/file_lock.py]) and the fence of a Turn lane
    ([loopx/control_plane/turn_driver/lane_fence.py]): one executing Turn per
    agent and goal.

    A [fence] is the lock file of one lane: its text, the owner of its kernel
    lock, and where every process is in its session.  Processes move one file
    operation at a time, in any order; an operation may fail, and a process may
    be killed anywhere, which frees its kernel lock.  The model is that of a
    POSIX host: the holder record is the text of the lock file. *)

From stdpp Require Import base strings list sets gmap.
From Stdlib Require Import ZArith Lia.
From S2P Require Import Prelude PyFloat PyValue FileLock.

(** * Labels *)

(** [re.sub("[^...]+", "_", s)]: every run of characters that are not kept
    becomes one underscore. *)
Fixpoint sub_runs (keep : Ascii.ascii → bool) (in_run : bool) (s : string) : string :=
  match s with
  | EmptyString => ""
  | String c s' =>
      if keep c then String c (sub_runs keep false s')
      else if in_run then sub_runs keep true s' else "_" ++ sub_runs keep true s'
  end.

(** [s.strip(chars)]. *)
Fixpoint lstrip_set (p : Ascii.ascii → bool) (s : string) : string :=
  match s with
  | EmptyString => ""
  | String c s' => if p c then lstrip_set p s' else s
  end.

Fixpoint rstrip_set (p : Ascii.ascii → bool) (s : string) : string :=
  match s with
  | EmptyString => ""
  | String c s' =>
      match rstrip_set p s' with
      | EmptyString => if p c then "" else String c ""
      | t => String c t
      end
  end.

Definition or_else (s fallback : string) : string := if is_empty s then fallback else s.

Section Labels.
(** [str] of values that are not texts. *)
Variable str_of : pyval → string.

(** The characters that the pattern does not match. *)
Definition _SAFE_LABEL_PATTERN (c : Ascii.ascii) : bool := alphanumeric c || one_of "._:@-" c.

Definition _safe_label (value : pyval) (fallback : string) : string :=
  let text := sub_runs _SAFE_LABEL_PATTERN false (py_strip (str_or_empty str_of value)) in
  let compact := rstrip_set (one_of "._-") (lstrip_set (one_of "._-") text) in
  or_else (String.substring 0 128 compact) fallback.

(** * Holder records *)

Definition LOCK_HOLDER_SCHEMA_VERSION : string := "file_lock_holder_v0".

Inductive LockAcquisitionPolicy := MUTATION | MONITOR | SINGLE_FLIGHT.

Definition policy_value (p : LockAcquisitionPolicy) : string :=
  match p with MUTATION => "mutation" | MONITOR => "monitor" | SINGLE_FLIGHT => "single_flight" end.

(** [hostname]: [socket.gethostname()]. *)
Definition lock_holder_host_label (hostname : string) : string := _safe_label (PStr hostname) "unknown".

(** [environ]: the variable [LOOPX_AGENT_ID]. *)
Definition _identity (pid : Z) (hostname : string) (environ agent_id operation : pyval)
    (policy : LockAcquisitionPolicy) : items :=
  [(Some "pid", PInt pid);
   (Some "host", PStr (lock_holder_host_label hostname));
   (Some "agent_id", PStr (_safe_label (por agent_id environ) "unknown"));
   (Some "operation", PStr (_safe_label (por operation (PStr (policy_value policy))) (policy_value policy)))].

Definition _holder_record (lock_id : string) (identity : items) (policy : LockAcquisitionPolicy)
    (acquired_at : string) : items :=
  ((Some "schema_version", PStr LOCK_HOLDER_SCHEMA_VERSION) :: (Some "lock_id", PStr lock_id)
   :: (Some "policy", PStr (policy_value policy)) :: identity ++ [(Some "acquired_at", PStr acquired_at)])%list.

(** The record that [_mark_released] writes. *)
Definition released_record (record : items) (released_at : string) : items :=
  pset "released_at" (PStr released_at) record.

Definition _HOLDER_RECORD_FIELDS : list string :=
  ["schema_version"; "lock_id"; "policy"; "host"; "pid"; "agent_id"; "operation"; "acquired_at"; "released_at"].

(** The order of a [frozenset] does not matter here: the result is only looked
    up. *)
Definition _filter_holder_record (payload : pyval) : items :=
  match payload with
  | PMap _ d =>
      omap (λ k, if bool_decide (Some k ∈ d.*1) then Some (Some k, pget k d) else None) _HOLDER_RECORD_FIELDS
  | _ => []
  end.

(** One holder path on a POSIX host; [max] of at most one record is that
    record. *)
Definition _read_latest_holder_record (path : string) : prog (items * bool) :=
  r ← call (Read path);
  match r with
  | Missing => mret ([], false)
  | ReadError | NotUtf8 => mret ([], true)
  | NotJson => mret ([], true)
  | Parsed v =>
      match _filter_holder_record v with
      | [] => mret ([], true)
      | record => mret (record, false)
      end
  end.

Definition LOCK_HOLDER_LIVE : string := "live".
Definition LOCK_HOLDER_RELEASED : string := "released".
Definition LOCK_HOLDER_DEAD : string := "dead".
Definition LOCK_HOLDER_FOREIGN_HOST : string := "foreign_host".
Definition LOCK_HOLDER_UNREADABLE : string := "unreadable".
Definition LOCK_HOLDER_ABSENT : string := "absent".

Definition lock_holder_liveness (hostname path : string) : prog (string * items) :=
  latest ← _read_latest_holder_record path;
  match latest with
  | ([], unreadable) => mret (if (unreadable : bool) then LOCK_HOLDER_UNREADABLE else LOCK_HOLDER_ABSENT, [])
  | (record, _) =>
      if (match pget "released_at" record with PStr s => negb (is_empty s) | _ => false end)
      then mret (LOCK_HOLDER_RELEASED, record)
      else if negb (match pget "host" record with
                    | PStr h => String.eqb h (lock_holder_host_label hostname) | _ => false end)
      then mret (LOCK_HOLDER_FOREIGN_HOST, record)
      else
        match pget "pid" record with
        | PInt pid =>
            alive ← process_is_alive (PInt pid);
            mret (if (alive : bool) then LOCK_HOLDER_LIVE else LOCK_HOLDER_DEAD, record)
        | _ => mret (LOCK_HOLDER_UNREADABLE, record)
        end
  end.

(** * The lane *)

Definition TURN_LANE_IN_FLIGHT : string := "turn_lane_in_flight".
Definition REMEDY_WAIT_FOR_IN_FLIGHT_TURN : string := "wait_for_in_flight_turn".
Definition TURN_LANE_OPERATION : string := "loopx_turn_lane".
Definition TURN_LANE_DIR_NAME : string := ".lanes".
Definition TURN_LANE_UNATTRIBUTED_AGENT : string := "unattributed".
Definition TURN_LANE_HOLDER_TEXT_FIELDS : list string := ["agent_id"; "operation"; "acquired_at"; "host"].
Definition TURN_LANE_NO_EFFECTS : items :=
  [(Some "host_invoked", PBool false); (Some "state_written", PBool false);
   (Some "quota_spent", PBool false); (Some "scheduler_acknowledged", PBool false)].

Definition turn_lane_agent_id (plan : items) : string :=
  match pget "turn_envelope" plan with
  | PMap _ envelope =>
      or_else (py_strip (str_or_empty str_of (pget "agent_id" envelope))) TURN_LANE_UNATTRIBUTED_AGENT
  | _ => TURN_LANE_UNATTRIBUTED_AGENT
  end.

(** The characters that the pattern does not match. *)
Definition _LANE_NAME_UNSAFE (c : Ascii.ascii) : bool := alphanumeric c || one_of "_.-" c.

(** The path below a root and for a goal id that is one path component. *)
Definition turn_lane_target (sha256_hexdigest : string → string) (runtime_root goal_id : string)
    (plan : items) : string :=
  let agent_id := turn_lane_agent_id plan in
  let readable := or_else (String.substring 0 64 (sub_runs _LANE_NAME_UNSAFE false agent_id))
                    TURN_LANE_UNATTRIBUTED_AGENT in
  let digest := String.substring 0 12 (sha256_hexdigest (goal_id ++ String (Ascii.ascii_of_N 0) agent_id)) in
  join "/" [runtime_root; "goals"; goal_id; "turns"; TURN_LANE_DIR_NAME; readable ++ "-" ++ digest ++ ".lane"].

Definition _public_holder (record : items) : items :=
  let texts := omap (λ field, match pget field record with
                              | PStr s => if is_empty s then None else Some (Some field, PStr s)
                              | _ => None end) TURN_LANE_HOLDER_TEXT_FIELDS in
  match pget "pid" record with
  | PInt n => (texts ++ [(Some "pid", PInt n)])%list
  | PBool b => (texts ++ [(Some "pid", PBool b)])%list
  | _ => texts
  end.

Definition turn_lane_holder_readback (hostname path : string) : prog items :=
  seen ← lock_holder_liveness hostname path;
  mret (_public_holder seen.2).

Definition turn_lane_liveness (hostname path : string) : prog items :=
  seen ← lock_holder_liveness hostname path;
  mret [(Some "state", PStr seen.1); (Some "holder", PMap false (_public_holder seen.2))].

Definition turn_lane_in_flight_record (plan holder : items) : items :=
  let kind := match pget "host" plan with
              | PMap false host => str_or_empty str_of (pget "kind" host) | _ => "" end in
  ([(Some "status", PStr "unavailable");
    (Some "host", PMap false [(Some "executable", PStr "not_invoked"); (Some "kind", PStr kind)]);
    (Some "reason", PStr TURN_LANE_IN_FLIGHT);
    (Some "remediation", PSeq false [PStr REMEDY_WAIT_FOR_IN_FLIGHT_TURN])]
   ++ match holder with [] => [] | _ => [(Some "in_flight", PMap false holder)] end)%list.

Definition turn_lane_in_flight_projection (journal : items) : items :=
  match pget "in_flight" journal with
  | PMap _ holder => [(Some "in_flight", PMap false holder)]
  | _ => []
  end.

(** What [single_lane_turn] does: it runs the Turn without a fence, asks for the
    fence of a target, or, when the fence was asked for, runs the Turn or
    answers with the payload of a refusal. *)
Inductive lane_decision :=
| RunUnfenced
| TakeFence (goal_id : string).

Definition lane_decide (execute runtime_root goal_id : pyval) : lane_decision :=
  let goal := str_or_empty str_of goal_id in
  if negb (truthy execute) || is_none runtime_root || is_empty goal then RunUnfenced
  else TakeFence goal.

Inductive lane_answer :=
| RunTurn
| Refuse (record effects : items) (execute replayed : bool).

(** [held]: the value that [turn_lane_singleflight] yields is not [None]. *)
Definition lane_answer_for (hostname path : string) (plan : items) (held : bool) : prog lane_answer :=
  if held then mret RunTurn
  else
    holder ← turn_lane_holder_readback hostname path;
    mret (Refuse (turn_lane_in_flight_record plan holder) TURN_LANE_NO_EFFECTS true false).

End Labels.

(** * Sessions of [try_exclusive_file_lock] *)

Record lock_session := {
  s_pid : Z;
  s_record : items;
  s_released_at : string;
  s_preserve_holder : bool
}.

(** The session of [turn_lane_singleflight]. *)
Definition lane_session (str_of : pyval → string) (plan : items) (pid : Z) (hostname : string)
    (environ : pyval) (lock_id acquired_at released_at : string) : lock_session :=
  {| s_pid := pid;
     s_record := _holder_record lock_id
       (_identity str_of pid hostname environ (PStr (turn_lane_agent_id str_of plan))
          (PStr TURN_LANE_OPERATION) SINGLE_FLIGHT) SINGLE_FLIGHT acquired_at;
     s_released_at := released_at;
     s_preserve_holder := false |}.

(** Where a session is: before its [open], before [flock], then (holding the
    lock) before the two operations that write its record, in the body of the
    [with], before the two operations that mark the record released, and before
    the unlock. *)
Inductive position :=
| AtOpen | AtLock | AtTruncate | AtWrite | InBody | AtMark | AtMarkWrite | AtUnlock | WasRefused | Ended.

Definition holds_lock (p : position) : bool :=
  match p with AtTruncate | AtWrite | InBody | AtMark | AtMarkWrite | AtUnlock => true | _ => false end.

Record fence := Fence {
  lock_text : option read_result;
  kernel_owner : option nat;
  positions : gmap nat position
}.

Inductive fence_event := Move (t : nat) (succeeds : bool) | Killed (t : nat).

Section Sessions.
Variable sessions : nat → lock_session.

Definition record_text (items : items) : read_result := Parsed (PMap false items).

(** One operation of a session: the text it leaves, the owner and the next
    position. *)
Definition session_move (t : nat) (ok : bool) (p : position) (text : option read_result) (owner : option nat)
    : option read_result * option nat * position :=
  let s := sessions t in
  match p with
  | AtOpen => if ok then (Some (default NotJson text), owner, AtLock) else (text, owner, Ended)
  | AtLock =>
      if negb ok then (text, owner, Ended)
      else match owner with
      | Some _ => (text, owner, WasRefused)
      | None => (text, Some t, if s_preserve_holder s then InBody else AtTruncate)
      end
  | AtTruncate => if ok then (Some NotJson, owner, AtWrite) else (text, owner, AtMark)
  | AtWrite => if ok then (Some (record_text (s_record s)), owner, InBody) else (text, owner, AtMark)
  | InBody => (text, owner, if s_preserve_holder s then AtUnlock else AtMark)
  | AtMark => if ok then (Some NotJson, owner, AtMarkWrite) else (text, owner, AtUnlock)
  | AtMarkWrite =>
      (if ok then Some (record_text (released_record (s_record s) (s_released_at s))) else text, owner, AtUnlock)
  | AtUnlock => (text, None, Ended)
  | WasRefused | Ended => (text, owner, p)
  end.

Definition fence_step (e : fence_event) (f : fence) : fence :=
  match e with
  | Move t ok =>
      match positions f !! t with
      | Some p =>
          let '(text, owner, p') := session_move t ok p (lock_text f) (kernel_owner f) in
          Fence text owner (<[t := p']> (positions f))
      | None => f
      end
  | Killed t =>
      Fence (lock_text f) (if bool_decide (kernel_owner f = Some t) then None else kernel_owner f)
        (delete t (positions f))
  end.

Definition fence_run (es : list fence_event) (f : fence) : fence := foldl (λ f e, fence_step e f) f es.

(** Nobody holds the lock, whatever its text is. *)
Definition fence_start (f : fence) : Prop :=
  kernel_owner f = None ∧ map_Forall (λ _ p, p = AtOpen) (positions f).

End Sessions.

(** The answer of a program that only reads the lock file and probes pids. *)
Fixpoint observed (text : option read_result) (probe : Z → kill_result) {A} (p : prog A) : option (res A) :=
  match p with
  | Ret r => Some r
  | Call o k =>
      match o in op R return (R → option (res A)) → option (res A) with
      | Read _ => λ h, h (default Missing text)
      | Kill n => λ h, h (probe n)
      | _ => λ _, None
      end (λ x, observed text probe (k x))
  end.
