(* ===== verification/LaneTheorems.v ===== *)
(** Properties of the fence of a Turn lane. *)

From stdpp Require Import base strings list sets gmap.
From Stdlib Require Import ZArith Lia.
From S2P Require Import Prelude PyFloat PyValue FileLock LaneFence.

(** * Records *)

Lemma pget_absent k (d : items) : Some k ∉ d.*1 → pget k d = PNone.
Proof.
  induction d as [|[k' v] d IH]; simpl; [done|]. rewrite not_elem_of_cons. intros [N M].
  case_decide; [congruence|auto].
Qed.

(** Filtering a record keeps what is looked up in it. *)
Lemma filter_pget fz d k :
  k ∈ _HOLDER_RECORD_FIELDS → pget k (_filter_holder_record (PMap fz d)) = pget k d.
Proof.
  unfold _filter_holder_record. generalize _HOLDER_RECORD_FIELDS. intros l.
  induction l as [|h l IH]; [by rewrite elem_of_nil|]. rewrite elem_of_cons. cbn [omap list_omap].
  intros H. destruct (decide (k = h)) as [->|N].
  - case_bool_decide as D; cbn [pget]; [by rewrite decide_True by done|].
    rewrite (pget_absent h d) by done.
    destruct (decide (h ∈ l)) as [Hl|Hl]; [by rewrite IH, (pget_absent h d) by done|].
    apply pget_absent. intros E. apply list_elem_of_fmap in E as ([k' v] & Ek & E).
    apply list_elem_of_omap in E as (h' & Hh & E). simpl in Ek. subst. case_bool_decide; [|done]. by simplify_eq.
  - destruct H as [?|H]; [done|]. specialize (IH H).
    case_bool_decide as D; cbn [pget]; [by rewrite decide_False by congruence|done].
Qed.

Ltac is_field := refine (bool_decide_eq_true_1 _ _); vm_compute; reflexivity.

(** The verdict on a record of the file. *)
Lemma liveness_of_record str_of reader path probe d host pid :
  pget "released_at" d = PNone → pget "host" d = PStr host → pget "pid" d = PInt pid → (0 < pid)%Z →
  (host = lock_holder_host_label str_of reader → probe pid = KillOk ∨ probe pid = NotPermitted) →
  observed (Some (record_text d)) probe (lock_holder_liveness str_of reader path) =
  Some (Ok (if String.eqb host (lock_holder_host_label str_of reader)
            then LOCK_HOLDER_LIVE else LOCK_HOLDER_FOREIGN_HOST, _filter_holder_record (PMap false d))).
Proof.
  intros Hr Hh Hp Hpos Hl. unfold lock_holder_liveness, _read_latest_holder_record.
  pose proof (filter_pget false d "released_at" ltac:(is_field)) as Fr.
  pose proof (filter_pget false d "host" ltac:(is_field)) as Fh.
  pose proof (filter_pget false d "pid" ltac:(is_field)) as Fp.
  unfold record_text. cbn -[_filter_holder_record lock_holder_host_label pget].
  destruct (_filter_holder_record (PMap false d)) as [|kv r]; [by rewrite Hp in Fp|].
  cbn -[lock_holder_host_label pget]. rewrite Fr, Fh, Fp, Hr, Hh, Hp.
  destruct (String.eqb_spec host (lock_holder_host_label str_of reader)) as [E|E]; cbn -[lock_holder_host_label pget]; [|done].
  rewrite (proj2 (Z.leb_gt pid 0)) by done. cbn.
  by destruct (Hl E) as [-> | ->].
Qed.

Lemma lane_agent_named str_of plan : is_empty (turn_lane_agent_id str_of plan) = false.
Proof.
  unfold turn_lane_agent_id. destruct (pget "turn_envelope" plan); try done. unfold or_else.
  by destruct (is_empty (py_strip _)) eqn:E.
Qed.

(** * The fence *)

Section Fence.
Context (sessions : nat → lock_session).
Notation fence_run := (fence_run sessions).
Notation fence_step := (fence_step sessions).

Record fence_inv (f : fence) : Prop := {
  fi_owner : ∀ t p, positions f !! t = Some p → holds_lock p = true → kernel_owner f = Some t;
  fi_held : ∀ t, kernel_owner f = Some t → ∃ p, positions f !! t = Some p ∧ holds_lock p = true;
  fi_open : ∀ t p, positions f !! t = Some p → p = AtLock ∨ holds_lock p = true → is_Some (lock_text f);
  fi_record : ∀ t, positions f !! t = Some InBody → s_preserve_holder (sessions t) = false →
    lock_text f = Some (record_text (s_record (sessions t)))
}.

Lemma fence_start_inv f : fence_start f → fence_inv f.
Proof.
  intros [O P]. constructor.
  - intros t p H. rewrite (P t p H). done.
  - congruence.
  - intros t p H. rewrite (P t p H). by intros [?|?].
  - intros t H. by pose proof (P t _ H).
Qed.

(** The holder may change the text; others find it open and leave it alone. *)
Lemma session_move_text t ok p text owner :
  let '(text', owner', p') := session_move sessions t ok p text owner in
  (holds_lock p = true ∨ text' = text ∨ (text = None ∧ text' = Some NotJson)) ∧
  (is_Some text → is_Some text') ∧
  (owner' = owner ∨ (owner = None ∧ owner' = Some t ∧ p = AtLock) ∨ (owner' = None ∧ holds_lock p = true)) ∧
  (holds_lock p' = true → owner' = Some t ∨ (owner' = owner ∧ holds_lock p = true)) ∧
  (p' = AtLock → is_Some text') ∧
  (holds_lock p' = true → p = AtLock ∨ holds_lock p = true) ∧
  (owner' = Some t → holds_lock p' = true ∨ (owner = Some t ∧ holds_lock p = false)) ∧
  (p' = InBody → s_preserve_holder (sessions t) = false →
     text' = Some (record_text (s_record (sessions t)))).
Proof.
  destruct p, ok, owner as [o|], text as [x|]; simpl; try destruct (s_preserve_holder (sessions t)) eqn:E; simpl;
    repeat split; try done; try (by eexists); auto; try (by intros []); try (intros; congruence).
Qed.

Lemma fence_step_inv e f : fence_inv f → fence_inv (fence_step e f).
Proof.
  intros [FO FH FP FR]. destruct e as [t ok|t]; simpl.
  - destruct (positions f !! t) as [p|] eqn:Ep; [|by constructor].
    pose proof (session_move_text t ok p (lock_text f) (kernel_owner f)) as M.
    destruct (session_move sessions t ok p (lock_text f) (kernel_owner f)) as [[text owner] p'].
    destruct M as (M1 & M2 & M3 & M4 & M5 & M7 & M8 & M6).
    assert (∀ u q, u ≠ t → positions f !! u = Some q → holds_lock q = true →
      owner = kernel_owner f ∧ holds_lock p = false ∧ text = lock_text f) as Other.
    { intros u q N Hu Hq. pose proof (FO u q Hu Hq) as Ou.
      assert (holds_lock p = false) as Hp.
      { destruct (holds_lock p) eqn:E; [|done]. rewrite (FO t p Ep E) in Ou. congruence. }
      destruct (FP u q Hu (or_intror Hq)) as [x Hx].
      split; [|split; [done|]].
      - destruct M3 as [?|[(? & _)|(_ & ?)]]; congruence.
      - destruct M1 as [?|[?|(? & _)]]; congruence. }
    constructor; simpl.
    + intros u q. destruct (decide (u = t)) as [->|N].
      * rewrite lookup_insert_eq. intros [= <-] Hq. destruct (M4 Hq) as [?|[-> Hp]]; [done|]. exact (FO t p Ep Hp).
      * rewrite lookup_insert_ne by done. intros Hu Hq. destruct (Other u q N Hu Hq) as (-> & _). exact (FO u q Hu Hq).
    + intros u Hu. destruct (decide (u = t)) as [->|N].
      * exists p'. rewrite lookup_insert_eq. split; [done|]. destruct (M8 Hu) as [?|[Ho Hp]]; [done|].
        destruct (FH t Ho) as (q & Hq & Hh). congruence.
      * rewrite lookup_insert_ne by done. apply FH.
        destruct M3 as [<-|[(_ & ? & _)|(? & _)]]; congruence.
    + intros u q. destruct (decide (u = t)) as [->|N].
      * rewrite lookup_insert_eq. intros [= <-] [Hq|Hq]; [by apply M5|].
        apply M2, (FP t p Ep), M7, Hq.
      * rewrite lookup_insert_ne by done. intros Hu Hq. apply M2. exact (FP u q Hu Hq).
    + intros u. destruct (decide (u = t)) as [->|N].
      * rewrite lookup_insert_eq. intros [= ->]. by apply M6.
      * rewrite lookup_insert_ne by done. intros Hu Hq.
        destruct (Other u InBody N Hu eq_refl) as (_ & _ & ->). exact (FR u Hu Hq).
  - constructor; simpl.
    + intros u q. rewrite lookup_delete_Some. intros [N Hu] Hq. rewrite (FO u q Hu Hq).
      rewrite bool_decide_false; [done|congruence].
    + intros u. case_bool_decide as E; [done|]. intros Hu. rewrite lookup_delete_ne by congruence. by apply FH.
    + intros u q. rewrite lookup_delete_Some. intros [N Hu]. exact (FP u q Hu).
    + intros u. rewrite lookup_delete_Some. intros [N Hu]. exact (FR u Hu).
Qed.

Lemma fence_run_inv es f : fence_start f → fence_inv (fence_run es f).
Proof.
  intros S. apply fence_start_inv in S. revert f S. induction es as [|e es IH]; intros f I; simpl; [done|].
  by apply IH, fence_step_inv.
Qed.

(** C10: one executing Turn per lane.  Whatever text the lock file has at first
    and however the processes interleave, fail and are killed: two processes in
    the body of the fence are the same process, and when no process is between
    its [flock] and its unlock (because it ended, failed or was killed) the
    next one that tries enters, whatever record was left behind. *)
Theorem lane_single_executor es f :
  fence_start f →
  let g := fence_run es f in
  (∀ t u, positions g !! t = Some InBody → positions g !! u = Some InBody → t = u) ∧
  (∀ t, positions g !! t = Some AtLock →
     (∀ u p, positions g !! u = Some p → holds_lock p = false) →
     ∃ p, positions (fence_step (Move t true) g) !! t = Some p ∧ holds_lock p = true).
Proof.
  intros S g. pose proof (fence_run_inv es f S) as I. fold g in I. split.
  - intros t u Ht Hu. pose proof (fi_owner _ I t _ Ht eq_refl). pose proof (fi_owner _ I u _ Hu eq_refl). congruence.
  - intros t Ht Free. assert (kernel_owner g = None) as O.
    { destruct (kernel_owner g) as [u|] eqn:E; [|done]. destruct (fi_held _ I u E) as (p & Hp & Hh).
      rewrite (Free u p Hp) in Hh. done. }
    simpl. rewrite Ht. simpl. rewrite O. simpl. rewrite lookup_insert_eq. eexists. split; [done|].
    by destruct (s_preserve_holder (sessions t)).
Qed.

End Fence.

(** * Refusals *)

Definition public_fields : list string := "pid" :: TURN_LANE_HOLDER_TEXT_FIELDS.

Lemma public_holder_keys record k v :
  (k, v) ∈ _public_holder record → ∃ f, k = Some f ∧ f ∈ public_fields.
Proof.
  unfold _public_holder. set (texts := omap _ _).
  assert (∀ kv, kv ∈ texts → ∃ f, kv.1 = Some f ∧ f ∈ public_fields) as T.
  { intros kv H. apply list_elem_of_omap in H as (f & Hf & H). exists f.
    destruct (pget f record); try done. destruct (is_empty s); [done|]. simplify_eq.
    split; [done|]. unfold public_fields. rewrite elem_of_cons. by right. }
  intros H. assert ((k, v) ∈ texts ∨ k = Some "pid") as [H'| ->].
  { destruct (pget "pid" record); try (by left); apply elem_of_app in H as [H|H]; auto;
      apply list_elem_of_singleton in H; simplify_eq; by right. }
  - exact (T _ H').
  - exists "pid". split; [done|]. unfold public_fields. rewrite elem_of_cons. by left.
Qed.

Lemma observed_bind {A B} text probe (p : prog A) (f : A → prog B) :
  observed text probe (p ≫= f) =
  match observed text probe p with
  | Some (Ok a) => observed text probe (f a)
  | Some (Err e) => Some (Err e)
  | None => None
  end.
Proof.
  unfold mbind, prog_bind. induction p as [[a|e]|R o k IH]; [done|done|]. simpl. by destruct o.
Qed.

Lemma observed_ok {A} text probe (a : A) : observed text probe (mret a) = Some (Ok a).
Proof. done. Qed.

(** Reading the verdict of a lock file ends, with a verdict or the error of a
    pid that is out of range. *)
Lemma liveness_total str_of reader path text probe :
  (∃ v, observed text probe (lock_holder_liveness str_of reader path) = Some (Ok v)) ∨
  observed text probe (lock_holder_liveness str_of reader path) =
  Some (Err (mk_exn "OverflowError" "signed integer is greater than maximum")).
Proof.
  unfold lock_holder_liveness. rewrite observed_bind. unfold _read_latest_holder_record.
  rewrite observed_bind. cbn [call observed].
  destruct (default Missing text) as [| | | |v]; try (left; eexists; reflexivity).
  rewrite observed_ok. destruct (_filter_holder_record v) as [|kv r]; [left; eexists; reflexivity|].
  rewrite observed_ok. cbn beta iota.
  destruct (match pget "released_at" (kv :: r) with PStr s => _ | _ => _ end); [left; eexists; reflexivity|].
  destruct (negb _); [left; eexists; reflexivity|].
  destruct (pget "pid" (kv :: r)); try (left; eexists; reflexivity). rewrite observed_bind. unfold process_is_alive.
  destruct (n <=? 0)%Z; [left; eexists; reflexivity|]. rewrite observed_bind. cbn [call observed]. rewrite observed_ok.
  destruct (probe n); [left; eexists; reflexivity|left; eexists; reflexivity|left; eexists; reflexivity|right; reflexivity].
Qed.

(** A refused Turn has no effects.  When another process holds the lane,
    whatever the lock file says, the Turn is not run: the answer is the typed
    refusal with every effect false (or the error of probing a pid that is out
    of range), which names at most the public fields of the holder: no lock id,
    policy or path. *)
Theorem lane_refusal str_of reader path plan text probe r :
  observed text probe (lane_answer_for str_of reader path plan false) = Some r →
  (∃ record, r = Ok (Refuse record TURN_LANE_NO_EFFECTS true false) ∧
     pget "status" record = PStr "unavailable" ∧ pget "reason" record = PStr TURN_LANE_IN_FLIGHT ∧
     (∀ holder k v, pget "in_flight" record = PMap false holder → (k, v) ∈ holder →
        ∃ f, k = Some f ∧ f ∈ public_fields)) ∨
  r = Err (mk_exn "OverflowError" "signed integer is greater than maximum").
Proof.
  intros H. unfold lane_answer_for, turn_lane_holder_readback in H. rewrite !observed_bind in H.
  pose proof (liveness_total str_of reader path text probe) as L.
  destruct (observed text probe (lock_holder_liveness str_of reader path)) as [[[s rec]|e]|]; [| |done].
  - left. cbn in H. simplify_eq. eexists. split; [done|]. split; [done|]. split; [done|].
    intros holder k v. destruct (_public_holder rec) as [|kv l] eqn:E; [done|].
    intros Hh Hk. assert (PMap false (kv :: l) = PMap false holder) as [= <-] by exact Hh.
    rewrite <- E in Hk. by eapply public_holder_keys.
  - right. cbn in H. simplify_eq. by destruct L as [(? & ?)|[= ->]].
Qed.

(** * Examples *)

Definition example_text (v : pyval) : string := "?".
Definition example_plan : items :=
  [(Some "turn_envelope", PMap false [(Some "agent_id", PStr " agent-1 ")])].

(** Three processes of one lane on one machine. *)
Definition example_sessions (t : nat) : lock_session :=
  lane_session example_text example_plan (100 + Z.of_nat t) "host a" PNone "id" "t1" "t2".

Definition example_fence : fence :=
  Fence None None (<[0%nat := AtOpen]> (<[1%nat := AtOpen]> {[2%nat := AtOpen]})).

(** The process 0 is killed in its body; the process 1 enters; the process 2 is
    refused. *)
Definition example_events : list fence_event :=
  (replicate 4 (Move 0 true) ++ [Killed 0] ++ replicate 4 (Move 1 true) ++ replicate 2 (Move 2 true))%list.

Lemma example_start : fence_start example_fence.
Proof. split; [done|]. repeat (apply map_Forall_insert_2; [done|]). apply map_Forall_empty. Qed.

Lemma example_positions :
  positions (fence_run example_sessions example_events example_fence) !! 1%nat = Some InBody ∧
  positions (fence_run example_sessions example_events example_fence) !! 2%nat = Some WasRefused.
Proof. split; vm_compute; reflexivity. Qed.

Lemma lane_single_executor_witness :
  fence_start example_fence ∧
  ∀ t, positions (fence_run example_sessions example_events example_fence) !! t = Some InBody → t = 1%nat.
Proof.
  split; [exact example_start|]. intros t Ht.
  apply (proj1 (lane_single_executor example_sessions example_events example_fence example_start) t 1%nat Ht).
  exact (proj1 example_positions).
Defined.


Lemma lane_refusal_witness :
  ∃ record, observed (lock_text (fence_run example_sessions example_events example_fence)) (λ _, KillOk)
    (lane_answer_for example_text "host a" "lane" example_plan false) =
    Some (Ok (Refuse record TURN_LANE_NO_EFFECTS true false)) ∧
  pget "reason" record = PStr TURN_LANE_IN_FLIGHT.
Proof.
  destruct (observed (lock_text (fence_run example_sessions example_events example_fence)) (λ _, KillOk)
    (lane_answer_for example_text "host a" "lane" example_plan false)) as [r|] eqn:E.
  - destruct (lane_refusal example_text "host a" "lane" example_plan _ _ r E) as [(record & -> & _ & H & _)| ->].
    + by exists record.
    + exfalso. vm_compute in E. discriminate E.
  - exfalso. vm_compute in E. discriminate E.
Defined.
